(* ===== verification/_CoqProject ===== *)
-Q . S2P
Prelude.v
GoStd.v
Float64.v
Json.v
Gate.v
Supplychain.v
Policy.v
Cache.v
CacheMigrate.v
CircuitBreaker.v
Upstream.v
HTTP.v
RateLimiter.v
Handler.v
HandlerProps.v
HandlerSpec.v
ClientIP.v
Metadata.v
MetadataSpec.v
Users.v
Login.v
Base64.v
Token.v
Session.v
SessionSpec.v
Limiter.v
Telemetry.v
TelemetrySpec.v
Broadcaster.v
Console.v
ConsoleUsers.v
Registries.v
Settings.v
ConsoleEvents.v
ConsolePolicy.v
DockerPath.v
Docker.v
DockerCache.v
DockerProps.v
DockerSpec.v
Adapters.v
URL.v
NPM.v
PyPI.v
Health.v
AV.v
CVE.v
Config.v
ConfigSpec.v
Wiring.v
ConsoleLive.v
