(* ===== verification/Prelude.v ===== *)
(** * Jo-ei: a verification library for the supply-chain proxy

    Jo-ei is an HTTP proxy that stands between package managers and their
    registries.  An artifact reaches a client only through a chain of gates - a
    minimum age, a vulnerability policy, malware engines - or from a cache of
    what already went through them.  This library is a shallow embedding of the
    Go sources under src/: each operation is a Rocq function over the state it
    reads and writes, and the theorems are about those functions.

    ** How effects are modelled

    Code that reads and writes a structure is a function of type [St S A],
    from the state before to the answer and the state after, composed with
    [x <- m ;; k].  The request handlers (Handler, Metadata, Session, Docker)
    keep in their state the trace of everything they did: calls to
    collaborators with their answers, responses written, outcomes recorded.
    What a collaborator answers is drawn from an environment, a record of
    functions of the whole trace, so an answer may depend on anything that
    happened before and theorems quantify over all of them; so do the registry
    adapters and the scan engines (Adapters, NPM, PyPI, AV, CVE).  Stores over
    SQLite and the file system (Cache, CacheMigrate, Users, Telemetry, Settings)
    carry a schedule of failing calls: each statement or system call consumes one element, and
    every theorem holds for every schedule.  Where goroutines interleave
    (Limiter, Broadcaster) the operations are the steps of a relation or of an
    arbitrary sequence.

    ** The parts

    Shared: [Prelude] (results, state passing, generic lemmas, tactics),
    [GoStd] (int64 and its wrap-around, time, strings with UTF-8 runes,
    strconv), [Float64], [Json] (JSON texts as encoding/json reads and writes
    them), [URL] (net/url's escaping and reference resolution, path.Clean),
    [Base64], [HTTP] (headers, requests, responses).

    - internal/gate -> [Gate]: references and their cache key, severities, scan
      results, policy decisions, events; [ArtifactCache] is the interface the
      handler uses, with its laws, which [Cache] discharges.
    - internal/supplychain -> [Supplychain]: the age filter and its allowlist.
    - internal/policy -> [Policy]: the engine, the validated runtime policy
      under its mutex, the stored form and the migration of older ones.
    - internal/cache -> [Cache]: the index as a finite map coupled with the
      files on disk; [Cache_Get], [Cache_Put], eviction and purge;
      [CacheMigrate]: the tables of earlier releases brought up to date.
    - internal/httpx -> [CircuitBreaker], [Limiter], [RateLimiter], [ClientIP].
    - internal/upstream -> [Upstream]: the errors of a fetch over several
      mirrors, with errors.Is and errors.As.
    - internal/proxy -> [Handler] (handler.go), [Metadata] (metadata.go,
      index.go, mux.go); [HandlerProps] has one lemma per stage, [HandlerSpec]
      and [MetadataSpec] the theorems on whole requests.
    - internal/proxy/dockerproxy -> [DockerPath] (paths, keys, the tag and
      attestation memories), [Docker] (adapter.go, gate.go, handler.go),
      [DockerCache] (what it needs of the cache, and the local cache keeping
      it), [DockerProps] (a lemma per operation and the specification
      [evaluated] of the gate), [DockerSpec] (the theorems).
    - internal/proxy/adapters -> [Adapters] (options.go, maven.go, rubygems.go,
      go.go), [NPM] (npm.go), [PyPI] (pypi.go, pypi_index.go).
    - internal/scanner -> [AV] (clamav.go, icap.go, multi.go, limited.go,
      probe.go), [CVE] (osv.go and dockerproxy's trivy.go), [Config] (factory.go).
    - internal/health -> [Health].
    - internal/users, internal/auth -> [Users], [Login], [Token], [Session],
      [SessionSpec]: accounts, the login limiter, tokens, sessions.
    - internal/telemetry -> [Telemetry], [TelemetrySpec], [Broadcaster].
    - internal/console -> [Console], [ConsoleUsers], [Registries],
      [ConsoleEvents], [ConsolePolicy], [ConsoleLive] (overview, cache clean-up,
      event stream).
    - internal/settings, cmd/jo-ei's adapters to it -> [Settings].
    - internal/config -> [Config] (the struct, Validate, the environment
      schema, Load), [ConfigSpec] (the theorems).
    - cmd/jo-ei -> [Wiring]: the engines, handlers, limits and routes a
      configuration gives, and the readiness probe.

    They meet as the code has them meet: the handlers call the cache through
    [ArtifactCache] (and Docker through [ImageCache]), the supply-chain filter
    and the policy through the environment, which
    [HandlerSpec.policy_enforced_on_download] instantiates with the real ones;
    the console calls the account table through [UserStore], the policy through
    [SettingsStore], and both end in [Settings].  [Wiring] builds the parts from
    a [Config] as the command does, and [ConfigSpec] shows that the parts built
    from a configuration that [Validate] accepts start.

    ** What the theorems show

    - Gating: whatever is served was gated ([HandlerSpec], [DockerSpec]): from
      an empty cache, for every sequence of requests and every behaviour of
      the collaborators, the bytes of a response passed the gates configured,
      earlier in the trace (but for a failed write of the Docker store, which
      [DockerSpec] spells out); each request is answered once, an artifact's
      with one outcome of the same status.
    - Rewriting: of a packument or an index page the client gets only what the
      policy lets through, and only links that lead back to the gates ([NPM],
      [PyPI]), rewritten from documents read whole ([MetadataSpec]).
    - Engines: a verdict of ClamAV or an ICAP server is about the whole file
      and exactly its reply's, the verdict of several engines does not depend on their order, and
      osv.dev answers from its cache are recent ([AV], [CVE]).
    - Start: Validate accepts exactly the configurations whose invariants hold,
      every key has its own environment variable, and what is started is what
      is configured ([ConfigSpec], [Wiring]).
    - Decisions: the filter, the policy engine and the image gate decide
      exactly as specified; re-checks evict only on a verdict.
    - State: the cache gives back the bytes put; policy updates are atomic and
      survive a restart; an index of an earlier release is migrated or left as it
      was, whichever statement fails; there is always an enabled admin; the telemetry
      counters are the tallies of the events stored.
    - Access: a handler behind the session middleware runs only for an enabled
      account with a current token, revoked sessions stay revoked, guessing is
      bounded, the registries screen does not show the upstreams' credentials.
    - Liveness: a client that follows the cursors of the event log comes to its
      end and has seen each event once; limited requests come to an end.

    ** Bounds and fuel

    [Cache.purge_loop] and [Cache.evict_loop] take as fuel one more than the
    rows there are, and each round that goes on removes a row or ends; the
    client that pages through events ([ConsoleEvents]) takes one more than the
    events.  Functions on runes take the length of the string, since every rune
    is at least one byte.  The JSON parser nests
    as deep as encoding/json allows, 10000, and within a level its fuel is the
    length of what is left; [Json] proves that what is printed parses back.
    Integers are [Z], wrapped to 64 bits where the code
    computes with int64 or time.Duration and can overflow; a length or a count
    is not wrapped.

    ** What is assumed

    Parameters, each an argument of the definitions that use it, stand for
    code outside the repository: encoding/json's decoding into a Go struct where
    [Json] is not used, the parts of net/url that [URL] leaves open, net/netip,
    compress/gzip, HMAC and SHA-256, bcrypt, random numbers, http.ParseTime,
    strconv.Quote, viper, the HTML tokenizer of golang.org/x/net, the order Go
    ranges over a map, and everything a scanner or an upstream answers.  Their
    laws are hypotheses named where they are used and satisfied by the concrete
    instances of the witnesses.

    ** What is not modelled

    Log lines and Prometheus metrics, with the wrappers that count a call and
    pass it on; opening and closing of databases (internal/storage) and the
    schemas of tables other than the cache index; listeners, signals, flags and
    the backup and recovery commands; TLS set-up, deadlines on connections and
    copy buffers; the S3 cache settings, which nothing reads; the embedded
    console assets.  These are input and output of the process, with no decision
    about an artifact.  Timers and goroutines appear as steps, not as durations.
    Requests run one at a time in [Handler], [Metadata] and [Docker].  A flight
    of golang.org/x/sync/singleflight that a request joins is, in [Docker], the
    call of its leader, run in place with the leader's arguments, which the
    environment names; a joined re-check or document is an answer of the
    environment, which [MetadataSpec] constrains to what a leader's fetch
    returns.  That a scan outlasts its client is the environment's answer
    too. *)
From stdpp Require Export base tactics option list gmap strings fin_maps sorting.
From Stdlib Require Export ZArith Lia.

#[global] Set Default Goal Selector "!".

(** ** Notation *)

Declare Scope joei_scope.
Delimit Scope joei_scope with joei.

(** Boolean equality of strings and of integers, as Go's [==] on them. *)
Notation "a =s? b" := (String.eqb a b) (at level 70, no associativity) : joei_scope.
Open Scope joei_scope.

(** ** Results: a Go pair (value, error) *)

(** A Go function returning [(T, error)]: exactly one side is meaningful. *)
Inductive result (E A : Type) : Type :=
| Ok (a : A)
| Err (e : E).
Arguments Ok {E A} a.
Arguments Err {E A} e.

Definition is_ok {E A} (r : result E A) : bool :=
  match r with Ok _ => true | Err _ => false end.

(** ** State passing *)

(** Code that reads and writes a mutable structure: a function from the state
    before to the answer and the state after. *)
Definition St (S A : Type) : Type := S -> A * S.

Definition ret_st {S A} (a : A) : St S A := fun s => (a, s).
Definition bind_st {S A B} (m : St S A) (f : A -> St S B) : St S B :=
  fun s => let (a, s') := m s in f a s'.

Notation "x <- m ;; k" := (bind_st m (fun x => k))
  (at level 100, m at next level, right associativity) : joei_scope.

Definition get_st {S} : St S S := fun s => (s, s).
Definition put_st {S} (s : S) : St S unit := fun _ => (tt, s).
Definition modify_st {S} (f : S -> S) : St S unit := fun s => (tt, f s).

Lemma bind_st_run {S A B} (m : St S A) (f : A -> St S B) s :
  bind_st m f s = f (m s).1 (m s).2.
Proof. unfold bind_st. by destruct (m s). Qed.

(** ** Automation *)

Create HintDb joei.

(** Split every match and if of the goal and the hypotheses, closing the
    contradictory cases. *)
Ltac break := repeat (case_match || (progress simplify_eq/=)).

(** Turn boolean tests of the code into propositions. *)
Ltac bool_to_prop :=
  repeat match goal with
  | H : _ && _ = true |- _ => apply andb_true_iff in H; destruct H
  | H : _ || _ = false |- _ => apply orb_false_iff in H; destruct H
  | H : negb _ = true |- _ => apply negb_true_iff in H
  | H : negb _ = false |- _ => apply negb_false_iff in H
  | H : (_ =s? _) = true |- _ => apply String.eqb_eq in H
  | H : (_ =s? _) = false |- _ => apply String.eqb_neq in H
  | H : Z.eqb _ _ = true |- _ => apply Z.eqb_eq in H
  | H : Z.eqb _ _ = false |- _ => apply Z.eqb_neq in H
  | H : Z.ltb _ _ = true |- _ => apply Z.ltb_lt in H
  | H : Z.ltb _ _ = false |- _ => apply Z.ltb_ge in H
  | H : Z.leb _ _ = true |- _ => apply Z.leb_le in H
  | H : Z.leb _ _ = false |- _ => apply Z.leb_gt in H
  | H : bool_decide _ = true |- _ => apply bool_decide_eq_true in H
  | H : bool_decide _ = false |- _ => apply bool_decide_eq_false in H
  end.

(** ** Lists *)

Section Lists.
Context {A : Type}.
Implicit Types (l : list A) (p : A -> bool).

(** The first element satisfying a boolean test, as a Go [for ... return]. *)
Fixpoint first_such p l : option A :=
  match l with
  | [] => None
  | x :: l' => if p x then Some x else first_such p l'
  end.

Lemma first_such_Some p l x :
  first_such p l = Some x ↔
  ∃ l1 l2, l = l1 ++ x :: l2 ∧ p x = true ∧ Forall (λ y, p y = false) l1.
Proof.
  split.
  - induction l as [|y l IH]; simpl; [done|]. intros H.
    destruct (p y) eqn:Hp; simplify_eq/=.
    + by exists [], l.
    + destruct (IH H) as (l1 & l2 & -> & ? & ?). exists (y :: l1), l2. auto.
  - intros (l1 & l2 & -> & Hx & Hl1). induction Hl1 as [|y l1 Hy _ IH]; simpl.
    + by rewrite Hx.
    + by rewrite Hy.
Qed.

Lemma first_such_None p l : first_such p l = None ↔ Forall (λ x, p x = false) l.
Proof.
  induction l as [|x l IH]; simpl; [done|]. rewrite Forall_cons, <- IH.
  destruct (p x); naive_solver.
Qed.

Lemma first_such_elem p l x : first_such p l = Some x → x ∈ l ∧ p x = true.
Proof.
  intros (l1 & l2 & -> & ? & _)%first_such_Some. set_solver.
Qed.

Lemma forallb_elem p l : forallb p l = true ↔ ∀ x, x ∈ l → p x = true.
Proof.
  rewrite forallb_forall. by setoid_rewrite list_elem_of_In.
Qed.

Lemma existsb_elem p l : existsb p l = true ↔ ∃ x, x ∈ l ∧ p x = true.
Proof.
  rewrite existsb_exists. by setoid_rewrite list_elem_of_In.
Qed.

Lemma filter_none p l : (∀ x, x ∈ l → p x = false) → filter p l = [].
Proof.
  induction l as [|x l IH]; intros H; [done|]. rewrite filter_cons_False; [apply IH; set_solver|].
  rewrite (H x) by set_solver. intros [].
Qed.

Lemma filter_all p l : (∀ x, x ∈ l → p x = true) → filter p l = l.
Proof.
  induction l as [|x l IH]; intros H; [done|]. rewrite filter_cons_True; [f_equal; apply IH; set_solver|].
  by rewrite (H x) by set_solver.
Qed.
End Lists.

(** Induction on the length of a list. *)
Lemma list_len_ind {A} (P : list A → Prop) :
  (∀ l, (∀ l', length l' < length l → P l')%nat → P l) → ∀ l, P l.
Proof.
  intros H l. remember (length l) as n eqn:Hn. revert l Hn. induction n as [n IH] using lt_wf_ind.
  intros l ->. apply H. intros l' Hl. by apply (IH (length l')).
Qed.

Lemma NoDup_take {A} (n : nat) (l : list A) : NoDup l → NoDup (take n l).
Proof. intros H. rewrite <- (take_drop n l) in H. by apply NoDup_app in H as [? _]. Qed.

Lemma elem_of_take_list {A} (n : nat) (l : list A) x : x ∈ take n l → x ∈ l.
Proof. intros H. rewrite <- (take_drop n l). apply elem_of_app. by left. Qed.

#[export] Hint Resolve first_such_elem NoDup_take elem_of_take_list : joei.
