(* ===== verification/GoStd.v ===== *)
(** * The parts of the Go language and standard library the proxy relies on

    Machine integers ([int64], with wrap-around), [time.Duration] and
    [time.Time], the [strings] functions the sources call, and
    [strconv.ParseInt]/[FormatInt] in base 10.  Go strings are byte sequences:
    they are Rocq [string]s, one [ascii] per byte, UTF-8 where a function
    decodes runes. *)
From S2P Require Import Prelude.
From Stdlib Require Export Ascii.
From Stdlib Require Import DecimalString DecimalZ.
Local Open Scope Z_scope.

(** ** int64 *)

Definition min_int64 : Z := -(2 ^ 63).
Definition max_int64 : Z := 2 ^ 63 - 1.

(** Two's-complement wrap-around of an int64 operation. *)
Definition wrap64 (z : Z) : Z := (z + 2 ^ 63) `mod` 2 ^ 64 - 2 ^ 63.

Definition in_int64 (z : Z) : Prop := min_int64 ≤ z ≤ max_int64.

#[export] Instance in_int64_dec z : Decision (in_int64 z).
Proof. unfold in_int64. apply _. Defined.

Lemma wrap64_range z : in_int64 (wrap64 z).
Proof.
  unfold in_int64, wrap64, min_int64, max_int64.
  pose proof (Z.mod_pos_bound (z + 2 ^ 63) (2 ^ 64)). lia.
Qed.

Lemma wrap64_id z : in_int64 z → wrap64 z = z.
Proof.
  unfold in_int64, wrap64, min_int64, max_int64. intros ?.
  rewrite Z.mod_small by lia. lia.
Qed.

#[export] Hint Resolve wrap64_range : joei.
#[export] Hint Rewrite wrap64_id using (assumption || (unfold in_int64, min_int64, max_int64; lia)) : joei.

(** [uint64] counters. *)
Definition wrapu64 (z : Z) : Z := z `mod` 2 ^ 64.

Lemma wrapu64_add_l a b : wrapu64 (wrapu64 a + b) = wrapu64 (a + b).
Proof. unfold wrapu64. by rewrite Zplus_mod_idemp_l. Qed.

Lemma wrapu64_add_r a b : wrapu64 (a + wrapu64 b) = wrapu64 (a + b).
Proof. unfold wrapu64. by rewrite Zplus_mod_idemp_r. Qed.

Lemma wrapu64_small z : 0 ≤ z < 2 ^ 64 → wrapu64 z = z.
Proof. apply Z.mod_small. Qed.

#[export] Hint Rewrite wrapu64_add_l wrapu64_add_r : joei.

(** ** Durations: int64 nanoseconds *)

Definition Nanosecond : Z := 1.
Definition Millisecond : Z := 1000000.
Definition Second : Z := 1000000000.
Definition Minute : Z := 60 * Second.
Definition Hour : Z := 60 * Minute.

(** Multiplication and left shift of int64 values wrap. *)
Definition dur_mul (a b : Z) : Z := wrap64 (a * b).
Definition dur_add (a b : Z) : Z := wrap64 (a + b).
Definition dur_shl (a s : Z) : Z := wrap64 (Z.shiftl a s).

(** ** Instants

    A [time.Time] is the number of nanoseconds since Go's zero time (January 1,
    year 1, UTC), so the zero value is [0].  The monotonic reading is not
    modelled: it agrees with the wall clock except across clock steps. *)

Definition time_add (t d : Z) : Z := t + d.

(** [t.Sub(u)] saturates at the bounds of a Duration. *)
Definition time_sub (t u : Z) : Z := Z.max min_int64 (Z.min max_int64 (t - u)).

Definition time_before (t u : Z) : bool := t <? u.
Definition time_after (t u : Z) : bool := u <? t.
Definition time_is_zero (t : Z) : bool := t =? 0.

(** Seconds from Go's zero time to the Unix epoch. *)
Definition unix_to_internal : Z := 62135596800.

Definition time_unix (t : Z) : Z := t / Second - unix_to_internal.
Definition time_unix_nano (t : Z) : Z := wrap64 (t - unix_to_internal * Second).
(** [time.Unix(sec, nsec)] *)
Definition of_unix (sec nsec : Z) : Z := (sec + unix_to_internal) * Second + nsec.

Lemma time_unix_of_unix s : time_unix (of_unix s 0) = s.
Proof. unfold time_unix, of_unix. rewrite Z.add_0_r, Z.div_mul; unfold Second; lia. Qed.

Lemma of_unix_time_unix_le t : of_unix (time_unix t) 0 ≤ t.
Proof.
  unfold time_unix, of_unix, Second.
  pose proof (Z.mul_div_le t 1000000000). lia.
Qed.

Lemma of_unix_time_unix_gt t : t < of_unix (time_unix t) 0 + Second.
Proof.
  unfold time_unix, of_unix, Second.
  pose proof (Z.mod_pos_bound t 1000000000). pose proof (Z.div_mod t 1000000000). lia.
Qed.

(** ** strings: bytes *)

Notation bytes := (list ascii).

Definition to_bytes (s : string) : bytes := String.list_ascii_of_string s.
Definition of_bytes (b : bytes) : string := String.string_of_list_ascii b.

Lemma to_of_bytes b : to_bytes (of_bytes b) = b.
Proof. apply String.list_ascii_of_string_of_list_ascii. Qed.

Lemma of_to_bytes s : of_bytes (to_bytes s) = s.
Proof. apply String.string_of_list_ascii_of_string. Qed.

#[export] Hint Rewrite to_of_bytes of_to_bytes : joei.

Lemma to_bytes_inj s t : to_bytes s = to_bytes t → s = t.
Proof. intros H. by rewrite <- (of_to_bytes s), H, of_to_bytes. Qed.

Lemma to_bytes_app s t : to_bytes (s +:+ t) = to_bytes s ++ to_bytes t.
Proof.
  induction s as [|c s IH]; [done|].
  change (c :: to_bytes (s +:+ t) = c :: (to_bytes s ++ to_bytes t)). by rewrite IH.
Qed.

Definition str_len (s : string) : Z := Z.of_nat (String.length s).

(** Bytewise order, as a binary collation compares. *)
Fixpoint bytes_le (a b : bytes) : bool :=
  match a, b with
  | [], _ => true
  | _ :: _, [] => false
  | x :: a', y :: b' =>
      let m := Ascii.nat_of_ascii x in
      let n := Ascii.nat_of_ascii y in
      (m <? n)%nat || ((m =? n)%nat && bytes_le a' b')
  end.

(** [strip_prefix p l] is the rest of [l] after the prefix [p]. *)
Fixpoint strip_prefix (p l : bytes) : option bytes :=
  match p, l with
  | [], _ => Some l
  | c :: p', d :: l' => if Ascii.eqb c d then strip_prefix p' l' else None
  | _ :: _, [] => None
  end.

Lemma strip_prefix_Some p l r : strip_prefix p l = Some r ↔ l = p ++ r.
Proof.
  revert l. induction p as [|c p IH]; intros l; simpl; [naive_solver|].
  destruct l as [|d l]; [naive_solver|].
  destruct (Ascii.eqb_spec c d) as [->|Hne]; [rewrite IH|]; naive_solver.
Qed.

Definition HasPrefix (s p : string) : bool :=
  match strip_prefix (to_bytes p) (to_bytes s) with Some _ => true | None => false end.
Definition HasSuffix (s p : string) : bool :=
  match strip_prefix (rev (to_bytes p)) (rev (to_bytes s)) with Some _ => true | None => false end.

(** [strings.Cut] for a one-byte separator: the bytes before and after its
    first occurrence. *)
Fixpoint cut_bytes (sep : ascii) (l : bytes) : option (bytes * bytes) :=
  match l with
  | [] => None
  | c :: l' =>
      if Ascii.eqb c sep then Some ([], l')
      else (prod_map (cons c) id) <$> cut_bytes sep l'
  end.

Lemma cut_bytes_Some sep l a b :
  cut_bytes sep l = Some (a, b) ↔ l = a ++ sep :: b ∧ sep ∉ a.
Proof.
  revert a b. induction l as [|c l IH]; intros a b; simpl.
  { split; [done|]. by intros [?%app_cons_not_nil _]. }
  destruct (Ascii.eqb_spec c sep) as [->|Hne].
  - split; [naive_solver set_solver|].
    intros [Heq Hnin]. destruct a as [|d a]; simplify_eq/=; set_solver.
  - rewrite fmap_Some. split.
    + intros ([a' b'] & (-> & ?)%IH & ?); simplify_eq/=. set_solver.
    + intros [Heq Hnin]. destruct a as [|d a]; simplify_eq/=.
      exists (a, b). split; [|done]. apply IH. set_solver.
Qed.

Lemma cut_bytes_None sep l : cut_bytes sep l = None ↔ sep ∉ l.
Proof.
  induction l as [|c l IH]; simpl; [set_solver|].
  destruct (Ascii.eqb_spec c sep) as [->|Hne]; [set_solver|].
  rewrite fmap_None, IH. set_solver.
Qed.

(** [before, after, found := strings.Cut(s, sep)]: the whole string and the
    empty string when the separator is absent. *)
Definition Cut (s : string) (sep : ascii) : string * string * bool :=
  match cut_bytes sep (to_bytes s) with
  | Some (a, b) => (of_bytes a, of_bytes b, true)
  | None => (s, EmptyString, false)
  end.

(** [strings.Split] on a one-byte separator. *)
Fixpoint split_bytes (sep : ascii) (l : bytes) : list bytes :=
  match l with
  | [] => [[]]
  | c :: l' =>
      if Ascii.eqb c sep then [] :: split_bytes sep l'
      else match split_bytes sep l' with
           | [] => [[c]]
           | w :: ws => (c :: w) :: ws
           end
  end.

Definition Split (s : string) (sep : ascii) : list string :=
  of_bytes <$> split_bytes sep (to_bytes s).

Lemma split_bytes_nonempty sep l : split_bytes sep l ≠ [].
Proof. destruct l as [|c l]; simpl; [done|]. repeat case_match; done. Qed.

Lemma split_bytes_no_sep sep l : sep ∉ l → split_bytes sep l = [l].
Proof.
  induction l as [|c l IH]; simpl; intros Hs; [done|].
  destruct (Ascii.eqb_spec c sep) as [->|_]; [set_solver|].
  rewrite IH by set_solver. done.
Qed.

Lemma split_bytes_app sep l r :
  sep ∉ l → split_bytes sep (l ++ sep :: r) = l :: split_bytes sep r.
Proof.
  induction l as [|c l IH]; simpl; intros Hs; [by rewrite Ascii.eqb_refl|].
  destruct (Ascii.eqb_spec c sep) as [->|_]; [set_solver|].
  rewrite IH by set_solver. done.
Qed.

(** [strings.LastIndexByte]: what is after the last occurrence, everything
    when there is none. *)
Definition after_last (sep : ascii) (s : string) : string :=
  match cut_bytes sep (rev (to_bytes s)) with
  | Some (a, _) => of_bytes (rev a)
  | None => s
  end.

(** [strings.TrimLeft], [TrimRight] and [Trim] with a cutset of ASCII bytes. *)
Fixpoint drop_set (cutset : bytes) (l : bytes) : bytes :=
  match l with
  | c :: l' => if existsb (Ascii.eqb c) cutset then drop_set cutset l' else l
  | [] => []
  end.

Definition TrimRight (s : string) (cutset : bytes) : string :=
  of_bytes (rev (drop_set cutset (rev (to_bytes s)))).

Definition Trim (s : string) (cutset : bytes) : string :=
  TrimRight (of_bytes (drop_set cutset (to_bytes s))) cutset.

Lemma drop_set_suffix cutset l : ∃ p, l = p ++ drop_set cutset l.
Proof.
  induction l as [|c l [p IH]]; simpl; [by exists []|].
  destruct (existsb _ _); [exists (c :: p); simpl; by f_equal|by exists []].
Qed.

Lemma drop_set_head cutset l c l' : drop_set cutset l = c :: l' → c ∉ cutset.
Proof.
  induction l as [|d l IH]; simpl; [done|]. destruct (existsb (Ascii.eqb d) cutset) eqn:He; [done|].
  intros [= <- <-] Hin. assert (existsb (Ascii.eqb d) cutset = true); [|congruence].
  apply existsb_exists. exists d. rewrite list_elem_of_In in Hin. split; [done|apply Ascii.eqb_refl].
Qed.

(** What TrimRight leaves is a prefix that does not end in the cutset. *)
Lemma TrimRight_spec s cutset :
  (∃ q, to_bytes s = to_bytes (TrimRight s cutset) ++ q) ∧
  ∀ c, last (to_bytes (TrimRight s cutset)) = Some c → c ∉ cutset.
Proof.
  unfold TrimRight. rewrite to_of_bytes. split.
  - destruct (drop_set_suffix cutset (rev (to_bytes s))) as [p Hp]. exists (rev p).
    rewrite <- rev_app_distr, <- Hp. by rewrite rev_involutive.
  - intros c Hc. destruct (drop_set cutset (rev (to_bytes s))) as [|d l] eqn:Hd; [done|].
    simpl in Hc. rewrite last_snoc in Hc. simplify_eq. by eapply drop_set_head.
Qed.

Lemma split_bytes_concat sep l r :
  split_bytes sep (l ++ sep :: r) = split_bytes sep l ++ split_bytes sep r.
Proof.
  induction l as [|c l IH]; simpl; [by rewrite Ascii.eqb_refl|].
  destruct (Ascii.eqb c sep); [by rewrite IH|].
  rewrite IH. destruct (split_bytes sep l) as [|w ws] eqn:Hs; [by apply split_bytes_nonempty in Hs|done].
Qed.

(** [strings.ContainsAny] for a set of ASCII bytes. *)
Definition ContainsAny (s : string) (chars : bytes) : bool :=
  existsb (fun c => existsb (Ascii.eqb c) chars) (to_bytes s).

Definition contains_byte (s : string) (c : ascii) : bool := ContainsAny s [c].

(** ** strings.TrimSpace

    The byte sequences of the runes [unicode.IsSpace] accepts. *)

Definition byte_of (n : nat) : ascii := Ascii.ascii_of_nat n.

Definition space_runes : list bytes :=
  ((fun n => [byte_of n]) <$> [9; 10; 11; 12; 13; 32]%nat) ++
  ((fun n => byte_of 194 :: [byte_of n]) <$> [133; 160]%nat) ++
  [[byte_of 225; byte_of 154; byte_of 128]] ++
  ((fun n => [byte_of 226; byte_of 128; byte_of n]) <$>
     [128; 129; 130; 131; 132; 133; 134; 135; 136; 137; 138; 168; 169; 175]%nat) ++
  [[byte_of 226; byte_of 129; byte_of 159]; [byte_of 227; byte_of 128; byte_of 128]].

Fixpoint strip_one (runes : list bytes) (l : bytes) : option bytes :=
  match runes with
  | [] => None
  | r :: rs => match strip_prefix r l with Some l' => Some l' | None => strip_one rs l end
  end.

(** Drop leading runes of [runes]; each one shortens the list, so its length
    is fuel enough. *)
Fixpoint trim_left_fuel (fuel : nat) (runes : list bytes) (l : bytes) : bytes :=
  match fuel with
  | O => l
  | S fuel' =>
      match strip_one runes l with
      | Some l' => trim_left_fuel fuel' runes l'
      | None => l
      end
  end.

Definition trim_left (runes : list bytes) (l : bytes) : bytes :=
  trim_left_fuel (length l) runes l.

Definition trim_right (runes : list bytes) (l : bytes) : bytes :=
  rev (trim_left ((@rev ascii) <$> runes) (rev l)).

Definition TrimSpace (s : string) : string :=
  of_bytes (trim_right space_runes (trim_left space_runes (to_bytes s))).

Example TrimSpace_ex : TrimSpace " a b	" = "a b".
Proof. reflexivity. Qed.

Lemma strip_one_Some runes l l' :
  strip_one runes l = Some l' → ∃ r, r ∈ runes ∧ l = r ++ l'.
Proof.
  induction runes as [|r rs IH]; simpl; [done|].
  destruct (strip_prefix r l) eqn:Hp; intros H; simplify_eq.
  - apply strip_prefix_Some in Hp. exists r. set_solver.
  - destruct (IH H) as (r' & ? & ?). exists r'. set_solver.
Qed.

Lemma strip_one_None runes l :
  strip_one runes l = None ↔ ∀ r, r ∈ runes → ¬ r `prefix_of` l.
Proof.
  induction runes as [|r rs IH]; simpl; [set_solver|].
  destruct (strip_prefix r l) eqn:Hp.
  - apply strip_prefix_Some in Hp as ->. split; [done|].
    intros H. exfalso. apply (H r); [set_solver|]. by eexists.
  - rewrite IH. split; intros H r' Hr'; [|apply H; set_solver].
    apply elem_of_cons in Hr' as [->|Hr']; [|auto].
    intros [k Hk]. apply strip_prefix_Some in Hk. congruence.
Qed.

(** The fuel of [trim_left] is enough: nothing strippable is left. *)
Lemma trim_left_done runes l :
  [] ∉ runes → strip_one runes (trim_left runes l) = None.
Proof.
  intros Hne. unfold trim_left.
  assert (∀ n l, (length l ≤ n)%nat → strip_one runes (trim_left_fuel n runes l) = None) as H;
    [|by apply H].
  clear l. induction n as [|n IH]; intros l Hl; simpl.
  - destruct l; [|simpl in Hl; lia]. apply strip_one_None. intros r Hr [k Hk].
    symmetry in Hk. apply app_nil in Hk as [-> _]. done.
  - destruct (strip_one runes l) as [l'|] eqn:Hs; [|done]. apply IH.
    apply strip_one_Some in Hs as (r & Hr & ->).
    destruct r; [done|]. rewrite length_app in Hl. simpl in Hl. lia.
Qed.

Lemma trim_left_id runes l : strip_one runes l = None → trim_left runes l = l.
Proof. unfold trim_left. destruct (length l); simpl; [done|]. by intros ->. Qed.

Lemma trim_left_suffix runes l : trim_left runes l `suffix_of` l.
Proof.
  unfold trim_left. generalize (length l) as n. intros n. revert l.
  induction n as [|n IH]; intros l; simpl; [done|].
  destruct (strip_one runes l) as [l'|] eqn:Hs; [|done].
  apply strip_one_Some in Hs as (r & _ & ->).
  etrans; [apply IH|]. by exists r.
Qed.

Lemma trim_right_prefix runes l : trim_right runes l `prefix_of` l.
Proof.
  unfold trim_right. destruct (trim_left_suffix ((@rev ascii) <$> runes) (rev l)) as [k Hk].
  exists (rev k). rewrite <- (rev_involutive l) at 1. rewrite Hk at 1.
  by rewrite rev_app_distr.
Qed.

Lemma prefix_strip_one_None runes l k :
  l `prefix_of` k → strip_one runes k = None → strip_one runes l = None.
Proof.
  rewrite !strip_one_None. intros Hlk H r Hr Hrl. apply (H r Hr). by etrans.
Qed.

(** Trimming twice is trimming once. *)
Lemma TrimSpace_idemp s : TrimSpace (TrimSpace s) = TrimSpace s.
Proof.
  unfold TrimSpace. rewrite to_of_bytes. f_equal.
  set (l := trim_left space_runes (to_bytes s)).
  assert (strip_one space_runes l = None) as Hl.
  { apply trim_left_done. by vm_compute; set_solver. }
  set (m := trim_right space_runes l).
  assert (strip_one space_runes m = None) as Hm.
  { eapply prefix_strip_one_None; [apply trim_right_prefix|done]. }
  rewrite (trim_left_id _ m) by done.
  subst m. unfold trim_right at 1 2. rewrite rev_involutive.
  rewrite (trim_left_id _ (trim_left _ _)); [done|].
  apply trim_left_done. by vm_compute; set_solver.
Qed.

(** ** Substrings *)

(** strings.Index together with the slicing around it: what comes before and
    after the first occurrence of [sep]. *)
Fixpoint cut_sub (sep l : bytes) : option (bytes * bytes) :=
  match strip_prefix sep l with
  | Some b => Some ([], b)
  | None =>
      match l with
      | [] => None
      | c :: l' => (fun ab => (c :: ab.1, ab.2)) <$> cut_sub sep l'
      end
  end.

(** strings.LastIndex together with the slicing around it: what comes before
    and after the last occurrence of [sep]. *)
Fixpoint cut_last_sub (sep l : bytes) : option (bytes * bytes) :=
  match l with
  | [] => match sep with [] => Some ([], []) | _ => None end
  | c :: l' =>
      match cut_last_sub sep l' with
      | Some (a, b) => Some (c :: a, b)
      | None => (fun b => ([], b)) <$> strip_prefix sep l
      end
  end.

(** strings.TrimSuffix when there is one. *)
Definition strip_suffix (suf l : bytes) : option bytes :=
  @rev ascii <$> strip_prefix (rev suf) (rev l).

(** strings.TrimPrefix. *)
Definition TrimPrefix (s p : string) : string :=
  match strip_prefix (to_bytes p) (to_bytes s) with Some r => of_bytes r | None => s end.

(** strings.TrimSuffix. *)
Definition TrimSuffix (s p : string) : string :=
  match strip_suffix (to_bytes p) (to_bytes s) with Some r => of_bytes r | None => s end.

Lemma cut_last_sub_Some sep l a b : cut_last_sub sep l = Some (a, b) → l = a ++ sep ++ b.
Proof.
  revert a. induction l as [|c l IH]; intros a; cbn [cut_last_sub].
  - destruct sep; [|done]. by intros [= <- <-].
  - destruct (cut_last_sub sep l) as [[a' b']|].
    + intros [= <- <-]. by rewrite (IH a').
    + destruct (strip_prefix sep (c :: l)) as [r|] eqn:Hs; [|done]. intros [= <- <-].
      by apply strip_prefix_Some in Hs.
Qed.

Lemma cut_last_sub_None sep l a b : cut_last_sub sep l = None → l ≠ a ++ sep ++ b.
Proof.
  revert a. induction l as [|c l IH]; intros a; cbn [cut_last_sub].
  - destruct sep; [done|]. intros _. by destruct a.
  - destruct (cut_last_sub sep l) as [[a' b']|]; [done|].
    destruct (strip_prefix sep (c :: l)) as [r|] eqn:Hs; [done|]. intros _ Heq.
    destruct a as [|c' a].
    + by apply (strip_prefix_Some sep) in Heq; rewrite Heq in Hs.
    + injection Heq as -> Heq. by apply (IH a).
Qed.

(** No occurrence of the separator ends later. *)
Lemma cut_last_sub_least sep l a b a' b' :
  cut_last_sub sep l = Some (a, b) → l = a' ++ sep ++ b' → (length b ≤ length b')%nat.
Proof.
  revert a a'. induction l as [|c l IH]; intros a a'; cbn [cut_last_sub].
  - destruct sep; [|done]. intros [= <- <-] _. simpl. lia.
  - destruct (cut_last_sub sep l) as [[a1 b1]|] eqn:Hc.
    + intros [= <- <-] Heq. destruct a' as [|c' a'].
      * apply cut_last_sub_Some in Hc. apply (f_equal (@length ascii)) in Hc, Heq.
        rewrite !length_app in *. simpl in *. lia.
      * injection Heq as _ Heq. by eapply IH.
    + destruct (strip_prefix sep (c :: l)) as [r|] eqn:Hs; [|done]. intros [= <- <-] Heq.
      destruct a' as [|c' a'].
      * apply (strip_prefix_Some sep) in Heq. rewrite Heq in Hs. by simplify_eq.
      * injection Heq as _ Heq. by eapply cut_last_sub_None in Hc.
Qed.

Lemma strip_suffix_Some suf l r : strip_suffix suf l = Some r ↔ l = r ++ suf.
Proof.
  unfold strip_suffix. rewrite fmap_Some. setoid_rewrite strip_prefix_Some. split.
  - intros (x & Heq & ->). apply (f_equal (@rev ascii)) in Heq.
    by rewrite rev_involutive, rev_app_distr, rev_involutive in Heq.
  - intros ->. exists (rev r). by rewrite rev_app_distr, rev_involutive.
Qed.

Lemma cut_sub_Some sep l a b : cut_sub sep l = Some (a, b) → l = a ++ sep ++ b.
Proof.
  revert a. induction l as [|c l IH]; intros a; cbn [cut_sub];
    (destruct (strip_prefix sep _) as [r|] eqn:Hs; [intros [= <- <-]; by apply strip_prefix_Some in Hs|]); [done|].
  destruct (cut_sub sep l) as [[a' b']|]; [|done]. intros [= <- <-]. by rewrite (IH a').
Qed.

Lemma cut_sub_None sep l a b : cut_sub sep l = None → l ≠ a ++ sep ++ b.
Proof.
  revert a. induction l as [|c l IH]; intros a; cbn [cut_sub];
    (destruct (strip_prefix sep _) as [r|] eqn:Hs; [done|]); intros H Heq.
  - destruct a; [|done]. by apply (strip_prefix_Some sep) in Heq; rewrite Heq in Hs.
  - destruct (cut_sub sep l) as [[a' b']|] eqn:Hc; [done|]. destruct a as [|c' a].
    + by apply (strip_prefix_Some sep) in Heq; rewrite Heq in Hs.
    + injection Heq as -> Heq. by apply (IH a).
Qed.

(** No occurrence of the separator begins earlier. *)
Lemma cut_sub_first sep l a b a' b' :
  cut_sub sep l = Some (a, b) → l = a' ++ sep ++ b' → (length a ≤ length a')%nat.
Proof.
  revert a a'. induction l as [|c l IH]; intros a a'; cbn [cut_sub];
    (destruct (strip_prefix sep _) as [r|] eqn:Hs; [intros [= <- <-]; cbn; lia|]); [done|].
  destruct (cut_sub sep l) as [[a1 b1]|] eqn:Hc; [|done]. intros [= <- <-] Heq. cbn [fst length].
  destruct a' as [|c' a'].
  - by apply (strip_prefix_Some sep) in Heq; rewrite Heq in Hs.
  - injection Heq as _ Heq. cbn [length]. specialize (IH a1 a' eq_refl Heq). lia.
Qed.

(** ** Letter case *)

Definition upper_byte (c : ascii) : ascii :=
  let n := Ascii.nat_of_ascii c in
  if (97 <=? n)%nat && (n <=? 122)%nat then byte_of (n - 32) else c.
Definition lower_byte (c : ascii) : ascii :=
  let n := Ascii.nat_of_ascii c in
  if (65 <=? n)%nat && (n <=? 90)%nat then byte_of (n + 32) else c.

(** [strings.EqualFold] with an ASCII constant that has neither a k nor an s,
    the letters with a non-ASCII fold. *)
Definition EqualFold (s t : string) : bool :=
  bool_decide (lower_byte <$> to_bytes s = lower_byte <$> to_bytes t).

(** [strings.ToUpper] as far as a comparison with an ASCII constant can tell:
    besides a..z only U+0131 (dotless i) and U+017F (long s) have an ASCII
    upper case; every other non-ASCII rune keeps a non-ASCII byte. *)
Fixpoint upper_bytes (l : bytes) : bytes :=
  match l with
  | [] => []
  | c :: l' =>
      match l' with
      | d :: l'' =>
          if Ascii.eqb c (byte_of 196) && Ascii.eqb d (byte_of 177)
          then "I"%char :: upper_bytes l''
          else if Ascii.eqb c (byte_of 197) && Ascii.eqb d (byte_of 191)
          then "S"%char :: upper_bytes l''
          else upper_byte c :: upper_bytes l'
      | [] => [upper_byte c]
      end
  end.

Definition ToUpper (s : string) : string := of_bytes (upper_bytes (to_bytes s)).

(** [strings.ToLower] as far as a comparison with an ASCII constant can tell:
    besides A..Z only U+0130 (dotted capital I, whose simple lower case is "i")
    and U+212A (Kelvin sign) have an ASCII lower case. *)
Fixpoint lower_bytes (l : bytes) : bytes :=
  match l with
  | c :: ((d :: l'') as l') =>
      if Ascii.eqb c (byte_of 196) && Ascii.eqb d (byte_of 176)
      then "i"%char :: lower_bytes l''
      else match l'' with
           | e :: l3 =>
               if Ascii.eqb c (byte_of 226) && Ascii.eqb d (byte_of 132) && Ascii.eqb e (byte_of 170)
               then "k"%char :: lower_bytes l3
               else lower_byte c :: lower_bytes l'
           | [] => lower_byte c :: lower_bytes l'
           end
  | [c] => [lower_byte c]
  | [] => []
  end.

Definition ToLower (s : string) : string := of_bytes (lower_bytes (to_bytes s)).

(** ** strconv, base 10 *)

(** [strconv.FormatInt(z, 10)] *)
Definition FormatInt (z : Z) : string := NilEmpty.string_of_int (Z.to_int z).

(** A non-empty run of decimal digits. *)
Definition parse_digits (s : string) : option Z :=
  match s with
  | EmptyString => None
  | _ => Z.of_uint <$> NilEmpty.uint_of_string s
  end.

(** [strconv.ParseInt(s, 10, 64)]: an optional sign, digits, and the range
    check; [None] stands for its error. *)
Definition ParseInt (s : string) : option Z :=
  let parsed :=
    match s with
    | String "-" s' => Z.opp <$> parse_digits s'
    | String "+" s' => parse_digits s'
    | _ => parse_digits s
    end%char in
  match parsed with
  | Some z => if decide (in_int64 z) then Some z else None
  | None => None
  end.

Lemma string_of_uint_head u :
  u ≠ Decimal.Nil →
  ∃ c s, NilEmpty.string_of_uint u = String c s ∧ c ≠ "-"%char ∧ c ≠ "+"%char ∧ c ≠ ":"%char.
Proof. destruct u; intros; simpl; [done|..]; by do 2 eexists. Qed.

Lemma to_int_nonnil z :
  match Z.to_int z with Decimal.Pos u | Decimal.Neg u => u ≠ Decimal.Nil end.
Proof. destruct z; simpl; [done|..]; apply DecimalPos.Unsigned.to_uint_nonnil. Qed.

(** Decimal printing and parsing are inverse on the int64 range. *)
Lemma ParseInt_FormatInt z : in_int64 z → ParseInt (FormatInt z) = Some z.
Proof.
  intros Hz. unfold ParseInt, FormatInt.
  pose proof (to_int_nonnil z) as Hn. pose proof (DecimalZ.of_to z) as Hof.
  destruct (Z.to_int z) as [u|u]; simpl in *;
    destruct (string_of_uint_head u Hn) as (c & s & Heq & Hm & Hp & _);
    pose proof (NilEmpty.usu u) as Hu; rewrite Heq in *.
  - assert (parse_digits (String c s) = Some z) as Hd.
    { unfold parse_digits. rewrite Hu. simpl. by rewrite Hof. }
    repeat (case_match; try congruence); simplify_eq; done.
  - unfold parse_digits. rewrite Hu. simpl. rewrite Hof. by rewrite decide_True.
Qed.

(** The printed form holds no colon, the cursor separator. *)
Lemma string_of_uint_no_colon u : ":"%char ∉ to_bytes (NilEmpty.string_of_uint u).
Proof. unfold to_bytes. induction u; simpl; set_solver. Qed.

Lemma FormatInt_no_colon z : ":"%char ∉ to_bytes (FormatInt z).
Proof.
  unfold FormatInt. destruct (Z.to_int z) as [u|u]; simpl;
    pose proof (string_of_uint_no_colon u) as H; unfold to_bytes in *; simpl; set_solver.
Qed.

(** ** unicode/utf8 *)

Definition in_range (lo hi n : nat) : bool := (lo <=? n)%nat && (n <=? hi)%nat.

(** The width of the rune a UTF-8 string starts with; an invalid byte counts
    as a rune of its own. *)
Definition rune_width (l : bytes) : nat :=
  let cont n := in_range 128 191 n in
  match (fun c => Ascii.nat_of_ascii c) <$> take 4 l with
  | a :: b :: rest =>
      if in_range 194 223 a then if cont b then 2 else 1
      else if in_range 224 239 a then
        let lo := if (a =? 224)%nat then 160%nat else 128%nat in
        let hi := if (a =? 237)%nat then 159%nat else 191%nat in
        match rest with
        | c :: _ => if in_range lo hi b && cont c then 3 else 1
        | [] => 1
        end
      else if in_range 240 244 a then
        let lo := if (a =? 240)%nat then 144%nat else 128%nat in
        let hi := if (a =? 244)%nat then 143%nat else 191%nat in
        match rest with
        | [c; d] => if in_range lo hi b && cont c && cont d then 4 else 1
        | _ => 1
        end
      else 1
  | _ => 1
  end%nat.

Definition is_ascii (c : ascii) : bool := (Ascii.nat_of_ascii c <? 128)%nat.

(** Only an ASCII byte is a rune of one byte. *)
Fixpoint valid_runes (fuel : nat) (l : bytes) : bool :=
  match fuel, l with
  | S fuel, c :: l' =>
      if is_ascii c then valid_runes fuel l'
      else if (rune_width l =? 1)%nat then false else valid_runes fuel (drop (rune_width l) l)
  | _, _ => true
  end.

(** utf8.ValidString; each rune takes at least a byte. *)
Definition ValidString (s : string) : bool := valid_runes (String.length s) (to_bytes s).

Example ex_valid : ValidString (of_bytes (byte_of <$> [226; 132; 170; 65]%nat)) = true ∧ ValidString (of_bytes (byte_of <$> [65; 255]%nat)) = false.
Proof. vm_compute. done. Qed.

Lemma forallb_impl {A} (p q : A → bool) l :
  (∀ x, p x = true → q x = true) → forallb p l = true → forallb q l = true.
Proof. rewrite !forallb_forall. auto. Qed.

Lemma ascii_ValidString s : forallb is_ascii (to_bytes s) = true → ValidString s = true.
Proof.
  unfold ValidString. generalize (String.length s) as n. generalize (to_bytes s) as l.
  intros l n. revert l. induction n as [|n IH]; intros [|c l]; try done. cbn [forallb valid_runes].
  intros [-> Hl]%andb_true_iff. by apply IH.
Qed.

(** ** encoding/hex *)

Definition hex_digit (n : nat) : ascii := byte_of (if (n <? 10)%nat then 48 + n else 87 + n).

Definition hex_EncodeToString (b : bytes) : string :=
  of_bytes (b ≫= (fun c => [hex_digit (Ascii.nat_of_ascii c / 16); hex_digit (Ascii.nat_of_ascii c mod 16)])).

Example ex_hex : hex_EncodeToString (byte_of <$> [0; 171; 255]%nat) = "00abff".
Proof. reflexivity. Qed.

Lemma is_ascii_byte_of n : (n < 128)%nat → is_ascii (byte_of n) = true.
Proof. intros Hn. unfold is_ascii, byte_of. rewrite Ascii.nat_ascii_embedding by lia. by apply Nat.ltb_lt. Qed.

Lemma hex_valid b : ValidString (hex_EncodeToString b) = true.
Proof.
  apply ascii_ValidString. unfold hex_EncodeToString. rewrite to_of_bytes.
  assert (∀ n, (n < 16)%nat → is_ascii (hex_digit n) = true) as Hd.
  { intros n Hn. unfold hex_digit. apply is_ascii_byte_of. destruct (n <? 10)%nat; lia. }
  induction b as [|c b IH]; [done|]. cbn [mbind list_bind]. rewrite forallb_app, IH. cbn [forallb].
  pose proof (Ascii.nat_ascii_bounded c). rewrite !Hd; [done|by apply Nat.mod_upper_bound|].
  apply Nat.Div0.div_lt_upper_bound. lia.
Qed.
