(* ===== verification/Float64.v ===== *)
(** * float64

    The arithmetic of Go's float64 as the Standard Library specifies IEEE 754
    binary64 (SpecFloat, without axioms), the conversions from and to int64 and
    the bit pattern. *)
From S2P Require Import Prelude GoStd.
From Stdlib Require Export SpecFloat.
Local Open Scope Z_scope.

Notation float64 := spec_float.

Definition f_prec : Z := 53.
Definition f_emax : Z := 1024.

(** float64(z), rounded to nearest, ties to even. *)
Definition f_of_Z (z : Z) : float64 := binary_normalize f_prec f_emax z 0 false.

Definition f_add : float64 -> float64 -> float64 := SFadd f_prec f_emax.
Definition f_sub : float64 -> float64 -> float64 := SFsub f_prec f_emax.
Definition f_mul : float64 -> float64 -> float64 := SFmul f_prec f_emax.
Definition f_div : float64 -> float64 -> float64 := SFdiv f_prec f_emax.
Definition f_neg : float64 -> float64 := SFopp.

(** [f < g] and [f <= g]; false on a NaN. *)
Definition f_lt (f g : float64) : bool := SFltb f g.
Definition f_le (f g : float64) : bool := SFleb f g.

(** int64(f): towards zero; out of range the value is implementation-defined in
    Go, on amd64 the least int64. *)
Definition f_to_int64 (f : float64) : Z :=
  let clip z := if decide (in_int64 z) then z else min_int64 in
  match f with
  | S754_zero _ => 0
  | S754_finite s m e =>
      let z := Z.shiftl (Zpos m) e in clip (if s then - z else z)
  | S754_infinity _ | S754_nan => min_int64
  end.

(** math.Float64bits *)
Definition f_bits (f : float64) : Z :=
  let sign (s : bool) := if s then 2 ^ 63 else 0 in
  match f with
  | S754_zero s => sign s
  | S754_infinity s => sign s + 2047 * 2 ^ 52
  | S754_nan => 2047 * 2 ^ 52 + 2 ^ 51 + 1
  | S754_finite s m e =>
      sign s + (if Zpos m <? 2 ^ 52 then Zpos m else (e + 1075) * 2 ^ 52 + (Zpos m - 2 ^ 52))
  end.

(** d.Seconds() *)
Definition f_seconds (d : Z) : float64 :=
  f_add (f_of_Z (Z.quot d Second)) (f_div (f_of_Z (Z.rem d Second)) (f_of_Z Second)).

Example ex_bits :
  f_bits (f_div (f_of_Z 1) (f_of_Z 2)) = 4602678819172646912 ∧ f_bits (f_div (f_of_Z 1) (f_of_Z 3)) = 4599676419421066581 ∧
  f_bits (f_seconds 1500000000) = 4609434218613702656 ∧ f_to_int64 (f_mul (f_seconds (-1500000000)) (f_of_Z 3)) = -4.
Proof. vm_compute. done. Qed.

Lemma f_lt_irrefl f : f_lt f f = false.
Proof.
  unfold f_lt, SFltb, SFcompare. destruct f as [s|s| |s m e]; try done; destruct s; try done;
    by rewrite Z.compare_refl, Pos.compare_cont_refl.
Qed.
