(* ===== verification/Json.v ===== *)
(** * What the sources use of encoding/json

    A JSON text is parsed into a [Raw]: strings keep their body between the
    quotes and numbers their digits as written, so a [Raw] is what a
    json.RawMessage holds, blanks aside, and printing one is what Marshal makes
    of a RawMessage: compact, with the characters special in HTML escaped.
    [unquote] and [quote] pass from a body to the Go string and back.  The
    nesting limit of the package is kept; everything that [print] writes parses
    back. *)
From S2P Require Import Prelude GoStd.

(** ** Texts *)

Inductive Raw :=
| RNull
| RBool (b : bool)
| RNum (text : bytes)
| RStr (body : bytes)
| RArr (l : list Raw)
| RObj (fields : list (bytes * Raw)).

Definition is_ws (c : ascii) : bool :=
  match Ascii.nat_of_ascii c with 9 | 10 | 13 | 32 => true | _ => false end%nat.

Fixpoint skip_ws (l : bytes) : bytes :=
  match l with
  | c :: l' => if is_ws c then skip_ws l' else l
  | [] => []
  end.

Definition hex_value (c : ascii) : option nat :=
  let n := Ascii.nat_of_ascii c in
  if in_range 48 57 n then Some (n - 48)
  else if in_range 97 102 n then Some (n - 87)
  else if in_range 65 70 n then Some (n - 55)
  else None%nat.

Definition is_hex (c : ascii) : bool := match hex_value c with Some _ => true | None => false end.

Definition quote_byte : ascii := byte_of 34.
Definition backslash : ascii := byte_of 92.

(** The byte a one-letter escape stands for. *)
Definition simple_escape (e : ascii) : option ascii :=
  match Ascii.nat_of_ascii e with
  | 34 | 92 | 47 => Some e
  | 98 => Some (byte_of 8)
  | 102 => Some (byte_of 12)
  | 110 => Some (byte_of 10)
  | 114 => Some (byte_of 13)
  | 116 => Some (byte_of 9)
  | _ => None
  end%nat.

(** A byte that stands for itself in a string. *)
Definition is_plain (c : ascii) : bool :=
  (32 <=? Ascii.nat_of_ascii c)%nat && negb (Ascii.eqb c quote_byte) && negb (Ascii.eqb c backslash).

(** The body of a string and what follows its closing quote. *)
Fixpoint scan_string (l : bytes) : option (bytes * bytes) :=
  match l with
  | [] => None
  | c :: l' =>
      if Ascii.eqb c quote_byte then Some ([], l')
      else if Ascii.eqb c backslash then
        match l' with
        | e :: l'' =>
            if Ascii.eqb e "u"%char then
              match l'' with
              | h1 :: h2 :: h3 :: h4 :: l3 =>
                  if is_hex h1 && is_hex h2 && is_hex h3 && is_hex h4 then
                    '(b, r) ← scan_string l3; Some (c :: e :: h1 :: h2 :: h3 :: h4 :: b, r)
                  else None
              | _ => None
              end
            else if simple_escape e then '(b, r) ← scan_string l''; Some (c :: e :: b, r)
            else None
        | [] => None
        end
      else if is_plain c then '(b, r) ← scan_string l'; Some (c :: b, r)
      else None
  end.

(** ** Numbers *)

Definition is_digit (c : ascii) : bool := in_range 48 57 (Ascii.nat_of_ascii c).

(** The bytes a number is made of: none of them can follow one. *)
Definition num_char (c : ascii) : bool :=
  is_digit c || bool_decide (c ∈ ["+"; "-"; "."; "e"; "E"]%char).

Fixpoint span (p : ascii -> bool) (l : bytes) : bytes * bytes :=
  match l with
  | c :: l' => if p c then let '(a, b) := span p l' in (c :: a, b) else ([], l)
  | [] => ([], [])
  end.

(** Optional exponent, then nothing. *)
Definition num_exponent (l : bytes) : bool :=
  match l with
  | [] => true
  | e :: l' =>
      bool_decide (e ∈ ["e"; "E"]%char) &&
      let l'' := match l' with s :: l'' => if bool_decide (s ∈ ["+"; "-"]%char) then l'' else l' | [] => [] end in
      negb (bool_decide (l'' = [])) && forallb is_digit l''
  end.

Definition num_fraction (l : bytes) : bool :=
  match l with
  | "."%char :: l' =>
      let '(ds, l'') := span is_digit l' in
      negb (bool_decide (ds = [])) && num_exponent l''
  | _ => num_exponent l
  end.

Definition num_ok (l : bytes) : bool :=
  let l := match l with "-"%char :: l' => l' | _ => l end in
  match l with
  | "0"%char :: l' => num_fraction l'
  | c :: _ => is_digit c && num_fraction (span is_digit l).2
  | [] => false
  end.

(** ** Values *)

(** The elements of an array after its first bracket or comma, with a parser
    for one; the fuel is a bound on their number. *)
Fixpoint parse_elems (pv : bytes -> option (Raw * bytes)) (n : nat) (l : bytes) : option (list Raw * bytes) :=
  match n with
  | O => None
  | S n =>
      '(v, r) ← pv (skip_ws l);
      match skip_ws r with
      | c :: r' =>
          if Ascii.eqb c ","%char then '(vs, r'') ← parse_elems pv n r'; Some (v :: vs, r'')
          else if Ascii.eqb c "]"%char then Some ([v], r')
          else None
      | [] => None
      end
  end.

(** The members of an object: a key, a colon, a value. *)
Definition parse_member (pv : bytes -> option (Raw * bytes)) (l : bytes) : option ((bytes * Raw) * bytes) :=
  match skip_ws l with
  | c :: l' =>
      if Ascii.eqb c quote_byte then
        '(k, r) ← scan_string l';
        match skip_ws r with
        | c :: r' => if Ascii.eqb c ":"%char then '(v, r'') ← pv (skip_ws r'); Some ((k, v), r'') else None
        | [] => None
        end
      else None
  | [] => None
  end.

Fixpoint parse_members (pv : bytes -> option (Raw * bytes)) (n : nat) (l : bytes)
    : option (list (bytes * Raw) * bytes) :=
  match n with
  | O => None
  | S n =>
      '(m, r) ← parse_member pv l;
      match skip_ws r with
      | c :: r' =>
          if Ascii.eqb c ","%char then '(ms, r'') ← parse_members pv n r'; Some (m :: ms, r'')
          else if Ascii.eqb c "}"%char then Some ([m], r')
          else None
      | [] => None
      end
  end.

Definition closes (c : ascii) (l : bytes) : option bytes :=
  match skip_ws l with
  | d :: r => if Ascii.eqb d c then Some r else None
  | [] => None
  end.

Definition parse_array (pv : bytes -> option (Raw * bytes)) (l : bytes) : option (Raw * bytes) :=
  match closes "]"%char l with
  | Some r => Some (RArr [], r)
  | None => '(vs, r) ← parse_elems pv (length l) l; Some (RArr vs, r)
  end.

Definition parse_object (pv : bytes -> option (Raw * bytes)) (l : bytes) : option (Raw * bytes) :=
  match closes "}"%char l with
  | Some r => Some (RObj [], r)
  | None => '(ms, r) ← parse_members pv (length l) l; Some (RObj ms, r)
  end.

(** A value that nests at most [d] deep, its blanks before skipped. *)
Fixpoint parse_value (d : nat) (l : bytes) : option (Raw * bytes) :=
  match l with
  | [] => None
  | c :: l' =>
      if Ascii.eqb c quote_byte then '(b, r) ← scan_string l'; Some (RStr b, r)
      else if Ascii.eqb c "["%char then
        match d with S d => parse_array (parse_value d) l' | O => None end
      else if Ascii.eqb c "{"%char then
        match d with S d => parse_object (parse_value d) l' | O => None end
      else if Ascii.eqb c "t"%char then (fun r => (RBool true, r)) <$> strip_prefix (to_bytes "true") l
      else if Ascii.eqb c "f"%char then (fun r => (RBool false, r)) <$> strip_prefix (to_bytes "false") l
      else if Ascii.eqb c "n"%char then (fun r => (RNull, r)) <$> strip_prefix (to_bytes "null") l
      else
        let '(t, r) := span num_char l in
        if num_ok t then Some (RNum t, r) else None
  end.

Definition maxNestingDepth : nat := 10000.

(** json.Unmarshal's reading of a whole document. *)
Definition parse (l : bytes) : option Raw :=
  '(v, r) ← parse_value maxNestingDepth (skip_ws l);
  match skip_ws r with [] => Some v | _ => None end.

(** json.Decoder's reading of one value: what follows it is not looked at. *)
Definition parse_first (l : bytes) : option Raw := fst <$> parse_value maxNestingDepth (skip_ws l).

(** ** Strings *)

(** utf8.EncodeRune, for a rune that is not a surrogate. *)
Definition encode_rune (n : Z) : bytes :=
  let b z := byte_of (Z.to_nat z) in
  let cont z := b (128 + z mod 64)%Z in
  if (n <? 128)%Z then [b n]
  else if (n <? 2048)%Z then [b (192 + n / 64)%Z; cont n]
  else if (n <? 65536)%Z then [b (224 + n / 4096)%Z; cont (n / 64)%Z; cont n]
  else [b (240 + n / 262144)%Z; cont (n / 4096)%Z; cont (n / 64)%Z; cont n].

Definition replacement : bytes := byte_of <$> [239; 191; 189]%nat.

Definition surrogate (n : Z) : bool := ((55296 <=? n) && (n <? 57344))%Z.
Definition low_surrogate (n : Z) : bool := ((56320 <=? n) && (n <? 57344))%Z.
Definition high_surrogate (n : Z) : bool := ((55296 <=? n) && (n <? 56320))%Z.

(** Four hex digits. *)
Definition hex4 (l : bytes) : option Z :=
  match l with
  | h1 :: h2 :: h3 :: h4 :: _ =>
      match hex_value h1, hex_value h2, hex_value h3, hex_value h4 with
      | Some a, Some b, Some c, Some d => Some (4096 * Z.of_nat a + 256 * Z.of_nat b + 16 * Z.of_nat c + Z.of_nat d)%Z
      | _, _, _, _ => None
      end
  | _ => None
  end.

(** The low surrogate escaped next, if there is one. *)
Definition low_next (l : bytes) : option Z :=
  match l with
  | b :: u :: l' =>
      if Ascii.eqb b backslash && Ascii.eqb u "u"%char then
        m ← hex4 l'; if low_surrogate m then Some m else None
      else None
  | _ => None
  end.

(** The rune an escape \u stands for, with the bytes after the u it takes. *)
Definition unquote_u (l : bytes) : bytes * nat :=
  match hex4 l with
  | Some n =>
      if surrogate n then
        match (if high_surrogate n then low_next (drop 4 l) else None) with
        | Some m => (encode_rune (65536 + (n - 55296) * 1024 + (m - 56320))%Z, 10)
        | None => (replacement, 4)
        end
      else (encode_rune n, 4)
  | None => ([], 0)
  end%nat.

(** The Go string of a body: [skip] bytes are to be passed over, then [k] bytes
    of a rune still to be copied. *)
Fixpoint unquote_from (skip k : nat) (l : bytes) : bytes :=
  match l with
  | [] => []
  | c :: l' =>
      match skip, k with
      | S skip, _ => unquote_from skip k l'
      | O, S k => c :: unquote_from 0 k l'
      | O, O =>
          if Ascii.eqb c backslash then
            match l' with
            | e :: l'' =>
                if Ascii.eqb e "u"%char then (unquote_u l'').1 ++ unquote_from (S (unquote_u l'').2) 0 l'
                else default e (simple_escape e) :: unquote_from 1 0 l'
            | [] => []
            end
          else if is_ascii c then c :: unquote_from 0 0 l'
          else
            match rune_width l with
            | S (S k) => c :: unquote_from 0 (S k) l'
            | _ => replacement ++ unquote_from 0 0 l'
            end
      end
  end.

Definition unquote (body : bytes) : string := of_bytes (unquote_from 0 0 body).

Definition u_escape (n : nat) : bytes :=
  backslash :: "u"%char :: "0"%char :: "0"%char :: [hex_digit (n / 16); hex_digit (n mod 16)].

(** How Marshal writes an ASCII byte. *)
Definition quote_ascii (c : ascii) : bytes :=
  match Ascii.nat_of_ascii c with
  | 34 | 92 => [backslash; c]
  | 8 => [backslash; "b"%char]
  | 12 => [backslash; "f"%char]
  | 10 => [backslash; "n"%char]
  | 13 => [backslash; "r"%char]
  | 9 => [backslash; "t"%char]
  | 38 | 60 | 62 => u_escape (Ascii.nat_of_ascii c)
  | n => if (n <? 32)%nat then u_escape n else [c]
  end%nat.

(** U+2028 and U+2029, which Marshal escapes. *)
Definition line_separator (l : bytes) : option ascii :=
  match l with
  | a :: b :: c :: _ =>
      if Ascii.eqb a (byte_of 226) && Ascii.eqb b (byte_of 128) &&
         (Ascii.eqb c (byte_of 168) || Ascii.eqb c (byte_of 169))
      then Some (hex_digit (Ascii.nat_of_ascii c mod 16)) else None
  | _ => None
  end.

Definition escape_202 (d : ascii) : bytes := [backslash; "u"; "2"; "0"; "2"; d]%char.

(** The body of a Go string: as for [unquote_from]. *)
Fixpoint quote_from (skip k : nat) (l : bytes) : bytes :=
  match l with
  | [] => []
  | c :: l' =>
      match skip, k with
      | S skip, _ => quote_from skip k l'
      | O, S k => c :: quote_from 0 k l'
      | O, O =>
          if is_ascii c then quote_ascii c ++ quote_from 0 0 l'
          else
            match line_separator l with
            | Some d => escape_202 d ++ quote_from 2 0 l'
            | None =>
                match rune_width l with
                | S (S k) => c :: quote_from 0 (S k) l'
                | _ => backslash :: to_bytes "ufffd" ++ quote_from 0 0 l'
                end
            end
      end
  end.

Definition quote (s : string) : bytes := quote_from 0 0 (to_bytes s).

Definition html_special (c : ascii) : bool :=
  match Ascii.nat_of_ascii c with 38 | 60 | 62 => true | _ => false end%nat.

(** What compacting a RawMessage does to a string's body. *)
Fixpoint html_from (skip : nat) (l : bytes) : bytes :=
  match l with
  | [] => []
  | c :: l' =>
      match skip with
      | S skip => html_from skip l'
      | O =>
          if html_special c then u_escape (Ascii.nat_of_ascii c) ++ html_from 0 l'
          else
            match line_separator l with
            | Some d => escape_202 d ++ html_from 2 l'
            | None => c :: html_from 0 l'
            end
      end
  end.

Definition html_escape (body : bytes) : bytes := html_from 0 body.

(** ** Printing *)

Definition print_body (b : bytes) : bytes := quote_byte :: html_escape b ++ [quote_byte].

Fixpoint join (l : list bytes) : bytes :=
  match l with
  | [] => []
  | [x] => x
  | x :: l' => x ++ ","%char :: join l'
  end.

Fixpoint print (v : Raw) : bytes :=
  match v with
  | RNull => to_bytes "null"
  | RBool b => to_bytes (if b then "true" else "false")
  | RNum t => t
  | RStr b => print_body b
  | RArr l => "["%char :: join (print <$> l) ++ ["]"%char]
  | RObj ms => "{"%char :: join ((fun m => print_body m.1 ++ ":"%char :: print m.2) <$> ms) ++ ["}"%char]
  end.

(** For examples: a text with ' in place of the double quote. *)
Definition text (s : string) : bytes :=
  (fun c => if Ascii.eqb c (byte_of 39) then quote_byte else c) <$> to_bytes s.

Example ex_parse :
  parse (text " {'a' : [1, -2.5e+3, true,null], 'b\u0041' : {} } ") =
    Some (RObj [(to_bytes "a", RArr [RNum (to_bytes "1"); RNum (to_bytes "-2.5e+3"); RBool true; RNull]);
                (to_bytes "b\u0041", RObj [])]) ∧
  parse (text "[1,]") = None ∧ parse (text "01") = None ∧ parse (text "[1] x") = None ∧
  unquote (text "b\u0041\n\ud83d\ude00\ud83d") = of_bytes (byte_of <$> [98; 65; 10; 240; 159; 152; 128; 239; 191; 189]%nat) ∧
  quote "a<b" = to_bytes "a\u003cb" ∧ print (RStr (text "<")) = text "'\u003c'".
Proof. vm_compute. done. Qed.

(** ** The bodies of strings *)

Inductive body_ok : bytes -> Prop :=
| body_nil : body_ok []
| body_plain c b : is_plain c = true -> body_ok b -> body_ok (c :: b)
| body_simple e x b : simple_escape e = Some x -> body_ok b -> body_ok (backslash :: e :: b)
| body_hex h1 h2 h3 h4 b :
    is_hex h1 = true -> is_hex h2 = true -> is_hex h3 = true -> is_hex h4 = true ->
    body_ok b -> body_ok (backslash :: "u"%char :: h1 :: h2 :: h3 :: h4 :: b).

Lemma plain_not c : is_plain c = true → Ascii.eqb c quote_byte = false ∧ Ascii.eqb c backslash = false.
Proof. unfold is_plain. intros [[_ ?%negb_true_iff]%andb_true_iff ?%negb_true_iff]%andb_true_iff. done. Qed.

Lemma simple_not_u e x : simple_escape e = Some x → Ascii.eqb e "u"%char = false.
Proof. intros H. apply Ascii.eqb_neq. intros ->. done. Qed.

Lemma scan_string_body b r : body_ok b → scan_string (b ++ quote_byte :: r) = Some (b, r).
Proof.
  induction 1 as [|c b Hc _ IH|e x b He _ IH|h1 h2 h3 h4 b H1 H2 H3 H4 _ IH]; [done| | |].
  - destruct (plain_not c Hc) as [E1 E2]. cbn [app scan_string]. by rewrite E1, E2, Hc, IH.
  - cbn [app scan_string]. rewrite (simple_not_u e x He), He, IH. done.
  - cbn [app scan_string]. rewrite H1, H2, H3, H4, IH. done.
Qed.

Lemma scan_string_ok l b r : scan_string l = Some (b, r) → body_ok b ∧ l = b ++ quote_byte :: r.
Proof.
  revert b r. induction l as [l IH] using list_len_ind. intros b r. destruct l as [|c l]; [done|]. cbn [scan_string].
  destruct (Ascii.eqb_spec c quote_byte) as [->|_]; [intros [= <- <-]; split; [constructor|done]|].
  destruct (Ascii.eqb_spec c backslash) as [->|_].
  - destruct l as [|e l]; [done|]. destruct (Ascii.eqb_spec e "u"%char) as [->|_].
    + destruct l as [|h1 [|h2 [|h3 [|h4 l]]]]; try done.
      destruct (is_hex h1 && is_hex h2 && is_hex h3 && is_hex h4) eqn:Hh; [|done].
      apply andb_true_iff in Hh as [[[??]%andb_true_iff ?]%andb_true_iff ?].
      destruct (scan_string l) as [[b' r']|] eqn:E; [|done]. intros [= <- <-].
      destruct (IH l ltac:(cbn; lia) b' r' E) as [Hb ->]. split; [by apply body_hex|done].
    + destruct (simple_escape e) as [x|] eqn:Hx; [|done].
      destruct (scan_string l) as [[b' r']|] eqn:E; [|done]. intros [= <- <-].
      destruct (IH l ltac:(cbn; lia) b' r' E) as [Hb ->]. split; [by eapply body_simple|done].
  - destruct (is_plain c) eqn:Hc; [|done].
    destruct (scan_string l) as [[b' r']|] eqn:E; [|done]. intros [= <- <-].
    destruct (IH l ltac:(cbn; lia) b' r' E) as [Hb ->]. split; [by apply body_plain|done].
Qed.

(** *** What HTML escaping leaves *)

(** Neither special in HTML nor the start of a line separator. *)
Definition html_safe (c : ascii) : bool := negb (html_special c) && negb (Ascii.eqb c (byte_of 226)).

Lemma html_from_safe c l : html_safe c = true → html_from 0 (c :: l) = c :: html_from 0 l.
Proof.
  intros [H1%negb_true_iff H2%negb_true_iff]%andb_true_iff. cbn [html_from]. rewrite H1.
  unfold line_separator. destruct l as [|? [|? ?]]; [done..|]. by rewrite H2.
Qed.

Lemma html_from_safes p l : forallb html_safe p = true → html_from 0 (p ++ l) = p ++ html_from 0 l.
Proof.
  induction p as [|c p IH]; [done|]. cbn [forallb]. intros [Hc Hp]%andb_true_iff.
  cbn [app]. rewrite html_from_safe by done. by rewrite IH.
Qed.

(** A property of all bytes, by trying them. *)
Lemma all_bytes (p : ascii → bool) : forallb (λ n, p (byte_of n)) (seq 0 256) = true → ∀ c, p c = true.
Proof.
  intros H c. rewrite forallb_forall in H. pose proof (Ascii.nat_ascii_bounded c) as Hb.
  specialize (H (Ascii.nat_of_ascii c)). unfold byte_of in H. rewrite Ascii.ascii_nat_embedding in H.
  apply H. apply in_seq. lia.
Qed.

Lemma all_bytes_impl (p q : ascii → bool) :
  forallb (λ n, implb (p (byte_of n)) (q (byte_of n))) (seq 0 256) = true → ∀ c, p c = true → q c = true.
Proof. intros H c Hp. pose proof (all_bytes (λ c, implb (p c) (q c)) H c) as Hc. cbn in Hc. by rewrite Hp in Hc. Qed.

Lemma hex_safe c : is_hex c = true → html_safe c && is_plain c && is_ascii c = true.
Proof. revert c. apply (all_bytes_impl is_hex (λ c, html_safe c && is_plain c && is_ascii c)). vm_compute. done. Qed.

Lemma simple_safe e x : simple_escape e = Some x → html_safe e = true.
Proof.
  intros H. apply (all_bytes_impl (λ c, bool_decide (is_Some (simple_escape c))) html_safe); [vm_compute; done|].
  apply bool_decide_eq_true_2. eauto.
Qed.

Lemma hex_value_digit n : (n < 16)%nat → hex_value (hex_digit n) = Some n.
Proof. intros H. do 16 (destruct n as [|n]; [reflexivity|]). lia. Qed.

Lemma is_hex_digit n : (n < 16)%nat → is_hex (hex_digit n) = true.
Proof. intros H. unfold is_hex. by rewrite hex_value_digit. Qed.

Lemma line_separator_inv l d :
  line_separator l = Some d → ∃ c l', l = byte_of 226 :: byte_of 128 :: c :: l' ∧
    (c = byte_of 168 ∧ d = "8"%char ∨ c = byte_of 169 ∧ d = "9"%char).
Proof.
  destruct l as [|a [|b [|c l]]]; try done. cbn [line_separator].
  destruct (Ascii.eqb_spec a (byte_of 226)) as [->|]; [|done].
  destruct (Ascii.eqb_spec b (byte_of 128)) as [->|]; [|done].
  destruct (Ascii.eqb_spec c (byte_of 168)) as [->|]; [intros [= <-]; eauto 10|].
  destruct (Ascii.eqb_spec c (byte_of 169)) as [->|]; [intros [= <-]; eauto 10|done].
Qed.

Lemma html_special_inv c : html_special c = true → c ∈ ["&"; "<"; ">"]%char.
Proof.
  intros H. apply (bool_decide_eq_true_1 (c ∈ _)). revert c H. apply all_bytes_impl. vm_compute. done.
Qed.

Lemma u_escape_body n b : (n < 256)%nat → body_ok b → body_ok (u_escape n ++ b).
Proof.
  intros Hn Hb. apply body_hex; try done; apply is_hex_digit; [|by apply Nat.mod_upper_bound].
  apply Nat.Div0.div_lt_upper_bound. lia.
Qed.

Lemma escape_202_body d b : is_hex d = true → body_ok b → body_ok (escape_202 d ++ b).
Proof. intros. by apply body_hex. Qed.

Lemma body_ok_plains p b : forallb is_plain p = true → body_ok (p ++ b) ↔ body_ok b.
Proof.
  induction p as [|c p IH]; [done|]. intros [Hc Hp]%andb_true_iff. rewrite <- IH by done.
  split; [|by apply body_plain]. destruct (plain_not c Hc) as [_ H]. by inversion 1; subst.
Qed.

Lemma html_body_ok b : body_ok b → body_ok (html_escape b).
Proof.
  unfold html_escape. induction b as [b IH] using list_len_ind. intros Hb. destruct Hb as [|c b Hc Hb|e x b He Hb|h1 h2 h3 h4 b H1 H2 H3 H4 Hb].
  - constructor.
  - cbn [html_from]. destruct (html_special c) eqn:Hs.
    + apply u_escape_body; [apply Ascii.nat_ascii_bounded|]. apply IH; [cbn; lia|done].
    + destruct (line_separator (c :: b)) as [d|] eqn:Hl.
      * apply line_separator_inv in Hl as (c' & l' & [= -> ->] & Hd). cbn [html_from].
        apply escape_202_body; [by destruct Hd as [[_ ->]|[_ ->]]|]. apply IH; [cbn; lia|].
        revert Hb. apply (body_ok_plains [byte_of 128; c']). by destruct Hd as [[-> _]|[-> _]].
      * apply body_plain; [done|]. apply IH; [cbn; lia|done].
  - rewrite !html_from_safe; [|by eapply simple_safe|done]. eapply body_simple; [done|]. apply IH; [cbn; lia|done].
  - change (backslash :: "u"%char :: h1 :: h2 :: h3 :: h4 :: b) with ([backslash; "u"%char; h1; h2; h3; h4] ++ b).
    rewrite html_from_safes.
    + apply body_hex; try done. apply IH; [cbn; lia|done].
    + cbn [forallb]. apply hex_safe in H1, H2, H3, H4. repeat rewrite andb_true_iff in *. naive_solver.
Qed.

(** *** Runes of several bytes *)

Definition is_cont (c : ascii) : bool := in_range 128 191 (Ascii.nat_of_ascii c).

(** [c :: p] is the encoding of one rune. *)
Definition rune (c : ascii) (p : bytes) : Prop := rune_width (c :: p) = S (length p) ∧ p ≠ [].

Lemma cont_range lo hi n : in_range lo hi n = true → (128 <= lo)%nat → (hi <= 191)%nat → in_range 128 191 n = true.
Proof. unfold in_range. rewrite !andb_true_iff, !Nat.leb_le. lia. Qed.

Lemma rune_width_le c l : (rune_width (c :: l) <= 4)%nat.
Proof. unfold rune_width. repeat case_match; lia. Qed.

Ltac lead_bounds := repeat match goal with
  | |- context [if (?a =? ?b)%nat then _ else _] => destruct (a =? b)%nat
  | H : context [if (?a =? ?b)%nat then _ else _] |- _ => destruct (a =? b)%nat
  end.

Lemma rune_split c l k : rune_width (c :: l) = S (S k) →
  ∃ p l', l = p ++ l' ∧ length p = S k ∧ forallb is_cont p = true ∧ (∀ l'', rune_width (c :: p ++ l'') = S (S k)).
Proof.
  intros H. unfold rune_width in H. destruct l as [|b l]; [done|]. cbn [take fmap list_fmap] in H.
  destruct (in_range 194 223 (Ascii.nat_of_ascii c)) eqn:H2.
  { destruct (in_range 128 191 (Ascii.nat_of_ascii b)) eqn:Hb; [|done]. injection H as <-.
    exists [b], l. split_and!; [done..|cbn; by unfold is_cont; rewrite Hb|].
    intros l''. unfold rune_width. cbn [app take fmap list_fmap]. by rewrite H2, Hb. }
  destruct (in_range 224 239 (Ascii.nat_of_ascii c)) eqn:H3.
  { destruct l as [|d l]; [done|]. cbn [take fmap list_fmap] in H.
    match type of H with context [in_range ?lo ?hi (Ascii.nat_of_ascii b)] => destruct (in_range lo hi (Ascii.nat_of_ascii b)) eqn:Hb end; [|done].
    destruct (in_range 128 191 (Ascii.nat_of_ascii d)) eqn:Hd; [|done]. injection H as <-.
    exists [b; d], l. split_and!; [done..| |].
    - cbn [forallb]. unfold is_cont. rewrite Hd, (cont_range _ _ _ Hb); [done|by lead_bounds; lia..].
    - intros l''. unfold rune_width. cbn [app take fmap list_fmap]. by rewrite H2, H3, Hb, Hd. }
  destruct (in_range 240 244 (Ascii.nat_of_ascii c)) eqn:H4; [|done].
  destruct l as [|d [|e l]]; [done..|]. cbn [take fmap list_fmap] in H.
  match type of H with context [in_range ?lo ?hi (Ascii.nat_of_ascii b)] => destruct (in_range lo hi (Ascii.nat_of_ascii b)) eqn:Hb end; [|done].
  destruct (in_range 128 191 (Ascii.nat_of_ascii d)) eqn:Hd; [|done].
  destruct (in_range 128 191 (Ascii.nat_of_ascii e)) eqn:He; [|done]. injection H as <-.
  exists [b; d; e], l. split_and!; [done..| |].
  - cbn [forallb]. unfold is_cont. rewrite Hd, He, (cont_range _ _ _ Hb); [done|by lead_bounds; lia..].
  - intros l''. unfold rune_width. cbn [app take fmap list_fmap]. by rewrite H2, H3, H4, Hb, Hd, He.
Qed.

(** Only the continuation bytes that follow a byte decide its rune. *)
Definition conts (l : bytes) : bytes := (span is_cont l).1.

Lemma rune_width_conts c l : rune_width (c :: l) = rune_width (c :: conts l).
Proof.
  destruct (rune_width (c :: l)) as [|[|k]] eqn:E.
  - exfalso. revert E. unfold rune_width. by repeat case_match.
  - destruct (rune_width (c :: conts l)) as [|[|k]] eqn:E'; [|done|].
    + exfalso. revert E'. unfold rune_width. by repeat case_match.
    + apply rune_split in E' as (p & l' & Hp & _ & _ & Hw). rewrite <- E.
      assert (∃ r, l = conts l ++ r) as [r Hr].
      { clear. unfold conts. induction l as [|a l [r IH]]; [by exists []|]. cbn [span].
        destruct (is_cont a); [|by exists (a :: l)]. destruct (span is_cont l) as [x y]. cbn [fst] in *. exists r. cbn. by rewrite <- IH. }
      rewrite Hr, Hp, <- app_assoc. apply Hw.
  - apply rune_split in E as (p & l' & -> & _ & Hp & Hw).
    assert (∃ r, conts (p ++ l') = p ++ r) as [r ->]; [|by rewrite Hw].
    clear -Hp. unfold conts. induction p as [|a p IH]; [by eexists|]. cbn [forallb] in Hp. apply andb_true_iff in Hp as [Ha Hp].
    destruct (IH Hp) as [r Hr]. cbn [app span]. rewrite Ha. destruct (span is_cont (p ++ l')) as [x y]. cbn [fst] in *. exists r. cbn. by rewrite Hr.
Qed.

Lemma cont_safe c : is_cont c = true → html_safe c && is_plain c && negb (is_ascii c) = true.
Proof. revert c. apply (all_bytes_impl is_cont (λ c, html_safe c && is_plain c && negb (is_ascii c))). vm_compute. done. Qed.

Lemma conts_html l : conts (html_from 0 l) = conts l.
Proof.
  unfold conts. induction l as [|c l IH]; [done|]. destruct (is_cont c) eqn:Hc.
  - rewrite html_from_safe by (apply cont_safe in Hc; by repeat rewrite andb_true_iff in Hc; naive_solver).
    cbn [span]. rewrite Hc. destruct (span is_cont l), (span is_cont (html_from 0 l)). cbn [fst] in *. by rewrite IH.
  - cbn [span]. rewrite Hc. cbn [html_from]. destruct (html_special c); [done|].
    destruct (line_separator (c :: l)); [done|]. cbn [span]. by rewrite Hc.
Qed.

Lemma unquote_skip n k l : unquote_from n k l = unquote_from 0 k (drop n l).
Proof. revert n. induction l as [|c l IH]; intros [|n]; [done..|]. cbn [drop unquote_from]. apply IH. Qed.

Lemma unquote_copy p l : unquote_from 0 (length p) (p ++ l) = p ++ unquote_from 0 0 l.
Proof. induction p as [|c p IH]; [done|]. cbn [length app unquote_from]. by rewrite IH. Qed.

(** Unquoting, case by case. *)
Lemma unquote_ascii c l : is_ascii c = true → is_plain c = true → unquote_from 0 0 (c :: l) = c :: unquote_from 0 0 l.
Proof. intros Ha [_ Hp]%plain_not. cbn [unquote_from]. by rewrite Hp, Ha. Qed.

Lemma non_ascii_plain c : is_ascii c = false → is_plain c = true.
Proof.
  intros H. apply (all_bytes_impl (λ c, negb (is_ascii c)) is_plain); [vm_compute; done|]. by apply negb_true_iff.
Qed.

Lemma unquote_rune c p l : is_ascii c = false → rune_width (c :: p ++ l) = S (length p) → p ≠ [] →
  unquote_from 0 0 (c :: p ++ l) = c :: p ++ unquote_from 0 0 l.
Proof.
  intros Ha Hw Hp. destruct (plain_not c (non_ascii_plain c Ha)) as [_ Hb]. cbn [unquote_from].
  rewrite Hb, Ha, Hw. destruct p as [|d p]; [done|]. cbn [length]. by rewrite <- (unquote_copy (d :: p)).
Qed.

Lemma unquote_bad c l : is_ascii c = false → (rune_width (c :: l) <= 1)%nat →
  unquote_from 0 0 (c :: l) = replacement ++ unquote_from 0 0 l.
Proof.
  intros Ha Hw. destruct (plain_not c (non_ascii_plain c Ha)) as [_ Hb]. cbn [unquote_from]. rewrite Hb, Ha.
  destruct (rune_width (c :: l)) as [|[|]]; [done..|lia].
Qed.

Lemma unquote_simple e x l : simple_escape e = Some x →
  unquote_from 0 0 (backslash :: e :: l) = x :: unquote_from 0 0 l.
Proof. intros He. cbn [unquote_from]. rewrite (simple_not_u e x He), He. done. Qed.

Lemma unquote_hex l : unquote_from 0 0 (backslash :: "u"%char :: l) =
  (unquote_u l).1 ++ unquote_from 0 0 (drop (unquote_u l).2 l).
Proof. cbn [unquote_from]. rewrite <- unquote_skip. done. Qed.

Ltac each_special Hs := apply html_special_inv in Hs; rewrite !elem_of_cons, elem_of_nil in Hs; destruct Hs as [->|[->|[->|[]]]].

Lemma low_next_not_backslash c b : Ascii.eqb c backslash = false → low_next (c :: b) = None.
Proof. intros H. destruct b as [|u b]; [done|]. cbn [low_next]. by rewrite H. Qed.

Definition hex_run (h : bytes) : Prop :=
  ∃ h1 h2 h3 h4, h = [h1; h2; h3; h4] ∧ is_hex h1 = true ∧ is_hex h2 = true ∧ is_hex h3 = true ∧ is_hex h4 = true.

Lemma hex_run_safe h : hex_run h → forallb html_safe ([backslash; "u"%char] ++ h) = true.
Proof.
  intros (h1 & h2 & h3 & h4 & -> & H1 & H2 & H3 & H4). cbn [app forallb].
  apply hex_safe in H1, H2, H3, H4. repeat rewrite andb_true_iff in *. naive_solver.
Qed.

(** A body by what it starts with. *)
Lemma body_cases b : body_ok b →
  b = [] ∨ (∃ c b', b = c :: b' ∧ is_plain c = true ∧ body_ok b') ∨
  (∃ e x b', b = backslash :: e :: b' ∧ simple_escape e = Some x ∧ body_ok b') ∨
  (∃ h b', b = [backslash; "u"%char] ++ h ++ b' ∧ hex_run h ∧ body_ok b').
Proof.
  destruct 1 as [|c b|e x b|h1 h2 h3 h4 b]; [by left|right; left; eauto|do 2 right; left; eauto 10|do 3 right].
  exists [h1; h2; h3; h4], b. unfold hex_run. eauto 20.
Qed.

Lemma hex4_run h b : hex_run h → hex4 (h ++ b) = hex4 h ∧ is_Some (hex4 h) ∧ drop 4 (h ++ b) = b.
Proof.
  intros (h1 & h2 & h3 & h4 & -> & H1 & H2 & H3 & H4). split; [done|]. split; [|done].
  revert H1 H2 H3 H4. unfold is_hex, hex4. repeat case_match; naive_solver.
Qed.

Lemma low_next_hex h b : hex_run h → low_next ([backslash; "u"%char] ++ h ++ b) =
  m ← hex4 h; if low_surrogate m then Some m else None.
Proof. intros Hh. cbn [app low_next]. by rewrite (proj1 (hex4_run h b Hh)). Qed.

Lemma html_simple e x l : simple_escape e = Some x → html_from 0 (backslash :: e :: l) = backslash :: e :: html_from 0 l.
Proof. intros He. rewrite !html_from_safe; [done|by eapply simple_safe|done]. Qed.

Lemma html_hex h l : hex_run h → html_from 0 ([backslash; "u"%char] ++ h ++ l) = [backslash; "u"%char] ++ h ++ html_from 0 l.
Proof. intros Hh. rewrite app_assoc, html_from_safes, <- app_assoc; [done|by apply hex_run_safe]. Qed.

Lemma low_next_html b : body_ok b → low_next (html_from 0 b) = low_next b.
Proof.
  intros Hb. destruct (body_cases b Hb) as [->|[(c & b' & -> & Hc & _)|[(e & x & b' & -> & He & _)|(h & b' & -> & Hh & _)]]].
  - done.
  - destruct (plain_not c Hc) as [_ Hn]. rewrite (low_next_not_backslash c) by done. cbn [html_from].
    destruct (html_special c) eqn:Hs.
    + by each_special Hs.
    + destruct (line_separator (c :: b')) as [d|] eqn:Hl; [|by apply low_next_not_backslash].
      by apply line_separator_inv in Hl as (? & ? & _ & [[_ ->]|[_ ->]]).
  - rewrite (html_simple e x) by done. cbn [low_next]. by rewrite (simple_not_u e x He), andb_false_r.
  - rewrite html_hex by done. by rewrite !low_next_hex.
Qed.

Lemma low_next_inv b m : body_ok b → low_next b = Some m →
  ∃ h b', b = [backslash; "u"%char] ++ h ++ b' ∧ hex_run h ∧ body_ok b'.
Proof.
  intros Hb. destruct (body_cases b Hb) as [->|[(c & b' & -> & Hc & _)|[(e & x & b' & -> & He & _)|(h & b' & -> & Hh & ?)]]].
  - done.
  - destruct (plain_not c Hc) as [_ Hn]. by rewrite (low_next_not_backslash c).
  - cbn [low_next]. by rewrite (simple_not_u e x He), andb_false_r.
  - eauto.
Qed.

Lemma unquote_u_eq h b : hex_run h → ∃ n, hex4 h = Some n ∧
  unquote_u (h ++ b) =
    if surrogate n then
      match (if high_surrogate n then low_next b else None) with
      | Some m => (encode_rune (65536 + (n - 55296) * 1024 + (m - 56320))%Z, 10%nat)
      | None => (replacement, 4%nat)
      end
    else (encode_rune n, 4%nat).
Proof.
  intros Hh. destruct (hex4_run h b Hh) as (E & [n Hn] & D). exists n. split; [done|].
  unfold unquote_u. by rewrite E, Hn, D.
Qed.

Lemma drop_run h b : hex_run h → drop 4 (h ++ b) = b.
Proof. by intros (h1 & h2 & h3 & h4 & -> & _). Qed.

Lemma drop_escape h b : hex_run h → drop 6 ([backslash; "u"%char] ++ h ++ b) = b.
Proof. by intros (h1 & h2 & h3 & h4 & -> & _). Qed.

Lemma drop_hex h b : hex_run h → drop 10 (h ++ b) = drop 6 b.
Proof. by intros (h1 & h2 & h3 & h4 & -> & _). Qed.

(** Escaping for HTML does not change the string. *)
Lemma html_unquote b : body_ok b → unquote_from 0 0 (html_from 0 b) = unquote_from 0 0 b.
Proof.
  induction b as [b IH] using list_len_ind. intros Hb.
  destruct (body_cases b Hb) as [->|[(c & l & -> & Hc & Hl)|[(e & x & l & -> & He & Hl)|(h & l & -> & Hh & Hl)]]].
  - done.
  - destruct (is_ascii c) eqn:Ha.
    + rewrite (unquote_ascii c l) by done. rewrite <- (IH l); [|cbn; lia|done]. cbn [html_from].
      destruct (html_special c) eqn:Hs.
      * by each_special Hs.
      * destruct (line_separator (c :: l)) as [d|] eqn:Hsep; [|by apply unquote_ascii].
        apply line_separator_inv in Hsep as (? & ? & [= -> _] & _). done.
    + cbn [html_from]. destruct (html_special c) eqn:Hs.
      { by each_special Hs. }
      destruct (line_separator (c :: l)) as [d|] eqn:Hsep.
      * apply line_separator_inv in Hsep as (c' & l' & [= -> ->] & Hd). cbn [html_from].
        rewrite (unquote_rune _ [byte_of 128; c'] l'); [|done|by destruct Hd as [[-> _]|[-> _]]|done].
        rewrite <- (IH l'); [|cbn; lia|].
        -- by destruct Hd as [[-> ->]|[-> ->]].
        -- revert Hl. apply (body_ok_plains [byte_of 128; c']). by destruct Hd as [[-> _]|[-> _]].
      * destruct (rune_width (c :: l)) as [|[|k]] eqn:Hw.
        1,2: rewrite !unquote_bad by (try done; rewrite 1?rune_width_conts, 1?conts_html, <- 1?rune_width_conts; lia);
             rewrite IH; [done|cbn; lia|done].
        apply rune_split in Hw as (p & l' & -> & Hp & Hcs & Hw).
        assert (p ≠ []) by (by intros ->).
        rewrite html_from_safes, !unquote_rune; try done; try by rewrite Hw, Hp.
        -- rewrite IH; [done|cbn; rewrite length_app; lia|].
           revert Hl. apply body_ok_plains. revert Hcs. apply forallb_impl. intros y Hy%cont_safe. repeat rewrite andb_true_iff in Hy. naive_solver.
        -- revert Hcs. apply forallb_impl. intros y Hy%cont_safe. repeat rewrite andb_true_iff in Hy. naive_solver.
  - rewrite (html_simple e x) by done. rewrite !(unquote_simple e x) by done. rewrite IH; [done|cbn; lia|done].
  - rewrite html_hex by done. cbn [app]. rewrite !unquote_hex.
    destruct (unquote_u_eq h l Hh) as (n & Hn & ->). destruct (unquote_u_eq h (html_from 0 l) Hh) as (n' & Hn' & ->).
    rewrite Hn in Hn'. injection Hn' as <-. rewrite low_next_html by done.
    destruct (surrogate n); [destruct (if high_surrogate n then low_next l else None) as [m|] eqn:Hm|]; cbn [fst snd].
    + rewrite !drop_hex by done. assert (low_next l = Some m) as Hlow by (by destruct (high_surrogate n)).
      apply low_next_inv in Hlow as (g & l' & -> & Hg & Hl'); [|done].
      rewrite html_hex, !drop_escape by done. rewrite (IH l'); [done|rewrite !length_app; cbn; lia|done].
    + rewrite !drop_run by done. rewrite IH; [done|rewrite !length_app; cbn; lia|done].
    + rewrite !drop_run by done. rewrite IH; [done|rewrite !length_app; cbn; lia|done].
Qed.

(** *** Valid UTF-8 *)

Inductive utf8 : bytes -> Prop :=
| utf8_nil : utf8 []
| utf8_ascii c l : is_ascii c = true -> utf8 l -> utf8 (c :: l)
| utf8_rune c p l :
    is_ascii c = false -> p ≠ [] -> rune_width (c :: p) = S (length p) -> utf8 l -> utf8 (c :: p ++ l).

Lemma rune_app c p l : rune_width (c :: p) = S (length p) → p ≠ [] → rune_width (c :: p ++ l) = S (length p).
Proof.
  intros Hw Hp. destruct p as [|d p]; [done|]. cbn [length] in *.
  destruct (rune_split c (d :: p) (length p) Hw) as (q & l' & E & Hq & _ & H).
  assert (l' = []) as ->.
  { apply (f_equal length) in E. rewrite length_app, Hq in E. cbn in E. destruct l'; [done|]. cbn in E. lia. }
  rewrite app_nil_r in E. rewrite E. apply H.
Qed.

Lemma utf8_app a b : utf8 a → utf8 b → utf8 (a ++ b).
Proof.
  intros Ha Hb. induction Ha as [|c l Hc _ IH|c p l Hc Hp Hw _ IH]; [done|by apply utf8_ascii|].
  cbn [app]. rewrite <- app_assoc. by apply utf8_rune.
Qed.

(** The bytes of a longer rune are no ASCII. *)
Lemma rune_non_ascii c p : is_ascii c = false → p ≠ [] → rune_width (c :: p) = S (length p) →
  forallb (λ y, negb (is_ascii y)) (c :: p) = true.
Proof.
  intros Hc Hp Hw. cbn [forallb]. rewrite Hc. destruct p as [|y p]; [done|].
  destruct (rune_split c (y :: p) (length p) Hw) as (q & r & Eq & Hq & Hcs & _).
  assert (r = []) as -> by (apply (f_equal length) in Eq; rewrite length_app in Eq; destruct r; cbn in *; [done|lia]).
  rewrite app_nil_r in Eq. rewrite Eq. revert Hcs. apply forallb_impl.
  intros z Hz%cont_safe. repeat rewrite andb_true_iff in Hz. naive_solver.
Qed.

(** An ASCII byte of a valid string cuts it into valid strings. *)
Lemma utf8_cut l : utf8 l → ∀ a c b, l = a ++ c :: b → is_ascii c = true → utf8 a ∧ utf8 b.
Proof.
  induction 1 as [|x l Hx Hl IH|x p l Hx Hp Hw Hl IH]; intros a c b E Hc.
  - by destruct a.
  - destruct a as [|y a]; injection E as -> E; [subst; split; [constructor|done]|].
    destruct (IH a c b E Hc). split; [by constructor|done].
  - pose proof (rune_non_ascii x p Hx Hp Hw) as Hna.
    change (x :: p ++ l) with ((x :: p) ++ l) in E. apply app_eq_inv in E as [(d & E1 & E2)|(d & E1 & E2)].
    + destruct d as [|y d].
      * cbn in E2. rewrite app_nil_r in E1. destruct (IH [] c b) as [_ Hb]; [by rewrite E2|done|]. split; [|done].
        rewrite <- E1, <- (app_nil_r p). by constructor; [..|constructor].
      * exfalso. cbn in E2. injection E2 as E2 _. subst y. rewrite E1, forallb_app in Hna.
        cbn [forallb] in Hna. rewrite Hc in Hna. by rewrite andb_comm in Hna.
    + destruct (IH d c b E2 Hc) as [Hd Hb]. split; [|done]. rewrite E1. by apply utf8_rune.
Qed.

Lemma utf8_after l : utf8 l → ∀ a c b, l = a ++ c :: b → is_ascii c = true → utf8 b.
Proof. intros H a c b E Hc. by destruct (utf8_cut l H a c b E Hc). Qed.

Lemma non_ascii_forall (P : ascii → Prop) l :
  forallb (λ y, negb (is_ascii y)) l = true → (∀ c, is_ascii c = false → P c) → Forall P l.
Proof.
  intros H HP. apply Forall_forall. intros c Hc. apply HP, negb_true_iff.
  rewrite forallb_forall in H. by apply H, list_elem_of_In.
Qed.

(** Changing and dropping ASCII bytes leaves a string valid. *)
Lemma utf8_map f l : (∀ c, is_ascii c = true → is_ascii (f c) = true) → (∀ c, is_ascii c = false → f c = c) →
  utf8 l → utf8 (f <$> l).
Proof.
  intros Ha Hna. induction 1 as [|x l Hx Hl IH|x p l Hx Hp Hw Hl IH]; [constructor|constructor; auto|].
  pose proof (non_ascii_forall (λ c, f c = c) _ (rune_non_ascii x p Hx Hp Hw) Hna) as Hf.
  change (x :: p ++ l) with ((x :: p) ++ l). rewrite fmap_app.
  assert (f <$> x :: p = x :: p) as ->
    by (revert Hf; generalize (x :: p); induction 1 as [|y q Hy _ IHq]; [done|]; cbn in *; by rewrite Hy, IHq).
  by apply utf8_rune.
Qed.

Lemma utf8_filter f l : (∀ c, is_ascii c = false → f c = true) → utf8 l → utf8 (List.filter f l).
Proof.
  intros Hna. induction 1 as [|x l Hx Hl IH|x p l Hx Hp Hw Hl IH]; [constructor|cbn; destruct (f x); by try constructor|].
  pose proof (non_ascii_forall (λ c, f c = true) _ (rune_non_ascii x p Hx Hp Hw) Hna) as Hf.
  change (x :: p ++ l) with ((x :: p) ++ l). rewrite List.filter_app.
  assert (List.filter f (x :: p) = x :: p) as ->
    by (revert Hf; generalize (x :: p); induction 1 as [|y q Hy _ IHq]; [done|]; cbn in *; by rewrite Hy, IHq).
  by apply utf8_rune.
Qed.

Lemma valid_runes_utf8 n l : (length l <= n)%nat → valid_runes n l = true → utf8 l.
Proof.
  revert l. induction n as [|n IH]; intros [|c l] Hn H; [constructor|cbn in Hn; lia|constructor|].
  cbn in Hn.
  cbn [valid_runes] in H. destruct (is_ascii c) eqn:Hc.
  - apply utf8_ascii; [done|]. apply IH; [lia|done].
  - destruct (rune_width (c :: l)) as [|[|k]] eqn:Hw; cbn in H.
    + exfalso. revert Hw. unfold rune_width. by repeat case_match.
    + done.
    + destruct (rune_split c l k Hw) as (p & l' & -> & Hp & _ & Hw').
      apply utf8_rune; [done|by intros ->| |].
      * rewrite Hp, <- (app_nil_r p). apply Hw'.
      * apply IH; [rewrite length_app in Hn; lia|]. revert H. by rewrite <- Hp, drop_app_length.
Qed.

Lemma ValidString_utf8 s : ValidString s = true → utf8 (to_bytes s).
Proof. apply valid_runes_utf8. clear. induction s as [|c s IH]; [done|].
  change (S (length (to_bytes s)) <= S (String.length s))%nat. lia. Qed.

Lemma ascii_utf8 l : forallb is_ascii l = true → utf8 l.
Proof. induction l as [|c l IH]; [constructor|]. intros [? ?]%andb_true_iff. apply utf8_ascii; auto. Qed.

Lemma nat_byte z : (0 ≤ z < 256)%Z → Ascii.nat_of_ascii (byte_of (Z.to_nat z)) = Z.to_nat z.
Proof. intros Hz. unfold byte_of. apply Ascii.nat_ascii_embedding. lia. Qed.

Lemma in_range_eq lo hi n : in_range lo hi n = bool_decide (lo <= n <= hi)%nat.
Proof.
  unfold in_range. destruct (Nat.leb_spec lo n), (Nat.leb_spec n hi); cbn; symmetry;
    [apply bool_decide_eq_true_2|apply bool_decide_eq_false_2..]; lia.
Qed.

Ltac ranges := repeat match goal with
  | |- context [bool_decide ?P] =>
      first [rewrite (bool_decide_eq_true_2 P) by lia | rewrite (bool_decide_eq_false_2 P) by lia]
  end.

Lemma encode_rune_utf8 n : (0 ≤ n < 1114112)%Z → surrogate n = false → utf8 (encode_rune n).
Proof.
  intros Hn Hs. unfold surrogate in Hs. apply andb_false_iff in Hs. rewrite Z.leb_gt, Z.ltb_ge in Hs.
  unfold encode_rune. destruct (Z.ltb_spec n 128) as [H1|H1].
  { apply ascii_utf8. cbn [forallb]. unfold is_ascii. rewrite nat_byte, andb_true_r by lia. apply Nat.ltb_lt. lia. }
  assert (∀ c p, is_ascii c = false → p ≠ [] → rune_width (c :: p) = S (length p) → utf8 (c :: p)) as Hmulti.
  { intros c p ? ? ?. rewrite <- (app_nil_r p). apply utf8_rune; [done..|constructor]. }
  assert (∀ z, (128 ≤ z < 256)%Z → is_ascii (byte_of (Z.to_nat z)) = false) as Hna.
  { intros z Hz. unfold is_ascii. rewrite nat_byte by lia. apply Nat.ltb_ge. lia. }
  destruct (Z.ltb_spec n 2048) as [H2|H2]; [|destruct (Z.ltb_spec n 65536) as [H3|H3]].
  - apply Hmulti; [apply Hna; Z.div_mod_to_equations; lia|done|].
    unfold rune_width. cbn [take fmap list_fmap length]. rewrite !nat_byte, !in_range_eq by (Z.div_mod_to_equations; lia).
    set (a := (n / 64)%Z). set (b := (n mod 64)%Z). assert (0 ≤ b < 64 ∧ n = 64 * a + b)%Z by (unfold a, b; Z.div_mod_to_equations; lia).
    ranges. done.
  - apply Hmulti; [apply Hna; Z.div_mod_to_equations; lia|done|].
    unfold rune_width. cbn [take fmap list_fmap length]. rewrite !nat_byte, !in_range_eq by (Z.div_mod_to_equations; lia).
    set (a := (n / 4096)%Z). set (b := ((n / 64) mod 64)%Z). set (c := (n mod 64)%Z).
    assert (0 ≤ b < 64 ∧ 0 ≤ c < 64 ∧ n = 4096 * a + 64 * b + c)%Z by (unfold a, b, c; Z.div_mod_to_equations; lia).
    destruct (Nat.eqb_spec (Z.to_nat (224 + a)) 224), (Nat.eqb_spec (Z.to_nat (224 + a)) 237); ranges; first [done|exfalso; lia].
  - apply Hmulti; [apply Hna; Z.div_mod_to_equations; lia|done|].
    unfold rune_width. cbn [take fmap list_fmap length]. rewrite !nat_byte, !in_range_eq by (Z.div_mod_to_equations; lia).
    set (a := (n / 262144)%Z). set (b := ((n / 4096) mod 64)%Z). set (c := ((n / 64) mod 64)%Z). set (d := (n mod 64)%Z).
    assert (0 ≤ b < 64 ∧ 0 ≤ c < 64 ∧ 0 ≤ d < 64 ∧ n = 262144 * a + 4096 * b + 64 * c + d)%Z by (unfold a, b, c, d; Z.div_mod_to_equations; lia).
    destruct (Nat.eqb_spec (Z.to_nat (240 + a)) 240), (Nat.eqb_spec (Z.to_nat (240 + a)) 244); ranges; first [done|exfalso; lia].
Qed.

Ltac shorter := repeat (cbn [length app]; rewrite ?length_app); lia.

Lemma replacement_utf8 : utf8 replacement.
Proof. apply (ValidString_utf8 (of_bytes replacement)). vm_compute. done. Qed.

Lemma hex_value_lt c n : hex_value c = Some n → (n < 16)%nat.
Proof. unfold hex_value. rewrite !in_range_eq. repeat case_bool_decide; intros [= <-]; lia. Qed.

Lemma hex4_range l n : hex4 l = Some n → (0 ≤ n < 65536)%Z.
Proof.
  unfold hex4. repeat case_match; try done. intros [= <-].
  repeat match goal with H : hex_value _ = Some _ |- _ => apply hex_value_lt in H end. lia.
Qed.

Lemma low_next_range l m : low_next l = Some m → (56320 ≤ m < 57344)%Z.
Proof.
  unfold low_next. repeat case_match; try done. intros Hm.
  apply bind_Some in Hm as (x & Hx & Hm). destruct (low_surrogate x) eqn:E; [|done]. injection Hm as <-.
  apply andb_true_iff in E. rewrite Z.leb_le, Z.ltb_lt in E. lia.
Qed.

Lemma unquote_u_utf8 l : utf8 (unquote_u l).1.
Proof.
  unfold unquote_u. destruct (hex4 l) as [n|] eqn:Hn; [|constructor]. apply hex4_range in Hn.
  destruct (surrogate n) eqn:Hs; [|apply encode_rune_utf8; [lia|done]].
  destruct (if high_surrogate n then low_next (drop 4 l) else None) as [m|] eqn:Hm; [|apply replacement_utf8].
  destruct (high_surrogate n) eqn:Hh; [|done]. apply low_next_range in Hm.
  apply andb_true_iff in Hh. rewrite Z.leb_le, Z.ltb_lt in Hh. apply encode_rune_utf8; [lia|].
  apply andb_false_iff. right. apply Z.ltb_ge. lia.
Qed.

Lemma simple_ascii e x : simple_escape e = Some x → is_ascii x = true.
Proof.
  intros H. pose proof (all_bytes (λ e, match simple_escape e with Some x => is_ascii x | None => true end)) as Hall.
  cbn in Hall. specialize (Hall ltac:(vm_compute; done) e). by rewrite H in Hall.
Qed.

(** What is unquoted is valid UTF-8. *)
Lemma unquote_utf8 b : body_ok b → utf8 (unquote_from 0 0 b).
Proof.
  induction b as [b IH] using list_len_ind. intros Hb.
  destruct (body_cases b Hb) as [->|[(c & l & -> & Hc & Hl)|[(e & x & l & -> & He & Hl)|(h & l & -> & Hh & Hl)]]].
  - constructor.
  - destruct (is_ascii c) eqn:Ha.
    { rewrite unquote_ascii by done. apply utf8_ascii; [done|]. apply IH; [cbn; lia|done]. }
    destruct (rune_width (c :: l)) as [|[|k]] eqn:Hw.
    1,2: rewrite unquote_bad by (done || lia); apply utf8_app; [apply replacement_utf8|apply IH; [cbn; lia|done]].
    apply rune_split in Hw as (p & l' & -> & Hp & Hcs & Hw). assert (p ≠ []) by (by intros ->).
    rewrite unquote_rune by (done || by rewrite Hw, Hp).
    apply utf8_rune; [done..| |].
    + rewrite Hp, <- (app_nil_r p). apply Hw.
    + apply IH; [cbn; rewrite length_app; lia|]. revert Hl. apply body_ok_plains. revert Hcs. apply forallb_impl.
      intros y Hy%cont_safe. repeat rewrite andb_true_iff in Hy. naive_solver.
  - rewrite (unquote_simple e x) by done. apply utf8_ascii; [by eapply simple_ascii|]. apply IH; [cbn; lia|done].
  - cbn [app]. rewrite unquote_hex. apply utf8_app; [apply unquote_u_utf8|].
    destruct (unquote_u_eq h l Hh) as (n & Hn & ->).
    destruct (surrogate n); [destruct (if high_surrogate n then low_next l else None) as [m|] eqn:Hm|]; cbn [fst snd].
    + rewrite drop_hex by done. assert (low_next l = Some m) as Hlow by (by destruct (high_surrogate n)).
      apply low_next_inv in Hlow as (g & l' & -> & Hg & Hl'); [|done]. rewrite drop_escape by done.
      apply IH; [shorter|done].
    + rewrite drop_run by done. apply IH; [shorter|done].
    + rewrite drop_run by done. apply IH; [shorter|done].
Qed.

(** *** Quoting *)

Lemma quote_skip n k l : quote_from n k l = quote_from 0 k (drop n l).
Proof. revert n. induction l as [|c l IH]; intros [|n]; [done..|]. cbn [drop quote_from]. apply IH. Qed.

Lemma quote_copy p l : quote_from 0 (length p) (p ++ l) = p ++ quote_from 0 0 l.
Proof. induction p as [|c p IH]; [done|]. cbn [length app quote_from]. by rewrite IH. Qed.

Lemma ascii_cases (P : ascii → Prop) : (∀ n, (n < 128)%nat → P (byte_of n)) → ∀ c, is_ascii c = true → P c.
Proof.
  intros H c Hc. unfold is_ascii in Hc. apply Nat.ltb_lt in Hc. specialize (H _ Hc). unfold byte_of in H. by rewrite Ascii.ascii_nat_embedding in H.
Qed.

Lemma quote_ascii_body c b : is_ascii c = true → body_ok b → body_ok (quote_ascii c ++ b).
Proof.
  intros Hc Hb. revert c Hc. apply ascii_cases. intros n Hn.
  do 128 (destruct n as [|n]; [first [apply body_plain; [reflexivity|done] | eapply body_simple; [reflexivity|done] | apply body_hex; [reflexivity..|done]]|]). lia.
Qed.

Lemma quote_ascii_unquote c l : is_ascii c = true → unquote_from 0 0 (quote_ascii c ++ l) = c :: unquote_from 0 0 l.
Proof.
  revert c. apply ascii_cases. intros n Hn. do 128 (destruct n as [|n]; [reflexivity|]). lia.
Qed.

Lemma line_separator_unquote l d l' : line_separator l = Some d →
  unquote_from 0 0 (escape_202 d ++ l') = take 3 l ++ unquote_from 0 0 l'.
Proof. intros (c & r & -> & [[-> ->]|[-> ->]])%line_separator_inv; reflexivity. Qed.

Lemma quote_body_ok l : body_ok (quote_from 0 0 l).
Proof.
  induction l as [l IH] using list_len_ind. destruct l as [|c l]; [constructor|]. cbn [quote_from].
  destruct (is_ascii c) eqn:Ha; [apply quote_ascii_body; [done|apply IH; shorter]|].
  destruct (line_separator (c :: l)) as [d|] eqn:Hs.
  - apply line_separator_inv in Hs as (c' & r & [= -> ->] & Hd). cbn [quote_from].
    apply escape_202_body; [by destruct Hd as [[_ ->]|[_ ->]]|]. apply IH. shorter.
  - destruct (rune_width (c :: l)) as [|[|k]] eqn:Hw.
    1,2: apply (body_hex "f" "f" "f" "d")%char; try done; apply IH; shorter.
    apply rune_split in Hw as (p & l' & -> & Hp & Hcs & _).
    apply body_plain; [by apply non_ascii_plain|]. rewrite <- Hp, quote_copy.
    apply body_ok_plains; [|apply IH; shorter]. revert Hcs. apply forallb_impl.
    intros y Hy%cont_safe. repeat rewrite andb_true_iff in Hy. naive_solver.
Qed.

(** A valid string comes back from its body. *)
Lemma unquote_quote l : utf8 l → unquote_from 0 0 (quote_from 0 0 l) = l.
Proof.
  induction 1 as [|c l Hc _ IH|c p l Hc Hp Hw _ IH]; [done| |].
  - cbn [quote_from]. rewrite Hc, quote_ascii_unquote, IH; done.
  - cbn [quote_from]. rewrite Hc.
    destruct (line_separator (c :: p ++ l)) as [d|] eqn:Hs.
    + pose proof Hs as Hs'. apply line_separator_inv in Hs' as (c' & r & [= -> E] & Hd).
      assert (length p = 2%nat) as Hp2.
      { apply (rune_app _ _ l) in Hw; [|done]. rewrite E in Hw. by destruct Hd as [[-> _]|[-> _]]; injection Hw. }
      rewrite (line_separator_unquote _ _ _ Hs), quote_skip. cbn [take].
      rewrite <- Hp2, drop_app_length, take_app_length, IH. done.
    + rewrite (rune_app c p l) by done. destruct p as [|x p]; [done|]. cbn [length].
      pose proof (quote_copy (x :: p) l) as E. cbn [length] in E. rewrite E.
      rewrite unquote_rune; [by rewrite IH|done| |done]. apply rune_app; done.
Qed.

(** ** What is printed parses back *)

(** Well-formed, and nested at most [d] deep. *)
Inductive fits : nat -> Raw -> Prop :=
| fits_null d : fits d RNull
| fits_bool d b : fits d (RBool b)
| fits_num d t : num_ok t = true -> forallb num_char t = true -> fits d (RNum t)
| fits_str d b : body_ok b -> fits d (RStr b)
| fits_arr d l : Forall (fits d) l -> fits (S d) (RArr l)
| fits_obj d ms : Forall (fun m => body_ok m.1 /\ fits d m.2) ms -> fits (S d) (RObj ms).

(** A document as it reads after it was printed. *)
Fixpoint esc (v : Raw) : Raw :=
  match v with
  | RStr b => RStr (html_escape b)
  | RArr l => RArr (esc <$> l)
  | RObj ms => RObj ((fun m => (html_escape m.1, esc m.2)) <$> ms)
  | _ => v
  end.

Lemma span_all p l : forallb p (span p l).1 = true ∧ l = (span p l).1 ++ (span p l).2.
Proof.
  induction l as [|c l [IH1 IH2]]; [done|]. cbn [span]. destruct (p c) eqn:Hc; [|done].
  destruct (span p l) as [a b]. cbn [fst snd forallb app] in *. rewrite Hc, IH1, <- IH2. done.
Qed.

Lemma span_app p a b : forallb p a = true → (∀ c r, b = c :: r → p c = false) → span p (a ++ b) = (a, b).
Proof.
  intros Ha Hb. induction a as [|c a IH]; cbn [app span].
  - destruct b as [|c r]; [done|]. cbn [span]. by rewrite (Hb c r).
  - cbn [forallb] in Ha. apply andb_true_iff in Ha as [-> Ha]. by rewrite IH.
Qed.

Lemma parse_elems_fits (P : Raw → Prop) pv n l vs r :
  (∀ l v r, pv l = Some (v, r) → P v) → parse_elems pv n l = Some (vs, r) → Forall P vs.
Proof.
  intros Hpv. revert l vs r. induction n as [|n IH]; [done|]. intros l vs r. cbn [parse_elems].
  destruct (pv (skip_ws l)) as [[v r1]|] eqn:Hv; [|done]. cbn [mbind option_bind].
  destruct (skip_ws r1) as [|c r2]; [done|].
  destruct (Ascii.eqb c ","%char); [|destruct (Ascii.eqb c "]"%char); [|done]].
  - destruct (parse_elems pv n r2) as [[vs' r3]|] eqn:E; [|done]. intros [= <- <-]. constructor; eauto.
  - intros [= <- <-]. repeat constructor. eauto.
Qed.

Lemma parse_member_fits (P : Raw → Prop) pv l m r :
  (∀ l v r, pv l = Some (v, r) → P v) → parse_member pv l = Some (m, r) → body_ok m.1 ∧ P m.2.
Proof.
  intros Hpv. unfold parse_member. destruct (skip_ws l) as [|c l']; [done|].
  destruct (Ascii.eqb c quote_byte); [|done]. destruct (scan_string l') as [[k r1]|] eqn:Hk; [|done].
  cbn [mbind option_bind]. destruct (skip_ws r1) as [|d r2]; [done|]. destruct (Ascii.eqb d ":"%char); [|done].
  destruct (pv (skip_ws r2)) as [[v r3]|] eqn:Hv; [|done]. intros [= <- <-]. cbn [fst snd].
  split; [by apply scan_string_ok in Hk as [? _]|eauto].
Qed.

Lemma parse_members_fits (P : Raw → Prop) pv n l ms r :
  (∀ l v r, pv l = Some (v, r) → P v) → parse_members pv n l = Some (ms, r) → Forall (λ m, body_ok m.1 ∧ P m.2) ms.
Proof.
  intros Hpv. revert l ms r. induction n as [|n IH]; [done|]. intros l ms r. cbn [parse_members].
  destruct (parse_member pv l) as [[m r1]|] eqn:Hm; [|done]. cbn [mbind option_bind].
  pose proof (parse_member_fits P pv l m r1 Hpv Hm).
  destruct (skip_ws r1) as [|c r2]; [done|].
  destruct (Ascii.eqb c ","%char); [|destruct (Ascii.eqb c "}"%char); [|done]].
  - destruct (parse_members pv n r2) as [[ms' r3]|] eqn:E; [|done]. intros [= <- <-]. constructor; eauto.
  - intros [= <- <-]. by apply Forall_singleton.
Qed.

(** What the parser returns is well-formed. *)
Lemma parse_value_fits d l v r : parse_value d l = Some (v, r) → fits d v.
Proof.
  revert l v r. induction d as [|d IH]; intros [|c l] v r; try done; cbn [parse_value];
    (destruct (Ascii.eqb c quote_byte);
       [destruct (scan_string l) as [[b r']|] eqn:E; [|done]; intros [= <- <-];
        apply scan_string_ok in E as [E _]; by constructor|]).
  all: destruct (Ascii.eqb c "["%char).
  1: done. 2: { unfold parse_array. destruct (closes "]"%char l); [intros [= <- <-]; by repeat constructor|].
    destruct (parse_elems (parse_value d) (length l) l) as [[vs r']|] eqn:E; [|done]. intros [= <- <-].
    constructor. by eapply parse_elems_fits. }
  all: destruct (Ascii.eqb c "{"%char).
  1: done. 2: { unfold parse_object. destruct (closes "}"%char l); [intros [= <- <-]; by repeat constructor|].
    destruct (parse_members (parse_value d) (length l) l) as [[ms r']|] eqn:E; [|done]. intros [= <- <-].
    constructor. by eapply parse_members_fits. }
  all: destruct (Ascii.eqb c "t"%char); [by destruct (strip_prefix _ _); intros [= <- <-]; constructor|].
  all: destruct (Ascii.eqb c "f"%char); [by destruct (strip_prefix _ _); intros [= <- <-]; constructor|].
  all: destruct (Ascii.eqb c "n"%char); [by destruct (strip_prefix _ _); intros [= <- <-]; constructor|].
  all: pose proof (span_all num_char (c :: l)) as [Hs _]; destruct (span num_char (c :: l)) as [t' r']; cbn [fst] in Hs.
  all: destruct (num_ok t') eqn:Ht; [intros [= <- <-]; by constructor|done].
Qed.

(** What may follow a value in what is printed. *)
Definition stops (r : bytes) : Prop := ∀ c r', r = c :: r' → num_char c = false ∧ is_ws c = false.

Lemma stops_nil : stops [].
Proof. done. Qed.

Lemma stops_cons c r : bool_decide (c ∈ [","; "]"; "}"]%char) = true → stops (c :: r).
Proof.
  intros H c' r' [= <- _].
  pose proof (all_bytes_impl (λ c, bool_decide (c ∈ [","; "]"; "}"]%char)) (λ c, negb (num_char c) && negb (is_ws c))) as Hall.
  specialize (Hall ltac:(vm_compute; done) c H). cbn in Hall. by destruct (num_char c), (is_ws c).
Qed.

Lemma num_start c : num_char c = true →
  is_ws c = false ∧ bool_decide (c ∈ [quote_byte; "["; "{"; "t"; "f"; "n"; "]"; "}"]%char) = false.
Proof.
  intros H. pose proof (all_bytes_impl num_char
    (λ c, negb (is_ws c) && negb (bool_decide (c ∈ [quote_byte; "["; "{"; "t"; "f"; "n"; "]"; "}"]%char)))) as Hall.
  specialize (Hall ltac:(vm_compute; done) c H). cbn beta in Hall.
  by apply andb_true_iff in Hall as [?%negb_true_iff ?%negb_true_iff].
Qed.

Lemma num_ok_cons t : num_ok t = true → ∃ c t', t = c :: t'.
Proof. destruct t; [done|eauto]. Qed.

Lemma print_head d v : fits d v → ∃ c l, print v = c :: l ∧ is_ws c = false ∧ Ascii.eqb c "]"%char = false.
Proof.
  destruct 1 as [|? []|d t Hok Hc| | |]; try (eexists _, _; split; [reflexivity|done]).
  destruct (num_ok_cons t Hok) as (c & t' & ->). exists c, t'. cbn [forallb] in Hc. apply andb_true_iff in Hc as [Hc _].
  destruct (num_start c Hc) as [Hw Hn]. split_and!; [done..|]. apply Ascii.eqb_neq. intros ->. done.
Qed.

Lemma skip_ws_cons c l : is_ws c = false → skip_ws (c :: l) = c :: l.
Proof. intros H. cbn [skip_ws]. by rewrite H. Qed.

Lemma skip_ws_print d v r : fits d v → skip_ws (print v ++ r) = print v ++ r.
Proof. intros (c & l & -> & Hc & _)%print_head. by apply skip_ws_cons. Qed.

Lemma skip_ws_stops r : stops r → skip_ws r = r.
Proof. intros H. destruct r as [|c r]; [done|]. by apply skip_ws_cons, (H c r). Qed.

Lemma join_cons {x l} : l ≠ [] → join (x :: l) = x ++ ","%char :: join l.
Proof. by destruct l. Qed.

Definition print_member (m : bytes * Raw) : bytes := print_body m.1 ++ ":"%char :: print m.2.
Definition esc_member (m : bytes * Raw) : bytes * Raw := (html_escape m.1, esc m.2).

Lemma print_obj ms : print (RObj ms) = "{"%char :: join (print_member <$> ms) ++ ["}"%char].
Proof. done. Qed.

Lemma print_arr vs : print (RArr vs) = "["%char :: join (print <$> vs) ++ ["]"%char].
Proof. done. Qed.

Section Reads.
Context (d : nat) (pv : bytes → option (Raw * bytes)).
Hypothesis pv_print : ∀ v r, fits d v → stops r → pv (print v ++ r) = Some (esc v, r).

Lemma parse_elems_print n vs r :
  Forall (fits d) vs → vs ≠ [] → (length vs <= n)%nat →
  parse_elems pv n (join (print <$> vs) ++ "]"%char :: r) = Some (esc <$> vs, r).
Proof.
  revert n. induction vs as [|v vs IH]; intros n Hf Hne Hn; [done|].
  destruct n as [|n]; [cbn in Hn; lia|]. apply Forall_cons in Hf as [Hv Hvs].
  rewrite fmap_cons. destruct (decide (vs = [])) as [->|Hvs'].
  - cbn [fmap list_fmap join parse_elems]. rewrite (skip_ws_print d), pv_print by (done || by apply stops_cons). done.
  - rewrite join_cons by (by destruct vs). rewrite <- app_assoc. cbn [app parse_elems].
    rewrite (skip_ws_print d), pv_print by (done || by apply stops_cons). cbn [mbind option_bind].
    rewrite skip_ws_cons by done. cbn [Ascii.eqb Bool.eqb]. rewrite IH by (done || cbn in Hn; lia). done.
Qed.

Lemma parse_member_print m r : body_ok m.1 → fits d m.2 → stops r →
  parse_member pv (print_member m ++ r) = Some (esc_member m, r).
Proof.
  intros Hk Hv Hr. unfold print_member, print_body, parse_member. rewrite <- app_assoc. cbn [app].
  rewrite skip_ws_cons by done. cbn [Ascii.eqb Bool.eqb]. rewrite <- !app_assoc. cbn [app].
  rewrite scan_string_body by (by apply html_body_ok). cbn [mbind option_bind].
  rewrite skip_ws_cons by done. cbn [Ascii.eqb Bool.eqb]. rewrite (skip_ws_print d), pv_print by done. done.
Qed.

Lemma parse_members_print n ms r :
  Forall (λ m, body_ok m.1 ∧ fits d m.2) ms → ms ≠ [] → (length ms <= n)%nat →
  parse_members pv n (join (print_member <$> ms) ++ "}"%char :: r) = Some (esc_member <$> ms, r).
Proof.
  revert n. induction ms as [|m ms IH]; intros n Hf Hne Hn; [done|].
  destruct n as [|n]; [cbn in Hn; lia|]. apply Forall_cons in Hf as [[Hk Hv] Hms].
  rewrite fmap_cons. destruct (decide (ms = [])) as [->|Hms'].
  - cbn [fmap list_fmap join parse_members]. rewrite parse_member_print by (done || by apply stops_cons). done.
  - rewrite join_cons by (by destruct ms). rewrite <- app_assoc. cbn [app parse_members].
    rewrite parse_member_print by (done || by apply stops_cons). cbn [mbind option_bind].
    rewrite skip_ws_cons by done. cbn [Ascii.eqb Bool.eqb]. rewrite IH by (done || cbn in Hn; lia). done.
Qed.
End Reads.

Lemma length_join (l : list bytes) : Forall (λ x, x ≠ []) l → (length l <= length (join l))%nat.
Proof.
  induction 1 as [|x l Hx Hl IH]; [done|]. destruct l as [|y l]; [destruct x; [done|cbn; lia]|].
  rewrite join_cons, length_app by done. cbn [length] in *. lia.
Qed.

Lemma closes_other c x l : is_ws x = false → Ascii.eqb x c = false → closes c (x :: l) = None.
Proof. intros Hw Hx. unfold closes. by rewrite skip_ws_cons, Hx. Qed.

(** Printing then parsing gives the value back, escaped for HTML. *)
Lemma parse_value_print d v r : fits d v → stops r → parse_value d (print v ++ r) = Some (esc v, r).
Proof.
  revert v r. induction d as [|d IH]; intros v r Hv Hr.
  all: inversion Hv as [|? [] |? t Hok Hc|? b Hb|? vs Hvs|? ms Hms]; subst; try done.
  all: try by cbn [print]; unfold print_body; rewrite <- app_comm_cons, <- app_assoc; cbn [app parse_value];
    rewrite Ascii.eqb_refl, scan_string_body by (by apply html_body_ok).
  1,2: destruct (num_ok_cons t Hok) as (c & t' & ->); pose proof Hc as Hc'; cbn [forallb] in Hc'; apply andb_true_iff in Hc' as [Hc' _];
    destruct (num_start c Hc') as [_ Hn]; apply bool_decide_eq_false in Hn; rewrite !not_elem_of_cons in Hn;
    destruct Hn as (?&?&?&?&?&?&_); cbn [print app parse_value];
    rewrite !(proj2 (Ascii.eqb_neq c _)) by done;
    pose proof (span_app num_char (c :: t') r Hc) as E; cbn [app] in E; rewrite E, Hok by (intros ?? ->; by eapply Hr); done.
  - rewrite print_arr, <- app_comm_cons, <- app_assoc. cbn [app parse_value Ascii.eqb Bool.eqb]. unfold parse_array.
    destruct (decide (vs = [])) as [->|Hne]; [done|].
    assert (closes "]"%char (join (print <$> vs) ++ "]"%char :: r) = None) as ->.
    { destruct vs as [|v vs]; [done|]. apply Forall_cons in Hvs as [Hv' _]. destruct (print_head d v Hv') as (c & l & E & Hw & Hc).
      destruct vs; cbn [fmap list_fmap join]; rewrite E; by apply closes_other. }
    rewrite (parse_elems_print d); [done..|]. rewrite length_app, <- (length_fmap print vs).
    etrans; [apply length_join|lia]. apply Forall_fmap, (Forall_impl _ _ _ Hvs).
    intros v (?&?&E&_)%print_head. cbn. by rewrite E.
  - rewrite print_obj, <- app_comm_cons, <- app_assoc. cbn [app parse_value Ascii.eqb Bool.eqb]. unfold parse_object.
    destruct (decide (ms = [])) as [->|Hne]; [done|].
    assert (closes "}"%char (join (print_member <$> ms) ++ "}"%char :: r) = None) as ->.
    { destruct ms as [|m ms]; [done|]. destruct ms; by apply closes_other. }
    rewrite (parse_members_print d); [done..|].
    rewrite length_app, <- (length_fmap print_member ms). etrans; [apply length_join|lia].
    apply Forall_fmap, Forall_true. done.
Qed.

Lemma parse_print v : fits maxNestingDepth v → parse (print v) = Some (esc v).
Proof.
  intros Hv. unfold parse. rewrite <- (app_nil_r (print v)), (skip_ws_print _ _ _ Hv).
  by rewrite parse_value_print by (done || apply stops_nil).
Qed.

Lemma parse_fits l v : parse l = Some v → fits maxNestingDepth v.
Proof.
  unfold parse. destruct (parse_value _ _) as [[v' r]|] eqn:E; [|done]. cbn [mbind option_bind].
  destruct (skip_ws r); [|done]. intros [= <-]. by eapply parse_value_fits.
Qed.

(** ** Decoding into Go values *)

(** map[string]json.RawMessage: [Some None] is the nil map that null gives; of
    equal keys the last one stays. *)
Definition as_map (v : Raw) : option (option (gmap string Raw)) :=
  match v with
  | RNull => Some None
  | RObj ms => Some (Some (list_to_map (reverse ((fun m => (unquote m.1, m.2)) <$> ms))))
  | _ => None
  end.

(** A string; null leaves [old] as it is. *)
Definition as_string (old : string) (v : Raw) : option string :=
  match v with
  | RStr b => Some (unquote b)
  | RNull => Some old
  | _ => None
  end.

(** map[string]string. *)
Definition as_string_map (v : Raw) : option (gmap string string) :=
  match as_map v with
  | Some (Some m) =>
      if forallb (fun kv => bool_decide (is_Some (as_string "" kv.2))) (map_to_list m)
      then Some (omap (as_string "") m) else None
  | Some None => Some ∅
  | None => None
  end.

(** A key names a struct's field up to letter case: the Kelvin sign and the
    long s fold to ASCII letters. *)
Fixpoint fold_bytes (l : bytes) : bytes :=
  match l with
  | [] => []
  | c :: l' =>
      match l' with
      | d :: l2 =>
          if Ascii.eqb c (byte_of 197) && Ascii.eqb d (byte_of 191) then "s"%char :: fold_bytes l2
          else
            match l2 with
            | e :: l3 =>
                if Ascii.eqb c (byte_of 226) && Ascii.eqb d (byte_of 132) && Ascii.eqb e (byte_of 170)
                then "k"%char :: fold_bytes l3
                else lower_byte c :: fold_bytes l'
            | [] => lower_byte c :: fold_bytes l'
            end
      | [] => [lower_byte c]
      end
  end.

Definition names_field (name : string) (key : bytes) : bool :=
  bool_decide (fold_bytes (to_bytes (unquote key)) = fold_bytes (to_bytes name)).

(** One field of a struct, from its value before: each member that names it is
    decoded in turn; [None] when one of them has the wrong type. *)
Definition field {A} (name : string) (decode : A -> Raw -> option A) (old : A) (ms : list (bytes * Raw)) : option A :=
  foldl (fun acc m => if names_field name m.1 then a ← acc; decode a m.2 else acc) (Some old) ms.

(** A struct with one field: null leaves it as it is. *)
Definition as_struct1 {A} (name : string) (decode : A -> Raw -> option A) (old : A) (v : Raw) : option A :=
  match v with
  | RObj ms => field name decode old ms
  | RNull => Some old
  | _ => None
  end.

(** A slice, from scratch; nil for null. *)
Definition as_slice {A} (decode : Raw -> option A) (v : Raw) : option (list A) :=
  match v with
  | RArr l => mapM decode l
  | RNull => Some []
  | _ => None
  end.

(** ** Marshalling a map: its keys in order *)

Definition key_le (a b : string * Raw) : Prop := bytes_le (to_bytes a.1) (to_bytes b.1) = true.
#[export] Instance key_le_dec : RelDecision key_le := fun a b => bool_eq_dec _ _.

Definition of_map (m : gmap string Raw) : Raw :=
  RObj ((fun kv => (quote kv.1, kv.2)) <$> merge_sort key_le (map_to_list m)).

(** A nil map is null. *)
Definition of_gomap (m : option (gmap string Raw)) : Raw := match m with Some m => of_map m | None => RNull end.

Definition of_string (s : string) : Raw := RStr (quote s).

Lemma of_string_read s : utf8 (to_bytes s) → as_string "" (esc (of_string s)) = Some s.
Proof.
  intros Hs. cbn [esc of_string as_string]. unfold unquote, html_escape, quote.
  by rewrite html_unquote, unquote_quote, of_to_bytes by apply quote_body_ok || done.
Qed.

Lemma unquote_html b : body_ok b → unquote (html_escape b) = unquote b.
Proof. intros Hb. unfold unquote, html_escape. by rewrite html_unquote. Qed.

Lemma unquote_of_quote s : utf8 (to_bytes s) → unquote (quote s) = s.
Proof. intros Hs. unfold unquote, quote. by rewrite unquote_quote, of_to_bytes. Qed.

Lemma as_map_of_map m : (∀ k, is_Some (m !! k) → utf8 (to_bytes k)) → as_map (esc (of_map m)) = Some (Some (esc <$> m)).
Proof.
  intros Hk. unfold of_map. cbn [esc as_map]. do 2 f_equal.
  set (l := merge_sort key_le (map_to_list m)).
  assert (l ≡ₚ map_to_list m) as Hl by apply merge_sort_Permutation.
  assert (((λ m : bytes * Raw, (unquote m.1, m.2)) <$> ((λ m : bytes * Raw, (html_escape m.1, esc m.2)) <$> ((λ kv : string * Raw, (quote kv.1, kv.2)) <$> l)))
    = prod_map id esc <$> l) as ->.
  { rewrite <- !list_fmap_compose. apply list_fmap_ext. intros i [k v] Hi. unfold prod_map, compose. cbn [fst snd].
    rewrite unquote_html, unquote_of_quote; [done| |apply quote_body_ok].
    apply Hk. exists v. apply elem_of_map_to_list. rewrite <- Hl. by eapply list_elem_of_lookup_2. }
  trans (list_to_map (prod_map id esc <$> map_to_list m) : gmap string Raw).
  - apply list_to_map_proper; [|by rewrite reverse_Permutation, Hl].
    rewrite reverse_Permutation, Hl, <- list_fmap_compose. apply (NoDup_fst_map_to_list m).
  - by rewrite list_to_map_fmap, list_to_map_to_list.
Qed.

Lemma of_map_fits d m : (∀ k v, m !! k = Some v → fits d v) → fits (S d) (of_map m).
Proof.
  intros Hm. constructor. apply Forall_fmap, Forall_forall. intros [k v] Hkv. cbn. split; [apply quote_body_ok|].
  rewrite merge_sort_Permutation in Hkv. by apply elem_of_map_to_list, Hm in Hkv.
Qed.

Lemma list_to_map_elem {A} (l : list (string * A)) k v : (list_to_map l : gmap string A) !! k = Some v → (k, v) ∈ l.
Proof.
  induction l as [|[k' v'] l IH]; cbn [list_to_map foldr]; [by rewrite lookup_empty|].
  rewrite lookup_insert_Some. cbn. intros [[-> ->]|[_ H]]; [left|right; auto].
Qed.

Lemma as_map_fits d v m k x :
  fits (S d) v → as_map v = Some (Some m) → m !! k = Some x → fits d x ∧ utf8 (to_bytes k).
Proof.
  intros Hv Hm Hx. destruct v; try done. injection Hm as <-.
  apply list_to_map_elem in Hx. rewrite elem_of_reverse in Hx. apply list_elem_of_fmap in Hx as ([k' x'] & [= -> ->] & Hx).
  inversion Hv as [| | | | |? ms Hms]; subst. rewrite Forall_forall in Hms. destruct (Hms _ Hx) as [Hk Hfx].
  split; [done|]. cbn. unfold unquote. rewrite to_of_bytes. by apply unquote_utf8.
Qed.

(** Escaping a document escapes the values of its map. *)
Lemma as_map_esc d v : fits d v → 
  as_map (esc v) = match as_map v with Some (Some m) => Some (Some (esc <$> m)) | other => other end.
Proof.
  intros Hv. destruct v as [| | | | |ms]; try done. inversion Hv as [| | | | |? ? Hms]; subst. cbn [esc as_map].
  do 2 f_equal. rewrite <- list_to_map_fmap. f_equal. rewrite fmap_reverse. f_equal. rewrite <- !list_fmap_compose.
  apply list_fmap_ext. intros i m Hi. rewrite Forall_forall in Hms.
  destruct (Hms m) as [Hk _]; [by eapply list_elem_of_lookup_2|]. unfold compose. cbn [fst snd prod_map]. by rewrite unquote_html.
Qed.

(** ** Documents *)

(** The object a text holds; the object under a key of another. *)
Definition doc_map (l : bytes) : option (gmap string Raw) := v ← parse l; m ← as_map v; m.
Definition sub_map (k : string) (m : gmap string Raw) : option (gmap string Raw) := v ← m !! k; m ← as_map v; m.

Lemma sub_map_fits d k m x :
  (∀ k v, m !! k = Some v → fits d v) → sub_map k m = Some x →
  ∃ d' v, d = S d' ∧ m !! k = Some v ∧ as_map v = Some (Some x) ∧ ∀ k v, x !! k = Some v → fits d' v ∧ utf8 (to_bytes k).
Proof.
  intros Hm. unfold sub_map. destruct (m !! k) as [v|] eqn:E; [|done]. cbn. specialize (Hm _ _ E).
  destruct (as_map v) as [[x'|]|] eqn:Hv; try done. cbn. intros [= ->].
  destruct v; try done. inversion Hm; subst. eexists _, _. split_and!; [done..|].
  intros k' v' Hk. eapply as_map_fits; [|done..]. by constructor.
Qed.

Lemma sub_map_esc d k m : (∀ k v, m !! k = Some v → fits d v) →
  sub_map k (esc <$> m) = (λ x : gmap string Raw, esc <$> x) <$> sub_map k m.
Proof.
  intros Hm. unfold sub_map. rewrite lookup_fmap. destruct (m !! k) as [v|] eqn:E; [|done]. cbn.
  rewrite (as_map_esc d) by (by eapply Hm). by destruct (as_map v) as [[]|].
Qed.

Lemma depth_two : ∃ d, maxNestingDepth = S (S d).
Proof. exists 9998%nat. vm_compute. done. Qed.

(** Reading a printed object back. *)
Lemma doc_map_print M : (∀ k v d, M !! k = Some v → maxNestingDepth = S d → fits d v ∧ utf8 (to_bytes k)) →
  doc_map (print (of_map M)) = Some (esc <$> M).
Proof.
  intros HM. destruct depth_two as [d1 Hd].
  unfold doc_map. rewrite parse_print.
  - cbn [mbind option_bind]. rewrite as_map_of_map; [done|]. intros k [v Hk]. by eapply HM.
  - rewrite Hd. apply of_map_fits. intros k v Hk. by eapply HM.
Qed.

Lemma sub_map_printed k M m : M !! k = Some (of_map m) → (∀ k', is_Some (m !! k') → utf8 (to_bytes k')) →
  sub_map k (esc <$> M) = Some (esc <$> m).
Proof. intros Hk Hm. unfold sub_map. rewrite lookup_fmap, Hk. cbn [fmap option_fmap option_map mbind option_bind]. by rewrite as_map_of_map. Qed.

Lemma doc_map_fits doc top d k v : doc_map doc = Some top → maxNestingDepth = S d → top !! k = Some v →
  fits d v ∧ utf8 (to_bytes k).
Proof.
  unfold doc_map. intros Hdoc Hd. destruct (parse doc) as [x|] eqn:Hp; [|done]. apply parse_fits in Hp. cbn in Hdoc.
  destruct (as_map x) as [[m|]|] eqn:Hm; try done. injection Hdoc as ->. rewrite Hd in Hp.
  intros Hk. destruct x; try done. inversion Hp; subst. eapply as_map_fits; [by constructor|done..].
Qed.
