(* ===== verification/Gate.v ===== *)
(** * Package gate: the domain vocabulary (internal/gate)

    The records passed between the handler, the scanners, the policy and the
    cache, the severity order, and the key of a package reference.  A nil Go
    slice and an empty one are the same list here: no modelled code tells them
    apart. *)
From S2P Require Import Prelude GoStd.
Local Open Scope Z_scope.

(** ** Packages *)

Record PackageRef := mkRef {
  Ecosystem : string;
  Name : string;
  Version : string;
  Classifier : string;
}.

#[export] Instance PackageRef_eq_dec : EqDecision PackageRef.
Proof. solve_decision. Defined.

#[export] Instance PackageRef_countable : Countable PackageRef.
Proof.
  refine (inj_countable'
    (fun r => (Ecosystem r, Name r, Version r, Classifier r))
    (fun '(e, n, v, c) => mkRef e n v c) _).
  by intros [].
Defined.

Definition Key (r : PackageRef) : string :=
  let key := Ecosystem r +:+ "/" +:+ Name r +:+ "@" +:+ Version r in
  if negb (Classifier r =s? "") then key +:+ "?classifier=" +:+ Classifier r else key.

Record PackageMetadata := mkMeta {
  md_PublishedAt : Z;
  Maintainer : string;
  License : string;
}.

(** ** Severities *)

Inductive Severity :=
  SeverityUnknown | SeverityLow | SeverityMedium | SeverityHigh | SeverityCritical.

#[export] Instance Severity_eq_dec : EqDecision Severity.
Proof. solve_decision. Defined.

(** The iota value of the constant, the order [>=] compares. *)
Definition severity_int (s : Severity) : Z :=
  match s with
  | SeverityUnknown => 0 | SeverityLow => 1 | SeverityMedium => 2
  | SeverityHigh => 3 | SeverityCritical => 4
  end.

Definition ParseSeverity (s : string) : Severity :=
  let u := ToUpper s in
  if u =s? "CRITICAL" then SeverityCritical
  else if u =s? "HIGH" then SeverityHigh
  else if (u =s? "MEDIUM") || (u =s? "MODERATE") then SeverityMedium
  else if u =s? "LOW" then SeverityLow
  else SeverityUnknown.

Definition Severity_String (s : Severity) : string :=
  match s with
  | SeverityCritical => "CRITICAL" | SeverityHigh => "HIGH"
  | SeverityMedium => "MEDIUM" | SeverityLow => "LOW" | SeverityUnknown => "UNKNOWN"
  end.

Definition AtLeast (s threshold : Severity) : bool :=
  if decide (s = SeverityUnknown) then false
  else severity_int threshold <=? severity_int s.

(** ** Scan results, decisions and events *)

(** [cf_Score] is the float64 by its bit pattern: no code computes with it. *)
Record CVEFinding := mkFinding {
  cf_ID : string;
  cf_Aliases : list string;
  cf_Severity : Severity;
  cf_Summary : string;
  cf_Score : Z;
}.

#[export] Instance CVEFinding_eq_dec : EqDecision CVEFinding.
Proof. solve_decision. Defined.

Record ScanResult := mkScan {
  sr_Clean : bool;
  sr_Findings : list CVEFinding;
  ScanJSON : string;
}.

Record PolicyDecision := mkDecision {
  pd_Allowed : bool;
  pd_Reason : string;
  pd_Findings : list CVEFinding;
}.

#[export] Instance PolicyDecision_eq_dec : EqDecision PolicyDecision.
Proof. solve_decision. Defined.

Record FilterResult := mkFilterResult {
  fr_Allowed : bool;
  fr_Reason : string;
  fr_PublishedAt : Z;
  fr_BlockUntil : Z;
}.

Record AVResult := mkAV {
  av_Clean : bool;
  av_Signature : string;
  av_Engine : string;
  av_Incomplete : bool;
}.

#[export] Instance AVResult_eq_dec : EqDecision AVResult.
Proof. solve_decision. Defined.

Record ArtifactEntry := mkEntry {
  ae_ArtifactPath : string;
  ae_ScanClean : bool;
  ae_LastCVECheck : Z;
  ae_LastMalwareCheck : Z;
}.

Inductive Verdict := VerdictPass | VerdictCache | VerdictBlock | VerdictError.

#[export] Instance Verdict_eq_dec : EqDecision Verdict.
Proof. solve_decision. Defined.

Definition GateCache : string := "cache".
Definition GateSupply : string := "supply".
Definition GateCVE : string := "cve".
Definition GateMalware : string := "malware".
Definition GateImageScan : string := "image_scan".

Definition ReasonDenylisted : string := "denylisted".
Definition ReasonScanIncomplete : string := "scan_incomplete".

Record Event := mkEvent {
  ev_RequestID : string;
  ev_Time : Z;
  ev_Ecosystem : string;
  ev_Package : string;
  ev_Version : string;
  ev_Verdict : Verdict;
  ev_Gate : string;
  ev_LatencyMS : Z;
  ev_HTTPStatus : Z;
  ev_Reason : string;
  ev_BlockedBy : list string;
  ev_CVEs : list CVEFinding;
  ev_MalwareEngine : string;
  ev_MalwareSignature : string;
  ev_PublishedAt : Z;
  ev_BlockUntil : Z;
}.

(** ** The artifact cache interface (gate/cache.go)

    What a cache offers the proxy handler.  [now] is the clock reading of an
    operation that takes one, [data] the content of the file at tmpPath, the
    booleans are success.  [cache_Open] is os.Open and a full read of an
    entry's ArtifactPath. *)
Class ArtifactCache (C : Type) := {
  cache_Get (now : Z) (ref : PackageRef) : St C (option ArtifactEntry);
  cache_Put (now : Z) (ref : PackageRef) (data : bytes) (scanClean : bool) (scanJSON : string) : St C bool;
  cache_Invalidate (ref : PackageRef) : St C bool;
  cache_MarkCVEChecked (ref : PackageRef) (ts : Z) : St C bool;
  cache_MarkMalwareChecked (ref : PackageRef) (ts : Z) : St C bool;
  cache_Open (path : string) : St C (option bytes);
}.

(** What it promises: [cache_holds] is the abstract content - the scan verdict
    and the bytes held for a reference - and [cache_file] the file behind a
    path.  No operation invents content: only [cache_Put] adds any, the bytes
    it was given, under references with the key of the one it was given. *)
Class ArtifactCacheLaws (C : Type) `{!ArtifactCache C} := {
  cache_ok : C -> Prop;
  cache_holds : C -> PackageRef -> option (bool * bytes);
  cache_file : C -> string -> option bytes;
  get_ok now ref c : cache_ok c -> cache_ok (cache_Get now ref c).2;
  get_holds now ref c ref' x :
    cache_ok c -> cache_holds (cache_Get now ref c).2 ref' = Some x -> cache_holds c ref' = Some x;
  get_hit now ref c e :
    cache_ok c -> (cache_Get now ref c).1 = Some e ->
    ∃ d, cache_holds (cache_Get now ref c).2 ref = Some (ae_ScanClean e, d) ∧
         cache_file (cache_Get now ref c).2 (ae_ArtifactPath e) = Some d;
  put_ok now ref d b j c : cache_ok c -> cache_ok (cache_Put now ref d b j c).2;
  put_holds now ref d b j c ref' x :
    cache_ok c -> cache_holds (cache_Put now ref d b j c).2 ref' = Some x ->
    cache_holds c ref' = Some x ∨ (x.2 = d ∧ Key ref' = Key ref);
  put_hit now ref d b j c :
    cache_ok c -> (cache_Put now ref d b j c).1 = true ->
    cache_holds (cache_Put now ref d b j c).2 ref = Some (b, d);
  invalidate_ok ref c : cache_ok c -> cache_ok (cache_Invalidate ref c).2;
  invalidate_holds ref c ref' x :
    cache_ok c -> cache_holds (cache_Invalidate ref c).2 ref' = Some x -> cache_holds c ref' = Some x;
  mark_cve_ok ref ts c : cache_ok c -> cache_ok (cache_MarkCVEChecked ref ts c).2;
  mark_cve_holds ref ts c ref' :
    cache_ok c -> cache_holds (cache_MarkCVEChecked ref ts c).2 ref' = cache_holds c ref';
  mark_cve_file ref ts c p : cache_file (cache_MarkCVEChecked ref ts c).2 p = cache_file c p;
  mark_malware_ok ref ts c : cache_ok c -> cache_ok (cache_MarkMalwareChecked ref ts c).2;
  mark_malware_holds ref ts c ref' :
    cache_ok c -> cache_holds (cache_MarkMalwareChecked ref ts c).2 ref' = cache_holds c ref';
  mark_malware_file ref ts c p : cache_file (cache_MarkMalwareChecked ref ts c).2 p = cache_file c p;
  open_ok p c : cache_ok c -> cache_ok (cache_Open p c).2;
  open_holds p c ref' : cache_holds (cache_Open p c).2 ref' = cache_holds c ref';
  open_file p c p' : cache_file (cache_Open p c).2 p' = cache_file c p';
  open_data p c d : (cache_Open p c).1 = Some d -> cache_file c p = Some d;
}.

(** * Properties *)

(** ** The severity order *)

Lemma AtLeast_spec s t :
  AtLeast s t = true ↔ s ≠ SeverityUnknown ∧ severity_int t ≤ severity_int s.
Proof. unfold AtLeast. case_decide; rewrite ?Z.leb_le; naive_solver. Qed.

(** a finding that blocks at a threshold blocks at every lower one, and a
    finding of unknown severity never blocks; the severities [String] prints
    (but for "UNKNOWN") are read back by [ParseSeverity]. *)
Theorem severity_order s t t' :
  AtLeast SeverityUnknown t = false ∧
  (severity_int t' ≤ severity_int t → AtLeast s t = true → AtLeast s t' = true) ∧
  ParseSeverity (Severity_String s) = s.
Proof.
  split_and!; [done| |by destruct s].
  rewrite !AtLeast_spec. intros ? [? ?]. split; [done|lia].
Qed.

(** ** Keys *)

(** References whose key can be taken apart again: the registry adapters name
    ecosystems without a slash, and versions and classifiers without the
    characters the key uses as separators. *)
Definition ref_ok (r : PackageRef) : Prop :=
  "/"%char ∉ to_bytes (Ecosystem r) ∧
  "@"%char ∉ to_bytes (Version r) ∧ "?"%char ∉ to_bytes (Version r) ∧
  "@"%char ∉ to_bytes (Classifier r).

#[export] Instance ref_ok_dec r : Decision (ref_ok r).
Proof. unfold ref_ok. apply _. Defined.

Lemma app_sep_inj (c : ascii) (a b a' b' : bytes) :
  c ∉ a → c ∉ a' → a ++ c :: b = a' ++ c :: b' → a = a' ∧ b = b'.
Proof.
  intros Ha Ha' Heq.
  assert (cut_bytes c (a ++ c :: b) = Some (a, b)) as H1 by by apply cut_bytes_Some.
  assert (cut_bytes c (a' ++ c :: b') = Some (a', b')) as H2 by by apply cut_bytes_Some.
  rewrite Heq in H1. naive_solver.
Qed.

Lemma not_elem_of_rev (c : ascii) (l : bytes) : c ∉ rev l ↔ c ∉ l.
Proof. by rewrite !list_elem_of_In, <- in_rev. Qed.

Lemma app_last_sep_inj (c : ascii) (a b a' b' : bytes) :
  c ∉ b → c ∉ b' → a ++ c :: b = a' ++ c :: b' → a = a' ∧ b = b'.
Proof.
  intros Hb Hb' Heq. apply (f_equal (@rev ascii)) in Heq.
  rewrite !rev_app_distr in Heq. simpl in Heq. rewrite <- !app_assoc in Heq.
  apply app_sep_inj in Heq as [H1 H2]; [|by apply not_elem_of_rev..].
  split; [apply (f_equal (@rev ascii)) in H2|apply (f_equal (@rev ascii)) in H1];
    by rewrite !rev_involutive in *.
Qed.

(** The part of the key after the at sign. *)
Definition key_tail (r : PackageRef) : bytes :=
  to_bytes (Version r) ++
  (if Classifier r =s? "" then [] else to_bytes "?classifier=" ++ to_bytes (Classifier r)).

Lemma Key_bytes r :
  to_bytes (Key r) =
    to_bytes (Ecosystem r) ++ "/"%char :: to_bytes (Name r) ++ "@"%char :: key_tail r.
Proof.
  unfold Key, key_tail. destruct (Classifier r =s? "") eqn:?; cbn [negb];
    rewrite !to_bytes_app; rewrite ?app_nil_r, <- ?app_assoc; [done|].
  rewrite <- ?app_assoc; cbn [app]; rewrite <- ?app_assoc; done.
Qed.

Lemma key_tail_inj r r' :
  ref_ok r → ref_ok r' → key_tail r = key_tail r' →
  Version r = Version r' ∧ Classifier r = Classifier r'.
Proof.
  intros (_ & _ & Hq & _) (_ & _ & Hq' & _). unfold key_tail.
  destruct (Classifier r =s? "") eqn:Hc, (Classifier r' =s? "") eqn:Hc'; bool_to_prop;
    rewrite ?app_nil_r; intros Heq.
  - apply to_bytes_inj in Heq. by rewrite Hc, Hc'.
  - exfalso. rewrite Heq in Hq. simpl in Hq. set_solver.
  - exfalso. rewrite <- Heq in Hq'. simpl in Hq'. set_solver.
  - simpl in Heq. apply app_sep_inj in Heq as [H1 H2]; [|done..]. simplify_eq.
    split; by apply to_bytes_inj.
Qed.

(** two well-formed package references with the same cache key are the
    same reference: distinct artifacts never share a key.  (Without the
    condition they can: see [Key_collision].) *)
Theorem Key_inj r r' : ref_ok r → ref_ok r' → Key r = Key r' → r = r'.
Proof.
  intros Hr Hr' Heq. apply (f_equal to_bytes) in Heq. rewrite !Key_bytes in Heq.
  pose proof Hr as (He & Hv & _ & Hc). pose proof Hr' as (He' & Hv' & _ & Hc').
  apply app_sep_inj in Heq as [HE Heq]; [|done..].
  apply app_last_sep_inj in Heq as [HN HT].
  - apply key_tail_inj in HT as [HV HC]; [|done..].
    apply to_bytes_inj in HE, HN. destruct r, r'; simpl in *; congruence.
  - unfold key_tail. case_match; simpl; set_solver.
  - unfold key_tail. case_match; simpl; set_solver.
Qed.

Lemma Key_inj_witness :
  let r := mkRef "maven" "org.a:b" "1.0" "sources" in
  ref_ok r ∧ (∀ r', ref_ok r' → Key r = Key r' → r = r').
Proof.
  assert (ref_ok (mkRef "maven" "org.a:b" "1.0" "sources")) as H by (apply (bool_decide_unpack _); vm_compute; done).
  split; [exact H|]. intros r' Hr' Heq. exact (Key_inj _ r' H Hr' Heq).
Defined.

(** A version holding an at sign makes two references share a key. *)
Lemma Key_collision :
  ∃ r r', r ≠ r' ∧ Key r = Key r'.
Proof.
  by exists (mkRef "npm" "a" "1@2" ""), (mkRef "npm" "a@1" "2" "").
Qed.
