(* ===== verification/Supplychain.v ===== *)
(** * Package supplychain: the minimum-age filter (internal/supplychain)

    [Allowlist] is the map of approved entries, [Filter_Check] the decision on
    a package's publish date, [LoadAllowlist] the parser of the operator's
    allowlist file (its content is an argument; [None] when it cannot be
    opened). *)
From S2P Require Import Prelude GoStd Gate.
Local Open Scope Z_scope.

(** The fields of config.SupplyChainConfig the filter reads. *)
Record SupplyChainConfig := mkSCConfig {
  MinAgeHours : Z;   (* an int *)
  Mode : string;
}.

Definition reasonTooNew : string := "package_younger_than_min_age".

(** ** Allowlists *)

(** A map[string]bool whose only stored value is true is the set of its keys. *)
Record Allowlist := mkAllowlist { entries : gset string }.

Definition NewAllowlist (es : list string) : Allowlist :=
  mkAllowlist (foldl (fun m e => {[ TrimSpace e ]} ∪ m) ∅ es).

(** The receiver is a pointer: [None] is the nil allowlist. *)
Definition Contains (a : option Allowlist) (ref : PackageRef) : bool :=
  match a with
  | None => false
  | Some a =>
      let byName := Ecosystem ref +:+ "/" +:+ Name ref in
      let byVersion := byName +:+ "@" +:+ Version ref in
      bool_decide (byName ∈ entries a) || bool_decide (byVersion ∈ entries a)
  end.

(** Sorted by byte order ([sort.Strings]). *)
Definition Entries (a : option Allowlist) : list string :=
  match a with
  | None => []
  | Some a => merge_sort String.le (elements (entries a))
  end.

(** ** The filter *)

Record Filter := mkFilter {
  flt_cfg : SupplyChainConfig;
  flt_allowlist : option Allowlist;
}.

Definition NewFilter (cfg : SupplyChainConfig) (allowlist : option Allowlist) : Filter :=
  mkFilter cfg allowlist.

(** time.Duration(MinAgeHours) * time.Hour, in int64. *)
Definition minAge (cfg : SupplyChainConfig) : Z := dur_mul (MinAgeHours cfg) Hour.

(** [now] is the clock time.Since reads. *)
Definition Filter_Check (f : Filter) (now : Z) (ref : PackageRef) (meta : PackageMetadata)
    : FilterResult :=
  let pub := md_PublishedAt meta in
  if Mode (flt_cfg f) =s? "off" then mkFilterResult true "off" pub 0
  else if Contains (flt_allowlist f) ref then mkFilterResult true "allowlisted" pub 0
  else
    let min_age := minAge (flt_cfg f) in
    let age := time_sub now pub in
    if age <? min_age then
      let blockUntil := time_add pub min_age in
      if Mode (flt_cfg f) =s? "dry_run"
      then mkFilterResult true "dry_run" pub blockUntil
      else mkFilterResult false reasonTooNew pub blockUntil
    else mkFilterResult true "ok" pub 0.

(** ** The allowlist file *)

(** bufio.ScanLines: lines end at a newline, one trailing carriage return is
    dropped, and there is no last empty line. *)
Definition drop_cr (l : bytes) : bytes :=
  match rev l with
  | c :: l' => if Ascii.eqb c (byte_of 13) then rev l' else l
  | [] => l
  end.

Definition scan_lines (content : bytes) : list bytes :=
  let ls := split_bytes (byte_of 10) content in
  match rev ls with
  | [] :: ls' => rev ls'
  | _ => ls
  end.

(** bufio.MaxScanTokenSize: a line that fills the buffer is an error. *)
Definition MaxScanTokenSize : Z := 64 * 1024.

Fixpoint load_lines (ls : list bytes) (acc : list string) : option (list string) :=
  match ls with
  | [] => Some acc
  | l :: ls' =>
      if MaxScanTokenSize <=? Z.of_nat (length l) then None
      else
        let line := TrimSpace (of_bytes (drop_cr l)) in
        if (line =s? "") || HasPrefix line "#" then load_lines ls' acc
        else load_lines ls' (acc ++ [line])
  end.

(** [None] stands for the error, of opening the file or of reading it. *)
Definition LoadAllowlist (file : option bytes) : option Allowlist :=
  content ← file;
  es ← load_lines (scan_lines content) [];
  Some (NewAllowlist es).

(** * Properties *)

Lemma elem_of_index es x s :
  x ∈ foldl (fun (m : gset string) e => {[ TrimSpace e ]} ∪ m) s es ↔
  x ∈ s ∨ ∃ e, e ∈ es ∧ x = TrimSpace e.
Proof.
  revert s. induction es as [|e es IH]; intros s; simpl; [set_solver|].
  rewrite IH. set_solver.
Qed.

Lemma Contains_NewAllowlist es ref :
  Contains (Some (NewAllowlist es)) ref = true ↔
  ∃ e, e ∈ es ∧ (TrimSpace e = Ecosystem ref +:+ "/" +:+ Name ref ∨
                 TrimSpace e = (Ecosystem ref +:+ "/" +:+ Name ref) +:+ "@" +:+ Version ref).
Proof.
  unfold Contains, NewAllowlist; simpl.
  rewrite orb_true_iff, !bool_decide_eq_true, !elem_of_index. set_solver.
Qed.

(** The longest minimum age whose nanoseconds fit an int64. *)
Definition max_min_age_hours : Z := max_int64 / Hour.

Lemma minAge_exact cfg :
  0 ≤ MinAgeHours cfg ≤ max_min_age_hours → minAge cfg = MinAgeHours cfg * Hour.
Proof.
  unfold max_min_age_hours, max_int64, minAge, dur_mul, Hour, Minute, Second. intros ?.
  rewrite wrap64_id; [done|]. unfold in_int64, min_int64, max_int64.
  pose proof (Z.mul_div_le (2 ^ 63 - 1) (60 * (60 * 1000000000))). nia.
Qed.

(** An unexempted package in a mode that looks at its age. *)
Definition age_checked (f : Filter) (ref : PackageRef) : Prop :=
  Mode (flt_cfg f) ≠ "off" ∧ Contains (flt_allowlist f) ref = false.

Lemma Filter_Check_blocked f now ref meta :
  fr_Allowed (Filter_Check f now ref meta) = false ↔
  age_checked f ref ∧ Mode (flt_cfg f) ≠ "dry_run" ∧
  time_sub now (md_PublishedAt meta) < minAge (flt_cfg f).
Proof.
  unfold Filter_Check, age_checked.
  destruct (String.eqb_spec (Mode (flt_cfg f)) "off") as [->|]; simpl; [naive_solver|].
  destruct (Contains _ _); simpl; [naive_solver|].
  destruct (Z.ltb_spec (time_sub now (md_PublishedAt meta)) (minAge (flt_cfg f)));
    [destruct (String.eqb_spec (Mode (flt_cfg f)) "dry_run")|]; naive_solver lia.
Qed.

Lemma time_sub_lt now pub d :
  in_int64 d → time_sub now pub < d ↔ now - pub < d ∧ min_int64 < d.
Proof. unfold time_sub, in_int64, min_int64, max_int64. lia. Qed.

(** the hold is exact.  With a minimum age that fits a Duration, in any
    mode but off and dry_run, a package that is not allowlisted is blocked
    exactly while it is younger than the minimum age, the answer carries the
    instant the hold ends, and from that instant on the package is allowed. *)
Theorem Filter_Check_hold f now ref meta :
  age_checked f ref → Mode (flt_cfg f) ≠ "dry_run" →
  0 ≤ MinAgeHours (flt_cfg f) ≤ max_min_age_hours →
  let r := Filter_Check f now ref meta in
  let release := md_PublishedAt meta + MinAgeHours (flt_cfg f) * Hour in
  (fr_Allowed r = false ↔ now < release) ∧
  (fr_Allowed r = false → fr_BlockUntil r = release ∧ fr_Reason r = reasonTooNew) ∧
  (fr_Allowed r = true → fr_Reason r = "ok" ∧ fr_BlockUntil r = 0).
Proof.
  intros [Hoff Hal] Hdry Hage. cbv zeta.
  pose proof (minAge_exact _ Hage) as Hmin.
  pose proof (wrap64_range (MinAgeHours (flt_cfg f) * Hour)) as Hrange.
  change (in_int64 (minAge (flt_cfg f))) in Hrange.
  unfold Filter_Check, time_add.
  apply String.eqb_neq in Hoff, Hdry. rewrite Hoff, Hal, Hdry.
  destruct (Z.ltb_spec (time_sub now (md_PublishedAt meta)) (minAge (flt_cfg f))) as [Hlt|Hge]; simpl.
  - apply time_sub_lt in Hlt as [? ?]; [|done]. rewrite <- Hmin.
    split_and!; [split; [lia|done]|done|done].
  - split_and!; [|done|done]. split; [done|]. intros Hnow. exfalso.
    assert (time_sub now (md_PublishedAt meta) < minAge (flt_cfg f)); [|lia].
    apply time_sub_lt; [done|]. unfold Hour, Minute, Second, min_int64 in *. lia.
Qed.

Lemma Filter_Check_hold_witness :
  let f := NewFilter (mkSCConfig 24 "enforce") (Some (NewAllowlist ["pypi/requests"])) in
  let ref := mkRef "npm" "left-pad" "1.3.0" "" in
  let r := Filter_Check f (1000 * Hour) ref (mkMeta (990 * Hour) "" "") in
  (fr_Allowed r = false ↔ 1000 * Hour < 990 * Hour + 24 * Hour) ∧
  (fr_Allowed r = false → fr_BlockUntil r = 990 * Hour + 24 * Hour ∧ fr_Reason r = reasonTooNew) ∧
  (fr_Allowed r = true → fr_Reason r = "ok" ∧ fr_BlockUntil r = 0).
Proof.
  intros f ref. apply (Filter_Check_hold f (1000 * Hour) ref (mkMeta (990 * Hour) "" "")).
  - split; [discriminate|reflexivity].
  - discriminate.
  - vm_compute. split; discriminate.
Defined.

(** the age gate never turns against a package with time: under one
    configuration, a package version allowed at some instant is allowed at
    every later one. *)
Theorem Filter_Check_monotone f now now' ref meta :
  now ≤ now' →
  fr_Allowed (Filter_Check f now ref meta) = true →
  fr_Allowed (Filter_Check f now' ref meta) = true.
Proof.
  intros Hle Hok. destruct (fr_Allowed (Filter_Check f now' ref meta)) eqn:H; [done|].
  apply Filter_Check_blocked in H as (? & ? & Hlt).
  rewrite <- Hok. symmetry. apply Filter_Check_blocked. split_and!; [done..|].
  unfold time_sub in *. lia.
Qed.

Lemma Filter_Check_monotone_witness :
  let f := NewFilter (mkSCConfig 24 "enforce") None in
  let ref := mkRef "npm" "left-pad" "1.3.0" "" in
  fr_Allowed (Filter_Check f (2000 * Hour) ref (mkMeta (900 * Hour) "" "")) = true.
Proof.
  apply (Filter_Check_monotone _ (1000 * Hour)); [vm_compute; discriminate | vm_compute; reflexivity].
Defined.

(** the minimum age is computed in int64 nanoseconds and wraps: from
    2562048 hours on (292 years, which the policy validation accepts) it is
    negative at first, and no package is ever held, however young. *)
Theorem minAge_overflow f now ref meta :
  MinAgeHours (flt_cfg f) = max_min_age_hours + 1 → md_PublishedAt meta ≤ now →
  minAge (flt_cfg f) < 0 ∧ fr_Allowed (Filter_Check f now ref meta) = true.
Proof.
  intros Hh Hpub.
  assert (minAge (flt_cfg f) < 0) as Hneg.
  { unfold minAge. rewrite Hh. vm_compute. done. }
  split; [done|].
  destruct (fr_Allowed (Filter_Check f now ref meta)) eqn:H; [done|].
  apply Filter_Check_blocked in H as (_ & _ & Hlt).
  unfold time_sub, min_int64, max_int64 in Hlt. lia.
Qed.

Lemma minAge_overflow_witness :
  let f := NewFilter (mkSCConfig 2562048 "enforce") None in
  minAge (flt_cfg f) < 0 ∧
  fr_Allowed (Filter_Check f (1000 * Hour) (mkRef "npm" "evil" "0.0.1" "")
                (mkMeta (1000 * Hour) "" "")) = true.
Proof. apply minAge_overflow; vm_compute; [reflexivity | discriminate]. Defined.

(** ** The allowlist file *)

Lemma load_lines_spec ls acc es :
  load_lines ls acc = Some es →
  es = acc ++ List.filter (fun l => negb ((l =s? "") || HasPrefix l "#"))
                ((fun l => TrimSpace (of_bytes (drop_cr l))) <$> ls).
Proof.
  revert acc. induction ls as [|l ls IH]; intros acc; simpl.
  - intros. simplify_eq. by rewrite app_nil_r.
  - destruct (_ <=? _); [done|].
    destruct ((TrimSpace (of_bytes (drop_cr l)) =s? "") || HasPrefix _ "#"); simpl;
      intros ->%IH; [done|]. by rewrite <- app_assoc.
Qed.

(** an allowlist file that loads yields exactly its trimmed lines that are
    neither blank nor comments: nothing else is exempted from the age check,
    and a file with an overlong line is an error, not a shorter list. *)
Theorem LoadAllowlist_entries content :
  match LoadAllowlist (Some content) with
  | Some a =>
      ∀ e, e ∈ entries a ↔
        ∃ l, l ∈ scan_lines content ∧ e = TrimSpace (of_bytes (drop_cr l)) ∧
             e ≠ "" ∧ HasPrefix e "#" = false
  | None => ∃ l, l ∈ scan_lines content ∧ MaxScanTokenSize ≤ Z.of_nat (length l)
  end.
Proof.
  unfold LoadAllowlist; simpl. generalize (scan_lines content) as ls. intros ls.
  destruct (load_lines ls []) as [es|] eqn:Hl; simpl.
  - apply load_lines_spec in Hl as ->. intros e.
    rewrite app_nil_l, elem_of_index. split.
    + intros [?|(e' & He' & ->)]; [set_solver|].
      rewrite list_elem_of_In, filter_In, <- list_elem_of_In in He'.
      destruct He' as [He' Hp]. apply list_elem_of_fmap in He' as (l & -> & Hl).
      rewrite TrimSpace_idemp. apply negb_true_iff, orb_false_iff in Hp as [H1 H2].
      apply String.eqb_neq in H1. eauto.
    + intros (l & Hl & -> & Hne & Hh). right.
      exists (TrimSpace (of_bytes (drop_cr l))). rewrite TrimSpace_idemp. split; [|done].
      rewrite list_elem_of_In, filter_In, <- list_elem_of_In. split.
      * apply list_elem_of_fmap. eauto.
      * apply String.eqb_neq in Hne. by rewrite Hne, Hh.
  - revert Hl. generalize (@nil string) as acc. induction ls as [|l ls IH]; intros acc; simpl; [done|].
    destruct (Z.leb_spec MaxScanTokenSize (Z.of_nat (length l))).
    + intros _. exists l. set_solver.
    + intros Hl. assert (∃ acc', load_lines ls acc' = None) as [acc' Hacc] by (case_match; eauto).
      destruct (IH _ Hacc) as (l' & ? & ?). exists l'. set_solver.
Qed.
