(* ===== verification/Policy.v ===== *)
(** * Package policy: the CVE/allow/deny engine and its runtime (internal/policy)

    [Engine_Evaluate] is the decision of engine.go; [Runtime] the
    console-editable policy of runtime.go, with its mutex-serialised edits, the
    snapshot they swap and the settings store behind them; [DecodeStored] the
    migration of store.go.  The text of an error message is kept as the data it
    formats.

    The settings store is an interface: the class [SettingsStore], with the
    laws [SettingsStoreLaws] its implementation over the settings table
    satisfies (component Settings). *)
From S2P Require Import Prelude GoStd Gate Supplychain.
Local Open Scope Z_scope.

(** ** Configuration the policy reads (internal/config) *)

Record CVEConfig := mkCVEConfig { BlockOn : string }.

Record PolicyProfile := mkProfile {
  CVEBlock : bool;
  CVEMinSeverity : string;
  prof_Allowlist : list string;
  prof_Denylist : list string;
}.

(** ** engine.go *)

Record Engine := mkEngine {
  blockOn : Severity;
  cveBlock : bool;
  allowlist : gset string;
  denylist : gset string;
}.

Definition buildIndex (es : list string) : gset string :=
  foldl (fun m e => {[ TrimSpace e ]} ∪ m) ∅ es.

Definition NewEngine (cfg : CVEConfig) (profile : PolicyProfile) : Engine :=
  let blockSeverityStr :=
    if negb (CVEMinSeverity profile =s? "") then CVEMinSeverity profile else BlockOn cfg in
  mkEngine (ParseSeverity blockSeverityStr) (CVEBlock profile)
    (buildIndex (prof_Allowlist profile)) (buildIndex (prof_Denylist profile)).

Definition matchesIndex (idx : gset string) (ref : PackageRef) : bool :=
  let byName := Ecosystem ref +:+ "/" +:+ Name ref in
  let byVersion := byName +:+ "@" +:+ Version ref in
  bool_decide (byName ∈ idx) || bool_decide (byVersion ∈ idx).

Definition Engine_Evaluate (e : Engine) (ref : PackageRef) (res : ScanResult) : PolicyDecision :=
  if matchesIndex (denylist e) ref then mkDecision false "denylisted" []
  else if matchesIndex (allowlist e) ref then mkDecision true "allowlisted_bypass" []
  else if negb (cveBlock e) then mkDecision true "cve_block_disabled" []
  else
    let blocked := List.filter (fun f => AtLeast (cf_Severity f) (blockOn e)) (sr_Findings res) in
    match blocked with
    | _ :: _ => mkDecision false "cve_found" blocked
    | [] => mkDecision true "ok" []
    end.

(** ** runtime.go: parameters and their validation *)

Record RuntimeParams := mkParams {
  p_Mode : string;
  p_MinAgeHours : Z;
  p_CVEBlockOn : string;
  p_AllowlistSupply : list string;
  p_AllowlistCVE : list string;
  p_Denylist : list string;
}.

#[export] Instance RuntimeParams_eq_dec : EqDecision RuntimeParams.
Proof. solve_decision. Defined.

(** What an error message formats. *)
Inductive message :=
| MsgMode (got : string)
| MsgMinAge
| MsgSeverity (got : string)
| MsgUnknownList (got : string)
| MsgEntryShape (entry : string)
| MsgEntrySpace (entry : string).

Inductive policy_error :=
| ValidationError (Field : string) (Message : message)
| PersistError (cause : string).

Definition validMode (m : string) : bool :=
  (m =s? "enforce") || (m =s? "dry_run") || (m =s? "off").
Definition validSeverity (s : string) : bool :=
  (s =s? "CRITICAL") || (s =s? "HIGH") || (s =s? "MEDIUM") || (s =s? "LOW").

Definition ListAllowlistSupply : string := "allowlist_supply".
Definition ListAllowlistCVE : string := "allowlist_cve".
Definition ListDenylist : string := "denylist".

(** [None] is the empty message: the entry is valid. *)
Definition validateListEntry (e : string) : option message :=
  let '(eco, rest, ok) := Cut (TrimSpace e) "/"%char in
  if negb ok || (eco =s? "") || (rest =s? "") then Some (MsgEntryShape e)
  else if ContainsAny (eco +:+ rest) [" "%char; byte_of 9] then Some (MsgEntrySpace e)
  else None.

Fixpoint validateEntries (name : string) (i : Z) (es : list string) : option policy_error :=
  match es with
  | [] => None
  | e :: es' =>
      match validateListEntry e with
      | Some msg => Some (ValidationError (name +:+ "[" +:+ FormatInt i +:+ "]") msg)
      | None => validateEntries name (i + 1) es'
      end
  end.

Definition validateParams (p : RuntimeParams) : option policy_error :=
  if negb (validMode (p_Mode p)) then Some (ValidationError "mode" (MsgMode (p_Mode p)))
  else if p_MinAgeHours p <? 0 then Some (ValidationError "min_age_hours" MsgMinAge)
  else if negb (validSeverity (p_CVEBlockOn p))
  then Some (ValidationError "cve_block_on" (MsgSeverity (p_CVEBlockOn p)))
  else
    match validateEntries ListAllowlistSupply 0 (p_AllowlistSupply p) with
    | Some e => Some e
    | None =>
        match validateEntries ListAllowlistCVE 0 (p_AllowlistCVE p) with
        | Some e => Some e
        | None => validateEntries ListDenylist 0 (p_Denylist p)
        end
    end.

Definition trimEntries (es : list string) : list string := TrimSpace <$> es.

(** ** runtime.go: the runtime *)

(** What the runtime needs of a settings store: [LoadPolicy] is
    (params, found, error), [SavePolicy] an error. *)
Class SettingsStore (S : Type) := {
  LoadPolicy : St S (result string (option RuntimeParams));
  SavePolicy : RuntimeParams -> St S (option string);
}.

Record runtimeSnapshot := mkSnapshot {
  snap_engine : Engine;
  snap_filter : Filter;
  snap_params : RuntimeParams;
}.

Section Runtime.
Context {S : Type} `{!SettingsStore S}.

(** The atomic pointer's current snapshot, the immutable configuration, and
    the store ([None] = runtime-only). *)
Record Runtime := mkRuntime {
  cur : runtimeSnapshot;
  cveCfg : CVEConfig;
  profile : PolicyProfile;
  fileAllow : list string;
  store : option S;
}.

(** The snapshot [install] swaps in for parameters p. *)
Definition build_snapshot (cve : CVEConfig) (prof : PolicyProfile) (file : list string)
    (p : RuntimeParams) : runtimeSnapshot :=
  let merged := file ++ p_AllowlistSupply p in
  let filter := NewFilter (mkSCConfig (p_MinAgeHours p) (p_Mode p)) (Some (NewAllowlist merged)) in
  let prof' := mkProfile (CVEBlock prof) (p_CVEBlockOn p) (p_AllowlistCVE p) (p_Denylist p) in
  mkSnapshot (NewEngine cve prof') filter p.

Definition install (p : RuntimeParams) (r : Runtime) : Runtime :=
  mkRuntime (build_snapshot (cveCfg r) (profile r) (fileAllow r) p)
    (cveCfg r) (profile r) (fileAllow r) (store r).

Definition newRuntimeSeed (sc : SupplyChainConfig) (cve : CVEConfig) (prof : PolicyProfile)
    : RuntimeParams :=
  let blockOn := if negb (CVEMinSeverity prof =s? "") then CVEMinSeverity prof else BlockOn cve in
  let blockOn := if blockOn =s? "" then "LOW" else blockOn in
  mkParams (Mode sc) (MinAgeHours sc) blockOn
    (prof_Allowlist prof) (prof_Allowlist prof) (prof_Denylist prof).

Definition NewRuntime (sc : SupplyChainConfig) (cve : CVEConfig) (prof : PolicyProfile)
    (file : list string) : Runtime :=
  mkRuntime (build_snapshot cve prof file (newRuntimeSeed sc cve prof)) cve prof file None.

Definition NewRuntimeWithStore (sc : SupplyChainConfig) (cve : CVEConfig) (prof : PolicyProfile)
    (file : list string) (st : option S) : result string Runtime :=
  let seed := newRuntimeSeed sc cve prof in
  match st with
  | None => Ok (mkRuntime (build_snapshot cve prof file seed) cve prof file None)
  | Some s =>
      let '(loaded, s) := LoadPolicy s in
      match loaded with
      | Err e => Err e
      | Ok (Some p) => Ok (mkRuntime (build_snapshot cve prof file p) cve prof file (Some s))
      | Ok None =>
          match SavePolicy seed s with
          | (Some e, _) => Err e
          | (None, s') =>
              Ok (mkRuntime (build_snapshot cve prof file seed) cve prof file (Some s'))
          end
      end
  end.

Definition Current (r : Runtime) : RuntimeParams := snap_params (cur r).

Definition updateLocked (p : RuntimeParams) : St Runtime (option policy_error) := fun r =>
  let p := mkParams (p_Mode p) (p_MinAgeHours p) (p_CVEBlockOn p)
    (trimEntries (p_AllowlistSupply p)) (trimEntries (p_AllowlistCVE p))
    (trimEntries (p_Denylist p)) in
  match validateParams p with
  | Some e => (Some e, r)
  | None =>
      match store r with
      | Some s =>
          match SavePolicy p s with
          | (Some e, s') =>
              (Some (PersistError e),
               mkRuntime (cur r) (cveCfg r) (profile r) (fileAllow r) (Some s'))
          | (None, s') =>
              (None, install p (mkRuntime (cur r) (cveCfg r) (profile r) (fileAllow r) (Some s')))
          end
      | None => (None, install p r)
      end
  end.

(** The mutex makes the read, the edit and the swap one step. *)
Definition Update (fn : RuntimeParams -> RuntimeParams) : St Runtime (option policy_error) :=
  fun r => updateLocked (fn (Current r)) r.

Definition Apply (p : RuntimeParams) : St Runtime (option policy_error) :=
  Update (fun _ => p).

(** The list a name points at, and the parameters with that list replaced. *)
Definition target (name : string) (p : RuntimeParams) : option (list string) :=
  if name =s? ListAllowlistSupply then Some (p_AllowlistSupply p)
  else if name =s? ListAllowlistCVE then Some (p_AllowlistCVE p)
  else if name =s? ListDenylist then Some (p_Denylist p)
  else None.

Definition set_target (name : string) (es : list string) (p : RuntimeParams) : RuntimeParams :=
  if name =s? ListAllowlistSupply
  then mkParams (p_Mode p) (p_MinAgeHours p) (p_CVEBlockOn p) es (p_AllowlistCVE p) (p_Denylist p)
  else if name =s? ListAllowlistCVE
  then mkParams (p_Mode p) (p_MinAgeHours p) (p_CVEBlockOn p) (p_AllowlistSupply p) es (p_Denylist p)
  else mkParams (p_Mode p) (p_MinAgeHours p) (p_CVEBlockOn p) (p_AllowlistSupply p) (p_AllowlistCVE p) es.

(** (changed, err) *)
Definition EditList (lst entry : string) (add : bool) : St Runtime (result policy_error bool) :=
  fun r =>
    let entry := TrimSpace entry in
    let p := Current r in
    match target lst p with
    | None => (Err (ValidationError "list" (MsgUnknownList lst)), r)
    | Some es =>
        match validateListEntry entry with
        | Some msg => (Err (ValidationError "entry" msg), r)
        | None =>
            let has := bool_decide (entry ∈ es) in
            let es' :=
              if add && negb has then Some (es ++ [entry])
              else if negb add && has then Some (List.filter (fun e => negb (e =s? entry)) es)
              else None in
            match es' with
            | None => (Ok false, r)
            | Some es' =>
                match updateLocked (set_target lst es' p) r with
                | (Some e, r') => (Err e, r')
                | (None, r') => (Ok true, r')
                end
            end
        end
    end.

Definition Persistent (r : Runtime) : bool :=
  match store r with Some _ => true | None => false end.

Definition Runtime_Evaluate (r : Runtime) (ref : PackageRef) (res : ScanResult) : PolicyDecision :=
  Engine_Evaluate (snap_engine (cur r)) ref res.

Definition Runtime_Check (r : Runtime) (now : Z) (ref : PackageRef) (meta : PackageMetadata)
    : FilterResult :=
  Filter_Check (snap_filter (cur r)) now ref meta.
End Runtime.
Arguments Runtime S : clear implicits.

(** ** store.go *)

(** storedParams: the params and the legacy list of a persisted row. *)
Definition appendMissing (l : list string) (e : string) : list string :=
  if bool_decide (e ∈ l) then l else l ++ [e].

Definition migrate_legacy (p : RuntimeParams) (legacy : list string) : RuntimeParams :=
  foldl (fun p e =>
      mkParams (p_Mode p) (p_MinAgeHours p) (p_CVEBlockOn p)
        (appendMissing (p_AllowlistSupply p) e) (appendMissing (p_AllowlistCVE p) e) (p_Denylist p))
    p legacy.

Section Stored.
(** encoding/json on storedParams and RuntimeParams. *)
Context (json_Unmarshal : string -> result string (RuntimeParams * list string)).
Context (json_Marshal : RuntimeParams -> result string string).

Definition DecodeStored (b : string) : result string RuntimeParams :=
  match json_Unmarshal b with
  | Err e => Err e
  | Ok (p, legacy) => Ok (migrate_legacy p legacy)
  end.

Definition EncodeStored (p : RuntimeParams) : result string string := json_Marshal p.
End Stored.

(** * Properties *)

(** ** The engine *)

Lemma elem_of_buildIndex es x : x ∈ buildIndex es ↔ ∃ e, e ∈ es ∧ x = TrimSpace e.
Proof. unfold buildIndex. rewrite elem_of_index. set_solver. Qed.

(** The policy index and the supply-chain allowlist match by the same rule. *)
Lemma matchesIndex_Contains es ref :
  matchesIndex (buildIndex es) ref = Contains (Some (NewAllowlist es)) ref.
Proof. done. Qed.

(** Findings at or above the engine's threshold. *)
Definition blocking (e : Engine) (res : ScanResult) : list CVEFinding :=
  List.filter (fun f => AtLeast (cf_Severity f) (blockOn e)) (sr_Findings res).

(** the engine blocks a package exactly when it is denylisted, or when it
    is not allowlisted, CVE blocking is on and some finding reaches the
    threshold; it then reports every such finding, in scan order, and only
    a denylist block carries the denylist reason. *)
Theorem Engine_Evaluate_decides e ref res :
  let d := Engine_Evaluate e ref res in
  (pd_Allowed d = false ↔
     matchesIndex (denylist e) ref = true ∨
     (matchesIndex (allowlist e) ref = false ∧ cveBlock e = true ∧
      ∃ f, f ∈ sr_Findings res ∧ AtLeast (cf_Severity f) (blockOn e) = true)) ∧
  (pd_Reason d = ReasonDenylisted ↔ matchesIndex (denylist e) ref = true) ∧
  pd_Findings d = (if pd_Allowed d || matchesIndex (denylist e) ref then [] else blocking e res).
Proof.
  unfold Engine_Evaluate, blocking, ReasonDenylisted.
  destruct (matchesIndex (denylist e) ref) eqn:Hd; simpl; [naive_solver|].
  destruct (matchesIndex (allowlist e) ref) eqn:Ha; simpl; [naive_solver|].
  destruct (cveBlock e) eqn:Hc; simpl; [|naive_solver].
  destruct (List.filter _ (sr_Findings res)) as [|f fs] eqn:Hf; simpl.
  - split_and!; [|naive_solver|done]. split; [done|].
    intros [?|(_ & _ & f & Hin & Hat)]; [done|].
    assert (In f []) as []. rewrite <- Hf. apply filter_In. by rewrite <- list_elem_of_In.
  - split_and!; [|naive_solver|done]. split; [|done]. intros _. right. split_and!; [done..|].
    exists f. assert (In f (f :: fs)) as Hin by (by left). rewrite <- Hf in Hin.
    apply filter_In in Hin. by rewrite list_elem_of_In.
Qed.

(** ** The runtime *)

(** Each list holds entries already trimmed. *)
Definition trimmed (es : list string) : Prop := Forall (fun e => TrimSpace e = e) es.

Definition params_trimmed (p : RuntimeParams) : Prop :=
  trimmed (p_AllowlistSupply p) ∧ trimmed (p_AllowlistCVE p) ∧ trimmed (p_Denylist p).

Lemma trimEntries_trimmed es : trimmed (trimEntries es).
Proof.
  unfold trimmed, trimEntries. apply Forall_fmap, Forall_true. intros e. apply TrimSpace_idemp.
Qed.

Lemma trimEntries_id es : trimmed es → trimEntries es = es.
Proof. induction 1 as [|e es He _ IH]; simpl; [done|]. by rewrite He, IH. Qed.

#[export] Hint Resolve trimEntries_trimmed : joei.

Definition trim_params (p : RuntimeParams) : RuntimeParams :=
  mkParams (p_Mode p) (p_MinAgeHours p) (p_CVEBlockOn p)
    (trimEntries (p_AllowlistSupply p)) (trimEntries (p_AllowlistCVE p)) (trimEntries (p_Denylist p)).

Lemma trim_params_trimmed p : params_trimmed (trim_params p).
Proof. split_and!; apply trimEntries_trimmed. Qed.

Lemma trim_params_id p : params_trimmed p → trim_params p = p.
Proof.
  intros (? & ? & ?). destruct p; unfold trim_params; simpl in *. by rewrite !trimEntries_id.
Qed.

(** The strings of a policy are UTF-8. *)
Definition params_valid (p : RuntimeParams) : bool :=
  forallb ValidString (p_Mode p :: p_CVEBlockOn p :: p_AllowlistSupply p ++ p_AllowlistCVE p ++ p_Denylist p).

(** What a settings store promises: loading changes nothing and finds what was
    saved last, as text; a failed save leaves what was stored. *)
Class SettingsStoreLaws (S : Type) `{!SettingsStore S} := {
  stored_policy : S -> option RuntimeParams;
  policy_text : RuntimeParams -> RuntimeParams;
  policy_text_valid p : params_valid p = true → policy_text p = p;
  load_policy_keeps s : stored_policy (LoadPolicy s).2 = stored_policy s;
  load_policy_finds s x : (LoadPolicy s).1 = Ok x → x = stored_policy s;
  save_policy_saves p s : (SavePolicy p s).1 = None → stored_policy (SavePolicy p s).2 = Some (policy_text p);
  save_policy_fails p s e : (SavePolicy p s).1 = Some e → stored_policy (SavePolicy p s).2 = stored_policy s;
}.

Section RuntimeProps.
Context {S : Type} `{!SettingsStore S}.
Implicit Types (r : Runtime S) (p : RuntimeParams).

(** The engine and the filter in force are the ones of the current params. *)
Definition coherent r : Prop :=
  cur r = build_snapshot (cveCfg r) (profile r) (fileAllow r) (Current r).

(** The policy in force is the one stored, as text. *)
Definition persisted `{!SettingsStoreLaws S} r : Prop :=
  ∀ s, store r = Some s → ∃ p, stored_policy s = Some p ∧ (p = Current r ∨ p = policy_text (Current r)).

Lemma updateLocked_ok p r r' :
  updateLocked p r = (None, r') →
  Current r' = trim_params p ∧ validateParams (trim_params p) = None ∧
  coherent r' ∧ fileAllow r' = fileAllow r ∧ profile r' = profile r ∧ cveCfg r' = cveCfg r.
Proof.
  unfold updateLocked. fold (trim_params p).
  destruct (validateParams (trim_params p)); [done|].
  destruct (store r) as [s|]; [destruct (SavePolicy _ s) as [[e|] s']; [done|]|];
    intros; simplify_eq; done.
Qed.

Lemma updateLocked_err p r e r' :
  updateLocked p r = (Some e, r') →
  cur r' = cur r ∧ fileAllow r' = fileAllow r ∧ profile r' = profile r ∧ cveCfg r' = cveCfg r ∧
  (validateParams (trim_params p) = Some e ∧ r' = r ∨ ∃ c, e = PersistError c).
Proof.
  unfold updateLocked. fold (trim_params p).
  destruct (validateParams (trim_params p)) eqn:Hv; [naive_solver|].
  destruct (store r) as [s|]; [destruct (SavePolicy _ s) as [[c|] s']|]; intros; naive_solver.
Qed.

Lemma updateLocked_persisted `{!SettingsStoreLaws S} p r :
  persisted r → persisted (updateLocked p r).2.
Proof.
  unfold updateLocked, persisted. fold (trim_params p). intros Hp s1.
  destruct (validateParams (trim_params p)) eqn:Hv; [by apply Hp|].
  destruct (store r) as [s|] eqn:Hs; [|simpl; by rewrite Hs].
  pose proof (save_policy_saves (trim_params p) s) as Hok. pose proof (save_policy_fails (trim_params p) s) as Hno.
  destruct (SavePolicy _ s) as [[c|] s']; simpl in *; intros [= <-].
  - rewrite (Hno c) by done. by apply Hp.
  - eexists. split; [by apply Hok|by right].
Qed.

(** an edit either installs validated, trimmed parameters - engine, filter
    and parameters together - or leaves the policy in force untouched: there
    is no partial application, and nothing invalid is ever in force. *)
Theorem Update_atomic fn r :
  match Update fn r with
  | (None, r') =>
      Current r' = trim_params (fn (Current r)) ∧
      validateParams (Current r') = None ∧ coherent r'
  | (Some e, r') =>
      cur r' = cur r ∧
      (validateParams (trim_params (fn (Current r))) = Some e ∧ r' = r ∨ ∃ c, e = PersistError c)
  end.
Proof.
  unfold Update. destruct (updateLocked (fn (Current r)) r) as [[e|] r'] eqn:H.
  - by apply updateLocked_err in H as (? & _ & _ & _ & ?).
  - apply updateLocked_ok in H as (-> & ? & ? & _). done.
Qed.

(** ** Editing one list *)

Definition entry_set (name : string) r : gset string :=
  match target name (Current r) with Some es => list_to_set es | None => ∅ end.

Lemma target_trim name p es :
  target name p = Some es → target name (trim_params p) = Some (trimEntries es).
Proof. unfold target. repeat case_match; naive_solver. Qed.

Lemma target_trimmed name p es : params_trimmed p → target name p = Some es → trimmed es.
Proof. intros (? & ? & ?). unfold target. repeat case_match; naive_solver. Qed.

Lemma target_set_target name es p es0 :
  target name p = Some es0 → target name (set_target name es p) = Some es.
Proof. unfold target, set_target. repeat case_match; naive_solver. Qed.

Lemma target_set_target_ne name other es p :
  name ≠ other → is_Some (target name p) →
  target other (set_target name es p) = target other p.
Proof.
  unfold target, set_target. intros Hne [? ?].
  repeat case_match; bool_to_prop; subst; simpl; congruence || done.
Qed.

Lemma entry_set_updated name r r' es p :
  updateLocked p r = (None, r') → target name p = Some es →
  entry_set name r' = list_to_set (trimEntries es).
Proof.
  intros (Hcur & _)%updateLocked_ok Ht. unfold entry_set.
  by rewrite Hcur, (target_trim _ _ _ Ht).
Qed.

Lemma set_target_trimmed name es p es0 :
  params_trimmed p → target name p = Some es0 → trimmed es → params_trimmed (set_target name es p).
Proof.
  intros (? & ? & ?). unfold target, set_target, params_trimmed. intros.
  repeat case_match; simplify_eq/=; done.
Qed.

(** The list [EditList] stores, or [None] for a no-op. *)
Definition edited (entry : string) (add : bool) (es : list string) : option (list string) :=
  if add && negb (bool_decide (entry ∈ es)) then Some (es ++ [entry])
  else if negb add && bool_decide (entry ∈ es)
  then Some (List.filter (fun e => negb (e =s? entry)) es)
  else None.

Lemma elem_of_edited entry add es es' x :
  edited entry add es = Some es' →
  x ∈ es' ↔ (if add then x ∈ es ∨ x = entry else x ∈ es ∧ x ≠ entry).
Proof.
  unfold edited. destruct add; simpl; case_bool_decide; simpl; intros; simplify_eq.
  - set_solver.
  - rewrite !list_elem_of_In, filter_In, negb_true_iff, String.eqb_neq. done.
Qed.

Lemma edited_None entry add es x :
  edited entry add es = None →
  x ∈ es ↔ (if add then x ∈ es ∨ x = entry else x ∈ es ∧ x ≠ entry).
Proof. unfold edited. destruct add; simpl; case_bool_decide; simpl; naive_solver. Qed.

Lemma edited_trimmed entry add es es' :
  TrimSpace entry = entry → trimmed es → edited entry add es = Some es' → trimmed es'.
Proof.
  unfold trimmed. rewrite !Forall_forall. intros Hent Hes Hed x Hx.
  apply (elem_of_edited _ _ _ _ x Hed) in Hx. destruct add; naive_solver.
Qed.

Lemma EditList_unfold name entry add r es :
  target name (Current r) = Some es →
  EditList name entry add r =
    let e := TrimSpace entry in
    match validateListEntry e with
    | Some msg => (Err (ValidationError "entry" msg), r)
    | None =>
        match edited e add es with
        | None => (Ok false, r)
        | Some es' =>
            match updateLocked (set_target name es' (Current r)) r with
            | (Some e, r') => (Err e, r')
            | (None, r') => (Ok true, r')
            end
        end
    end.
Proof. intros Ht. unfold EditList, edited. by rewrite Ht. Qed.

Lemma EditList_trimmed name entry add r :
  params_trimmed (Current r) → params_trimmed (Current (EditList name entry add r).2).
Proof.
  intros Htr. unfold EditList. destruct (target name (Current r)) as [es|] eqn:Ht; [|done].
  fold (edited (TrimSpace entry) add es).
  destruct (validateListEntry _); [done|].
  destruct (edited _ _ _) as [es'|]; [|done].
  destruct (updateLocked _ r) as [[e|] r'] eqn:Hu; simpl.
  - apply updateLocked_err in Hu as (Hc & _). unfold Current in *. by rewrite Hc.
  - apply updateLocked_ok in Hu as (-> & _). apply trim_params_trimmed.
Qed.

(** editing a list is editing a set: on trimmed parameters a successful
    [EditList] inserts the (trimmed) entry into the named list's set or
    removes it, reports whether the set changed, and leaves the other
    lists' sets alone; a failed one changes no set. *)
Theorem EditList_refines_set name entry add r :
  params_trimmed (Current r) →
  match EditList name entry add r with
  | (Ok changed, r') =>
      entry_set name r' =
        (if add then {[ TrimSpace entry ]} ∪ entry_set name r
         else entry_set name r ∖ {[ TrimSpace entry ]}) ∧
      (changed = true ↔ entry_set name r' ≠ entry_set name r) ∧
      (∀ other, other ≠ name → entry_set other r' = entry_set other r)
  | (Err _, r') => ∀ other, entry_set other r' = entry_set other r
  end.
Proof.
  intros Htr. destruct (target name (Current r)) as [es|] eqn:Ht; [|unfold EditList; by rewrite Ht].
  rewrite (EditList_unfold _ _ _ _ _ Ht); cbv zeta.
  destruct (validateListEntry (TrimSpace entry)); [done|].
  assert (entry_set name r = list_to_set es) as Hes by (unfold entry_set; by rewrite Ht).
  destruct (edited (TrimSpace entry) add es) as [es'|] eqn:Hed.
  - destruct (updateLocked _ r) as [[e|] r'] eqn:Hu.
    { intros other. apply updateLocked_err in Hu as (Hc & _).
      unfold entry_set, Current. by rewrite Hc. }
    assert (trimmed es') as Hes'.
    { eapply edited_trimmed; [apply TrimSpace_idemp|by eapply target_trimmed|done]. }
    pose proof (entry_set_updated name _ _ _ _ Hu (target_set_target _ es' _ _ Ht)) as Hset.
    rewrite trimEntries_id in Hset by done.
    assert (∀ x, x ∈ entry_set name r' ↔
              if add then x ∈ es ∨ x = TrimSpace entry else x ∈ es ∧ x ≠ TrimSpace entry) as Hx.
    { intros x. rewrite Hset, elem_of_list_to_set. apply (elem_of_edited _ _ _ _ x Hed). }
    split_and!.
    + apply set_eq. intros x. rewrite Hx, Hes. destruct add; set_solver.
    + split; [|done]. intros _ Heq. rewrite Heq, Hes in Hx.
      unfold edited in Hed. specialize (Hx (TrimSpace entry)). rewrite elem_of_list_to_set in Hx.
      destruct add; simpl in *; case_bool_decide; simplify_eq/=; naive_solver.
    + intros other Hne. apply updateLocked_ok in Hu as (Hcur & _).
      unfold entry_set. rewrite Hcur, trim_params_id by by eapply set_target_trimmed.
      by rewrite target_set_target_ne by eauto.
  - split_and!; [|done|done]. apply set_eq. intros x. rewrite Hes.
    pose proof (edited_None _ _ _ x Hed). destruct add; set_solver.
Qed.
End RuntimeProps.

(** A store that keeps the params themselves, the smallest one the laws hold
    of: what the witnesses run on. *)
Section MemoryStore.
#[export] Instance memory_store : SettingsStore (option RuntimeParams) := {
  LoadPolicy s := (Ok s, s);
  SavePolicy p _ := (None, Some p);
}.

#[export] Instance memory_store_laws : SettingsStoreLaws (option RuntimeParams).
Proof. exists id id; intros; simplify_eq/=; done. Defined.
End MemoryStore.

Definition boot_witness : Runtime (option RuntimeParams) :=
  NewRuntime (mkSCConfig 24 "enforce") (mkCVEConfig "HIGH")
    (mkProfile true "" ["npm/left-pad"] []) [].

Lemma EditList_refines_set_witness :
  let '(res, r') := EditList ListDenylist " npm/evil " true boot_witness in
  entry_set ListDenylist r' = {[ TrimSpace " npm/evil " ]} ∪ entry_set ListDenylist boot_witness ∧
  res = Ok true.
Proof.
  assert (params_trimmed (Current boot_witness)) as Htr.
  { split_and!; repeat constructor. }
  pose proof (EditList_refines_set ListDenylist " npm/evil " true boot_witness Htr) as H.
  revert H. vm_compute (EditList _ _ _ _). intros (H & _). split; [exact H|reflexivity].
Defined.

(** The endpoint does not find a YAML-seeded entry under its own spelling when
    that spelling has surrounding whitespace: seeds are installed untrimmed,
    while the engine matches them trimmed. *)
Example EditList_untrimmed_seed :
  let r : Runtime (option RuntimeParams) :=
    NewRuntime (mkSCConfig 24 "enforce") (mkCVEConfig "HIGH") (mkProfile true "" [] ["npm/evil "]) [] in
  let '(res, r') := EditList ListDenylist "npm/evil " false r in
  res = Ok false ∧
  pd_Allowed (Runtime_Evaluate r' (mkRef "npm" "evil" "1.0.0" "") (mkScan true [] "")) = false.
Proof. vm_compute. done. Qed.

(** ** Sequences of edits and restarts *)

Inductive policy_op :=
| OpApply (p : RuntimeParams)
| OpEdit (lst entry : string) (add : bool).

Section Runs.
Context {S : Type} `{!SettingsStore S}.
Implicit Types (r : Runtime S).

(** Edits are serialised by the mutex, so any interleaving is a sequence. *)
Definition run_op (op : policy_op) r : Runtime S :=
  match op with
  | OpApply p => (Apply p r).2
  | OpEdit lst entry add => (EditList lst entry add r).2
  end.

Definition run_ops (ops : list policy_op) r : Runtime S := foldl (fun r op => run_op op r) r ops.

Lemma run_op_cases op r :
  run_op op r = r ∨ ∃ p, run_op op r = (updateLocked p r).2.
Proof.
  destruct op as [p|lst entry add]; simpl; [right; by exists p|].
  destruct (target lst (Current r)) as [es|] eqn:Ht; [|left; unfold EditList; by rewrite Ht].
  rewrite (EditList_unfold _ _ _ _ _ Ht); cbv zeta.
  destruct (validateListEntry _); [by left|].
  destruct (edited _ _ _) as [es'|]; [|by left].
  right. exists (set_target lst es' (Current r)). by destruct (updateLocked _ r) as [[e|] r'].
Qed.

(** An invariant of [updateLocked] is an invariant of every run. *)
Lemma run_ops_invariant (P : Runtime S → Prop) ops r :
  (∀ p r, P r → P (updateLocked p r).2) → P r → P (run_ops ops r).
Proof.
  intros Hstep. revert r. induction ops as [|op ops IH]; intros r HP; simpl; [done|].
  apply IH. destruct (run_op_cases op r) as [->|[p ->]]; auto.
Qed.

Lemma updateLocked_coherent p r : coherent r → coherent (updateLocked p r).2.
Proof.
  intros Hc. destruct (updateLocked p r) as [[e|] r'] eqn:Hu; simpl.
  - apply updateLocked_err in Hu as (Hcur & Hf & Hp & Hv & _).
    unfold coherent, Current in *. by rewrite Hcur, Hf, Hp, Hv.
  - by apply updateLocked_ok in Hu as (_ & _ & ? & _).
Qed.

Lemma updateLocked_store p r : is_Some (store r) → is_Some (store (updateLocked p r).2).
Proof.
  unfold updateLocked. intros [s Hs]. rewrite Hs.
  destruct (validateParams _); simpl; [rewrite Hs; eauto|].
  destruct (SavePolicy _ s) as [[e|] s']; simpl; eauto.
Qed.

Lemma NewRuntimeWithStore_boot `{!SettingsStoreLaws S} sc cve prof file s :
  match NewRuntimeWithStore sc cve prof file (Some s) with
  | Ok r => coherent r ∧ persisted r ∧ is_Some (store r) ∧ (∀ p, stored_policy s = Some p → Current r = p)
  | Err e => (LoadPolicy s).1 = Err e ∨ stored_policy s = None
  end.
Proof.
  unfold NewRuntimeWithStore, coherent, persisted.
  pose proof (load_policy_keeps s) as Hk. pose proof (load_policy_finds s) as Hf.
  destruct (LoadPolicy s) as [[[p|]|e] s1]; simpl in *; [| |by left].
  - specialize (Hf _ eq_refl). split_and!; [done| |by eexists|by intros q Hq; rewrite Hq in Hf; injection Hf].
    intros s2 [= <-]. exists p. split; [congruence|by left].
  - specialize (Hf _ eq_refl). pose proof (save_policy_saves (newRuntimeSeed sc cve prof) s1) as Hs.
    destruct (SavePolicy _ s1) as [[e|] s2]; simpl in *; [by right|].
    split_and!; [done| |by eexists|congruence]. intros s3 [= <-]. eexists. split; [by apply Hs|by right].
Qed.

(** the database wins.  After any sequence of console edits - applied,
    rejected or failing to persist - the engine and filter in force are those
    of the current parameters, and a restart from the store, whatever the
    YAML then says, comes up with exactly these parameters, or, when the store
    cannot be read, not at all. *)
Theorem restart_keeps_policy `{!SettingsStoreLaws S} sc cve prof file s r ops :
  NewRuntimeWithStore sc cve prof file (Some s) = Ok r →
  let r' := run_ops ops r in
  coherent r' ∧
  ∃ s', store r' = Some s' ∧
    ∀ sc' cve' prof' file',
      match NewRuntimeWithStore sc' cve' prof' file' (Some s') with
      | Ok r'' => coherent r'' ∧ (params_valid (Current r') = true → Current r'' = Current r')
      | Err e => (LoadPolicy s').1 = Err e
      end.
Proof.
  intros Hboot; cbv zeta. pose proof (NewRuntimeWithStore_boot sc cve prof file s) as H. rewrite Hboot in H.
  destruct H as (Hc & Hp & Hs & _).
  split; [by apply (run_ops_invariant coherent ops r updateLocked_coherent)|].
  pose proof (run_ops_invariant _ ops r updateLocked_persisted Hp) as Hp'.
  pose proof (run_ops_invariant (fun r => is_Some (store r)) ops r updateLocked_store Hs) as [s' Hs'].
  exists s'. split; [done|]. intros sc' cve' prof' file'. destruct (Hp' _ Hs') as (p & Hst & Hpc).
  pose proof (NewRuntimeWithStore_boot sc' cve' prof' file' s') as H.
  destruct (NewRuntimeWithStore _ _ _ _ (Some s')) as [r''|e].
  - destruct H as (Hco & _ & _ & Hcur). split; [done|]. intros Hv. rewrite (Hcur p Hst).
    destruct Hpc as [->| ->]; [done|]. by apply policy_text_valid.
  - destruct H as [H|H]; [done|congruence].
Qed.

(** the gates' allowlists are separate.  Whatever else two policies
    differ in, the CVE verdict depends only on the threshold, the CVE
    allowlist and the denylist, and the age verdict only on the mode, the
    minimum age and the supply allowlist: no supply entry bypasses the CVE
    block, and no CVE entry the age hold. *)
Theorem gates_separate r p q ref :
  (p_CVEBlockOn p = p_CVEBlockOn q → p_AllowlistCVE p = p_AllowlistCVE q →
   p_Denylist p = p_Denylist q →
   ∀ res, Runtime_Evaluate (install p r) ref res = Runtime_Evaluate (install q r) ref res) ∧
  (p_Mode p = p_Mode q → p_MinAgeHours p = p_MinAgeHours q →
   p_AllowlistSupply p = p_AllowlistSupply q →
   ∀ now meta, Runtime_Check (install p r) now ref meta = Runtime_Check (install q r) now ref meta).
Proof.
  unfold Runtime_Evaluate, Runtime_Check, install, build_snapshot; simpl.
  split; [intros -> -> ->|intros -> -> ->]; done.
Qed.
End Runs.

Lemma gates_separate_witness :
  let p := mkParams "enforce" 24 "HIGH" ["npm/left-pad"] [] ["npm/evil"] in
  let q := mkParams "off" 0 "HIGH" [] [] ["npm/evil"] in
  p_AllowlistSupply p ≠ p_AllowlistSupply q ∧
  ∀ res, Runtime_Evaluate (install p boot_witness) (mkRef "npm" "left-pad" "1.0.0" "") res =
         Runtime_Evaluate (install q boot_witness) (mkRef "npm" "left-pad" "1.0.0" "") res.
Proof. intros p q. split; [discriminate|]. apply (gates_separate boot_witness p q); reflexivity. Defined.

Lemma restart_keeps_policy_witness :
  let boot := NewRuntimeWithStore (S := option RuntimeParams) (mkSCConfig 24 "enforce")
                (mkCVEConfig "HIGH") (mkProfile true "" [] []) [] (Some None) in
  let ops := [OpEdit ListDenylist "npm/evil" true; OpApply (mkParams "bogus" 1 "LOW" [] [] []);
              OpEdit ListAllowlistCVE "npm/left-pad" true] in
  match boot with
  | Err _ => False
  | Ok r => ∃ s', store (run_ops ops r) = Some s' ∧
      ∀ sc' cve' prof' file',
        match NewRuntimeWithStore sc' cve' prof' file' (Some s') with
        | Ok r'' => Current r'' = mkParams "enforce" 24 "HIGH" [] ["npm/left-pad"] ["npm/evil"]
        | Err _ => False
        end
  end.
Proof.
  intros boot ops. destruct boot as [r|e] eqn:Hb; [|discriminate Hb].
  destruct (restart_keeps_policy _ _ _ _ _ r ops Hb) as [_ (s' & Hs & Hr)].
  exists s'. split; [exact Hs|]. intros sc' cve' prof' file'. specialize (Hr sc' cve' prof' file').
  destruct (NewRuntimeWithStore _ _ _ _ (Some s')) as [r''|e]; [|discriminate Hr].
  destruct Hr as [_ Hr]. injection Hb as <-. rewrite Hr by reflexivity. vm_compute. reflexivity.
Defined.

(** ** The legacy allowlist *)

Lemma appendMissing_elem l e x : x ∈ appendMissing l e ↔ x ∈ l ∨ x = e.
Proof. unfold appendMissing. case_bool_decide; set_solver. Qed.

Lemma appendMissing_NoDup l e : NoDup l → NoDup (appendMissing l e).
Proof.
  unfold appendMissing. case_bool_decide; [done|]. intros ?. apply NoDup_app.
  split_and!; [done|set_solver|apply NoDup_singleton].
Qed.

Lemma appendMissing_prefix l e : l `prefix_of` appendMissing l e.
Proof. unfold appendMissing. case_bool_decide; [done|by eexists]. Qed.

(** A list after the migration of the legacy one. *)
Definition merged_list (l legacy l' : list string) : Prop :=
  l `prefix_of` l' ∧ (NoDup l → NoDup l') ∧ ∀ e, e ∈ l' ↔ e ∈ l ∨ e ∈ legacy.

Lemma merged_list_refl l : merged_list l [] l.
Proof. split_and!; set_solver. Qed.

Lemma merged_list_step l e legacy l' :
  merged_list (appendMissing l e) legacy l' → merged_list l (e :: legacy) l'.
Proof.
  intros (Hp & Hn & He). split_and!.
  - etrans; [apply appendMissing_prefix|done].
  - intros ?. by apply Hn, appendMissing_NoDup.
  - intros x. rewrite He, appendMissing_elem. set_solver.
Qed.

#[export] Hint Resolve merged_list_refl merged_list_step : joei.

Lemma migrate_legacy_merged p legacy :
  let q := migrate_legacy p legacy in
  p_Mode q = p_Mode p ∧ p_MinAgeHours q = p_MinAgeHours p ∧ p_CVEBlockOn q = p_CVEBlockOn p ∧
  p_Denylist q = p_Denylist p ∧
  merged_list (p_AllowlistSupply p) legacy (p_AllowlistSupply q) ∧
  merged_list (p_AllowlistCVE p) legacy (p_AllowlistCVE q).
Proof.
  cbv zeta. revert p. induction legacy as [|e legacy IH]; intros p; simpl.
  - split_and!; auto with joei.
  - destruct (IH (mkParams (p_Mode p) (p_MinAgeHours p) (p_CVEBlockOn p)
      (appendMissing (p_AllowlistSupply p) e) (appendMissing (p_AllowlistCVE p) e) (p_Denylist p)))
      as (? & ? & ? & ? & ? & ?); simpl in *.
    split_and!; auto with joei.
Qed.

(** reading a policy row written before the per-gate split keeps its
    meaning: both per-gate lists keep their entries in order, gain exactly the
    legacy entries and no duplicates, nothing else changes, and every package
    the single allowlist matched now bypasses the age hold and the CVE block
    alike. *)
Theorem DecodeStored_migrates json_Unmarshal b p legacy :
  json_Unmarshal b = Ok (p, legacy) →
  ∃ q, DecodeStored json_Unmarshal b = Ok q ∧
    p_Mode q = p_Mode p ∧ p_MinAgeHours q = p_MinAgeHours p ∧ p_CVEBlockOn q = p_CVEBlockOn p ∧
    p_Denylist q = p_Denylist p ∧
    merged_list (p_AllowlistSupply p) legacy (p_AllowlistSupply q) ∧
    merged_list (p_AllowlistCVE p) legacy (p_AllowlistCVE q) ∧
    ∀ ref, matchesIndex (buildIndex legacy) ref = true →
      matchesIndex (buildIndex (p_AllowlistCVE q)) ref = true ∧
      Contains (Some (NewAllowlist (p_AllowlistSupply q))) ref = true.
Proof.
  intros Hj. exists (migrate_legacy p legacy). unfold DecodeStored. rewrite Hj.
  destruct (migrate_legacy_merged p legacy) as (? & ? & ? & ? & Hs & Hc).
  split_and!; [done..|]. intros ref. rewrite !matchesIndex_Contains, !Contains_NewAllowlist.
  destruct Hs as (_ & _ & Hs), Hc as (_ & _ & Hc).
  intros (e & He & Hm). split; exists e; rewrite ?Hs, ?Hc; auto.
Qed.

Lemma DecodeStored_migrates_witness :
  let json (_ : string) : result string (RuntimeParams * list string) :=
    Ok (mkParams "enforce" 24 "HIGH" ["npm/a"] [] ["npm/evil"], ["npm/a"; "pypi/b"]) in
  ∃ q, DecodeStored json "{}" = Ok q ∧ p_AllowlistSupply q = ["npm/a"; "pypi/b"] ∧
    p_AllowlistCVE q = ["npm/a"; "pypi/b"].
Proof.
  intros json.
  destruct (DecodeStored_migrates json "{}" _ _ eq_refl) as (q & Hq & _).
  exists q. split; [exact Hq|]. injection Hq as <-. vm_compute. split; reflexivity.
Defined.
