(* ===== verification/Cache.v ===== *)
(** * Package cache: the local artifact cache (internal/cache)

    [LocalCache] couples the index of index.go - one row per package
    reference, the table's UNIQUE key - with the artifact files on disk
    (local.go).  Every fallible system call or SQL statement consumes one
    element of the state's fault schedule: a failed one has no effect, which is
    what SQLite promises of a statement and the file system of a rename.  The
    order SQLite returns rows of equal [last_hit] in is a parameter.

    The schema migrations are in CacheMigrate.  Not modelled: the temporary file
    [Put] writes beside the destination (it exists only during the call) and
    the SQL connection. *)
From S2P Require Import Prelude GoStd Gate.
Local Open Scope Z_scope.

(** ** The index *)

(** A row of the artifacts table; the columns id and expires_at carry nothing. *)
Record Row := mkRow {
  file_path : string;
  scan_clean : bool;
  scan_json : string;
  stored_at : Z;
  last_hit : Z;
  hit_count : Z;
  size_bytes : Z;
  last_cve_check : Z;
  last_malware_check : Z;
}.

#[export] Instance Row_eq_dec : EqDecision Row.
Proof. solve_decision. Defined.

Record CacheEntry := mkCacheEntry {
  ArtifactPath : string;
  ScanClean : bool;
  ce_ScanJSON : string;
  StoredAt : Z;
  HitCount : Z;
  SizeBytes : Z;
  LastCVECheck : Z;
  LastMalwareCheck : Z;
}.

Record CacheStats := mkStats {
  st_Entries : Z;
  st_SizeBytes : Z;
  st_Evictions : Z;
  st_StaleBytes : Z;
}.

Notation table := (gmap PackageRef Row).

(** INSERT ... ON CONFLICT DO UPDATE: an update keeps the hit count. *)
Definition Index_Insert (ref : PackageRef) (e : CacheEntry) (t : table) : table :=
  let stored := time_unix (StoredAt e) in
  let hits := match t !! ref with Some old => hit_count old | None => 0 end in
  <[ ref := mkRow (ArtifactPath e) (ScanClean e) (ce_ScanJSON e) stored stored hits (SizeBytes e)
              stored stored ]> t.

Definition row_entry (r : Row) : CacheEntry :=
  mkCacheEntry (file_path r) (scan_clean r) (scan_json r) (of_unix (stored_at r) 0)
    (hit_count r) (size_bytes r) (of_unix (last_cve_check r) 0) (of_unix (last_malware_check r) 0).

Definition Index_Get (ref : PackageRef) (t : table) : option CacheEntry := row_entry <$> t !! ref.

Definition Index_IncrementHit (now : Z) (ref : PackageRef) (t : table) : table :=
  alter (fun r => mkRow (file_path r) (scan_clean r) (scan_json r) (stored_at r) (time_unix now)
                    (hit_count r + 1) (size_bytes r) (last_cve_check r) (last_malware_check r))
    ref t.

Definition Index_MarkCVEChecked (ref : PackageRef) (ts : Z) (t : table) : table :=
  alter (fun r => mkRow (file_path r) (scan_clean r) (scan_json r) (stored_at r) (last_hit r)
                    (hit_count r) (size_bytes r) ts (last_malware_check r))
    ref t.

Definition Index_MarkMalwareChecked (ref : PackageRef) (ts : Z) (t : table) : table :=
  alter (fun r => mkRow (file_path r) (scan_clean r) (scan_json r) (stored_at r) (last_hit r)
                    (hit_count r) (size_bytes r) (last_cve_check r) ts)
    ref t.

Definition sum_sizes (l : list (PackageRef * Row)) : Z :=
  foldr (fun p acc => size_bytes p.2 + acc) 0 l.

Definition Index_TotalSizeBytes (t : table) : Z := sum_sizes (map_to_list t).

Definition Index_Count (t : table) : Z := Z.of_nat (size t).

Definition stale (cutoff : Z) (p : PackageRef * Row) : bool := last_hit p.2 <? cutoff.

Definition Index_StaleSizeBytes (cutoff : Z) (t : table) : Z :=
  sum_sizes (List.filter (stale cutoff) (map_to_list t)).

(** ** The local cache *)

Record LocalCacheConfig := mkCacheConfig {
  RootPath : string;
  MaxSizeGB : Z;
  StaleAfter : Z;
}.

(** [disk] maps the paths of existing files to their contents; [pending] is
    the one-slot eviction trigger channel. *)
Record LocalCache := mkLocalCache {
  index : table;
  disk : gmap string bytes;
  evictions : Z;
  pending : bool;
  faults : list bool;
}.

Definition set_index (t : table) (c : LocalCache) : LocalCache :=
  mkLocalCache t (disk c) (evictions c) (pending c) (faults c).
Definition set_disk (d : gmap string bytes) (c : LocalCache) : LocalCache :=
  mkLocalCache (index c) d (evictions c) (pending c) (faults c).
Definition set_evictions (n : Z) (c : LocalCache) : LocalCache :=
  mkLocalCache (index c) (disk c) n (pending c) (faults c).
Definition set_pending (b : bool) (c : LocalCache) : LocalCache :=
  mkLocalCache (index c) (disk c) (evictions c) b (faults c).

(** Whether the next system call or SQL statement fails; an exhausted
    schedule means it succeeds. *)
Definition fails : St LocalCache bool := fun c =>
  match faults c with
  | [] => (false, c)
  | b :: bs => (b, mkLocalCache (index c) (disk c) (evictions c) (pending c) bs)
  end.

Section LocalCache.
Context (cfg : LocalCacheConfig).
(** Hex SHA-256, and SQLite's ORDER BY last_hit ASC. *)
Context (sha256_hex : string -> string).
Context (order_by_last_hit : list (PackageRef * Row) -> list (PackageRef * Row)).

(** filepath.Join of a clean root. *)
Definition artifactPath (ref : PackageRef) : string :=
  let hex := sha256_hex (Key ref) in
  RootPath cfg +:+ "/artifacts/" +:+ of_bytes (take 2 (to_bytes hex)) +:+ "/" +:+ hex.

(** A statement on the index that may fail: the row count it affects. *)
Definition Index_Delete (ref : PackageRef) : St LocalCache (result unit Z) :=
  b <- fails;;
  if b then ret_st (Err tt)
  else fun c =>
    (Ok (match index c !! ref with Some _ => 1 | None => 0 end),
     set_index (delete ref (index c)) c).

Definition Index_query {A} (f : table -> A) : St LocalCache (result unit A) :=
  b <- fails;;
  if b then ret_st (Err tt) else fun c => (Ok (f (index c)), c).

Definition Index_exec (f : table -> table) : St LocalCache (result unit unit) :=
  b <- fails;;
  if b then ret_st (Err tt) else fun c => (Ok tt, set_index (f (index c)) c).

Definition Index_LRUCandidates (n : nat) : St LocalCache (result unit (list PackageRef)) :=
  Index_query (fun t => take n (fst <$> order_by_last_hit (map_to_list t))).

(** A candidate's ref and size. *)
Definition Index_StaleCandidates (cutoff : Z) (n : nat)
    : St LocalCache (result unit (list (PackageRef * Z))) :=
  Index_query (fun t =>
    take n ((fun p => (p.1, size_bytes p.2)) <$>
      order_by_last_hit (List.filter (stale cutoff) (map_to_list t)))).

(** os.Stat: whether the file can be seen. *)
Definition os_Stat (path : string) : St LocalCache bool :=
  b <- fails;;
  if b then ret_st false
  else fun c => (bool_decide (is_Some (disk c !! path)), c).

Definition os_Remove (path : string) : St LocalCache unit :=
  b <- fails;;
  if b then ret_st tt else fun c => (tt, set_disk (delete path (disk c)) c).

Definition LocalCache_Get (now : Z) (ref : PackageRef) : St LocalCache (option CacheEntry) :=
  r <- Index_query (Index_Get ref);;
  match r with
  | Err _ | Ok None => ret_st None
  | Ok (Some entry) =>
      ok <- os_Stat (ArtifactPath entry);;
      if ok then
        _ <- Index_exec (Index_IncrementHit now ref);;
        ret_st (Some entry)
      else
        _ <- Index_Delete ref;;
        ret_st None
  end.

(** [data] is the content of the file at tmpPath.  [true] is success. *)
Definition LocalCache_Put (now : Z) (ref : PackageRef) (data : bytes)
    (scanClean : bool) (scanJSON : string) : St LocalCache bool :=
  let destPath := artifactPath ref in
  mkdir <- fails;;
  if mkdir then ret_st false else
  open <- fails;;
  if open then ret_st false else
  create <- fails;;
  if create then ret_st false else
  copy <- fails;;
  if copy then ret_st false else
  rename <- fails;;
  if rename then ret_st false else
  _ <- modify_st (fun c => set_disk (<[ destPath := data ]> (disk c)) c);;
  let entry := mkCacheEntry destPath scanClean scanJSON now 0 (Z.of_nat (length data)) 0 0 in
  ins <- Index_exec (Index_Insert ref entry);;
  match ins with
  | Err _ => _ <- os_Remove destPath;; ret_st false
  | Ok _ => _ <- modify_st (set_pending true);; ret_st true
  end.

(** (a row was deleted, error) *)
Definition invalidate (ref : PackageRef) : St LocalCache (result unit bool) :=
  r <- Index_query (Index_Get ref);;
  _ <- (match r with
       | Ok (Some entry) => os_Remove (ArtifactPath entry)
       | _ => ret_st tt
       end);;
  d <- Index_Delete ref;;
  match d with
  | Err e => ret_st (Err e)
  | Ok n => ret_st (Ok (0 <? n))
  end.

Definition LocalCache_Invalidate (ref : PackageRef) : St LocalCache bool :=
  r <- invalidate ref;;
  ret_st (is_ok r).

Definition LocalCache_MarkCVEChecked (ref : PackageRef) (ts : Z) : St LocalCache bool :=
  r <- Index_exec (Index_MarkCVEChecked ref (time_unix ts));;
  ret_st (is_ok r).

Definition LocalCache_MarkMalwareChecked (ref : PackageRef) (ts : Z) : St LocalCache bool :=
  r <- Index_exec (Index_MarkMalwareChecked ref (time_unix ts));;
  ret_st (is_ok r).

Definition staleCutoff (now : Z) : Z := time_unix (time_add now (- StaleAfter cfg)).

Definition LocalCache_Stats (now : Z) : St LocalCache (result unit CacheStats) :=
  size <- Index_query Index_TotalSizeBytes;;
  match size with
  | Err e => ret_st (Err e)
  | Ok size =>
      count <- Index_query Index_Count;;
      match count with
      | Err e => ret_st (Err e)
      | Ok count =>
          st <- Index_query (Index_StaleSizeBytes (staleCutoff now));;
          match st with
          | Err e => ret_st (Err e)
          | Ok st => fun c => (Ok (mkStats count size (evictions c) st), c)
          end
      end
  end.

(** ** PurgeStale *)

Definition purgeBatch : nat := 100.

(** One round's inner loop: (removed, freed, progress). *)
Fixpoint purge_batch (cands : list (PackageRef * Z)) (removed freed : Z) (progress : bool)
    : St LocalCache (Z * Z * bool) :=
  match cands with
  | [] => ret_st (removed, freed, progress)
  | (ref, size) :: cands' =>
      r <- invalidate ref;;
      match r with
      | Err _ => purge_batch cands' removed freed progress
      | Ok true => purge_batch cands' (removed + 1) (freed + size) true
      | Ok false => purge_batch cands' removed freed true
      end
  end.

Inductive purge_end := PurgeDone | PurgeCancelled | PurgeQueryError | PurgeNoProgress.

(** [cancelled k] is whether the context is cancelled at round [k].  Every
    round that goes on deletes a row, so the number of rows is fuel enough;
    running out gives [None]. *)
Fixpoint purge_loop (fuel : nat) (cancelled : nat -> bool) (round : nat) (cutoff : Z)
    (removed freed : Z) : St LocalCache (option (Z * Z * purge_end)) :=
  match fuel with
  | O => ret_st None
  | S fuel' =>
      if cancelled round then ret_st (Some (removed, freed, PurgeCancelled))
      else
        cands <- Index_StaleCandidates cutoff purgeBatch;;
        match cands with
        | Err _ => ret_st (Some (removed, freed, PurgeQueryError))
        | Ok [] => ret_st (Some (removed, freed, PurgeDone))
        | Ok cands =>
            res <- purge_batch cands removed freed false;;
            let '(removed', freed', progress) := res in
            if negb progress then ret_st (Some (removed', freed', PurgeNoProgress))
            else purge_loop fuel' cancelled (S round) cutoff removed' freed'
        end
  end.

Definition PurgeStale (cancelled : nat -> bool) (now : Z)
    : St LocalCache (option (Z * Z * purge_end)) :=
  fun c => purge_loop (S (size (index c))) cancelled 0 (staleCutoff now) 0 0 c.

(** ** Eviction *)

Fixpoint evict_batch (cands : list PackageRef) (progress : bool) : St LocalCache bool :=
  match cands with
  | [] => ret_st progress
  | ref :: cands' =>
      r <- invalidate ref;;
      match r with
      | Err _ => evict_batch cands' progress
      | Ok true => _ <- (fun c => (tt, set_evictions (evictions c + 1) c));; evict_batch cands' true
      | Ok false => evict_batch cands' true
      end
  end.

(** [None] when the fuel runs out. *)
Fixpoint evict_loop (fuel : nat) (cancelled : nat -> bool) (round : nat) (maxBytes total : Z)
    : St LocalCache (option unit) :=
  if negb (maxBytes <? total) || cancelled round then ret_st (Some tt)
  else match fuel with
  | O => ret_st None
  | S fuel' =>
      cands <- Index_LRUCandidates 10;;
      match cands with
      | Err _ | Ok [] => ret_st (Some tt)
      | Ok cands =>
          progress <- evict_batch cands false;;
          if negb progress then ret_st (Some tt)
          else
            total' <- Index_query Index_TotalSizeBytes;;
            evict_loop fuel' cancelled (S round) maxBytes
              (match total' with Ok t => t | Err _ => 0 end)
      end
  end.

Definition evictToSize (cancelled : nat -> bool) (maxBytes : Z) : St LocalCache (option unit) :=
  fun c =>
    (total <- Index_query Index_TotalSizeBytes;;
     match total with
     | Err _ => ret_st (Some tt)
     | Ok total => evict_loop (S (size (index c))) cancelled 0 maxBytes total
     end) c.

Definition maxBytes : Z := wrap64 (MaxSizeGB cfg * 1024 * 1024 * 1024).

Definition evictIfNeeded (cancelled : nat -> bool) : St LocalCache (option unit) :=
  if maxBytes =? 0 then ret_st (Some tt) else evictToSize cancelled maxBytes.

(** One turn of the worker: nothing without a trigger. *)
Definition evictWorker (cancelled : nat -> bool) : St LocalCache (option unit) := fun c =>
  if pending c then evictIfNeeded cancelled (set_pending false c) else (Some tt, c).
End LocalCache.

(** The view the proxy handler gets (artifactcache.go). *)
Definition artifact_entry (e : CacheEntry) : ArtifactEntry :=
  mkEntry (ArtifactPath e) (ScanClean e) (LastCVECheck e) (LastMalwareCheck e).

(** * Properties *)

(** ** Sums over the index *)

Lemma sum_sizes_perm l l' : l ≡ₚ l' → sum_sizes l = sum_sizes l'.
Proof. unfold sum_sizes. induction 1; simpl; lia. Qed.

Lemma sum_sizes_app l l' : sum_sizes (l ++ l') = sum_sizes l + sum_sizes l'.
Proof. unfold sum_sizes. induction l; simpl; lia. Qed.

Lemma filter_perm {A} (f : A -> bool) l l' : l ≡ₚ l' → List.filter f l ≡ₚ List.filter f l'.
Proof.
  induction 1; simpl; repeat case_match; eauto using Permutation.
Qed.

(** Rows are never negative in size. *)
Definition sizes_ok (t : table) : Prop := map_Forall (fun _ r => 0 ≤ size_bytes r) t.

(** The stale rows, and the others. *)
Definition stale_rows (cutoff : Z) (t : table) : list (PackageRef * Row) :=
  List.filter (stale cutoff) (map_to_list t).

Definition fresh_table (cutoff : Z) (t : table) : table :=
  filter (fun p => stale cutoff p = false) t.

Lemma stale_rows_delete cutoff t ref r :
  t !! ref = Some r → stale cutoff (ref, r) = true →
  stale_rows cutoff t ≡ₚ (ref, r) :: stale_rows cutoff (delete ref t).
Proof.
  intros Ht Hs. unfold stale_rows.
  rewrite <- (filter_perm _ _ _ (map_to_list_delete t ref r Ht)). simpl. by rewrite Hs.
Qed.

Lemma fresh_table_delete cutoff t ref r :
  t !! ref = Some r → stale cutoff (ref, r) = true →
  fresh_table cutoff (delete ref t) = fresh_table cutoff t.
Proof.
  intros Ht Hs. apply map_eq. intros k. unfold fresh_table.
  apply option_eq. intros x. rewrite !map_lookup_filter_Some.
  destruct (decide (k = ref)) as [->|Hne].
  - rewrite lookup_delete_eq. split; [naive_solver|]. intros [Hk ?]. simplify_eq. congruence.
  - by rewrite lookup_delete_ne.
Qed.

Lemma fresh_table_id cutoff t : stale_rows cutoff t = [] → fresh_table cutoff t = t.
Proof.
  intros Hs. apply map_eq. intros k. apply option_eq. intros x. unfold fresh_table.
  rewrite map_lookup_filter_Some. split; [tauto|]. intros Hk. split; [done|].
  destruct (stale cutoff (k, x)) eqn:Hst; [|done].
  assert (In (k, x) []) as []. rewrite <- Hs. apply filter_In. split; [|done].
  by apply list_elem_of_In, elem_of_map_to_list.
Qed.

Lemma elem_of_stale_rows cutoff t ref r :
  (ref, r) ∈ stale_rows cutoff t ↔ t !! ref = Some r ∧ stale cutoff (ref, r) = true.
Proof.
  unfold stale_rows.
  by rewrite list_elem_of_In, filter_In, <- list_elem_of_In, elem_of_map_to_list.
Qed.

(** ** Statements that cannot fail: an empty schedule *)

Lemma fails_none c : faults c = [] → fails c = (false, c).
Proof. unfold fails. by intros ->. Qed.

Lemma Index_query_none {A} (f : table → A) c :
  faults c = [] → Index_query f c = (Ok (f (index c)), c).
Proof. intros H. unfold Index_query. by rewrite bind_st_run, (fails_none _ H). Qed.

(** Deletion under any schedule: it removes the row or fails. *)
Lemma Index_Delete_cases ref c :
  match Index_Delete ref c with
  | (Ok n, c') => index c' = delete ref (index c) ∧ evictions c' = evictions c ∧ disk c' = disk c ∧
                  n = (match index c !! ref with Some _ => 1 | None => 0 end)
  | (Err _, c') => index c' = index c ∧ evictions c' = evictions c ∧ disk c' = disk c
  end.
Proof.
  unfold Index_Delete, bind_st, fails, ret_st, set_index.
  destruct (faults c) as [|[] ?]; simpl; split_and!; done.
Qed.

Lemma os_Remove_frame path c :
  index (os_Remove path c).2 = index c ∧ evictions (os_Remove path c).2 = evictions c.
Proof.
  unfold os_Remove, bind_st, fails, ret_st, set_disk.
  destruct (faults c) as [|[] ?]; simpl; done.
Qed.

Lemma Index_query_frame {A} (f : table → A) c :
  index (Index_query f c).2 = index c ∧ evictions (Index_query f c).2 = evictions c ∧
  disk (Index_query f c).2 = disk c ∧
  ((Index_query f c).1 = Err tt ∨ (Index_query f c).1 = Ok (f (index c))).
Proof.
  unfold Index_query, bind_st, fails, ret_st. destruct (faults c) as [|[] ?]; simpl; auto.
Qed.

Lemma invalidate_cases ref c :
  match invalidate ref c with
  | (Ok b, c') => index c' = delete ref (index c) ∧ evictions c' = evictions c ∧
                  b = bool_decide (is_Some (index c !! ref))
  | (Err _, c') => index c' = index c ∧ evictions c' = evictions c
  end.
Proof.
  unfold invalidate. rewrite !bind_st_run.
  pose proof (Index_query_frame (Index_Get ref) c) as (Hi & He & _ & _).
  destruct (Index_query (Index_Get ref) c) as [r c1]; simpl in *.
  set (c2 := (match r with Ok (Some entry) => os_Remove (ArtifactPath entry) | _ => ret_st tt end c1).2).
  assert (index c2 = index c ∧ evictions c2 = evictions c) as [Hi2 He2].
  { subst c2. destruct r as [[e|]|]; [|done..].
    destruct (os_Remove_frame (ArtifactPath e) c1) as [-> ->]. done. }
  pose proof (Index_Delete_cases ref c2) as Hd. destruct (Index_Delete ref c2) as [[n|e] c3]; simpl in *.
  - destruct Hd as (-> & -> & _ & ->). rewrite Hi2, He2. split_and!; [done..|].
    by destruct (index c !! ref).
  - destruct Hd as (-> & -> & _). by rewrite Hi2, He2.
Qed.

Lemma invalidate_none ref c :
  faults c = [] →
  faults (invalidate ref c).2 = [] ∧ pending (invalidate ref c).2 = pending c ∧
  ∃ b, (invalidate ref c).1 = Ok b.
Proof.
  intros Hf. destruct c as [t d ev p fs]; simpl in Hf; subst fs.
  unfold invalidate, Index_query, Index_Delete, os_Remove, bind_st, fails, ret_st; simpl.
  unfold Index_Get. destruct (t !! ref); simpl; eauto.
Qed.

(** What SQLite promises of ORDER BY last_hit ASC: the same rows, in order. *)
Definition order_ok (order : list (PackageRef * Row) -> list (PackageRef * Row)) : Prop :=
  ∀ l, order l ≡ₚ l ∧ StronglySorted (fun a b => last_hit a.2 ≤ last_hit b.2) (order l).

(** The order the witnesses use. *)
Definition by_last_hit (a b : PackageRef * Row) : Prop := last_hit a.2 ≤ last_hit b.2.

#[export] Instance by_last_hit_dec : RelDecision by_last_hit.
Proof. intros a b. unfold by_last_hit. apply _. Defined.

Lemma merge_sort_order_ok : order_ok (merge_sort by_last_hit).
Proof.
  assert (Total by_last_hit) by (intros a b; unfold by_last_hit; lia).
  assert (Transitive by_last_hit) by (intros a b c; unfold by_last_hit; lia).
  intros l. split; [apply merge_sort_Permutation|]. by apply (StronglySorted_merge_sort by_last_hit).
Qed.

Section CacheProps.
Context (order : list (PackageRef * Row) -> list (PackageRef * Row)) (Horder : order_ok order).
Implicit Types (c : LocalCache) (cands : list (PackageRef * Z)).

Lemma order_perm l : order l ≡ₚ l.
Proof. apply Horder. Qed.

(** Candidates a query just returned: distinct rows of the index, with their
    sizes. *)
Definition cands_of (t : table) cands : Prop :=
  NoDup (fst <$> cands) ∧
  ∀ ref sz, (ref, sz) ∈ cands → ∃ r, t !! ref = Some r ∧ size_bytes r = sz.

Lemma cands_of_delete t ref sz cands :
  cands_of t ((ref, sz) :: cands) → cands_of (delete ref t) cands.
Proof.
  intros [Hnd Hin]. rewrite fmap_cons, NoDup_cons in Hnd; simpl in Hnd. destruct Hnd as [Hni Hnd].
  split; [done|]. intros ref' sz' H'. destruct (Hin ref' sz') as (r & Hr & ?); [set_solver|].
  exists r. rewrite lookup_delete_ne; [done|]. intros <-. apply Hni, list_elem_of_fmap. by exists (ref, sz').
Qed.

Lemma cands_of_tail t ref sz cands : cands_of t ((ref, sz) :: cands) → cands_of t cands.
Proof.
  intros [Hnd Hin]. rewrite fmap_cons, NoDup_cons in Hnd. destruct Hnd. split; set_solver.
Qed.

Lemma purge_batch_size cands removed freed progress c :
  cands_of (index c) cands →
  let '((_, _, progress'), c') := purge_batch cands removed freed progress c in
  (size (index c') ≤ size (index c))%nat ∧
  (progress' = true → progress = true ∨ (size (index c') < size (index c))%nat).
Proof.
  revert removed freed progress c. induction cands as [|[ref sz] cands IH];
    intros removed freed progress c Hc; simpl; [split; [lia|auto]|].
  rewrite bind_st_run. pose proof (invalidate_cases ref c) as Hi.
  destruct (invalidate ref c) as [[b|e] c1]; simpl.
  - destruct Hi as (Hi & _ & ->).
    destruct (proj2 Hc ref sz) as (r & Hr & _); [set_solver|].
    assert (size (index c1) < size (index c))%nat as Hlt.
    { rewrite Hi, map_size_delete, Hr. pose proof (map_size_ne_0_lookup_2 _ _ (ex_intro _ _ Hr)). simpl. lia. }
    rewrite bool_decide_true by eauto.
    specialize (IH (removed + 1) (freed + sz) true c1).
    destruct (purge_batch _ _ _ _ c1) as [[[? ?] ?] c2].
    destruct IH; [rewrite Hi; by eapply cands_of_delete|]. split; [lia|]. intros _. right. lia.
  - destruct Hi as [Hi _]. specialize (IH removed freed progress c1). rewrite Hi in IH.
    destruct (purge_batch _ _ _ _ c1) as [[[? ?] ?] c2]. apply IH. by eapply cands_of_tail.
Qed.

Definition stale_cands (cutoff : Z) (n : nat) (t : table) : list (PackageRef * Z) :=
  take n ((fun p => (p.1, size_bytes p.2)) <$> order (stale_rows cutoff t)).

Lemma stale_rows_NoDup cutoff t : NoDup (fst <$> stale_rows cutoff t).
Proof.
  unfold stale_rows. pose proof (NoDup_fst_map_to_list t) as H. revert H.
  generalize (map_to_list t) as l. induction l as [|p l IH]; simpl; [done|].
  rewrite NoDup_cons. intros [Hp Hl]. destruct (stale cutoff p); [|auto].
  rewrite fmap_cons, NoDup_cons. split; [|auto]. intros Hin. apply Hp.
  apply list_elem_of_fmap in Hin as (q & Hq & Hin). apply list_elem_of_fmap. exists q.
  split; [done|]. rewrite list_elem_of_In in *. by apply filter_In in Hin as [? _].
Qed.

Lemma stale_cands_ok cutoff n t :
  cands_of t (stale_cands cutoff n t) ∧
  (∀ ref sz, (ref, sz) ∈ stale_cands cutoff n t →
     ∃ r, t !! ref = Some r ∧ size_bytes r = sz ∧ stale cutoff (ref, r) = true).
Proof.
  assert (∀ ref sz, (ref, sz) ∈ stale_cands cutoff n t →
     ∃ r, t !! ref = Some r ∧ size_bytes r = sz ∧ stale cutoff (ref, r) = true) as H.
  { intros ref sz Hin%elem_of_take_list. apply list_elem_of_fmap in Hin as ([k r] & Heq & Hin).
    rewrite order_perm in Hin. apply elem_of_stale_rows in Hin as [? ?]. simplify_eq/=. eauto. }
  split; [|done]. split; [|naive_solver].
  unfold stale_cands. rewrite fmap_take. apply NoDup_take.
  rewrite <- list_fmap_compose. change (NoDup (fst <$> order (stale_rows cutoff t))).
  rewrite order_perm. apply stale_rows_NoDup.
Qed.

(** purging terminates: whatever system calls and statements fail, and
    whenever the context is cancelled, [PurgeStale] returns. *)
Theorem PurgeStale_terminates cfg cancelled now c :
  is_Some (PurgeStale cfg order cancelled now c).1.
Proof.
  unfold PurgeStale. generalize (staleCutoff cfg now) as cutoff. intros cutoff.
  assert (∀ fuel round removed freed c, (size (index c) < fuel)%nat →
    is_Some (purge_loop order fuel cancelled round cutoff removed freed c).1) as H;
    [|apply H; lia].
  clear c. induction fuel as [|fuel IH]; intros round removed freed c Hlt; [lia|].
  simpl. destruct (cancelled round); [by eexists|]. rewrite bind_st_run.
  unfold Index_StaleCandidates.
  pose proof (Index_query_frame (stale_cands cutoff purgeBatch) c) as (Hi & _ & _ & Hr).
  change (Index_query (λ t, take purgeBatch _)) with (Index_query (stale_cands cutoff purgeBatch)).
  destruct (Index_query (stale_cands cutoff purgeBatch) c) as [res c1]; simpl in *.
  destruct Hr as [-> | ->]; [by eexists|].
  destruct (stale_cands cutoff purgeBatch (index c)) as [|cand cands] eqn:Hcs; [by eexists|].
  rewrite bind_st_run.
  pose proof (purge_batch_size (cand :: cands) removed freed false c1) as Hb.
  rewrite Hi, <- Hcs in Hb. specialize (Hb (proj1 (stale_cands_ok _ _ _))). rewrite <- Hcs.
  destruct (purge_batch _ _ _ _ c1) as [[[removed' freed'] progress] c2]; simpl in *.
  destruct Hb as [_ Hp]. destruct progress; simpl; [|by eexists].
  apply IH. destruct Hp; [done|done|lia].
Qed.
(** ** Without failures *)

Lemma purge_batch_none cutoff cands removed freed progress c :
  faults c = [] → NoDup (fst <$> cands) →
  (∀ ref sz, (ref, sz) ∈ cands →
     ∃ r, index c !! ref = Some r ∧ size_bytes r = sz ∧ stale cutoff (ref, r) = true) →
  let '((removed', freed', progress'), c') := purge_batch cands removed freed progress c in
  faults c' = [] ∧ progress' = progress || negb (bool_decide (cands = [])) ∧
  fresh_table cutoff (index c') = fresh_table cutoff (index c) ∧
  removed' + Z.of_nat (length (stale_rows cutoff (index c'))) =
    removed + Z.of_nat (length (stale_rows cutoff (index c))) ∧
  freed' + sum_sizes (stale_rows cutoff (index c')) =
    freed + sum_sizes (stale_rows cutoff (index c)) ∧
  (length (stale_rows cutoff (index c')) + length cands = length (stale_rows cutoff (index c)))%nat.
Proof.
  revert removed freed progress c. induction cands as [|[ref sz] cands IH];
    intros removed freed progress c Hf Hnd Hin; simpl.
  { rewrite orb_false_r. split_and!; try done; lia. }
  rewrite bind_st_run. pose proof (invalidate_cases ref c) as Hi.
  destruct (invalidate_none ref c Hf) as (Hf1 & _ & b & Hb).
  destruct (invalidate ref c) as [res c1]; simpl in *; subst res.
  destruct Hi as (Hi & _ & ->).
  destruct (Hin ref sz) as (r & Hr & Hsz & Hst); [set_solver|].
  rewrite bool_decide_true by eauto.
  apply NoDup_cons in Hnd as [Hni Hnd].
  specialize (IH (removed + 1) (freed + sz) true c1 Hf1 Hnd).
  destruct (purge_batch _ _ _ _ c1) as [[[removed' freed'] progress'] c2].
  destruct IH as (? & -> & Hfr & Hrem & Hfre & Hlen).
  { intros ref' sz' H'. destruct (Hin ref' sz') as (r' & ? & ?); [set_solver|]. exists r'.
    rewrite Hi, lookup_delete_ne; [done|]. intros <-. apply Hni, list_elem_of_fmap. by exists (ref, sz'). }
  rewrite Hi in *. rewrite (fresh_table_delete _ _ _ _ Hr Hst) in Hfr.
  pose proof (stale_rows_delete _ _ _ _ Hr Hst) as Hp.
  pose proof (Permutation_length Hp) as Hpl. pose proof (sum_sizes_perm _ _ Hp) as Hps.
  simpl in Hpl, Hps. split_and!; [done|by rewrite orb_true_r|done|lia|lia|lia].
Qed.

Lemma purge_loop_none cutoff fuel round removed freed c :
  faults c = [] → (length (stale_rows cutoff (index c)) < fuel)%nat →
  let out := purge_loop order fuel (fun _ => false) round cutoff removed freed c in
  out.1 = Some (removed + Z.of_nat (length (stale_rows cutoff (index c))),
                freed + sum_sizes (stale_rows cutoff (index c)), PurgeDone) ∧
  index out.2 = fresh_table cutoff (index c) ∧ faults out.2 = [].
Proof.
  cbv zeta. revert round removed freed c. induction fuel as [|fuel IH];
    intros round removed freed c Hf Hlt; [lia|].
  simpl. rewrite bind_st_run. unfold Index_StaleCandidates.
  change (Index_query (λ t, take purgeBatch _)) with (Index_query (stale_cands cutoff purgeBatch)).
  rewrite (Index_query_none _ _ Hf); simpl.
  destruct (stale_cands cutoff purgeBatch (index c)) as [|cand cands] eqn:Hcs.
  - assert (stale_rows cutoff (index c) = []) as Hnil.
    { apply Permutation_nil. rewrite <- (order_perm (stale_rows cutoff (index c))).
      unfold stale_cands, purgeBatch in Hcs. by destruct (order (stale_rows cutoff (index c))). }
    rewrite Hnil; simpl. rewrite fresh_table_id by done. split_and!; [|done..]. do 3 f_equal; lia.
  - rewrite <- Hcs, bind_st_run.
    destruct (stale_cands_ok cutoff purgeBatch (index c)) as [[Hnd _] Hin].
    pose proof (purge_batch_none cutoff _ removed freed false c Hf Hnd Hin) as Hb.
    destruct (purge_batch _ _ _ _ c) as [[[removed' freed'] progress'] c2]; simpl in *.
    destruct Hb as (Hf2 & -> & Hfr & Hrem & Hfre & Hlen). rewrite Hcs in *; simpl in *.
    destruct (IH (S round) removed' freed' c2 Hf2) as (-> & -> & ->); [lia|].
    rewrite Hfr. split_and!; [|done..]. do 3 f_equal; lia.
Qed.

Lemma stale_rows_size cutoff t : (length (stale_rows cutoff t) ≤ size t)%nat.
Proof.
  unfold stale_rows. rewrite <- length_map_to_list. apply filter_length_le.
Qed.

(** when nothing fails, [PurgeStale] removes exactly the entries idle
    since before the cutoff, keeps every other row as it is, and reports
    their number and the bytes that [Stats] counted as stale. *)
Theorem PurgeStale_exact cfg now c :
  faults c = [] →
  let cutoff := staleCutoff cfg now in
  let out := PurgeStale cfg order (fun _ => false) now c in
  out.1 = Some (Z.of_nat (length (stale_rows cutoff (index c))),
                Index_StaleSizeBytes cutoff (index c), PurgeDone) ∧
  (∀ ref r, index out.2 !! ref = Some r ↔ index c !! ref = Some r ∧ cutoff ≤ last_hit r).
Proof.
  intros Hf. cbv zeta. unfold PurgeStale. set (cutoff := staleCutoff cfg now).
  pose proof (stale_rows_size cutoff (index c)) as Hsz.
  destruct (purge_loop_none cutoff (S (size (index c))) 0 0 0 c Hf) as (-> & -> & _); [lia|].
  split; [done|]. intros ref r. unfold fresh_table. rewrite map_lookup_filter_Some.
  unfold stale; simpl. by rewrite Z.ltb_ge.
Qed.
(** ** Eviction *)

Definition lru_cands (n : nat) (t : table) : list PackageRef :=
  take n (fst <$> order (map_to_list t)).

Lemma lru_cands_NoDup n t : NoDup (lru_cands n t).
Proof.
  unfold lru_cands. apply NoDup_take. rewrite order_perm. apply NoDup_fst_map_to_list.
Qed.

Lemma lru_cands_in n t ref : ref ∈ lru_cands n t → is_Some (t !! ref).
Proof.
  intros H%elem_of_take_list. apply list_elem_of_fmap in H as ([k r] & -> & H).
  rewrite order_perm in H. apply elem_of_map_to_list in H. eauto.
Qed.

(** What is left is at least as recent as what is taken. *)
Lemma lru_cands_least n t ref r ref' r' :
  t !! ref = Some r → ref ∈ lru_cands n t →
  t !! ref' = Some r' → ref' ∉ lru_cands n t → last_hit r ≤ last_hit r'.
Proof.
  unfold lru_cands. rewrite <- fmap_take. intros Hr Hin Hr' Hni.
  set (l := order (map_to_list t)) in *.
  assert (∀ k x, t !! k = Some x ↔ (k, x) ∈ l) as Hl.
  { intros k x. subst l. by rewrite order_perm, elem_of_map_to_list. }
  pose proof (proj2 (Horder (map_to_list t))) as Hs. fold l in Hs.
  rewrite <- (take_drop n l) in Hs.
  apply (StronglySorted_app_1_elem_of _ _ _ (ref, r) (ref', r') Hs).
  - apply list_elem_of_fmap in Hin as ([k x] & -> & Hin); simpl in *.
    assert (t !! k = Some x) by (apply Hl; by eapply elem_of_take_list). simplify_eq. done.
  - apply Hl in Hr'. rewrite <- (take_drop n l) in Hr'. apply elem_of_app in Hr' as [Hr'|]; [|done].
    exfalso. apply Hni, list_elem_of_fmap. by exists (ref', r').
Qed.

Lemma evict_batch_size refs progress c :
  NoDup refs → (∀ ref, ref ∈ refs → is_Some (index c !! ref)) →
  let '(progress', c') := evict_batch refs progress c in
  (size (index c') ≤ size (index c))%nat ∧
  (progress' = true → progress = true ∨ (size (index c') < size (index c))%nat).
Proof.
  revert progress c. induction refs as [|ref refs IH]; intros progress c Hnd Hin; simpl; [auto|].
  apply NoDup_cons in Hnd as [Hni Hnd].
  rewrite bind_st_run. pose proof (invalidate_cases ref c) as Hi.
  destruct (invalidate ref c) as [[b|e] c1]; simpl.
  - destruct Hi as (Hi & _ & ->). destruct (Hin ref) as [r Hr]; [set_solver|].
    rewrite bool_decide_true by eauto. rewrite bind_st_run; simpl.
    assert (size (index c1) < size (index c))%nat as Hlt.
    { rewrite Hi, map_size_delete, Hr.
      pose proof (map_size_ne_0_lookup_2 _ _ (ex_intro _ _ Hr)). simpl. lia. }
    specialize (IH true (set_evictions (evictions c1 + 1) c1) Hnd).
    destruct (evict_batch refs _ _) as [p2 c2]; simpl in IH. destruct IH; [|split; [lia|intros _; right; lia]].
    intros ref' Hr'. rewrite Hi, lookup_delete_ne; [apply Hin; set_solver|]. by intros <-.
  - destruct Hi as [Hi _]. specialize (IH progress c1 Hnd). rewrite Hi in IH.
    destruct (evict_batch refs _ _). apply IH. set_solver.
Qed.

Lemma evict_batch_none refs progress c :
  faults c = [] → NoDup refs → (∀ ref, ref ∈ refs → is_Some (index c !! ref)) →
  let '(progress', c') := evict_batch refs progress c in
  faults c' = [] ∧ progress' = progress || negb (bool_decide (refs = [])) ∧
  (∀ k, index c' !! k = if decide (k ∈ refs) then None else index c !! k) ∧
  evictions c' = evictions c + Z.of_nat (length refs).
Proof.
  revert progress c. induction refs as [|ref refs IH]; intros progress c Hf Hnd Hin; simpl.
  { rewrite orb_false_r. split_and!; [done..|lia]. }
  apply NoDup_cons in Hnd as [Hni Hnd].
  rewrite bind_st_run. pose proof (invalidate_cases ref c) as Hi.
  destruct (invalidate_none ref c Hf) as (Hf1 & _ & b & Hb).
  destruct (invalidate ref c) as [res c1]; simpl in *; subst res.
  destruct Hi as (Hi & Hev & ->). rewrite bool_decide_true by (apply Hin; set_solver).
  rewrite bind_st_run; simpl.
  specialize (IH true (set_evictions (evictions c1 + 1) c1) Hf1 Hnd).
  destruct (evict_batch refs _ _) as [p2 c2]; simpl in IH.
  destruct IH as (? & -> & Hk & He).
  { intros ref' Hr'. rewrite Hi, lookup_delete_ne; [apply Hin; set_solver|]. by intros <-. }
  split_and!; [done|by rewrite orb_true_r| |rewrite He, Hev; lia].
  intros k. rewrite Hk, Hi. destruct (decide (k = ref)) as [->|Hne].
  - rewrite lookup_delete_eq. rewrite (decide_True (P := ref ∈ ref :: refs)) by set_solver.
    by case_decide.
  - rewrite lookup_delete_ne by done. repeat case_decide; set_solver.
Qed.

(** The part of the index an eviction leaves: a sub-map, no entry of which
    was used less recently than an evicted one. *)
Definition evicted_lru (t t' : table) : Prop :=
  t' ⊆ t ∧
  ∀ ref r ref' r', t !! ref = Some r → t' !! ref = None → t' !! ref' = Some r' →
    last_hit r ≤ last_hit r'.

Lemma evicted_lru_trans t1 t2 t3 : evicted_lru t1 t2 → evicted_lru t2 t3 → evicted_lru t1 t3.
Proof.
  intros [H12 L12] [H23 L23]. split; [by etrans|].
  intros ref r ref' r' Hr Hn Hr'.
  destruct (t2 !! ref) as [r2|] eqn:H2.
  - pose proof (lookup_weaken _ _ _ _ H2 H12). simplify_eq. by eapply L23.
  - eapply (L12 ref r ref' r'); [done..|]. by eapply lookup_weaken.
Qed.

Lemma Index_TotalSizeBytes_empty : Index_TotalSizeBytes ∅ = 0.
Proof. done. Qed.

(** A round of the eviction loop when nothing fails. *)
Lemma evict_round t (t' : table) n :
  (∀ k, t' !! k = if decide (k ∈ lru_cands n t) then None else t !! k) → evicted_lru t t'.
Proof.
  intros Hk. split.
  - apply map_subseteq_spec. intros k x. rewrite Hk. by case_decide.
  - intros ref r ref' r' Hr Hn Hr'. rewrite Hk in Hn, Hr'.
    repeat case_decide; simplify_eq. by eapply lru_cands_least.
Qed.

Lemma evict_round_size t (t' : table) n :
  (∀ k, t' !! k = if decide (k ∈ lru_cands n t) then None else t !! k) →
  size t = (length (lru_cands n t) + size t')%nat.
Proof.
  intros Hk. assert (dom t = list_to_set (lru_cands n t) ∪ dom t') as Hd.
  { apply set_eq. intros k. rewrite elem_of_union, elem_of_list_to_set, !elem_of_dom, Hk.
    case_decide as Hin; [|naive_solver]. split; [auto|]. intros _. by eapply lru_cands_in. }
  rewrite <- !size_dom, Hd, size_union, size_list_to_set; [done|apply lru_cands_NoDup|].
  intros k. rewrite elem_of_list_to_set, elem_of_dom, Hk. case_decide; [|done]. intros _ []; done.
Qed.

Lemma evict_loop_none fuel round maxBytes c :
  faults c = [] → 0 ≤ maxBytes → (size (index c) ≤ fuel)%nat →
  let out := evict_loop order fuel (fun _ => false) round maxBytes
               (Index_TotalSizeBytes (index c)) c in
  out.1 = Some tt ∧ Index_TotalSizeBytes (index out.2) ≤ maxBytes ∧
  evicted_lru (index c) (index out.2) ∧
  evictions out.2 + Z.of_nat (size (index out.2)) = evictions c + Z.of_nat (size (index c)).
Proof.
  cbv zeta. revert round c. induction fuel as [|fuel IH]; intros round c Hf Hmax Hsz.
  - assert (index c = ∅) as He by (apply map_size_empty_inv; lia).
    simpl. rewrite He, Index_TotalSizeBytes_empty.
    destruct (Z.ltb_spec maxBytes 0); [lia|]; simpl. rewrite He.
    split_and!; [done|done| |lia]. split; [done|]. intros; simplify_map_eq.
  - simpl. destruct (Z.ltb_spec maxBytes (Index_TotalSizeBytes (index c))) as [Hlt|Hge]; simpl.
    2:{ split_and!; [done|lia| |lia]. split; [done|]. intros; simplify_map_eq. }
    rewrite bind_st_run. unfold Index_LRUCandidates.
    change (Index_query (λ t, take 10 _)) with (Index_query (lru_cands 10)).
    rewrite (Index_query_none _ _ Hf); simpl.
    destruct (lru_cands 10 (index c)) as [|ref refs] eqn:Hl.
    { exfalso. destruct (decide (index c = ∅)) as [He|Hne].
      - rewrite He, Index_TotalSizeBytes_empty in Hlt. lia.
      - apply map_choose in Hne as (k & x & Hkx). unfold lru_cands in Hl.
        apply elem_of_map_to_list in Hkx. rewrite <- (order_perm (map_to_list (index c))) in Hkx.
        destruct (order (map_to_list (index c))); simpl in *; [set_solver|done]. }
    rewrite <- Hl, bind_st_run.
    pose proof (evict_batch_none (lru_cands 10 (index c)) false c Hf (lru_cands_NoDup _ _)
                  (lru_cands_in _ _)) as Hb.
    destruct (evict_batch _ _ c) as [p c2]; simpl in *.
    destruct Hb as (Hf2 & -> & Hk & Hev).
    pose proof (evict_round _ _ _ Hk) as Hlru. pose proof (evict_round_size _ _ _ Hk) as Hs.
    rewrite bool_decide_false by (by rewrite Hl). simpl.
    rewrite bind_st_run, (Index_query_none _ _ Hf2); simpl.
    destruct (IH (S round) c2 Hf2 Hmax) as (-> & ? & Hlru2 & Hev2).
    { rewrite Hl in Hs. simpl in Hs. lia. }
    split_and!; [done|done|by eapply evicted_lru_trans|lia].
Qed.

(** when nothing fails, eviction brings the cache under its limit,
    evicts in least-recently-used order, counts every evicted entry once,
    and does nothing to a cache already under the limit. *)
Theorem evictToSize_exact maxBytes c :
  faults c = [] → 0 ≤ maxBytes →
  let out := evictToSize order (fun _ => false) maxBytes c in
  out.1 = Some tt ∧ Index_TotalSizeBytes (index out.2) ≤ maxBytes ∧
  evicted_lru (index c) (index out.2) ∧
  evictions out.2 + Z.of_nat (size (index out.2)) = evictions c + Z.of_nat (size (index c)) ∧
  (Index_TotalSizeBytes (index c) ≤ maxBytes → index out.2 = index c).
Proof.
  intros Hf Hmax. cbv zeta. unfold evictToSize.
  rewrite bind_st_run, (Index_query_none _ _ Hf); simpl fst; simpl snd; cbv iota.
  destruct (evict_loop_none (S (size (index c))) 0 maxBytes c Hf Hmax) as (? & ? & ? & ?); [lia|].
  split_and!; [done..|]. intros Hle.
  simpl. destruct (Z.ltb_spec maxBytes (Index_TotalSizeBytes (index c))); [lia|done].
Qed.
End CacheProps.

(** ** The cache as the handler sees it *)

(** The content held for a reference: its row's verdict and its file's bytes. *)
Definition held (c : LocalCache) (ref : PackageRef) : option (bool * bytes) :=
  r ← index c !! ref; d ← disk c !! file_path r; Some (scan_clean r, d).

Lemma held_Some c ref b d :
  held c ref = Some (b, d) ↔
  ∃ r, index c !! ref = Some r ∧ disk c !! file_path r = Some d ∧ scan_clean r = b.
Proof. unfold held. rewrite bind_Some. setoid_rewrite bind_Some. naive_solver. Qed.

(** A state reached from [c] by forgetting: no row or file is new or altered,
    but for hit counts and check times. *)
Definition row_core (r : Row) : string * bool * string * Z :=
  (file_path r, scan_clean r, scan_json r, size_bytes r).

Definition forgets (c c' : LocalCache) : Prop :=
  (∀ ref r', index c' !! ref = Some r' → ∃ r, index c !! ref = Some r ∧ row_core r = row_core r') ∧
  (∀ p d, disk c' !! p = Some d → disk c !! p = Some d).

Lemma forgets_refl c : forgets c c.
Proof. split; eauto. Qed.

Lemma forgets_trans c1 c2 c3 : forgets c1 c2 → forgets c2 c3 → forgets c1 c3.
Proof.
  intros [Hi Hd] [Hi' Hd']. split; [|auto]. intros ref r3 H3.
  destruct (Hi' ref r3 H3) as (r2 & H2 & E2). destruct (Hi ref r2 H2) as (r1 & H1 & E1).
  exists r1. split; [done|congruence].
Qed.

Lemma forgets_held c c' ref x : forgets c c' → held c' ref = Some x → held c ref = Some x.
Proof.
  destruct x as [b d]. rewrite !held_Some. intros [Hi Hd] (r' & Hr' & Hd' & <-).
  destruct (Hi ref r' Hr') as (r & Hr & E). unfold row_core in E. simplify_eq.
  exists r. split_and!; [done| |done]. apply Hd. congruence.
Qed.

#[export] Hint Resolve forgets_refl : joei.

Lemma forgets_fails c : forgets c (fails c).2.
Proof. unfold fails. destruct (faults c); simpl; split; eauto. Qed.

Lemma forgets_query {A} (f : table → A) c : forgets c (Index_query f c).2.
Proof.
  pose proof (Index_query_frame f c) as (Hi & _ & Hd & _).
  split; [rewrite Hi|rewrite Hd]; eauto.
Qed.

Lemma forgets_index_delete ref c : forgets c (Index_Delete ref c).2.
Proof.
  pose proof (Index_Delete_cases ref c) as H. destruct (Index_Delete ref c) as [[n|e] c']; simpl in *.
  - destruct H as (Hi & _ & Hd & _). split; [|rewrite Hd; auto].
    intros ref' r'. rewrite Hi, lookup_delete_Some. intros [_ ?]. eauto.
  - destruct H as (Hi & _ & Hd). split; [rewrite Hi|rewrite Hd]; eauto.
Qed.

Lemma forgets_remove p c : forgets c (os_Remove p c).2.
Proof.
  unfold os_Remove, bind_st, fails, ret_st, set_disk. destruct (faults c) as [|[] ?]; simpl;
    (split; simpl; [eauto|]); try done; intros p' d; rewrite lookup_delete_Some; naive_solver.
Qed.

Lemma forgets_bind {A B} (m : St LocalCache A) (f : A → St LocalCache B) c :
  forgets c (m c).2 → (∀ a c', forgets c' (f a c').2) → forgets c (bind_st m f c).2.
Proof. intros Hm Hf. rewrite bind_st_run. eapply forgets_trans; [apply Hm|apply Hf]. Qed.

Lemma forgets_ret {A} (a : A) c : forgets c (ret_st a c).2.
Proof. apply forgets_refl. Qed.

#[export] Hint Resolve forgets_fails forgets_query forgets_index_delete forgets_remove forgets_ret : joei.

Lemma forgets_exec (f : table → table) c :
  (∀ t ref r', f t !! ref = Some r' → ∃ r, t !! ref = Some r ∧ row_core r = row_core r') →
  forgets c (Index_exec f c).2.
Proof.
  intros Hf. unfold Index_exec. apply forgets_bind; [auto with joei|].
  intros [] c'; simpl; [auto with joei|]. split; simpl; eauto.
Qed.

(** The updates of one row's counters and times. *)
Lemma alter_core (f : Row → Row) (t : table) ref ref' r' :
  (∀ r, row_core (f r) = row_core r) →
  alter f ref t !! ref' = Some r' → ∃ r, t !! ref' = Some r ∧ row_core r = row_core r'.
Proof.
  intros Hf. rewrite lookup_alter. case_decide; [|eauto].
  intros (r & ? & ->)%fmap_Some. subst. exists r. by rewrite Hf.
Qed.

Lemma forgets_invalidate ref c : forgets c (LocalCache_Invalidate ref c).2.
Proof.
  unfold LocalCache_Invalidate. apply forgets_bind; [|intros; auto with joei].
  unfold invalidate. apply forgets_bind; [auto with joei|]. intros r c1.
  apply forgets_bind; [destruct r as [[e|]|]; auto with joei|]. intros _ c2.
  apply forgets_bind; [auto with joei|]. intros [n|e] c3; auto with joei.
Qed.

Lemma forgets_get now ref c : forgets c (LocalCache_Get now ref c).2.
Proof.
  unfold LocalCache_Get. apply forgets_bind; [auto with joei|]. intros [[e|]|] c1; auto with joei.
  apply forgets_bind.
  - unfold os_Stat. apply forgets_bind; [auto with joei|]. intros [] c2; apply forgets_refl.
  - intros [] c2; apply forgets_bind; try (intros; auto with joei); auto with joei.
    apply forgets_exec. intros *. by apply alter_core.
Qed.

(** A hit: the row and its file are there. *)
Lemma get_hit_held now ref c e :
  (LocalCache_Get now ref c).1 = Some e →
  ∃ d, held (LocalCache_Get now ref c).2 ref = Some (ScanClean e, d) ∧
       disk (LocalCache_Get now ref c).2 !! ArtifactPath e = Some d.
Proof.
  unfold LocalCache_Get. rewrite bind_st_run.
  pose proof (Index_query_frame (Index_Get ref) c) as (Hi & _ & Hd & Hr).
  destruct (Index_query (Index_Get ref) c) as [r c1]; simpl in *.
  destruct Hr as [->| ->]; [done|]. unfold Index_Get.
  destruct (index c !! ref) as [row|] eqn:Hrow; simpl; [|done].
  rewrite bind_st_run. unfold os_Stat, bind_st, fails, ret_st.
  destruct (faults c1) as [|[] fs] eqn:Hf; simpl; [| by destruct (Index_Delete _ _)|];
    (case_bool_decide as Hst; simpl; [|by destruct (Index_Delete _ _)]);
    destruct Hst as [d Hd']; unfold Index_exec, bind_st, fails, ret_st; simpl; rewrite ?Hf; simpl.
  - intros. simplify_eq/=. exists d. split; [|done].
    apply held_Some. simpl. unfold Index_IncrementHit. rewrite lookup_alter_eq, Hi, Hrow; simpl. eauto.
  - destruct fs as [|[] fs]; simpl; intros; simplify_eq/=; exists d; (split; [|done]);
      apply held_Some; simpl; unfold Index_IncrementHit; rewrite ?lookup_alter_eq, ?Hi, ?Hrow; simpl; eauto.
Qed.

Section PutProps.
Context (cfg : LocalCacheConfig) (sha256_hex : string -> string).

(** What the code relies on of SHA-256 in hex: no two keys in use collide,
    and no digit is a slash. *)
Definition sha_ok : Prop :=
  (∀ k k', sha256_hex k = sha256_hex k' → k = k') ∧
  (∀ k, "/"%char ∉ to_bytes (sha256_hex k)).

(** Every row points at its reference's own path. *)
Definition paths_ok (c : LocalCache) : Prop :=
  ∀ ref r, index c !! ref = Some r → file_path r = artifactPath cfg sha256_hex ref.

Lemma app_string_inj s a b : s +:+ a = s +:+ b → a = b.
Proof. intros H. by apply (inj (String.append s)). Qed.

Lemma artifactPath_inj ref ref' :
  sha_ok → artifactPath cfg sha256_hex ref = artifactPath cfg sha256_hex ref' → Key ref = Key ref'.
Proof.
  intros [Hinj Hns]. unfold artifactPath. intros H.
  apply app_string_inj, app_string_inj, (f_equal to_bytes) in H.
  rewrite !to_bytes_app, !to_of_bytes in H. simpl in H.
  apply app_sep_inj in H as [_ H].
  - by apply Hinj, to_bytes_inj.
  - intros Hin%elem_of_take_list. by apply (Hns (Key ref)).
  - intros Hin%elem_of_take_list. by apply (Hns (Key ref')).
Qed.

Lemma paths_ok_forgets c c' : forgets c c' → paths_ok c → paths_ok c'.
Proof.
  intros [Hi _] Hp ref r' Hr'. destruct (Hi ref r' Hr') as (r & Hr & E).
  rewrite <- (Hp ref r Hr). unfold row_core in E. congruence.
Qed.

(** The states [Put] can end in: the early failures, the file without the
    row, and the success. *)
Inductive put_outcome (now : Z) (ref : PackageRef) (data : bytes) (b : bool) (j : string)
    (c : LocalCache) : bool -> LocalCache -> Prop :=
| put_nothing c' : index c' = index c → disk c' = disk c → put_outcome now ref data b j c false c'
| put_file c' :
    index c' = index c →
    (disk c' = <[ artifactPath cfg sha256_hex ref := data ]> (disk c) ∨
     disk c' = delete (artifactPath cfg sha256_hex ref) (<[ artifactPath cfg sha256_hex ref := data ]> (disk c))) →
    put_outcome now ref data b j c false c'
| put_done c' :
    index c' = Index_Insert ref
      (mkCacheEntry (artifactPath cfg sha256_hex ref) b j now 0 (Z.of_nat (length data)) 0 0) (index c) →
    disk c' = <[ artifactPath cfg sha256_hex ref := data ]> (disk c) →
    pending c' = true →
    put_outcome now ref data b j c true c'.

Lemma Put_outcome now ref data b j c :
  put_outcome now ref data b j c
    (LocalCache_Put cfg sha256_hex now ref data b j c).1
    (LocalCache_Put cfg sha256_hex now ref data b j c).2.
Proof.
  unfold LocalCache_Put. rewrite !bind_st_run.
  unfold bind_st, fails, ret_st, modify_st, Index_exec, os_Remove, set_disk, set_index, set_pending.
  destruct c as [t d ev p fs]; simpl.
  destruct fs as [|[] [|[] [|[] [|[] [|[] [|[] [|[] fs]]]]]]]; simpl;
    unfold bind_st, fails, ret_st, set_disk, set_index; simpl;
    first [by apply put_nothing | by apply put_done | apply put_file; simpl; auto].
Qed.
End PutProps.

(** ** The local cache implements the handler's cache interface *)

Section Instance.
Context (cfg : LocalCacheConfig) (sha256_hex : string -> string).

(** artifactCacheAdapter over a LocalCache. *)
#[export] Instance artifactCacheAdapter : ArtifactCache LocalCache := {
  cache_Get now ref :=
    e <- LocalCache_Get now ref;;
    ret_st (artifact_entry <$> e);
  cache_Put := LocalCache_Put cfg sha256_hex;
  cache_Invalidate := LocalCache_Invalidate;
  cache_MarkCVEChecked := LocalCache_MarkCVEChecked;
  cache_MarkMalwareChecked := LocalCache_MarkMalwareChecked;
  cache_Open path :=
    b <- fails;;
    if b then ret_st None else fun c => (disk c !! path, c);
}.

Context (Hsha : sha_ok sha256_hex).

Notation ok := (paths_ok cfg sha256_hex).

Lemma cache_Get_run now ref c :
  cache_Get now ref c = (artifact_entry <$> (LocalCache_Get now ref c).1, (LocalCache_Get now ref c).2).
Proof. simpl. by rewrite bind_st_run. Qed.

Lemma put_paths_ok now ref d b j c :
  ok c → ok (LocalCache_Put cfg sha256_hex now ref d b j c).2.
Proof.
  intros Hok. destruct (Put_outcome cfg sha256_hex now ref d b j c) as [c' Hi _|c' Hi _|c' Hi _ _];
    intros ref' r; rewrite Hi; [apply Hok|apply Hok|].
  unfold Index_Insert. rewrite lookup_insert_Some. intros [[<- <-]|[_ Hr]]; [done|by apply Hok].
Qed.

Lemma put_held now ref d b j c ref' x :
  ok c → held (LocalCache_Put cfg sha256_hex now ref d b j c).2 ref' = Some x →
  held c ref' = Some x ∨ (x.2 = d ∧ Key ref' = Key ref).
Proof.
  intros Hok. destruct x as [b' d']; simpl. rewrite !held_Some.
  set (path := artifactPath cfg sha256_hex ref).
  assert (∀ r, index c !! ref' = Some r → <[path:=d]> (disk c) !! file_path r = Some d' →
            disk c !! file_path r = Some d' ∨ (d' = d ∧ Key ref' = Key ref)) as Hcase.
  { intros r Hr. rewrite lookup_insert_Some. intros [[Hp ->]|[_ ?]]; [|by left]. right. split; [done|].
    apply (artifactPath_inj cfg _ _ _ Hsha). rewrite <- (Hok _ _ Hr). done. }
  destruct (Put_outcome cfg sha256_hex now ref d b j c) as [c' Hi Hd|c' Hi Hd|c' Hi Hd _];
    intros (r & Hr & Hdisk & <-); rewrite ?Hi in Hr.
  - left. exists r. by rewrite <- Hd.
  - destruct (Hcase r Hr) as [?|?]; [|left; by exists r|by right].
    destruct Hd as [Hd|Hd]; rewrite Hd in Hdisk; [done|]. by apply lookup_delete_Some in Hdisk as [_ ?].
  - unfold Index_Insert in Hr. rewrite Hd in Hdisk. apply lookup_insert_Some in Hr as [[<- <-]|[_ Hr]].
    + simpl in Hdisk. rewrite lookup_insert_eq in Hdisk. simplify_eq. by right.
    + destruct (Hcase r Hr) as [?|?]; [done|left; by exists r|by right].
Qed.

Lemma put_done_held now ref d b j c :
  (LocalCache_Put cfg sha256_hex now ref d b j c).1 = true →
  held (LocalCache_Put cfg sha256_hex now ref d b j c).2 ref = Some (b, d).
Proof.
  destruct (Put_outcome cfg sha256_hex now ref d b j c) as [| |c' Hi Hd _]; [done..|].
  intros _. apply held_Some. rewrite Hi, Hd. unfold Index_Insert. rewrite lookup_insert_eq.
  eexists. split; [done|]. simpl. by rewrite lookup_insert_eq.
Qed.

(** Recording a check time moves no content. *)
Lemma mark_run (f : table → table) c :
  (r <- Index_exec f;; ret_st (is_ok r)) c =
  (is_ok (Index_exec f c).1, (Index_exec f c).2).
Proof. by rewrite bind_st_run. Qed.

Lemma mark_held (f : Row → Row) ref c ref' :
  (∀ r, row_core (f r) = row_core r) →
  held (Index_exec (alter f ref) c).2 ref' = held c ref' ∧
  disk (Index_exec (alter f ref) c).2 = disk c.
Proof.
  intros Hf. unfold Index_exec, bind_st, fails, ret_st, held.
  destruct (faults c) as [|[] ?]; simpl; (split; [|done]); try done;
    rewrite lookup_alter; case_decide; subst; try done; destruct (index c !! ref') as [r|]; simpl; try done;
    pose proof (Hf r) as E; injection E as E1 E2 _ _; by rewrite E1, E2.
Qed.

Lemma open_run p c :
  ((cache_Open p c).1 = None ∨ (cache_Open p c).1 = disk c !! p) ∧
  index (cache_Open p c).2 = index c ∧ disk (cache_Open p c).2 = disk c.
Proof.
  simpl. unfold bind_st, fails, ret_st. destruct (faults c) as [|[] ?]; simpl; auto.
Qed.

(** The local cache keeps the promises the proxy handler relies on, whatever
    calls and statements fail. *)
#[export] Instance LocalCache_laws : ArtifactCacheLaws LocalCache.
Proof using Hsha.
  refine {|
    cache_ok := ok;
    cache_holds := held;
    cache_file c p := disk c !! p;
  |}; intros *.
  - rewrite cache_Get_run. apply paths_ok_forgets, forgets_get.
  - rewrite cache_Get_run. intros _. apply forgets_held, forgets_get.
  - rewrite cache_Get_run. simpl. intros _ (e' & He & ->)%fmap_Some. by apply get_hit_held.
  - apply put_paths_ok.
  - apply put_held.
  - intros _. apply put_done_held.
  - apply paths_ok_forgets, forgets_invalidate.
  - intros _. apply forgets_held, forgets_invalidate.
  - simpl. unfold LocalCache_MarkCVEChecked. rewrite mark_run.
    apply paths_ok_forgets, forgets_exec. intros *. by apply alter_core.
  - simpl. unfold LocalCache_MarkCVEChecked. rewrite mark_run. intros _. by apply mark_held.
  - simpl. unfold LocalCache_MarkCVEChecked. rewrite mark_run. simpl. unfold Index_MarkCVEChecked.
    apply (f_equal (fun m : gmap string bytes => m !! p)). by apply mark_held.
  - simpl. unfold LocalCache_MarkMalwareChecked. rewrite mark_run.
    apply paths_ok_forgets, forgets_exec. intros *. by apply alter_core.
  - simpl. unfold LocalCache_MarkMalwareChecked. rewrite mark_run. intros _. by apply mark_held.
  - simpl. unfold LocalCache_MarkMalwareChecked. rewrite mark_run. simpl. unfold Index_MarkMalwareChecked.
    apply (f_equal (fun m : gmap string bytes => m !! p)). by apply mark_held.
  - intros Hok. destruct (open_run p c) as (_ & Hi & _). intros ref' r. rewrite Hi. apply Hok.
  - destruct (open_run p c) as (_ & Hi & Hd). unfold held. by rewrite Hi, Hd.
  - destruct (open_run p c) as (_ & _ & ->). done.
  - destruct (open_run p c) as ([->| ->] & _ & _); done.
Defined.
End Instance.

(** ** Any sequence of operations *)

Lemma forgets_invalidate_raw ref c : forgets c (invalidate ref c).2.
Proof.
  pose proof (forgets_invalidate ref c) as H. unfold LocalCache_Invalidate in H.
  rewrite bind_st_run in H. exact H.
Qed.

#[export] Hint Resolve forgets_invalidate forgets_invalidate_raw forgets_get : joei.

Lemma forgets_purge_batch cands removed freed progress c :
  forgets c (purge_batch cands removed freed progress c).2.
Proof.
  revert removed freed progress c. induction cands as [|[ref sz] cands IH]; intros; simpl;
    [auto with joei|]. apply forgets_bind; [auto with joei|]. intros [[|]|] c1; apply IH.
Qed.

Lemma forgets_purge_loop order fuel cancelled round cutoff removed freed c :
  forgets c (purge_loop order fuel cancelled round cutoff removed freed c).2.
Proof.
  revert round removed freed c. induction fuel as [|fuel IH]; intros; simpl; [auto with joei|].
  destruct (cancelled round); [auto with joei|].
  apply forgets_bind; [apply forgets_query|]. intros [[|cand cands]|] c1; [auto with joei| |auto with joei].
  apply forgets_bind; [apply forgets_purge_batch|]. intros [[? ?] []] c2; [apply IH|apply forgets_ret].
Qed.

Lemma forgets_evict_batch cands progress c : forgets c (evict_batch cands progress c).2.
Proof.
  revert progress c. induction cands as [|ref cands IH]; intros; simpl; [auto with joei|].
  apply forgets_bind; [auto with joei|]. intros [[|]|] c1; try apply IH.
  apply forgets_bind; [|intros; apply IH]. split; simpl; eauto.
Qed.

Lemma forgets_evict_loop order fuel cancelled round maxBytes total c :
  forgets c (evict_loop order fuel cancelled round maxBytes total c).2.
Proof.
  revert round total c. induction fuel as [|fuel IH]; intros; simpl.
  - destruct (_ || _); auto with joei.
  - destruct (_ || _); [auto with joei|].
    apply forgets_bind; [apply forgets_query|]. intros [[|cand cands]|] c1; [auto with joei| |auto with joei].
    apply forgets_bind; [apply forgets_evict_batch|]. intros [] c2; simpl; [|auto with joei].
    apply forgets_bind; [apply forgets_query|]. intros; apply IH.
Qed.

(** The operations the rest of the program performs on the cache: the
    handlers', the eviction worker's, and the console's purge. *)
Inductive cache_op :=
| OpGet (now : Z) (ref : PackageRef)
| OpPut (now : Z) (ref : PackageRef) (data : bytes) (scanClean : bool) (scanJSON : string)
| OpInvalidate (ref : PackageRef)
| OpMarkCVE (ref : PackageRef) (ts : Z)
| OpMarkMalware (ref : PackageRef) (ts : Z)
| OpPurge (cancelled : nat -> bool) (now : Z)
| OpEvict (cancelled : nat -> bool).

Section Runs.
Context (cfg : LocalCacheConfig) (sha256_hex : string -> string).
Context (order : list (PackageRef * Row) -> list (PackageRef * Row)).

Definition run_op (op : cache_op) (c : LocalCache) : LocalCache :=
  match op with
  | OpGet now ref => (LocalCache_Get now ref c).2
  | OpPut now ref data b j => (LocalCache_Put cfg sha256_hex now ref data b j c).2
  | OpInvalidate ref => (LocalCache_Invalidate ref c).2
  | OpMarkCVE ref ts => (LocalCache_MarkCVEChecked ref ts c).2
  | OpMarkMalware ref ts => (LocalCache_MarkMalwareChecked ref ts c).2
  | OpPurge cancelled now => (PurgeStale cfg order cancelled now c).2
  | OpEvict cancelled => (evictWorker cfg order cancelled c).2
  end.

Lemma forgets_run_op op c :
  match op with OpPut _ _ _ _ _ => True | _ => forgets c (run_op op c) end.
Proof.
  destruct op; simpl; auto with joei.
  - unfold LocalCache_MarkCVEChecked. rewrite mark_run. apply forgets_exec. intros *. by apply alter_core.
  - unfold LocalCache_MarkMalwareChecked. rewrite mark_run. apply forgets_exec. intros *. by apply alter_core.
  - apply forgets_purge_loop.
  - unfold evictWorker. destruct (pending c); [|apply forgets_refl].
    apply (forgets_trans _ (set_pending false c)); [split; simpl; eauto|].
    unfold evictIfNeeded. destruct (_ =? 0); [apply forgets_refl|]. unfold evictToSize.
    apply forgets_bind; [apply forgets_query|]. intros [t|] c1; [apply forgets_evict_loop|apply forgets_ret].
Qed.

(** A cache just opened on an empty directory, with its future failures. *)
Definition empty_cache (fs : list bool) : LocalCache := mkLocalCache ∅ ∅ 0 false fs.

Definition put_in (ops : list cache_op) (ref : PackageRef) (d : bytes) : Prop :=
  ∃ now ref' b j, OpPut now ref' d b j ∈ ops ∧ Key ref' = Key ref.

Lemma run_ops_held ops c ref b d :
  sha_ok sha256_hex → paths_ok cfg sha256_hex c →
  held (foldl (fun c op => run_op op c) c ops) ref = Some (b, d) →
  held c ref = Some (b, d) ∨ put_in ops ref d ∨ ∃ b', held c ref = Some (b', d).
Proof.
  intros Hsha. revert c. induction ops as [|op ops IH]; intros c Hok Hh; simpl in Hh; [by left|].
  assert (paths_ok cfg sha256_hex (run_op op c)) as Hok'.
  { pose proof (forgets_run_op op c) as Hf. destruct op; try (by eapply paths_ok_forgets).
    by apply put_paths_ok. }
  assert (put_in ops ref d → put_in (op :: ops) ref d) as Hmono.
  { intros (now & ref' & b' & j & Hin & HK). exists now, ref', b', j. split; [by right|done]. }
  assert (∀ b', held (run_op op c) ref = Some (b', d) →
            put_in (op :: ops) ref d ∨ ∃ b'', held c ref = Some (b'', d)) as Hstep.
  { intros b' Hb'. pose proof (forgets_run_op op c) as Hf.
    destruct op; try (right; exists b'; by eapply forgets_held).
    apply (put_held cfg sha256_hex Hsha) in Hb' as [?|[Hd HK]]; [by right; exists b'| |done].
    simpl in Hd. subst. left. do 4 eexists. split; [by left|done]. }
  destruct (IH _ Hok' Hh) as [?|[?|[b' ?]]]; [right; by eapply Hstep|auto|right; by eapply Hstep].
Qed.

(** C19: whatever sequence of handler operations, evictions and purges a cache
    opened empty goes through, and whatever system calls and SQL statements
    fail on the way, a hit returns a file holding exactly the bytes some
    [Put] of that sequence was given for a reference with the same key. *)
Theorem cache_hit_provenance fs ops now ref e :
  sha_ok sha256_hex →
  let c := foldl (fun c op => run_op op c) (empty_cache fs) ops in
  (LocalCache_Get now ref c).1 = Some e →
  ∃ d, disk (LocalCache_Get now ref c).2 !! ArtifactPath e = Some d ∧ put_in ops ref d.
Proof.
  cbv zeta. intros Hsha Hget. destruct (get_hit_held _ _ _ _ Hget) as (d & Hh & Hd).
  exists d. split; [done|].
  eapply forgets_held in Hh; [|apply forgets_get].
  assert (held (empty_cache fs) ref = None) as Hnone by done.
  destruct (run_ops_held ops (empty_cache fs) ref (ScanClean e) d Hsha) as [?|[?|[? ?]]]; try congruence; done.
Qed.
End Runs.

(** ** Witnesses *)

(** A concrete stand-in for the digest: the hex encoding itself, which is
    injective and has no slash. *)
Definition hex_digit (n : nat) : ascii := nth n (to_bytes "0123456789abcdef") "0"%char.

Definition hex_byte (a : ascii) : bytes :=
  [hex_digit (nat_of_ascii a / 16); hex_digit (nat_of_ascii a mod 16)].

Definition hex (s : string) : string := of_bytes (flat_map hex_byte (to_bytes s)).

Lemma hex_byte_inj a b l l' : hex_byte a ++ l = hex_byte b ++ l' → a = b ∧ l = l'.
Proof.
  assert (∀ a, ∃ n m, hex_byte a = [n; m] ∧
    a = ascii_of_nat (16 * (if (nat_of_ascii n <? 97)%nat then nat_of_ascii n - 48 else nat_of_ascii n - 87)
        + (if (nat_of_ascii m <? 97)%nat then nat_of_ascii m - 48 else nat_of_ascii m - 87))) as H.
  { intros [[] [] [] [] [] [] [] []]; do 2 eexists; split; reflexivity. }
  destruct (H a) as (n & m & -> & Ea), (H b) as (n' & m' & -> & Eb).
  intros [= -> -> ->]. split; [congruence|done].
Qed.

Lemma hex_ok : sha_ok hex.
Proof.
  split.
  - intros k k' H%(f_equal to_bytes). unfold hex in H. rewrite !to_of_bytes in H.
    apply to_bytes_inj. revert H. generalize (to_bytes k'). induction (to_bytes k) as [|a l IH];
      intros [|b l']; [done..|].
    change (flat_map hex_byte (a :: l)) with (hex_byte a ++ flat_map hex_byte l).
    change (flat_map hex_byte (b :: l')) with (hex_byte b ++ flat_map hex_byte l').
    intros [-> ?]%hex_byte_inj. f_equal. auto.
  - intros k. unfold hex. rewrite to_of_bytes. induction (to_bytes k) as [|a l IH]; [apply not_elem_of_nil|].
    change (flat_map hex_byte (a :: l)) with (hex_byte a ++ flat_map hex_byte l).
    rewrite not_elem_of_app. split; [|done].
    destruct a as [[] [] [] [] [] [] [] []]; apply (bool_decide_eq_true_1 _); reflexivity.
Qed.

Definition ex_cfg : LocalCacheConfig := mkCacheConfig "/var/cache/jo-ei" 1 (24 * Hour).
Definition ex_ref (v : string) : PackageRef := mkRef "npm" "left-pad" v "".
Definition ex_now : Z := 1000 * Hour.

(** Two entries, stored a month apart. *)
Definition ex_cache : LocalCache :=
  foldl (fun c op => run_op ex_cfg hex (merge_sort by_last_hit) op c) (empty_cache [])
    [OpPut (10 * Hour) (ex_ref "1.0.0") (to_bytes "old") true "";
     OpPut ex_now (ex_ref "1.3.0") (to_bytes "new") true ""].

Lemma ex_cache_faults : faults ex_cache = [].
Proof. vm_compute. reflexivity. Qed.

Lemma PurgeStale_terminates_witness :
  order_ok (merge_sort by_last_hit) ∧
  is_Some (PurgeStale ex_cfg (merge_sort by_last_hit) (fun n => n =? 7)%nat ex_now ex_cache).1.
Proof. split; [apply merge_sort_order_ok|]. apply PurgeStale_terminates, merge_sort_order_ok. Defined.

Lemma PurgeStale_exact_witness :
  (PurgeStale ex_cfg (merge_sort by_last_hit) (fun _ => false) ex_now ex_cache).1 =
    Some (1, 3, PurgeDone) ∧
  ∀ ref r, index (PurgeStale ex_cfg (merge_sort by_last_hit) (fun _ => false) ex_now ex_cache).2 !! ref = Some r
    ↔ index ex_cache !! ref = Some r ∧ staleCutoff ex_cfg ex_now ≤ last_hit r.
Proof.
  destruct (PurgeStale_exact (merge_sort by_last_hit) merge_sort_order_ok ex_cfg ex_now ex_cache
              ex_cache_faults)
    as [H1 H2].
  split; [|apply H2]. rewrite H1. vm_compute. reflexivity.
Defined.

Lemma evictToSize_exact_witness :
  Index_TotalSizeBytes (index ex_cache) = 6 ∧
  Index_TotalSizeBytes (index (evictToSize (merge_sort by_last_hit) (fun _ => false) 5 ex_cache).2) ≤ 5.
Proof.
  split; [vm_compute; reflexivity|].
  destruct (evictToSize_exact (merge_sort by_last_hit) merge_sort_order_ok 5 ex_cache ex_cache_faults
              ltac:(discriminate)) as (_ & H & _).
  exact H.
Defined.

Lemma cache_hit_provenance_witness :
  let ops := [OpPut (10 * Hour) (ex_ref "1.0.0") (to_bytes "old") true "";
              OpPut ex_now (ex_ref "1.3.0") (to_bytes "new") true "";
              OpPurge (fun _ => false) ex_now] in
  let c := foldl (fun c op => run_op ex_cfg hex (merge_sort by_last_hit) op c) (empty_cache []) ops in
  is_Some (LocalCache_Get ex_now (ex_ref "1.3.0") c).1 ∧
  (∀ e, (LocalCache_Get ex_now (ex_ref "1.3.0") c).1 = Some e →
     ∃ d, disk (LocalCache_Get ex_now (ex_ref "1.3.0") c).2 !! ArtifactPath e = Some d ∧
          put_in ops (ex_ref "1.3.0") d) ∧
  (LocalCache_Get ex_now (ex_ref "1.0.0") c).1 = None.
Proof.
  cbv zeta. split_and!.
  - apply (bool_decide_eq_true_1 _). vm_compute. reflexivity.
  - intros e. apply (cache_hit_provenance ex_cfg hex (merge_sort by_last_hit) [] _ ex_now (ex_ref "1.3.0") e hex_ok).
  - vm_compute. reflexivity.
Defined.

(** Eviction works in batches of ten, so it can go far below the limit: with
    eleven one-byte entries and a limit of ten, one entry is left. *)
Example evictToSize_batch :
  let puts := map (fun v => OpPut ex_now (ex_ref v) ["x"%char] true "")
                ["0"; "1"; "2"; "3"; "4"; "5"; "6"; "7"; "8"; "9"; "10"] in
  let c := foldl (fun c op => run_op ex_cfg hex (merge_sort by_last_hit) op c) (empty_cache []) puts in
  Index_TotalSizeBytes (index c) = 11 ∧
  Index_TotalSizeBytes (index (evictToSize (merge_sort by_last_hit) (fun _ => false) 10 c).2) = 1.
Proof. vm_compute. done. Qed.
