(* ===== verification/CacheMigrate.v ===== *)
(** * Package cache: opening the index (index.go)

    NewIndex brings the table of any earlier release to the present columns,
    each migration in one transaction.  Every statement may fail without an
    effect, and a transaction that is not committed leaves none; the process
    dying between two statements is the failure of the next.  A column of a
    row that its table does not have yet holds what the column is given when it
    is added.  The index on last_hit, the column id and expires_at carry
    nothing. *)
From S2P Require Import Prelude GoStd Gate Cache.
Local Open Scope Z_scope.

(** ** The database *)

Record ARow := mkARow {
  ar_ref : PackageRef;
  ar_row : Row;
  ar_last_validated : Z;
}.

(** The columns a release may or may not have, and the rows. *)
Record Table := mkTable {
  has_classifier : bool;
  has_last_validated : bool;
  has_cve_check : bool;
  has_malware_check : bool;
  t_rows : list ARow;
}.

Record DB := mkDB {
  db_artifacts : option Table;
  db_legacy : option Table;
}.

Definition empty_table : Table := mkTable true false true true [].

Definition with_rows (f : list ARow -> list ARow) (t : Table) : Table :=
  mkTable (has_classifier t) (has_last_validated t) (has_cve_check t) (has_malware_check t) (f (t_rows t)).

Definition with_checks (cve malware : Z) (r : Row) : Row :=
  mkRow (file_path r) (scan_clean r) (scan_json r) (stored_at r) (last_hit r) (hit_count r) (size_bytes r) cve malware.

Definition set_cve (z : Z) (r : ARow) : ARow :=
  mkARow (ar_ref r) (with_checks z (last_malware_check (ar_row r)) (ar_row r)) (ar_last_validated r).
Definition set_malware (z : Z) (r : ARow) : ARow :=
  mkARow (ar_ref r) (with_checks (last_cve_check (ar_row r)) z (ar_row r)) (ar_last_validated r).

(** A statement: its effect, or none when SQLite refuses it. *)
Definition Stmt : Type := DB -> option DB.

Definition on_artifacts (f : Table -> option Table) : Stmt := fun db =>
  t ← db_artifacts db; t ← f t; Some (mkDB (Some t) (db_legacy db)).

Definition create_schema : Stmt := fun db =>
  Some (mkDB (Some (default empty_table (db_artifacts db))) (db_legacy db)).

Definition rename_to_legacy : Stmt := fun db =>
  match db_artifacts db, db_legacy db with
  | Some t, None => Some (mkDB None (Some t))
  | _, _ => None
  end.

Definition without_classifier (ref : PackageRef) : PackageRef := mkRef (Ecosystem ref) (Name ref) (Version ref) "".

(** The columns the copy names; the others get their defaults. *)
Definition copied (r : ARow) : ARow := mkARow (without_classifier (ar_ref r)) (with_checks 0 0 (ar_row r)) 0.

(** UNIQUE(ecosystem, name, version, classifier) *)
Definition insert_from_legacy : Stmt := fun db =>
  match db_artifacts db, db_legacy db with
  | Some t, Some old =>
      let rows := t_rows t ++ (copied <$> t_rows old) in
      if decide (NoDup (ar_ref <$> rows)) then Some (mkDB (Some (with_rows (fun _ => rows) t)) (Some old)) else None
  | _, _ => None
  end.

Definition drop_legacy : Stmt := fun db =>
  match db_legacy db with Some _ => Some (mkDB (db_artifacts db) None) | None => None end.

Definition add_cve_column : Stmt := on_artifacts (fun t =>
  if has_cve_check t then None
  else Some (mkTable (has_classifier t) (has_last_validated t) true (has_malware_check t) (set_cve 0 <$> t_rows t))).

Definition add_malware_column : Stmt := on_artifacts (fun t =>
  if has_malware_check t then None
  else Some (mkTable (has_classifier t) (has_last_validated t) (has_cve_check t) true (set_malware 0 <$> t_rows t))).

Definition from_last_validated (r : ARow) : ARow :=
  let z := if 0 <? ar_last_validated r then ar_last_validated r else stored_at (ar_row r) in
  mkARow (ar_ref r) (with_checks z z (ar_row r)) (ar_last_validated r).

Definition update_from_last_validated : Stmt := on_artifacts (fun t =>
  if has_last_validated t && has_cve_check t && has_malware_check t then Some (with_rows (fmap from_last_validated) t) else None).

Definition drop_last_validated : Stmt := on_artifacts (fun t =>
  if has_last_validated t then Some (mkTable (has_classifier t) false (has_cve_check t) (has_malware_check t) (t_rows t)) else None).

Definition zero_cve (r : ARow) : ARow := if last_cve_check (ar_row r) =? 0 then set_cve (stored_at (ar_row r)) r else r.
Definition zero_malware (r : ARow) : ARow :=
  if last_malware_check (ar_row r) =? 0 then set_malware (stored_at (ar_row r)) r else r.

Definition backfill_cve : Stmt := on_artifacts (fun t => if has_cve_check t then Some (with_rows (fmap zero_cve) t) else None).
Definition backfill_malware : Stmt := on_artifacts (fun t =>
  if has_malware_check t then Some (with_rows (fmap zero_malware) t) else None).

(** ** Running statements

    The rest of the schedule says which of them fail. *)

Notation W := (DB * list bool)%type.

Definition next_fault : St W bool := fun '(db, fs) =>
  match fs with [] => (false, (db, [])) | b :: fs => (b, (db, fs)) end.

(** The answers are whether there was no error. *)
Definition exec (stmt : Stmt) : St W bool :=
  fault <- next_fault;;
  fun '(db, fs) =>
    if fault : bool then (false, (db, fs))
    else match stmt db with Some db' => (true, (db', fs)) | None => (false, (db, fs)) end.

Fixpoint exec_all (stmts : list Stmt) : St W bool :=
  match stmts with
  | [] => ret_st true
  | stmt :: stmts => ok <- exec stmt;; if ok : bool then exec_all stmts else ret_st false
  end.

(** Begin, the steps, Commit; without it the deferred Rollback. *)
Definition transaction (stmts : list Stmt) : St W bool := fun w =>
  let '(fault, w1) := next_fault w in
  if fault then (false, w1)
  else
    let '(ok, w2) := exec_all stmts w1 in
    if negb ok then (false, (w.1, w2.2))
    else let '(fault, w3) := next_fault w2 in if fault then (false, (w.1, w3.2)) else (true, w3).

(** hasColumn: [None] is an error. *)
Definition hasColumn (column : Table -> bool) : St W (option bool) :=
  fault <- next_fault;;
  fun w => (if fault : bool then None else Some (match db_artifacts w.1 with Some t => column t | None => false end), w).

Definition migrateClassifier : St W bool :=
  has <- hasColumn has_classifier;;
  match has with
  | None => ret_st false
  | Some true => ret_st true
  | Some false =>
      transaction [rename_to_legacy; Some (* DROP INDEX *); create_schema; insert_from_legacy; drop_legacy]
  end.

Definition addCheckTimestampColumns : St W bool :=
  hadLV <- hasColumn has_last_validated;;
  match hadLV with
  | None => ret_st false
  | Some hadLV =>
      transaction ([add_cve_column; add_malware_column] ++
        (if hadLV : bool then [update_from_last_validated; drop_last_validated] else []))
  end.

Definition migrateCheckTimestamps : St W bool :=
  has <- hasColumn has_cve_check;;
  match has with
  | None => ret_st false
  | Some has =>
      ok <- (if has : bool then ret_st true else addCheckTimestampColumns);;
      if ok : bool then
        ok <- exec backfill_cve;;
        if ok : bool then exec backfill_malware else ret_st false
      else ret_st false
  end.

Definition NewIndex : St W bool :=
  ok <- exec_all [Some; Some; Some] (* the pragmas *);;
  if ok : bool then
    ok <- exec create_schema;;
    if ok : bool then
      ok <- migrateClassifier;;
      if ok : bool then migrateCheckTimestamps else ret_st false
    else ret_st false
  else ret_st false.

(** Several starts, each with the failures it meets; whether each succeeded. *)
Fixpoint starts (l : list (list bool)) (db : DB) : list bool * DB :=
  match l with
  | [] => ([], db)
  | fs :: l' =>
      let '(ok, (db', _)) := NewIndex (db, fs) in
      let '(oks, db'') := starts l' db' in (ok :: oks, db'')
  end.

(** * What a start does to an index *)

(** The reference and the times a row stands for, whichever columns are there. *)
Definition the_ref (t : Table) (r : ARow) : PackageRef := if has_classifier t then ar_ref r else without_classifier (ar_ref r).

Definition checked (column : bool) (t : Table) (z : Z) (r : ARow) : Z :=
  if column then (if z =? 0 then stored_at (ar_row r) else z)
  else if has_classifier t && has_last_validated t && (0 <? ar_last_validated r) then ar_last_validated r
  else stored_at (ar_row r).

Definition stands_for (t : Table) (r : ARow) : PackageRef * Row :=
  (the_ref t r, with_checks (checked (has_cve_check t) t (last_cve_check (ar_row r)) r)
                  (checked (has_malware_check t) t (last_malware_check (ar_row r)) r) (ar_row r)).

Definition contents (db : DB) : list (PackageRef * Row) :=
  match db_artifacts db with Some t => stands_for t <$> t_rows t | None => [] end.

(** The tables releases have made: both check columns or neither, never beside
    the column they replace nor without a classifier; and UNIQUE. *)
Definition known_table (t : Table) : Prop :=
  has_cve_check t = has_malware_check t ∧ (has_cve_check t = true → has_classifier t = true ∧ has_last_validated t = false) ∧
  NoDup (the_ref t <$> t_rows t).

Definition known_db (db : DB) : Prop := db_legacy db = None ∧ ∀ t, db_artifacts db = Some t → known_table t.

Definition current (t : Table) : Prop :=
  has_classifier t = true ∧ has_last_validated t = false ∧ has_cve_check t = true ∧ has_malware_check t = true.

Section Start.
Context (rows : list (PackageRef * Row)).

Definition kept (db : DB) : Prop := known_db db ∧ contents db = rows.

(** Run on a kept database that satisfies [P], [m] leaves a kept one, which
    satisfies [Q] when there was no error. *)
Definition step_ok (P : DB → Prop) (m : St W bool) (Q : DB → Prop) : Prop :=
  ∀ db fs, kept db → P db → kept (m (db, fs)).2.1 ∧ ((m (db, fs)).1 = true → Q (m (db, fs)).2.1).

Fixpoint run_all (stmts : list Stmt) (db : DB) : option DB :=
  match stmts with [] => Some db | stmt :: stmts => stmt db ≫= run_all stmts end.

Lemma next_fault_db db fs : (next_fault (db, fs)).2.1 = db.
Proof. by destruct fs. Qed.

Lemma exec_spec stmt db fs :
  if (exec stmt (db, fs)).1 then stmt db = Some (exec stmt (db, fs)).2.1 else (exec stmt (db, fs)).2.1 = db.
Proof.
  unfold exec. rewrite bind_st_run. pose proof (next_fault_db db fs) as Hd.
  destruct (next_fault (db, fs)) as [b [db' fs']]. cbn in Hd |- *. subst db'. destruct b; [done|]. by destruct (stmt db).
Qed.

Lemma exec_all_spec stmts db fs :
  (exec_all stmts (db, fs)).1 = true → run_all stmts db = Some (exec_all stmts (db, fs)).2.1.
Proof.
  revert db fs. induction stmts as [|stmt stmts IH]; intros db fs; [done|]. cbn [exec_all run_all]. rewrite bind_st_run.
  pose proof (exec_spec stmt db fs) as He. destruct (exec stmt (db, fs)) as [ok [db' fs']]. cbn [fst snd] in *.
  destruct ok; [|done]. rewrite He. cbn [mbind option_bind]. apply IH.
Qed.

Lemma transaction_spec stmts db fs :
  if (transaction stmts (db, fs)).1 then run_all stmts db = Some (transaction stmts (db, fs)).2.1
  else (transaction stmts (db, fs)).2.1 = db.
Proof.
  unfold transaction. pose proof (next_fault_db db fs) as Hd. destruct (next_fault (db, fs)) as [b [db' fs']]. cbn in Hd. subst db'.
  destruct b; [done|]. pose proof (exec_all_spec stmts db fs') as He. destruct (exec_all stmts (db, fs')) as [ok [db' fs2]]. cbn [fst snd] in *.
  destruct ok; [|done]. cbn [negb]. pose proof (next_fault_db db' fs2) as Hd. destruct (next_fault (db', fs2)) as [b [db2 fs3]].
  cbn in Hd. subst db2. destruct b; [done|]. by apply He.
Qed.

(** What a transaction's steps make of a kept database is what it does. *)
Lemma transaction_ok P stmts (Q : DB → Prop) :
  (∀ db db', kept db → P db → run_all stmts db = Some db' → kept db' ∧ Q db') → step_ok P (transaction stmts) Q.
Proof.
  intros H db fs Hk HP. pose proof (transaction_spec stmts db fs) as Ht.
  destruct (transaction stmts (db, fs)) as [[] [db' fs']]; cbn [fst snd] in *.
  - destruct (H db db' Hk HP Ht). done.
  - by subst db'.
Qed.

Lemma exec_ok P stmt (Q : DB → Prop) :
  (∀ db db', kept db → P db → stmt db = Some db' → kept db' ∧ Q db') → step_ok P (exec stmt) Q.
Proof.
  intros H db fs Hk HP. pose proof (exec_spec stmt db fs) as He. destruct (exec stmt (db, fs)) as [[] [db' fs']]; cbn [fst snd] in *.
  - destruct (H db db' Hk HP He). done.
  - by subst db'.
Qed.

Lemma seq_ok P Q R m k : step_ok P m Q → step_ok Q k R →
  step_ok P (ok <- m;; if ok : bool then k else ret_st false) R.
Proof.
  intros Hm Hk db fs Hkept HP. rewrite bind_st_run. destruct (Hm db fs Hkept HP) as [H1 H2].
  destruct (m (db, fs)) as [[] [db' fs']]; cbn [fst snd] in *; [|done]. apply Hk; auto.
Qed.

(** A test of the columns, and what follows on either answer. *)
Lemma hasColumn_ok (P : DB → Prop) column k (Q : DB → Prop) :
  (∀ b, step_ok (fun db => P db ∧ b = match db_artifacts db with Some t => column t | None => false end) (k b) Q) →
  step_ok P (has <- hasColumn column;; match has with None => ret_st false | Some b => k b end) Q.
Proof.
  intros Hk db fs Hkept HP. rewrite bind_st_run. unfold hasColumn. rewrite bind_st_run.
  pose proof (next_fault_db db fs) as Hd. destruct (next_fault (db, fs)) as [f [db' fs']]. cbn in Hd. subst db'. cbn [fst snd].
  destruct f; [done|]. by apply Hk.
Qed.
End Start.

(** ** The migrations keep what the rows stand for *)

Definition has_table (db : DB) : Prop := is_Some (db_artifacts db).

(** The artifacts table has this property. *)
Definition table_is (p : Table → Prop) (db : DB) : Prop := ∃ t, db_artifacts db = Some t ∧ p t.

Section Migrations.
Context (rows : list (PackageRef * Row)).

Lemma kept_table db t : kept rows db → db_artifacts db = Some t → known_table t ∧ stands_for t <$> t_rows t = rows ∧ db = mkDB (Some t) None.
Proof.
  intros [[Hl Hk] Hc] Ht. destruct db as [a l]. cbn in Hl, Ht. subst a l. split; [by apply Hk|done].
Qed.

Lemma kept_intro t : known_table t → stands_for t <$> t_rows t = rows → kept rows (mkDB (Some t) None).
Proof. intros Hk Hc. split; [split; [done|]|done]. by intros t' [= <-]. Qed.

Lemma stands_for_ext t t' (f : ARow → ARow) (l : list ARow) :
  (∀ r, stands_for t' (f r) = stands_for t r) → stands_for t' <$> (f <$> l) = stands_for t <$> l.
Proof. intros H. rewrite <- list_fmap_compose. apply list_fmap_ext. intros i r _. apply H. Qed.

Lemma refs_ext t t' (f : ARow → ARow) (l : list ARow) :
  (∀ r, stands_for t' (f r) = stands_for t r) → the_ref t' <$> (f <$> l) = the_ref t <$> l.
Proof.
  intros H. rewrite <- list_fmap_compose. apply list_fmap_ext. intros i r _. specialize (H r). by apply (f_equal fst) in H.
Qed.

(** A table whose rows became others that stand for the same. *)
Lemma kept_map t t' f :
  known_table t → stands_for t <$> t_rows t = rows → t_rows t' = f <$> t_rows t → (∀ r, stands_for t' (f r) = stands_for t r) →
  has_cve_check t' = has_malware_check t' → (has_cve_check t' = true → has_classifier t' = true ∧ has_last_validated t' = false) →
  kept rows (mkDB (Some t') None).
Proof.
  intros (_ & _ & Hn) Hc Ht Hf H1 H2. apply kept_intro; [split; [done|split; [done|]]|]; rewrite Ht.
  - by rewrite (refs_ext t).
  - by rewrite (stands_for_ext t).
Qed.

Lemma create_schema_ok : step_ok rows (fun _ => True) (exec create_schema) has_table.
Proof.
  apply exec_ok. intros db db' Hk _ [= <-]. split; [|by eexists]. destruct (db_artifacts db) as [t|] eqn:Ht.
  - destruct (kept_table _ _ Hk Ht) as (_ & _ & ->). exact Hk.
  - destruct Hk as [[Hl _] Hc]. unfold contents in Hc. rewrite Ht in Hc. rewrite Hl. cbn. apply kept_intro; [|done].
    split; [done|]. split; [done|constructor].
Qed.

Lemma stands_for_copied t r :
  has_classifier t = false → known_table t → stands_for (mkTable true false true true []) (copied r) = stands_for t r.
Proof.
  intros Hc (He & Hcl & _). assert (has_cve_check t = false) as Hv.
  { destruct (has_cve_check t); [|done]. destruct (Hcl eq_refl). congruence. }
  unfold stands_for, the_ref, checked. rewrite <- He, Hc, Hv. done.
Qed.

Lemma migrateClassifier_ok : step_ok rows has_table migrateClassifier (table_is (fun t => has_classifier t = true)).
Proof.
  apply hasColumn_ok. intros [].
  - intros db fs Hk [[t Ht] Hb]. rewrite Ht in Hb. split; [done|]. intros _. by exists t.
  - apply transaction_ok. intros db db' Hk [[t Ht] Hb]. rewrite Ht in Hb. destruct (kept_table _ _ Hk Ht) as (Hkn & Hc & ->).
    cbn. destruct (decide _) as [Hn|]; [|done]. cbn. intros [= <-]. split; [|eexists; split; [done|done]].
    apply (kept_map t _ copied); [done|done|done| |done|done]. intros r. by apply stands_for_copied.
Qed.

Lemma addCheckTimestampColumns_ok :
  step_ok rows (table_is (fun t => has_classifier t = true ∧ has_cve_check t = false)) addCheckTimestampColumns (table_is current).
Proof.
  apply hasColumn_ok. intros lv. apply transaction_ok. intros db db' Hk [(t & Ht & Hc & Hv) Hb]. rewrite Ht in Hb.
  destruct (kept_table _ _ Hk Ht) as (Hkn & Hrows & ->). assert (has_malware_check t = false) as Hm by (destruct Hkn as [He _]; congruence).
  destruct t as [c l v m rs]. cbn in Hc, Hv, Hm, Hb. subst c v m l. destruct lv; cbn; intros [= <-].
  - split; [|eexists; split; [done|done]]. rewrite <- !list_fmap_compose.
    apply (kept_map (mkTable true true false false rs) _ (from_last_validated ∘ set_malware 0 ∘ set_cve 0)); try done.
    intros r. unfold stands_for, checked, from_last_validated. cbn. destruct (Z.ltb_spec 0 (ar_last_validated r)) as [Hlt|Hle]; cbn.
    + assert ((ar_last_validated r =? 0) = false) as -> by (apply Z.eqb_neq; lia). done.
    + by destruct (stored_at (ar_row r) =? 0).
  - split; [|eexists; split; [done|done]]. rewrite <- list_fmap_compose.
    by apply (kept_map (mkTable true false false false rs) _ (set_malware 0 ∘ set_cve 0)).
Qed.

Definition cve_filled (r : ARow) : Prop := last_cve_check (ar_row r) = 0 → stored_at (ar_row r) = 0.
Definition malware_filled (r : ARow) : Prop := last_malware_check (ar_row r) = 0 → stored_at (ar_row r) = 0.

Lemma backfill_cve_ok :
  step_ok rows (table_is current) (exec backfill_cve) (table_is (fun t => current t ∧ Forall cve_filled (t_rows t))).
Proof.
  apply exec_ok. intros db db' Hk (t & Ht & Hcur). destruct (kept_table _ _ Hk Ht) as (Hkn & Hrows & ->).
  destruct t as [c l v m rs], Hcur as (Hc & Hl & Hv & Hm). cbn in Hc, Hl, Hv, Hm. subst c l v m. cbn. intros [= <-]. split.
  - apply (kept_map (mkTable true false true true rs) _ zero_cve); try done.
    intros r. unfold stands_for, checked, zero_cve. cbn. destruct (Z.eqb_spec (last_cve_check (ar_row r)) 0) as [E|E]; cbn.
    + by destruct (stored_at (ar_row r) =? 0).
    + by apply Z.eqb_neq in E as ->.
  - eexists. split; [done|]. split; [done|]. cbn. apply Forall_fmap, Forall_true. intros r. unfold cve_filled, zero_cve. cbn.
    destruct (Z.eqb_spec (last_cve_check (ar_row r)) 0) as [E|E]; cbn; [done|]. intros ?. done.
Qed.

Lemma backfill_malware_ok :
  step_ok rows (table_is (fun t => current t ∧ Forall cve_filled (t_rows t))) (exec backfill_malware)
    (table_is (fun t => current t ∧ Forall (fun r => cve_filled r ∧ malware_filled r) (t_rows t))).
Proof.
  apply exec_ok. intros db db' Hk (t & Ht & Hcur & Hf). destruct (kept_table _ _ Hk Ht) as (Hkn & Hrows & ->).
  destruct t as [c l v m rs], Hcur as (Hc & Hl & Hv & Hm). cbn in Hc, Hl, Hv, Hm, Hf. subst c l v m. cbn. intros [= <-]. split.
  - apply (kept_map (mkTable true false true true rs) _ zero_malware); try done.
    intros r. unfold stands_for, checked, zero_malware. cbn. destruct (Z.eqb_spec (last_malware_check (ar_row r)) 0) as [E|E]; cbn.
    + by destruct (stored_at (ar_row r) =? 0).
    + by apply Z.eqb_neq in E as ->.
  - eexists. split; [done|]. split; [done|]. cbn. apply Forall_fmap. eapply Forall_impl; [exact Hf|]. intros r. unfold compose, cve_filled, malware_filled, zero_malware.
    destruct (Z.eqb_spec (last_malware_check (ar_row r)) 0) as [E|E]; cbn; [done|]. intros ?. done.
Qed.
End Migrations.

(** ** Opening *)

Definition opened (rows : list (PackageRef * Row)) (t : Table) : Prop :=
  current t ∧ (fun r => (ar_ref r, ar_row r)) <$> t_rows t = rows ∧
  Forall (fun r => stored_at (ar_row r) ≠ 0 → last_cve_check (ar_row r) ≠ 0 ∧ last_malware_check (ar_row r) ≠ 0) (t_rows t).

(** A filled row of a current table is what it stands for. *)
Lemma stands_for_itself t r :
  current t → cve_filled r ∧ malware_filled r → stands_for t r = (ar_ref r, ar_row r).
Proof.
  intros (Hc & Hl & Hv & Hm) [H1 H2]. unfold stands_for, the_ref, checked. rewrite Hc, Hv, Hm. f_equal.
  assert (∀ z s, (z = 0 → s = 0) → (if z =? 0 then s else z) = z) as Hz.
  { intros z s H. destruct (Z.eqb_spec z 0) as [->|]; auto. }
  rewrite (Hz _ _ H1), (Hz _ _ H2). by destruct (ar_row r).
Qed.

Lemma NewIndex_ok rows : step_ok rows (fun _ => True) NewIndex (table_is (opened rows)).
Proof.
  unfold NewIndex. eapply (seq_ok _ _ (fun _ => True)).
  { cbn [exec_all]. repeat (eapply (seq_ok _ _ (fun _ => True)); [apply exec_ok; by intros db db' Hk _ [= <-]|]). by intros db fs Hk _. }
  eapply seq_ok; [apply create_schema_ok|]. eapply seq_ok; [apply migrateClassifier_ok|]. unfold migrateCheckTimestamps.
  apply hasColumn_ok. intros b. eapply (seq_ok _ _ (table_is current)).
  { destruct b.
    - intros db fs Hk [(t & Ht & Hc) Hb]. rewrite Ht in Hb. split; [done|]. intros _. exists t. split; [done|].
      destruct (kept_table _ _ _ Hk Ht) as ((He & Hcl & _) & _ & _). split; [done|]. split; [by apply Hcl|]. split; congruence.
    - intros db fs Hk [(t & Ht & Hc) Hb]. rewrite Ht in Hb. apply addCheckTimestampColumns_ok; [done|]. by exists t. }
  eapply seq_ok; [apply backfill_cve_ok|].
  intros db fs Hk HP. destruct (backfill_malware_ok rows db fs Hk HP) as [Hkept H]. split; [exact Hkept|]. intros Hok.
  destruct (H Hok) as (t & Ht & Hcur & Hf). exists t. split; [done|]. destruct (kept_table _ _ _ Hkept Ht) as (_ & Hrows & _).
  split; [done|]. split.
  - rewrite <- Hrows. apply list_fmap_ext. intros i r Hi. symmetry. apply stands_for_itself; [done|].
    rewrite Forall_lookup in Hf. by apply (Hf i).
  - eapply Forall_impl; [exact Hf|]. intros r [H1 H2] Hs. unfold cve_filled, malware_filled in *. tauto.
Qed.

(** Nothing failing, a transaction whose steps SQLite accepts is committed. *)
Lemma transaction_runs stmts db db' : run_all stmts db = Some db' → transaction stmts (db, []) = (true, (db', [])).
Proof.
  intros H. assert (exec_all stmts (db, []) = (true, (db', []))) as He; [|unfold transaction; cbn [next_fault]; by rewrite He].
  revert db H. induction stmts as [|stmt stmts IH]; intros db H; cbn [run_all] in H; [by injection H as ->|].
  cbn [exec_all]. rewrite bind_st_run. unfold exec. rewrite bind_st_run. cbn [next_fault fst snd].
  destruct (stmt db) as [db2|]; [|done]. by apply IH.
Qed.

(** Nothing failing, a known database opens. *)
Lemma NewIndex_opens db : known_db db → (NewIndex (db, [])).1 = true.
Proof.
  intros [Hl Hk]. destruct db as [a l]. cbn in Hl. subst l. destruct a as [t|]; [|done].
  destruct (Hk t eq_refl) as (He & Hcl & Hn). destruct t as [c lv v m rs]. cbn in He, Hcl, Hn. subst m.
  destruct v.
  - destruct (Hcl eq_refl) as [-> ->]. done.
  - destruct c; [by destruct lv|].
    assert (migrateClassifier (mkDB (Some (mkTable false lv false false rs)) None, []) =
      (true, (mkDB (Some (mkTable true false true true (copied <$> rs))) None, []))) as Hm.
    { unfold migrateClassifier. rewrite bind_st_run. cbn [hasColumn bind_st next_fault fst snd db_artifacts has_classifier].
      apply transaction_runs. cbn. rewrite decide_True; [done|]. cbn. rewrite <- list_fmap_compose. exact Hn. }
    unfold NewIndex. cbn -[migrateClassifier]. unfold bind_st. rewrite Hm. done.
Qed.

(** C20: However many starts an index goes through and whatever fails in each, it
    stays one of the tables releases have made, holding the same rows: every
    reference, file and hit count, and as the times of its last checks those it
    had, else the time it was last validated, else the time it was stored.  A
    start that succeeds leaves the present columns with exactly these rows, no
    check at time zero; and a start in which nothing fails succeeds. *)
Theorem index_migrated l db :
  known_db db →
  known_db (starts l db).2 ∧ contents (starts l db).2 = contents db ∧
  (last (starts l db).1 = Some true → ∃ t, db_artifacts (starts l db).2 = Some t ∧ opened (contents db) t) ∧
  (last l = Some [] → last (starts l db).1 = Some true).
Proof.
  revert db. induction l as [|fs l IH]; intros db Hk; [done|]. cbn [starts].
  destruct (NewIndex_ok (contents db) db fs) as [[Hk' Hc] Hok]; [done|done|].
  assert (fs = [] → (NewIndex (db, fs)).1 = true) as Hsucc by (intros ->; by apply NewIndex_opens).
  destruct (NewIndex (db, fs)) as [ok [db' fs']]. cbn [fst snd] in *. destruct (IH db' Hk') as (H1 & H2 & H3 & H4). rewrite Hc in *.
  destruct (starts l db') as [oks db''] eqn:Hs. cbn [fst snd] in *. split; [done|]. split; [done|].
  destruct l as [|fs2 l].
  - injection Hs as <- <-. split; [intros [= ->]; by apply Hok|]. intros [= ->]. cbn. by rewrite Hsucc.
  - assert (oks ≠ []) as Hne by (intros ->; cbn [starts] in Hs; destruct (NewIndex (db', fs2)) as [? [? ?]], (starts l _); done).
    assert (last (ok :: oks) = last oks) as -> by by destruct oks.
    assert (last (fs :: fs2 :: l) = last (fs2 :: l)) as -> by done. done.
Qed.

(** A table from before the classifier and the check times: the first start
    fails at the commit of the rebuild, the second at the first backfill, the
    third opens it. *)
Definition ex_old_row (name : string) (stored : Z) : ARow :=
  mkARow (mkRef "maven" name "1.0" "") (mkRow ("/c/" +:+ name) true "null" stored 7 3 100 0 0) 0.

Definition ex_old_db : DB := mkDB (Some (mkTable false true false false [ex_old_row "a:b" 10; ex_old_row "a:c" 20])) None.

Definition ex_starts : list (list bool) := [replicate 11 false ++ [true]; replicate 14 false ++ [true]; []].

Lemma index_migrated_witness :
  (starts ex_starts ex_old_db).1 = [false; false; true] ∧
  contents (starts ex_starts ex_old_db).2 = contents ex_old_db ∧
  ∃ t, db_artifacts (starts ex_starts ex_old_db).2 = Some t ∧ opened (contents ex_old_db) t.
Proof.
  assert (known_db ex_old_db) as Hk.
  { split; [done|]. intros t [= <-]. split; [done|]. split; [done|]. apply (bool_decide_unpack _). vm_compute. exact I. }
  destruct (index_migrated ex_starts ex_old_db Hk) as (_ & Hc & H & Hl).
  split; [vm_compute; reflexivity|]. split; [exact Hc|]. apply H. by apply Hl.
Defined.
