(* ===== verification/CircuitBreaker.v ===== *)
(** * The upstream circuit breaker (internal/httpx/circuitbreaker.go)

    One [breakerState] per destination host, opened by an upstream 429 or 503
    and closed by the next success.  The clock readings, the random jitter and
    http.ParseTime are arguments. *)
From S2P Require Import Prelude GoStd.
Local Open Scope Z_scope.

Definition StatusTooManyRequests : Z := 429.
Definition StatusServiceUnavailable : Z := 503.

Record breakerState := mkBreaker {
  openUntil : Z;
  fails : Z;
  bs_status : Z;
}.

Record CircuitBreaker := mkCB {
  baseDelay : Z;
  maxDelay : Z;
  hosts : gmap string breakerState;
}.

(** The parts of an upstream response the breaker reads. *)
Record Response := mkResponse {
  StatusCode : Z;
  RetryAfter : string;   (* the Retry-After header, empty when absent *)
}.

Inductive breaker_error :=
| ErrCircuitOpen (host : string)
| ErrTransport (msg : string).

(** NewCircuitBreaker: no host is throttled. *)
Definition NewCircuitBreaker (base_delay max_delay : Z) : CircuitBreaker :=
  mkCB base_delay max_delay ∅.

Definition isOpen (c : CircuitBreaker) (now : Z) (host : string) : bool :=
  match hosts c !! host with
  | None => false
  | Some st => time_before now (openUntil st)
  end.

Definition OpenHosts (c : CircuitBreaker) (now : Z) : list string :=
  merge_sort String.le
    (fst <$> List.filter (fun p => time_before now (openUntil p.2)) (map_to_list (hosts c))).

(** (status, retryIn) when open. *)
Definition Throttle (c : CircuitBreaker) (now : Z) (host : string) : option (Z * Z) :=
  match hosts c !! host with
  | None => None
  | Some st =>
      let left := time_sub (openUntil st) now in
      if left <=? 0 then None else Some (bs_status st, left)
  end.

Section Breaker.
(** http.ParseTime. *)
Context (ParseTime : string -> option Z).

Definition parseRetryAfter (header : string) (now : Z) : option Z :=
  let header := TrimSpace header in
  if header =s? "" then None
  else
    let from_date :=
      match ParseTime header with
      | Some t => let d := time_sub t now in if 0 <? d then Some d else Some 0
      | None => None
      end in
    match ParseInt header with
    | Some secs => if 0 <=? secs then Some (dur_mul secs Second) else from_date
    | None => from_date
    end.

(** [now1] and [now2] are the two clock readings, [jit] the jitter. *)
Definition trip (host : string) (status : Z) (retryAfter : string) (now1 now2 jit : Z)
    (c : CircuitBreaker) : CircuitBreaker :=
  let st := default (mkBreaker 0 0 0) (hosts c !! host) in
  let fails' := fails st + 1 in
  let delay :=
    match parseRetryAfter retryAfter now1 with
    | Some d => dur_add d jit
    | None =>
        let shift := Z.min (fails' - 1) 16 in
        dur_add (dur_shl (baseDelay c) shift) jit
    end in
  let delay := if maxDelay c <? delay then maxDelay c else delay in
  let until := time_add now2 delay in
  let openUntil' := if time_after until (openUntil st) then until else openUntil st in
  mkCB (baseDelay c) (maxDelay c) (<[ host := mkBreaker openUntil' fails' status ]> (hosts c)).

Definition reset (host : string) (c : CircuitBreaker) : CircuitBreaker :=
  match hosts c !! host with
  | None => c
  | Some st => mkCB (baseDelay c) (maxDelay c) (<[ host := mkBreaker 0 0 (bs_status st) ]> (hosts c))
  end.

(** What jitter returns: 0 without a base delay, else any value in
    [0, baseDelay]. *)
Definition jitter_ok (c : CircuitBreaker) (jit : Z) : Prop :=
  if baseDelay c <=? 0 then jit = 0 else 0 ≤ jit ≤ baseDelay c.

(** [base] is what the wrapped transport answers; [None] in the second part
    of the result says it was not called. *)
Definition RoundTrip (host : string) (base : result string Response) (now0 now1 now2 jit : Z)
    : St CircuitBreaker (result breaker_error Response * bool) := fun c =>
  if isOpen c now0 host then ((Err (ErrCircuitOpen host), false), c)
  else match base with
  | Err e => ((Err (ErrTransport e), true), c)
  | Ok resp =>
      if (StatusCode resp =? StatusTooManyRequests) || (StatusCode resp =? StatusServiceUnavailable)
      then ((Ok resp, true), trip host (StatusCode resp) (RetryAfter resp) now1 now2 jit c)
      else ((Ok resp, true), reset host c)
  end.
End Breaker.

(** The Retry-After header value set for a wait of [d], if any. *)
Definition SetRetryAfter (d : Z) : option string :=
  if d <=? 0 then None
  else Some (FormatInt (Z.quot (wrap64 (d + Second - 1)) Second)).

(** * Properties *)

Lemma isOpen_Throttle c now host :
  isOpen c now host = true ↔ is_Some (Throttle c now host).
Proof.
  unfold isOpen, Throttle, time_before. destruct (hosts c !! host) as [st|]; [|split; [done|by intros []]].
  rewrite Z.ltb_lt. unfold time_sub, min_int64, max_int64.
  match goal with |- context [if ?x <=? 0 then _ else _] => destruct (Z.leb_spec x 0) end;
    split; [lia|by intros []|eauto|lia].
Qed.

(** the three observers of the breaker agree: a host fast-fails exactly
    when [Throttle] reports a status and a positive remaining time, and exactly
    when [OpenHosts] lists it. *)
Theorem breaker_observers c now host :
  (isOpen c now host = true ↔ is_Some (Throttle c now host)) ∧
  (isOpen c now host = true ↔ host ∈ OpenHosts c now) ∧
  (∀ status left, Throttle c now host = Some (status, left) → 0 < left ≤ max_int64).
Proof.
  split_and!; [apply isOpen_Throttle| |].
  - unfold OpenHosts. rewrite merge_sort_Permutation, list_elem_of_fmap. unfold isOpen. split.
    + destruct (hosts c !! host) as [st|] eqn:H; [|done]. intros Hb. exists (host, st).
      rewrite list_elem_of_In, filter_In, <- list_elem_of_In, elem_of_map_to_list. done.
    + intros ([h st] & -> & Hin).
      rewrite list_elem_of_In, filter_In, <- list_elem_of_In, elem_of_map_to_list in Hin.
      destruct Hin as [Hin Hb]; simpl. by rewrite Hin.
  - intros status left. unfold Throttle. destruct (hosts c !! host); [|done].
    match goal with |- context [if ?x <=? 0 then _ else _] => destruct (Z.leb_spec x 0) end; [done|].
    intros. simplify_eq. unfold time_sub, min_int64, max_int64 in *. lia.
Qed.

Section BreakerProps.
Context (ParseTime : string -> option Z).
Implicit Types (c : CircuitBreaker).

(** an open circuit spares the upstream: the request fails at once, the
    wrapped transport is not called and the breaker does not change. *)
Theorem open_fast_fails c host base now0 now1 now2 jit :
  isOpen c now0 host = true →
  RoundTrip ParseTime host base now0 now1 now2 jit c = ((Err (ErrCircuitOpen host), false), c).
Proof. unfold RoundTrip. by intros ->. Qed.

(** The cooldown of the n-th consecutive throttle without Retry-After. *)
Definition backoff c (n : Z) : Z := baseDelay c * 2 ^ Z.min n 16.

Lemma dur_shl_backoff c n :
  0 ≤ baseDelay c → 0 ≤ n → baseDelay c * 2 ^ 17 ≤ max_int64 →
  dur_shl (baseDelay c) (Z.min n 16) = backoff c n.
Proof.
  intros Hb Hn Hmax. unfold dur_shl, backoff. rewrite Z.shiftl_mul_pow2 by lia.
  apply wrap64_id. unfold in_int64, min_int64, max_int64 in *.
  assert (1 ≤ 2 ^ Z.min n 16 ≤ 2 ^ 16).
  { split; [apply (Z.pow_le_mono_r 2 0)|apply Z.pow_le_mono_r]; lia. }
  nia.
Qed.

Lemma backoff_bounds c n :
  0 ≤ baseDelay c → 0 ≤ n → baseDelay c ≤ backoff c n ≤ baseDelay c * 2 ^ 16.
Proof.
  intros Hb Hn. unfold backoff.
  assert (1 ≤ 2 ^ Z.min n 16 ≤ 2 ^ 16).
  { split; [apply (Z.pow_le_mono_r 2 0)|apply Z.pow_le_mono_r]; lia. }
  nia.
Qed.

(** the cooldown after a throttle without Retry-After is the exponential
    backoff plus at most one base delay, capped: right after the n-th
    consecutive throttle the host is open for at least the smaller of the
    backoff and the cap and for at most the cap (unless an earlier, longer
    cooldown still runs), for base delays up to max_int64 / 2^17 ns. *)
Theorem trip_backoff c host status header now1 now2 jit :
  parseRetryAfter ParseTime header now1 = None →
  0 < baseDelay c → baseDelay c * 2 ^ 17 ≤ max_int64 → 0 < maxDelay c ≤ max_int64 →
  jitter_ok c jit →
  let st := default (mkBreaker 0 0 0) (hosts c !! host) in
  0 ≤ fails st → 0 ≤ now2 →
  let c' := trip ParseTime host status header now1 now2 jit c in
  ∃ st', hosts c' !! host = Some st' ∧ fails st' = fails st + 1 ∧ bs_status st' = status ∧
    openUntil st ≤ openUntil st' ∧
    now2 + Z.min (backoff c (fails st)) (maxDelay c) ≤ openUntil st' ∧
    (openUntil st' ≤ now2 + maxDelay c ∨ openUntil st' = openUntil st) ∧
    isOpen c' now2 host = true.
Proof.
  intros Hp Hb Hov Hmax Hj st Hfails Hnow c'.
  unfold jitter_ok in Hj. destruct (Z.leb_spec (baseDelay c) 0) as [|_]; [lia|].
  pose proof (backoff_bounds c (fails st) ltac:(lia) Hfails) as Hbb.
  assert (dur_add (dur_shl (baseDelay c) (Z.min (fails st + 1 - 1) 16)) jit
          = backoff c (fails st) + jit) as Hd.
  { replace (fails st + 1 - 1) with (fails st) by lia.
    rewrite dur_shl_backoff by lia. unfold dur_add. apply wrap64_id.
    unfold in_int64, min_int64, max_int64 in *. lia. }
  unfold c', trip. rewrite Hp. fold st. rewrite Hd. simpl.
  eexists. rewrite lookup_insert_eq. split; [done|]; simpl.
  unfold isOpen, time_add, time_after, time_before; simpl. rewrite lookup_insert_eq; simpl.
  destruct (Z.ltb_spec (maxDelay c) (backoff c (fails st) + jit));
    match goal with |- context [if ?x <? ?y then _ else _] => destruct (Z.ltb_spec x y) end;
    rewrite ?Z.ltb_lt; split_and!; try done; lia.
Qed.

(** a success after the cooldown closes the circuit and forgets the
    streak, whatever the host's history. *)
Theorem success_closes c host resp now0 now1 now2 jit :
  isOpen c now0 host = false → 0 ≤ now0 →
  StatusCode resp ≠ StatusTooManyRequests → StatusCode resp ≠ StatusServiceUnavailable →
  let out := RoundTrip ParseTime host (Ok resp) now0 now1 now2 jit c in
  out.1 = (Ok resp, true) ∧
  (∀ now, 0 ≤ now → isOpen out.2 now host = false) ∧
  (∀ st, hosts out.2 !! host = Some st → fails st = 0) ∧
  (∀ other, other ≠ host → hosts out.2 !! other = hosts c !! other).
Proof.
  intros Hopen Hn0 H1 H2. unfold RoundTrip. rewrite Hopen.
  apply Z.eqb_neq in H1, H2. rewrite H1, H2; simpl.
  unfold reset. destruct (hosts c !! host) as [st|] eqn:Hst; simpl; unfold isOpen, time_before; simpl.
  - split_and!; [done| |..].
    + intros now Hnow. rewrite lookup_insert_eq; simpl. apply Z.ltb_ge. lia.
    + intros st'. rewrite lookup_insert_eq. intros. by simplify_eq.
    + intros other Hne. by rewrite lookup_insert_ne.
  - split_and!; [done| |..]; intros; by rewrite ?Hst in *.
Qed.

(** a Retry-After of 9223372037 seconds or a little more wraps to a
    negative Duration, so an upstream asking for the longest waits does not
    open the circuit at all: the next request goes straight out again. *)
Theorem retry_after_overflow c host status now jit secs header :
  TrimSpace header = header → ParseInt header = Some secs →
  9223372037 ≤ secs ≤ 13835058055 → hosts c !! host = None →
  0 ≤ jit ≤ 2 ^ 60 → 0 ≤ now →
  isOpen (trip ParseTime host status header now now jit c) now host = false.
Proof.
  intros Htr Hp Hs Hh Hj Hnow.
  assert (parseRetryAfter ParseTime header now = Some (secs * Second - 2 ^ 64)) as Hd.
  { unfold parseRetryAfter. rewrite Htr.
    destruct (String.eqb_spec header "") as [->|_]; [vm_compute in Hp; done|].
    rewrite Hp. destruct (Z.leb_spec 0 secs); [|lia].
    unfold dur_mul, wrap64, Second. f_equal.
    replace (secs * 1000000000 + 2 ^ 63) with (secs * 1000000000 - 2 ^ 63 + 1 * 2 ^ 64) by lia.
    rewrite Z.mod_add by lia. rewrite Z.mod_small; lia. }
  unfold trip. rewrite Hd, Hh; simpl.
  assert (dur_add (secs * Second - 2 ^ 64) jit = secs * Second - 2 ^ 64 + jit) as ->.
  { unfold dur_add. apply wrap64_id. unfold in_int64, min_int64, max_int64, Second. lia. }
  unfold isOpen; simpl. rewrite lookup_insert_eq; simpl.
  unfold time_before, time_after, time_add. apply Z.ltb_ge.
  assert (secs * Second - 2 ^ 64 + jit < 0) by (unfold Second; lia).
  repeat match goal with |- context [if ?x <? ?y then _ else _] => destruct (Z.ltb_spec x y) end; lia.
Qed.
End BreakerProps.

(** ** Witnesses *)

(** A breaker with one throttled host, and a date parser that knows no date. *)
Definition breaker_witness : CircuitBreaker :=
  mkCB Second (300 * Second) {[ "repo1.maven.org" := mkBreaker (1000 * Hour + 8 * Second) 4 429 ]}.

Definition no_date (_ : string) : option Z := None.

Lemma open_fast_fails_witness :
  RoundTrip no_date "repo1.maven.org" (Ok (mkResponse 200 "")) (1000 * Hour) 0 0 0 breaker_witness =
    ((Err (ErrCircuitOpen "repo1.maven.org"), false), breaker_witness).
Proof. apply open_fast_fails. vm_compute. reflexivity. Defined.

Lemma trip_backoff_witness :
  ∃ st', hosts (trip no_date "repo1.maven.org" 503 "soon" (2000 * Hour) (2000 * Hour) 7 breaker_witness)
           !! "repo1.maven.org" = Some st' ∧ fails st' = 5 ∧
         2000 * Hour + 16 * Second ≤ openUntil st'.
Proof.
  destruct (trip_backoff no_date breaker_witness "repo1.maven.org" 503 "soon" (2000 * Hour) (2000 * Hour) 7)
    as (st' & H1 & H2 & _ & _ & H3 & _);
    [vm_compute; try split; first [reflexivity | discriminate]..|].
  exists st'. split; [exact H1|]. split; [exact H2|]. exact H3.
Defined.

Lemma success_closes_witness :
  let out := RoundTrip no_date "repo1.maven.org" (Ok (mkResponse 200 "")) (2000 * Hour) 0 0 0 breaker_witness in
  out.1 = (Ok (mkResponse 200 ""), true) ∧ isOpen out.2 (2000 * Hour) "repo1.maven.org" = false.
Proof.
  destruct (success_closes no_date breaker_witness "repo1.maven.org" (mkResponse 200 "")
              (2000 * Hour) 0 0 0) as (H1 & H2 & _);
    [vm_compute; first [reflexivity | discriminate]..|].
  split; [exact H1|]. apply H2. vm_compute. discriminate.
Defined.

Lemma retry_after_overflow_witness :
  let c := NewCircuitBreaker Second (300 * Second) in
  isOpen (trip no_date "h" 429 "9999999999" (1000 * Hour) (1000 * Hour) 5 c) (1000 * Hour) "h" = false.
Proof.
  apply (retry_after_overflow no_date (NewCircuitBreaker Second (300 * Second)) "h" 429 (1000 * Hour) 5 9999999999);
    [vm_compute; try split; first [reflexivity | discriminate]..].
Defined.
