(* ===== verification/Upstream.v ===== *)
(** * Package upstream: the outcomes of a multi-mirror fetch (internal/upstream)

    [Attempts] is the ordered list of failed mirrors.  It is itself an error,
    so the errors of the proxy are modelled here: sentinels compared by
    identity, leaves, wraps and attempts, with errors.Is and errors.As walking
    them.  net/url's parser and printer are parameters. *)
From S2P Require Import Prelude GoStd.
Local Open Scope Z_scope.

(** ** Errors *)

(** The sentinel errors the modelled code compares against. *)
Inductive sentinel :=
| SErrCircuitOpen          (* httpx.ErrCircuitOpen *)
| SErrArtifactTooLarge     (* errArtifactTooLarge *)
| SErrNoUpstreams          (* errNoUpstreams *)
| SErrUnreadableBody       (* errUnreadableRequestBody *)
| SErrMetadataOversized    (* errMetadataOversized *)
| SErrMetadataEncoding     (* errMetadataEncoding *)
| SErrMetadataStatus       (* errMetadataStatus *)
| SErrManifestNotFound     (* errManifestNotFound *)
| SErrAttestationBlobRejected. (* errAttestationBlobRejected *)

#[export] Instance sentinel_eq_dec : EqDecision sentinel.
Proof. solve_decision. Defined.

Definition sentinel_text (s : sentinel) : string :=
  match s with
  | SErrCircuitOpen => "upstream throttled: circuit open"
  | SErrArtifactTooLarge => "artifact exceeds the size cap"
  | SErrNoUpstreams => "no upstream configured"
  | SErrUnreadableBody => "unreadable request body"
  | SErrMetadataOversized => "document exceeds server.metadata_filter_max_mb"
  | SErrMetadataEncoding => "document in a content-encoding the proxy cannot decode"
  | SErrMetadataStatus => "upstream status carries no document to rewrite"
  | SErrManifestNotFound => "manifest not found on any upstream"
  | SErrAttestationBlobRejected => "attestation blob rejected"
  end.

(** One mirror's outcome; [Status] is 0 without a response. *)
Record AttemptOf (E : Type) := mkAttempt {
  URL : string;
  Status : Z;
  AErr : option E;
  Duration : Z;
}.
Arguments mkAttempt {E}.
Arguments URL {E}.
Arguments Status {E}.
Arguments AErr {E}.
Arguments Duration {E}.

(** [EWrap m e n] is fmt.Errorf with a %w verb between the texts m and n,
    [EWrap2 m e n e' k] with two. *)
Inductive error :=
| ESentinel (s : sentinel)
| ENew (m : string)
| EWrap (m : string) (e : error) (n : string)
| EWrap2 (m : string) (e : error) (n : string) (e' : error) (k : string)
| EAttempts (l : list (AttemptOf error)).

Notation Attempt := (AttemptOf error).
Notation Attempts := (list (AttemptOf error)).

Fixpoint errors_Is (e : error) (target : sentinel) : bool :=
  match e with
  | ESentinel s => bool_decide (s = target)
  | ENew _ => false
  | EWrap _ e' _ => errors_Is e' target
  | EWrap2 _ e' _ e'' _ => errors_Is e' target || errors_Is e'' target
  | EAttempts l =>
      existsb (fun a => match AErr a with Some e' => errors_Is e' target | None => false end) l
  end.

(** errors.As with an Attempts target. *)
Fixpoint AttemptsFrom (e : error) : option Attempts :=
  match e with
  | EAttempts l => Some l
  | EWrap _ e' _ => AttemptsFrom e'
  | EWrap2 _ e' _ e'' _ =>
      match AttemptsFrom e' with Some l => Some l | None => AttemptsFrom e'' end
  | ESentinel _ | ENew _ => None
  end.

Definition join_strings (sep : string) (l : list string) : string :=
  match l with
  | [] => ""
  | s :: l' => foldl (fun acc t => acc +:+ sep +:+ t) s l'
  end.

(** The text of an error; an attempt list renders every mirror. *)
Fixpoint Error (e : error) : string :=
  match e with
  | ESentinel s => sentinel_text s
  | ENew m => m
  | EWrap m e' n => m +:+ Error e' +:+ n
  | EWrap2 m e' n e'' k => m +:+ Error e' +:+ n +:+ Error e'' +:+ k
  | EAttempts [] => "no upstream attempts were made"
  | EAttempts l =>
      "all " +:+ FormatInt (Z.of_nat (length l)) +:+ " upstreams failed: " +:+
      join_strings "; "
        (map (fun a => URL a +:+ ": " +:+
                (match AErr a with Some e' => Error e' | None => "unknown error" end)) l)
  end.

Definition Unwrap (a : Attempts) : list error := omap AErr a.

(** ** Classifying the outcomes *)

Definition StatusNotFound : Z := 404.
Definition StatusGone : Z := 410.

Definition not_found_status (s : Z) : bool := (s =? StatusNotFound) || (s =? StatusGone).

Definition AllNotFound (a : Attempts) : bool :=
  match a with
  | [] => false
  | _ => forallb (fun at_ => not_found_status (Status at_)) a
  end.

(** The parts of a net/url URL the sources touch. *)
Record url := mkURL {
  u_Scheme : string;
  u_User : option string;
  u_Host : string;
  u_Rest : string;
}.

Section Url.
(** url.Parse and the String method of URL. *)
Context (url_Parse : string -> option url) (url_String : url -> string).

Definition SanitizeURL (raw : string) : string :=
  match url_Parse raw with
  | None => raw
  | Some u =>
      match u_User u with
      | None => raw
      | Some _ => url_String (mkURL (u_Scheme u) None (u_Host u) (u_Rest u))
      end
  end.

Definition Add (rawURL : string) (status : Z) (err : option error) (d : Z) (a : Attempts) : Attempts :=
  a ++ [mkAttempt (SanitizeURL rawURL) status err d].

(** ThrottleLookup: host to (status, time left); [None] is a nil lookup. *)
Definition ThrottleLookup : Type := string -> option (Z * Z).

Definition is_circuit_open (e : option error) : bool :=
  match e with Some e => errors_Is e SErrCircuitOpen | None => false end.

(** The switch on an attempt that is not 404/410: its throttle status, or
    [None] for the default case. *)
Definition throttle_status (at_ : Attempt) : option Z :=
  let s := Status at_ in
  if (s =? 429) || (s =? 503) then Some s
  else if (s =? 0) && is_circuit_open (AErr at_) then Some 429
  else None.

(** What the lookup knows of the attempt's host. *)
Definition known (t : option ThrottleLookup) (at_ : Attempt) : option (Z * Z) :=
  match t with
  | None => None
  | Some t =>
      match url_Parse (URL at_) with
      | None => None
      | Some u => t (u_Host u)
      end
  end.

(** The loop of Throttled over (status, retryAfter, ok); [None] is the early
    return on an attempt that is neither absent nor throttled. *)
Fixpoint throttled_loop (t : option ThrottleLookup) (a : Attempts) (status retryAfter : Z) (ok : bool)
    : option (Z * Z * bool) :=
  match a with
  | [] => Some (status, retryAfter, ok)
  | at_ :: a' =>
      if not_found_status (Status at_) then throttled_loop t a' status retryAfter ok
      else
        match throttle_status at_ with
        | None => None
        | Some s =>
            let '(s, retryAfter) :=
              match known t at_ with
              | Some (ts, in_) =>
                  (if Status at_ =? 0 then ts else s,
                   if (0 <? in_) && ((retryAfter =? 0) || (in_ <? retryAfter)) then in_ else retryAfter)
              | None => (s, retryAfter)
              end in
            throttled_loop t a' (if negb (status =? 429) then s else status) retryAfter true
        end
  end.

(** (status, retryAfter) when throttled. *)
Definition Throttled (a : Attempts) (t : option ThrottleLookup) : option (Z * Z) :=
  match throttled_loop t a 0 0 false with
  | Some (status, retryAfter, true) => Some (status, retryAfter)
  | _ => None
  end.
End Url.

(** * Properties *)

(** A mirror that answered by throttling, or was spared by the breaker. *)
Definition throttled_attempt (at_ : Attempt) : bool :=
  (Status at_ =? 429) || (Status at_ =? 503) ||
  ((Status at_ =? 0) && is_circuit_open (AErr at_)).

Lemma throttled_not_found at_ : throttled_attempt at_ = true → not_found_status (Status at_) = false.
Proof.
  unfold throttled_attempt, not_found_status, StatusNotFound, StatusGone.
  rewrite !orb_true_iff, andb_true_iff, !Z.eqb_eq. intros H. apply orb_false_iff.
  rewrite !Z.eqb_neq. lia.
Qed.

Lemma throttle_status_spec at_ :
  match throttle_status at_ with
  | Some s => throttled_attempt at_ = true ∧ (s = 429 ∨ s = 503)
  | None => throttled_attempt at_ = false
  end.
Proof.
  unfold throttle_status, throttled_attempt.
  destruct ((Status at_ =? 429) || (Status at_ =? 503)) eqn:E; simpl.
  - apply orb_true_iff in E. rewrite !Z.eqb_eq in E. auto.
  - destruct (_ && _); auto.
Qed.

(** Running minimum of the known cooldowns; 0 means none known yet. *)
Definition min_retry (r : Z) (k : option (Z * Z)) : Z :=
  match k with
  | Some (_, in_) => if (0 <? in_) && ((r =? 0) || (in_ <? r)) then in_ else r
  | None => r
  end.

Section AttemptsProps.
Context (url_Parse : string -> option url).
Implicit Types (a : Attempts) (t : option ThrottleLookup).

(** A lookup reports the statuses the breaker trips on, and time left. *)
Definition lookup_ok t : Prop :=
  ∀ f host status left, t = Some f → f host = Some (status, left) →
    (status = 429 ∨ status = 503) ∧ 0 < left.

Lemma known_ok t x ts in_ :
  lookup_ok t → known url_Parse t x = Some (ts, in_) → (ts = 429 ∨ ts = 503) ∧ 0 < in_.
Proof.
  unfold known. destruct t as [f|]; [|done]. destruct (url_Parse (URL x)) as [u|]; [|done].
  intros Hl Hf. by eapply Hl.
Qed.

(** The accumulated status: none yet, or one of the two. *)
Definition status_ok (status : Z) (ok : bool) : Prop :=
  status = 429 ∨ status = 503 ∨ (status = 0 ∧ ok = false).

(** Every mirror answered that it lacks the artifact, or throttled. *)
Definition absent_or_throttled (x : Attempt) : Prop :=
  not_found_status (Status x) = true ∨ throttled_attempt x = true.

Lemma throttled_loop_None t a status retry ok :
  throttled_loop url_Parse t a status retry ok = None ↔ ¬ Forall absent_or_throttled a.
Proof.
  revert status retry ok. induction a as [|x a IH]; intros status retry ok; simpl.
  { split; [done|]. intros H. by destruct H. }
  rewrite Forall_cons. unfold absent_or_throttled at 1.
  destruct (not_found_status (Status x)) eqn:Hnf; [rewrite IH; naive_solver|].
  pose proof (throttle_status_spec x) as Hs. destruct (throttle_status x) as [s|].
  - destruct Hs as [Hs _]. rewrite Hs. destruct (known _ t x) as [[ts in_]|]; rewrite IH; naive_solver.
  - rewrite Hs. naive_solver.
Qed.

Lemma throttled_loop_Some t a status retry ok status' retry' ok' :
  throttled_loop url_Parse t a status retry ok = Some (status', retry', ok') →
  (ok' = true ↔ ok = true ∨ Exists (λ x, throttled_attempt x = true) a) ∧
  retry' = foldl (λ r x, min_retry r (known url_Parse t x)) retry (List.filter throttled_attempt a) ∧
  (lookup_ok t → status_ok status ok → status_ok status' ok').
Proof.
  revert status retry ok. induction a as [|x a IH]; intros status retry ok; simpl.
  { intros. simplify_eq. split_and!; [|done|done]. rewrite Exists_nil. tauto. }
  rewrite Exists_cons. destruct (not_found_status (Status x)) eqn:Hnf.
  - destruct (throttled_attempt x) eqn:Hth; [by rewrite throttled_not_found in Hnf|].
    intros (Hok & ? & ?)%IH. split_and!; [rewrite Hok; naive_solver|done..].
  - pose proof (throttle_status_spec x) as Hs. destruct (throttle_status x) as [s|]; [|done].
    destruct Hs as [-> Hs]. destruct (known _ t x) as [[ts in_]|] eqn:Hk;
      intros (Hok & -> & Hst)%IH; (split_and!; [rewrite Hok; tauto|simpl; by rewrite Hk|]);
      intros Hl Hstat; apply Hst; try done; unfold status_ok in *;
      destruct (Z.eqb_spec status 429); simpl; try tauto.
    pose proof (known_ok _ _ _ _ Hl Hk). destruct (Status x =? 0); tauto.
Qed.

Lemma Throttled_status a t status retry :
  lookup_ok t → Throttled url_Parse a t = Some (status, retry) → status = 429 ∨ status = 503.
Proof.
  unfold Throttled. destruct (throttled_loop _ _ _ _ _ _) as [[[s r] [|]]|] eqn:Hl; intros Hlk ?; simplify_eq.
  apply throttled_loop_Some in Hl as (_ & _ & Hst).
  destruct (Hst Hlk) as [?|[?|[_ ?]]]; [by right; right|tauto..|done].
Qed.

(** the answer to a fetch every mirror failed: throttled exactly when each
    mirror said not-found or throttled and at least one throttled - never
    together with all-not-found, which an empty list is not either - with
    status 429 or 503 and the shortest cooldown the breaker knows among the
    throttled mirrors. *)
Theorem Throttled_spec a t :
  (is_Some (Throttled url_Parse a t) ↔
     Forall absent_or_throttled a ∧ Exists (λ x, throttled_attempt x = true) a) ∧
  (AllNotFound a = true → Throttled url_Parse a t = None) ∧
  (AllNotFound a = true ↔ a ≠ [] ∧ Forall (λ x, Status x = 404 ∨ Status x = 410) a) ∧
  (∀ status retry, Throttled url_Parse a t = Some (status, retry) →
     (lookup_ok t → status = 429 ∨ status = 503) ∧
     retry = foldl (λ r x, min_retry r (known url_Parse t x)) 0 (List.filter throttled_attempt a)).
Proof.
  assert (AllNotFound a = true ↔ a ≠ [] ∧ Forall (λ x, Status x = 404 ∨ Status x = 410) a) as Hnf.
  { unfold AllNotFound. destruct a as [|x a]; [naive_solver|].
    rewrite forallb_elem, Forall_forall. unfold not_found_status.
    setoid_rewrite orb_true_iff. setoid_rewrite Z.eqb_eq. naive_solver. }
  assert (is_Some (Throttled url_Parse a t) ↔
    Forall absent_or_throttled a ∧ Exists (λ x, throttled_attempt x = true) a) as Hiff.
  { unfold Throttled. destruct (throttled_loop _ _ _ _ _ _) as [[[s r] ok]|] eqn:Hl.
    - assert (Forall absent_or_throttled a) as Hall.
      { destruct (decide (Forall absent_or_throttled a)) as [|H]; [done|].
        apply (throttled_loop_None t _ 0 0 false) in H. congruence. }
      apply throttled_loop_Some in Hl as (Hok & _ & _).
      destruct ok; naive_solver.
    - apply throttled_loop_None in Hl. split; [by intros []|tauto]. }
  split_and!; [done| |done|].
  - intros [_ Hall]%Hnf. destruct (Throttled url_Parse a t) eqn:Ht; [|done].
    destruct (proj1 Hiff (ex_intro _ _ eq_refl)) as [_ Hex]. exfalso.
    apply Exists_exists in Hex as (x & Hx & Hth). rewrite Forall_forall in Hall.
    apply throttled_not_found in Hth. unfold not_found_status in Hth.
    apply orb_false_iff in Hth. rewrite !Z.eqb_neq in Hth. destruct (Hall x Hx); tauto.
  - intros status retry. unfold Throttled.
    destruct (throttled_loop _ _ _ _ _ _) as [[[s r] [|]]|] eqn:Hl; intros; simplify_eq.
    split; [intros Hlk; eapply Throttled_status; [done|]; unfold Throttled; by rewrite Hl|].
    by apply throttled_loop_Some in Hl as (_ & -> & _).
Qed.
End AttemptsProps.
