(* ===== verification/HTTP.v ===== *)
(** * What the sources use of net/http

    Headers with their canonical keys, requests, the bodies of responses, and
    the outcomes of an HTTP client's call.  A header is a finite map: the order
    in which a Go map is ranged over is not observable in the code modelled. *)
From S2P Require Import Prelude GoStd.
Local Open Scope Z_scope.

(** ** Headers *)

(** A byte of an RFC 7230 token. *)
Definition token_byte (c : ascii) : bool :=
  let n := Z.of_N (N_of_ascii c) in
  ((48 <=? n) && (n <=? 57)) || ((65 <=? n) && (n <=? 90)) || ((97 <=? n) && (n <=? 122)) ||
  existsb (Ascii.eqb c) (to_bytes "!#$%&'*+-.^_`|~").

(** Upper case at the start and after a hyphen, lower case elsewhere. *)
Fixpoint canonical_bytes (upper : bool) (l : bytes) : bytes :=
  match l with
  | [] => []
  | c :: l' => (if upper then upper_byte c else lower_byte c) :: canonical_bytes (Ascii.eqb c "-"%char) l'
  end.

(** A key with a byte no token has is left as it is. *)
Definition CanonicalMIMEHeaderKey (k : string) : string :=
  if forallb token_byte (to_bytes k) then of_bytes (canonical_bytes true (to_bytes k)) else k.

Notation Header := (gmap string (list string)).

Definition Header_Values (h : Header) (k : string) : list string :=
  default [] (h !! CanonicalMIMEHeaderKey k).

Definition Header_Get (h : Header) (k : string) : string :=
  default "" (head (Header_Values h k)).

Definition Header_Set (k v : string) (h : Header) : Header := <[ CanonicalMIMEHeaderKey k := [v] ]> h.

Definition Header_Add (k v : string) (h : Header) : Header :=
  <[ CanonicalMIMEHeaderKey k := Header_Values h k ++ [v] ]> h.

Definition Header_Del (k : string) (h : Header) : Header := delete (CanonicalMIMEHeaderKey k) h.

(** Every key is canonical, as net/http's reader leaves a header. *)
Definition canonical_header (h : Header) : Prop :=
  ∀ k v, h !! k = Some v → CanonicalMIMEHeaderKey k = k.

(** ** Requests *)

(** [rq_ID] and [rq_Prefix] are the request identifier and the registry prefix
    the request's context carries, [""] for none; [rq_TLS] is whether the
    request came over TLS; [rq_Body] is [None] for a nil body and [Some None]
    for one that cannot be read to its end. *)
Record Request := mkRequest {
  rq_ID : string;
  rq_Prefix : string;
  rq_Method : string;
  rq_Path : string;
  rq_RawPath : string;
  rq_RawQuery : string;
  rq_Host : string;
  rq_RemoteAddr : string;
  rq_TLS : bool;
  rq_Header : Header;
  rq_Body : option (option bytes);
}.

Definition with_header (h : Header) (r : Request) : Request :=
  mkRequest (rq_ID r) (rq_Prefix r) (rq_Method r) (rq_Path r) (rq_RawPath r) (rq_RawQuery r) (rq_Host r)
    (rq_RemoteAddr r) (rq_TLS r) h (rq_Body r).

Definition with_id (id : string) (r : Request) : Request :=
  mkRequest id (rq_Prefix r) (rq_Method r) (rq_Path r) (rq_RawPath r) (rq_RawQuery r) (rq_Host r)
    (rq_RemoteAddr r) (rq_TLS r) (rq_Header r) (rq_Body r).

(** The request below a mux: its prefix in the context, its path the rest. *)
Definition with_prefix (prefix rest : string) (r : Request) : Request :=
  mkRequest (rq_ID r) prefix (rq_Method r) rest "" (rq_RawQuery r) (rq_Host r)
    (rq_RemoteAddr r) (rq_TLS r) (rq_Header r) (rq_Body r).

(** ** Responses *)

Inductive JSON :=
| JString (s : string)
| JStrings (l : list string)
| JTime (t : Z)
| JInt (z : Z)
| JBool (b : bool)
| JNull
| JFloat (bits : Z)
| JObject (fields : list (string * JSON))
| JArray (l : list (list (string * JSON)))
| JFindings (l : list (string * string * string * Z)).

(** [BStream data n]: [n] bytes of [data] reached the client before the copy
    ended; a complete copy has [n = length data]. *)
Inductive Body :=
| BNone
| BText (s : string)
| BJSON (fields : list (string * JSON))
| BArray (l : list (list (string * JSON)))
| BStream (data : bytes) (n : nat).

Record Response := mkResp {
  rs_Status : Z;
  rs_Header : Header;
  rs_Body : Body;
}.

(** http.Error (since Go 1.23): the headers that described the intended body go. *)
Definition http_Error_header (h : Header) : Header :=
  Header_Set "X-Content-Type-Options" "nosniff"
    (Header_Set "Content-Type" "text/plain; charset=utf-8"
      (Header_Del "Content-Length" h)).

Definition StatusOK : Z := 200.
Definition StatusNoContent : Z := 204.
Definition StatusNotModified : Z := 304.
Definition StatusBadRequest : Z := 400.
Definition StatusForbidden : Z := 403.
Definition StatusLocked : Z := 423.
Definition StatusInternalServerError : Z := 500.
Definition StatusBadGateway : Z := 502.
Definition StatusServiceUnavailable : Z := 503.

(** * Properties *)

Lemma upper_byte_idemp c : upper_byte (upper_byte c) = upper_byte c.
Proof. destruct c as [[] [] [] [] [] [] [] []]; reflexivity. Qed.

Lemma lower_byte_idemp c : lower_byte (lower_byte c) = lower_byte c.
Proof. destruct c as [[] [] [] [] [] [] [] []]; reflexivity. Qed.

Lemma upper_byte_hyphen c : Ascii.eqb (upper_byte c) "-" = Ascii.eqb c "-".
Proof. destruct c as [[] [] [] [] [] [] [] []]; reflexivity. Qed.

Lemma lower_byte_hyphen c : Ascii.eqb (lower_byte c) "-" = Ascii.eqb c "-".
Proof. destruct c as [[] [] [] [] [] [] [] []]; reflexivity. Qed.

Lemma token_byte_upper c : token_byte c = true → token_byte (upper_byte c) = true.
Proof. destruct c as [[] [] [] [] [] [] [] []]; vm_compute; done. Qed.

Lemma token_byte_lower c : token_byte c = true → token_byte (lower_byte c) = true.
Proof. destruct c as [[] [] [] [] [] [] [] []]; vm_compute; done. Qed.

Lemma canonical_bytes_idemp u l : canonical_bytes u (canonical_bytes u l) = canonical_bytes u l.
Proof.
  revert u. induction l as [|c l IH]; intros []; simpl; [done..| |];
    rewrite ?upper_byte_idemp, ?lower_byte_idemp, ?upper_byte_hyphen, ?lower_byte_hyphen, IH; done.
Qed.

Lemma canonical_bytes_token u l :
  forallb token_byte l = true → forallb token_byte (canonical_bytes u l) = true.
Proof.
  revert u. induction l as [|c l IH]; intros u; simpl; [done|]. rewrite !andb_true_iff. intros [Hc Hl].
  split; [destruct u; auto using token_byte_upper, token_byte_lower|auto].
Qed.

(** Canonical keys are their own canonical form. *)
Lemma canonical_idemp k :
  CanonicalMIMEHeaderKey (CanonicalMIMEHeaderKey k) = CanonicalMIMEHeaderKey k.
Proof.
  unfold CanonicalMIMEHeaderKey at 2 3. destruct (forallb token_byte (to_bytes k)) eqn:Hk.
  - unfold CanonicalMIMEHeaderKey. rewrite to_of_bytes, canonical_bytes_token by done.
    by rewrite canonical_bytes_idemp.
  - unfold CanonicalMIMEHeaderKey. by rewrite Hk.
Qed.

Lemma canonical_header_empty : canonical_header ∅.
Proof. intros k v. by rewrite lookup_empty. Qed.

Lemma canonical_header_insert k v h : canonical_header h → canonical_header (<[CanonicalMIMEHeaderKey k := v]> h).
Proof.
  intros Hh k' v'. rewrite lookup_insert_Some. intros [[<- _]|[_ ?]]; [apply canonical_idemp|by eapply Hh].
Qed.

Lemma canonical_header_Set k v h : canonical_header h → canonical_header (Header_Set k v h).
Proof. apply canonical_header_insert. Qed.

Lemma canonical_header_Add k v h : canonical_header h → canonical_header (Header_Add k v h).
Proof. apply canonical_header_insert. Qed.

Lemma canonical_header_Del k h : canonical_header h → canonical_header (Header_Del k h).
Proof. intros Hh k' v'. unfold Header_Del. rewrite lookup_delete_Some. intros [_ ?]. by eapply Hh. Qed.

#[export] Hint Resolve canonical_header_empty canonical_header_Set canonical_header_Add canonical_header_Del : joei.

Lemma Header_Values_Set k v h : Header_Values (Header_Set k v h) k = [v].
Proof. unfold Header_Values, Header_Set. by rewrite lookup_insert_eq. Qed.

Lemma Header_Get_Set k v h : Header_Get (Header_Set k v h) k = v.
Proof. unfold Header_Get. by rewrite Header_Values_Set. Qed.

Lemma Header_Get_Set_ne k k' v h :
  CanonicalMIMEHeaderKey k ≠ CanonicalMIMEHeaderKey k' → Header_Get (Header_Set k v h) k' = Header_Get h k'.
Proof. intros Hne. unfold Header_Get, Header_Values, Header_Set. by rewrite lookup_insert_ne. Qed.
