(* ===== verification/RateLimiter.v ===== *)
(** * Package httpx: the request rate per host (ratelimit.go)

    The token buckets, in float64; a reservation holds the mutex, so
    reservations are steps in the order they got it.  The timer a request then
    waits for is not modelled. *)
From S2P Require Import Prelude GoStd Float64.
Local Open Scope Z_scope.

Record tokenBucket := mkBucket {
  tokens : float64;
  tb_last : Z;
}.

Record RateLimiter := mkRateLimiter {
  rl_rate : float64;
  rl_burst : float64;
  buckets : gmap string tokenBucket;
}.

Definition NewRateLimiter (perSecond : float64) (burst : Z) : RateLimiter :=
  let b := f_of_Z burst in
  mkRateLimiter perSecond (if f_lt b (f_of_Z 1) then f_of_Z 1 else b) ∅.

(** A bucket after a reservation, and how long the request waits. *)
Definition reserve_bucket (rate burst : float64) (now : Z) (b : tokenBucket) : Z * tokenBucket :=
  let t := f_add (tokens b) (f_mul (f_seconds (time_sub now (tb_last b))) rate) in
  let t := if f_lt burst t then burst else t in
  let t := f_sub t (f_of_Z 1) in
  (if f_le (f_of_Z 0) t then 0 else f_to_int64 (f_mul (f_div (f_neg t) rate) (f_of_Z Second)), mkBucket t now).

Definition reserve (now : Z) (host : string) : St RateLimiter Z := fun l =>
  let b := default (mkBucket (rl_burst l) now) (buckets l !! host) in
  let '(wait, b) := reserve_bucket (rl_rate l) (rl_burst l) now b in
  (wait, mkRateLimiter (rl_rate l) (rl_burst l) (<[host := b]> (buckets l))).

(** How long a request waits before it goes out, unless it is cancelled
    meanwhile; without a positive rate none does. *)
Definition rate_wait (now : Z) (host : string) : St RateLimiter Z := fun l =>
  if f_le (rl_rate l) (f_of_Z 0) then (0, l)
  else let '(wait, l) := reserve now host l in (if 0 <? wait then wait else 0, l).

(** The waits of requests in the order they reserve. *)
Fixpoint rate_run (reqs : list (string * Z)) (l : RateLimiter) : list Z * RateLimiter :=
  match reqs with
  | [] => ([], l)
  | (host, now) :: reqs =>
      let '(wait, l) := rate_wait now host l in
      let '(waits, l) := rate_run reqs l in (wait :: waits, l)
  end.

(** The burst the command configures goes out at once; then ten requests a
    second, each with its own slot; an idle second refills ten. *)
Example ex_burst :
  (rate_run (replicate 23 ("h", Second) ++ [("g", Second); ("h", 2 * Second)]) (NewRateLimiter (f_of_Z 10) 20)).1 =
    replicate 20 0 ++ [100000000; 200000000; 300000000; 0; 0].
Proof. vm_compute. reflexivity. Qed.

(** * Hosts do not slow each other down *)

(** Two limiters that agree on a host. *)
Definition agree (host : string) (l l' : RateLimiter) : Prop :=
  rl_rate l = rl_rate l' ∧ rl_burst l = rl_burst l' ∧ buckets l !! host = buckets l' !! host.

Lemma rate_wait_agree now host l l' :
  agree host l l' → (rate_wait now host l).1 = (rate_wait now host l').1 ∧ agree host (rate_wait now host l).2 (rate_wait now host l').2.
Proof.
  intros (Hr & Hb & Hl). unfold rate_wait, reserve. rewrite <- Hr, <- Hb, <- Hl.
  destruct (f_le (rl_rate l) (f_of_Z 0)); [done|]. destruct (reserve_bucket _ _ _ _) as [wait b]. split; [done|].
  split; [done|]. split; [done|]. cbn. by rewrite !lookup_insert_eq.
Qed.

Lemma rate_wait_other now host host' l : host ≠ host' → agree host' (rate_wait now host l).2 l.
Proof.
  intros Hne. unfold rate_wait, reserve. destruct (f_le _ _); [done|]. destruct (reserve_bucket _ _ _ _) as [wait b].
  split; [done|]. split; [done|]. cbn. by rewrite lookup_insert_ne.
Qed.

Lemma agree_trans host l1 l2 l3 : agree host l1 l2 → agree host l2 l3 → agree host l1 l3.
Proof. intros (? & ? & ?) (? & ? & ?). split_and!; congruence. Qed.

Definition waits_of (host : string) (reqs : list (string * Z)) (waits : list Z) : list Z :=
  (zip reqs waits) ≫= fun rw => if rw.1.1 =s? host then [rw.2] else [].

(** The requests to a host wait exactly as long as if no other host had been
    asked. *)
Theorem hosts_isolated host reqs l :
  waits_of host reqs (rate_run reqs l).1 = (rate_run (filter (fun r => r.1 = host) reqs) l).1.
Proof.
  assert (∀ l l', agree host l l' → waits_of host reqs (rate_run reqs l).1 = (rate_run (filter (fun r => r.1 = host) reqs) l').1) as H;
    [|by apply H].
  induction reqs as [|[h now] reqs IH]; intros l1 l2 Hag; [done|]. cbn [rate_run]. rewrite filter_cons. cbn [fst].
  destruct (rate_wait now h l1) as [w1 l1'] eqn:E1. pose proof (IH l1') as IH1. destruct (rate_run reqs l1') as [ws1 l1''].
  unfold waits_of in *. cbn [fst snd zip zip_with mbind list_bind] in *. destruct (String.eqb_spec h host) as [->|Hne].
  - rewrite decide_True by done. cbn [rate_run]. destruct (rate_wait_agree now host l1 l2 Hag) as [Hw Hag'].
    rewrite E1 in Hw, Hag'. destruct (rate_wait now host l2) as [w2 l2']. cbn [fst snd] in Hw, Hag'. subst w2.
    specialize (IH1 l2' Hag'). destruct (rate_run (filter _ reqs) l2') as [ws2 l2'']. cbn [fst] in *. by rewrite <- IH1.
  - rewrite decide_False by done. cbn [app]. apply IH1. apply (agree_trans _ _ l1); [|done].
    pose proof (rate_wait_other now h host l1 Hne) as Ho. by rewrite E1 in Ho.
Qed.

(** A bucket never holds more than the burst before a request takes from it. *)
Lemma bucket_capped rate burst now b :
  ∃ t, f_lt burst t = false ∧ tokens (reserve_bucket rate burst now b).2 = f_sub t (f_of_Z 1).
Proof.
  unfold reserve_bucket. cbn [snd tokens]. set (t := f_add _ _). destruct (f_lt burst t) eqn:E.
  - exists burst. split; [apply f_lt_irrefl|done].
  - by exists t.
Qed.
