(* ===== verification/Handler.v ===== *)
(** * Package proxy: the gating handler (internal/proxy/handler.go)

    One request at a time, from its routing to its response.  The handler's
    state is the artifact cache (an instance of [ArtifactCache]), the response
    header under construction, the temporary files alive, and the trace of
    everything done so far: every call to a collaborator with its answer, every
    response written and every outcome recorded.  The collaborators' answers
    are drawn from an [Env], whose functions see the whole trace, so an answer
    may depend on anything that happened before. *)
From S2P Require Import Prelude GoStd Gate Upstream CircuitBreaker HTTP.
Local Open Scope Z_scope.

(** ** What the handler is configured with *)

Record MetadataRef := mkMetadataRef {
  mr_Ecosystem : string;
  mr_Name : string;
  mr_Version : string;
}.

Record IndexRewrite := mkIndexRewrite {
  ir_Body : bytes;
  ir_Rewritten : Z;
  ir_Dropped : list string;
}.

(** The outcome of FilterVersions. *)
Record FilteredDocument := mkFiltered {
  fd_Body : bytes;
  fd_Removed : list string;
  fd_Unmappable : list string;
  fd_AllRejected : bool;
}.

(** A registry adapter: its required methods, and the optional capabilities it
    may also implement.  FetchMetadata goes to the network and is in [Env].  A
    VersionDecider has the undated counter it updates as a state. *)
Record RegistryAdapter := mkAdapter {
  NormalizeRequest : Request -> option PackageRef;
  UpstreamURLs : Request -> list string;
  IsArtifactPath : option (Request -> bool);
  IsIndexRequest : option (Request -> bool);
  RewriteIndex : bytes -> string -> string -> option IndexRewrite;
  NormalizeMetadataRequest : option (Request -> option MetadataRef);
  FilterVersions : ∀ S, bytes -> MetadataRef -> (string -> Z -> St S bool) -> string ->
                   St S (option FilteredDocument);
  MetadataFromHeader : option (Header -> PackageMetadata);
}.

(** The optional collaborators are flags: set, they answer through [Env]. *)
Record HandlerConfig := mkHandlerConfig {
  cfg_Adapter : RegistryAdapter;
  cfg_CVEScanner : bool;
  cfg_Policy : bool;
  cfg_AVScanner : bool;
  cfg_Recorder : bool;
  CVERecheckTTL : Z;
  MalwareRecheckTTL : Z;
  MetadataFilterMaxMB : Z;
  IndexMaxMB : Z;
  MaxArtifactBytes : Z;
}.

Definition hopByHopHeaders : list string :=
  ["Connection"; "Keep-Alive"; "Proxy-Authenticate"; "Proxy-Authorization";
   "TE"; "Trailer"; "Transfer-Encoding"; "Upgrade"].

(** ** What happens *)

(** [ro_gate] says which of the two details is meaningful. *)
Record recheckOutcome := mkRecheck {
  ro_gate : string;
  ro_blockedBy : string;
  ro_decision : PolicyDecision;
  ro_av : AVResult;
}.

(** One coalesced upstream document; [None] for a 204. *)
Record metadataFetch := mkFetch {
  mf_doc : option bytes;
  mf_header : Header;
  mf_status : Z;
}.

Record docResult := mkDocResult {
  dr_fetch : option metadataFetch;
  dr_atts : Attempts;
  dr_err : option error;
}.

Record OutRequest := mkOut {
  out_Method : string;
  out_URL : string;
  out_Header : Header;
  out_Body : bytes;
}.

(** http.NewRequest failing on the URL, the client's Do failing, or an answer:
    status, header, the declared length (-1 for none), the bytes that can be
    read, and whether reading ends in an error rather than at the end. *)
Inductive DoResult :=
| ReqErr (e : error)
| DoErr (e : error)
| DoResp (status : Z) (header : Header) (contentLength : Z) (body : bytes) (bodyErr : bool).

Inductive Call :=
| CClock (t : Z)
| CUUID (id : string)
| CGet (ref : PackageRef) (e : option ArtifactEntry)
| CMetadata (ref : PackageRef) (r : result error PackageMetadata)
| CFilter (ref : PackageRef) (meta : PackageMetadata) (r : FilterResult)
| CCVEScan (ref : PackageRef) (r : option ScanResult)
| CPolicy (ref : PackageRef) (sr : ScanResult) (d : PolicyDecision)
| CDo (out : OutRequest) (r : DoResult)
| CCreateTemp (ok : bool)
| CWriteTemp (data : bytes) (ok : bool)
| CRemoveTemp
| CThrottles
| CAVScan (data : option bytes) (r : option AVResult)
| CPut (ref : PackageRef) (data : bytes) (clean : bool) (ok : bool)
| CInvalidate (ref : PackageRef) (ok : bool)
| CMarkCVE (ref : PackageRef) (ts : Z) (ok : bool)
| CMarkMalware (ref : PackageRef) (ts : Z) (ok : bool)
| COpen (path : string) (d : option bytes)
| CStat (ok : bool)
| CCopied (n : nat)
| CFlight (key : string) (joined : bool)
| CDocFlight (key : string) (joined : option docResult)
| COutcome (ev : Event)
| CRecord (ev : Event)
| CRespond (resp : Response).

(** The world outside: each function sees the trace so far.
    [env_Flight] is [Some out] when the request joins a flight already running
    for the key, whose outcome is [out], [env_DocFlight] the same for metadata
    documents; [env_Copied] the number of bytes that
    reach the client before a write fails or the copy is complete. *)
Record Env := mkEnv {
  env_Now : list Call -> Z;
  env_NewUUID : list Call -> string;
  env_FetchMetadata : list Call -> PackageRef -> result error PackageMetadata;
  env_Filter : list Call -> PackageRef -> PackageMetadata -> FilterResult;
  env_CVEScan : list Call -> PackageRef -> option ScanResult;
  env_Policy : list Call -> PackageRef -> ScanResult -> PolicyDecision;
  env_AVScan : list Call -> option bytes -> option AVResult;
  env_Do : list Call -> OutRequest -> DoResult;
  env_CreateTempOk : list Call -> bool;
  env_WriteTempOk : list Call -> bytes -> bool;
  env_StatOk : list Call -> bool;
  env_Copied : list Call -> bytes -> nat;
  env_Flight : list Call -> string -> option (option recheckOutcome);
  env_DocFlight : list Call -> string -> option docResult;
  env_Throttles : list Call -> option ThrottleLookup;
}.

Record World (C : Type) := mkWorld {
  w_cache : C;
  w_trace : list Call;
  w_header : Header;
  w_temps : Z;
}.
Arguments mkWorld {C}.
Arguments w_cache {C}.
Arguments w_trace {C}.
Arguments w_header {C}.
Arguments w_temps {C}.

Section Handler.
Context {C : Type} {AC : ArtifactCache C}.
Context (url_Parse : string -> option url) (url_String : url -> string).
Context (env : Env) (cfg : HandlerConfig).

Local Notation M := (St (World C)).
Implicit Types (ref : PackageRef) (w : World C).

(** ** Primitive steps *)

Definition log_call (c : Call) : M unit := fun w =>
  (tt, mkWorld (w_cache w) (w_trace w ++ [c]) (w_header w) (w_temps w)).

(** Ask the environment and log its answer. *)
Definition ask {A} (q : list Call -> A) (mk : A -> Call) : M A := fun w =>
  let a := q (w_trace w) in
  (a, mkWorld (w_cache w) (w_trace w ++ [mk a]) (w_header w) (w_temps w)).

(** Run an operation of the cache and log its answer. *)
Definition on_cache {A} (m : St C A) (mk : A -> Call) : M A := fun w =>
  let (a, c') := m (w_cache w) in
  (a, mkWorld c' (w_trace w ++ [mk a]) (w_header w) (w_temps w)).

Definition header_set (k v : string) : M unit := fun w =>
  (tt, mkWorld (w_cache w) (w_trace w) (Header_Set k v (w_header w)) (w_temps w)).
Definition header_map (f : Header -> Header) : M unit := fun w =>
  (tt, mkWorld (w_cache w) (w_trace w) (f (w_header w)) (w_temps w)).
Definition add_temp (d : Z) : M unit := fun w =>
  (tt, mkWorld (w_cache w) (w_trace w) (w_header w) (w_temps w + d)).

Definition time_Now : M Z := ask (env_Now env) CClock.

Definition Cache_Get ref : M (option ArtifactEntry) :=
  now <- time_Now;;
  on_cache (cache_Get now ref) (CGet ref).

(** WriteHeader and the body: the response leaves with the header as it is. *)
Definition respond (status : Z) (body : Body) : M unit := fun w =>
  log_call (CRespond (mkResp status (w_header w) body)) w.

Definition http_Error (msg : string) (status : Z) : M unit :=
  _ <- header_map http_Error_header;;
  respond status (BText (msg +:+ String "010"%char "")).

Definition w_SetRetryAfter (d : Z) : M unit :=
  match SetRetryAfter d with
  | Some v => header_set "Retry-After" v
  | None => ret_st tt
  end.

(** ** Responses of the gates *)

Definition writeJSON (status : Z) (body : list (string * JSON)) : M unit :=
  _ <- header_set "Content-Type" "application/json";;
  respond status (BJSON body).

Definition writeBlockedResponse (requestID : string) ref (sc : FilterResult) : M unit :=
  let body :=
    [("error", JString "package_blocked"); ("package", JString (Name ref));
     ("version", JString (Version ref)); ("reason", JString (fr_Reason sc));
     ("blocked_by", JStrings ["supply_chain_filter"]); ("request_id", JString requestID)] ++
    (if negb (time_is_zero (fr_PublishedAt sc)) then [("published_at", JTime (fr_PublishedAt sc))] else []) ++
    (if negb (time_is_zero (fr_BlockUntil sc)) then [("block_until", JTime (fr_BlockUntil sc))] else []) in
  writeJSON StatusLocked body.

Definition writeError (requestID : string) ref (status : Z) (reason : string) : M unit :=
  writeJSON status
    [("error", JString "proxy_error"); ("reason", JString reason); ("request_id", JString requestID);
     ("package", JString (Name ref)); ("version", JString (Version ref))].

Definition writeMalwareBlockedResponse (requestID : string) ref (engine signature : string) : M unit :=
  writeJSON StatusForbidden
    [("error", JString "package_blocked"); ("package", JString (Name ref));
     ("version", JString (Version ref)); ("reason", JString "malware_found");
     ("engine", JString engine); ("signature", JString signature);
     ("blocked_by", JStrings ["malware_scanner"]); ("request_id", JString requestID)].

Definition writeCVEBlockedResponse (requestID : string) ref (d : PolicyDecision) : M unit :=
  let cves := map (fun f => (cf_ID f, Severity_String (cf_Severity f), cf_Summary f, cf_Score f))
                (pd_Findings d) in
  writeJSON StatusForbidden
    [("error", JString "package_blocked"); ("package", JString (Name ref));
     ("version", JString (Version ref)); ("reason", JString (pd_Reason d));
     ("cves", JFindings cves); ("blocked_by", JStrings ["cve_scanner"]); ("request_id", JString requestID)].

(** ** The outcome of a request *)

Definition record (requestID : string) ref (start : Z) (verdict : Verdict) (gateName reason : string)
    (status : Z) (mod_ : Event -> Event) : M unit :=
  now <- time_Now;;
  now' <- time_Now;;
  let ev := mod_ (mkEvent requestID now (Ecosystem ref) (Name ref) (Version ref) verdict gateName
                   (Z.quot (time_sub now' start) Millisecond) status reason [] [] "" "" 0 0) in
  _ <- log_call (COutcome ev);;
  if cfg_Recorder cfg then log_call (CRecord ev) else ret_st tt.

Definition no_mod (ev : Event) : Event := ev.

Definition with_blocked_by (by_ : list string) (ev : Event) : Event :=
  mkEvent (ev_RequestID ev) (ev_Time ev) (ev_Ecosystem ev) (ev_Package ev) (ev_Version ev)
    (ev_Verdict ev) (ev_Gate ev) (ev_LatencyMS ev) (ev_HTTPStatus ev) (ev_Reason ev) by_
    (ev_CVEs ev) (ev_MalwareEngine ev) (ev_MalwareSignature ev) (ev_PublishedAt ev) (ev_BlockUntil ev).
Definition with_cves (fs : list CVEFinding) (ev : Event) : Event :=
  mkEvent (ev_RequestID ev) (ev_Time ev) (ev_Ecosystem ev) (ev_Package ev) (ev_Version ev)
    (ev_Verdict ev) (ev_Gate ev) (ev_LatencyMS ev) (ev_HTTPStatus ev) (ev_Reason ev) (ev_BlockedBy ev)
    fs (ev_MalwareEngine ev) (ev_MalwareSignature ev) (ev_PublishedAt ev) (ev_BlockUntil ev).
Definition with_malware (engine signature : string) (ev : Event) : Event :=
  mkEvent (ev_RequestID ev) (ev_Time ev) (ev_Ecosystem ev) (ev_Package ev) (ev_Version ev)
    (ev_Verdict ev) (ev_Gate ev) (ev_LatencyMS ev) (ev_HTTPStatus ev) (ev_Reason ev) (ev_BlockedBy ev)
    (ev_CVEs ev) engine signature (ev_PublishedAt ev) (ev_BlockUntil ev).
Definition with_dates (published until_ : Z) (ev : Event) : Event :=
  mkEvent (ev_RequestID ev) (ev_Time ev) (ev_Ecosystem ev) (ev_Package ev) (ev_Version ev)
    (ev_Verdict ev) (ev_Gate ev) (ev_LatencyMS ev) (ev_HTTPStatus ev) (ev_Reason ev) (ev_BlockedBy ev)
    (ev_CVEs ev) (ev_MalwareEngine ev) (ev_MalwareSignature ev) published until_.

Definition recorder : Type := Verdict -> string -> string -> Z -> (Event -> Event) -> M unit.

Definition blockedBy (decision : PolicyDecision) : string :=
  if pd_Reason decision =s? ReasonDenylisted then "denylist" else "cve".

(** ** Downloading *)

Definition remove_temp : M unit :=
  _ <- log_call CRemoveTemp;;
  add_temp (-1).

(** What io.Copy reads of the body, and whether it reads an error: through a
    LimitReader of one byte more than the cap, when there is one. *)
Definition limited_body (body : bytes) (bodyErr : bool) : bytes * bool :=
  if 0 <? MaxArtifactBytes cfg then
    let limit := wrap64 (MaxArtifactBytes cfg + 1) in
    if limit <=? 0 then ([], false)
    else if limit <=? Z.of_nat (length body) then (take (Z.to_nat limit) body, false)
    else (body, bodyErr)
  else (body, bodyErr).

Definition http_Do (out : OutRequest) : M DoResult := ask (fun tr => env_Do env tr out) (CDo out).

(** The contents of the temporary file, the response header and status. *)
Definition tryDownload (u : string) : M (result error bytes * Header * Z) :=
  res <- http_Do (mkOut "GET" u ∅ []);;
  match res with
  | ReqErr e => ret_st (Err e, ∅, 0)
  | DoErr e =>
      ret_st (Err (EWrap ("downloading " +:+ SanitizeURL url_Parse url_String u +:+ ": ") e ""), ∅, 0)
  | DoResp status header contentLength body bodyErr =>
      if negb (status =? StatusOK) then
        ret_st (Err (ENew ("upstream returned HTTP " +:+ FormatInt status +:+ " for " +:+
                           SanitizeURL url_Parse url_String u)), header, status)
      else if (0 <? MaxArtifactBytes cfg) && (MaxArtifactBytes cfg <? contentLength) then
        ret_st (Err (EWrap "" (ESentinel SErrArtifactTooLarge) (": " +:+ FormatInt contentLength +:+ " bytes")),
                header, status)
      else
        created <- ask (env_CreateTempOk env) CCreateTemp;;
        if negb created then
          ret_st (Err (EWrap "creating temp file: " (ENew "create") ""), header, status)
        else
          _ <- add_temp 1;;
          let '(data, readErr) := limited_body body bodyErr in
          wrote <- ask (fun tr => env_WriteTempOk env tr data) (CWriteTemp data);;
          if readErr || negb wrote then
            _ <- remove_temp;;
            ret_st (Err (EWrap "writing temp file: " (ENew "copy") ""), header, status)
          else if (0 <? MaxArtifactBytes cfg) && (MaxArtifactBytes cfg <? Z.of_nat (length data)) then
            _ <- remove_temp;;
            ret_st (Err (EWrap "" (ESentinel SErrArtifactTooLarge)
                           (": over " +:+ FormatInt (MaxArtifactBytes cfg) +:+ " bytes")), header, status)
          else ret_st (Ok data, header, status)
  end.

Definition add_attempt (u : string) (status : Z) (e : error) (d : Z) (atts : Attempts) : Attempts :=
  Add url_Parse url_String u status (Some e) d atts.

Fixpoint downloadFromUpstreams (urls : list string) (atts : Attempts)
    : M (result error (bytes * Header) * Attempts) :=
  match urls with
  | [] => ret_st (Err (EAttempts atts), atts)
  | u :: urls' =>
      start <- time_Now;;
      res <- tryDownload u;;
      let '(r, hdr, status) := res in
      match r with
      | Ok data => ret_st (Ok (data, hdr), atts)
      | Err derr =>
          if errors_Is derr SErrArtifactTooLarge then ret_st (Err derr, atts)
          else
            now <- time_Now;;
            downloadFromUpstreams urls' (add_attempt u status derr (time_sub now start) atts)
      end
  end.

(** atts.Throttled(h.cfg.Throttles), whose lookup reads the breaker. *)
Definition atts_Throttled (atts : Attempts) : M (option (Z * Z)) :=
  t <- ask (env_Throttles env) (fun _ => CThrottles);;
  ret_st (Throttled url_Parse atts t).

(** ** Serving from the cache *)

Definition open_artifact (path : string) : M (option bytes) := on_cache (cache_Open path) (COpen path).

(** [false] when the artifact cannot be opened. *)
Definition serveFromCache (entry : ArtifactEntry) : M bool :=
  f <- open_artifact (ae_ArtifactPath entry);;
  match f with
  | None =>
      _ <- http_Error "cache read error" StatusInternalServerError;;
      ret_st false
  | Some data =>
      _ <- header_set "Content-Type" "application/octet-stream";;
      _ <- header_set "X-Joei-Cache" "HIT";;
      st <- ask (env_StatOk env) CStat;;
      _ <- (if st then header_set "Content-Length" (FormatInt (Z.of_nat (length data))) else ret_st tt);;
      n <- ask (fun tr => Nat.min (env_Copied env tr data) (length data)) CCopied;;
      _ <- respond StatusOK (BStream data n);;
      ret_st true
  end.

(** ** Re-checks of a cached entry *)

Definition cve_due (now : Z) (entry : ArtifactEntry) : bool :=
  (0 <? CVERecheckTTL cfg) && cfg_CVEScanner cfg && cfg_Policy cfg &&
  (CVERecheckTTL cfg <? time_sub now (ae_LastCVECheck entry)).

Definition malware_due (now : Z) (entry : ArtifactEntry) : bool :=
  (0 <? MalwareRecheckTTL cfg) && cfg_AVScanner cfg &&
  (MalwareRecheckTTL cfg <? time_sub now (ae_LastMalwareCheck entry)).

Definition recheckDue (entry : ArtifactEntry) : M bool :=
  now <- time_Now;;
  ret_st (cve_due now entry || malware_due now entry).

Definition evictRechecked ref : M unit :=
  _ <- on_cache (cache_Invalidate ref) (CInvalidate ref);;
  ret_st tt.

Definition cve_Scan ref : M (option ScanResult) := ask (fun tr => env_CVEScan env tr ref) (CCVEScan ref).
Definition policy_Evaluate ref (sr : ScanResult) : M PolicyDecision :=
  ask (fun tr => env_Policy env tr ref sr) (CPolicy ref sr).
Definition av_Scan (data : option bytes) : M (option AVResult) :=
  ask (fun tr => env_AVScan env tr data) (CAVScan data).

Definition no_decision : PolicyDecision := mkDecision false "" [].
Definition no_av : AVResult := mkAV false "" "" false.

(** The first half of runRechecks: the CVE gate. *)
Definition recheck_cve (now : Z) ref (entry : ArtifactEntry) : M (option recheckOutcome) :=
  if cve_due now entry then
    res <- cve_Scan ref;;
    match res with
    | None => ret_st None
    | Some res =>
        decision <- policy_Evaluate ref res;;
        if negb (pd_Allowed decision) then
          _ <- evictRechecked ref;;
          ret_st (Some (mkRecheck GateCVE (blockedBy decision) decision no_av))
        else
          _ <- on_cache (cache_MarkCVEChecked ref now) (CMarkCVE ref now);;
          ret_st None
    end
  else ret_st None.

(** The second half: the malware gate on the cached file. *)
Definition recheck_malware (now : Z) ref (entry : ArtifactEntry) : M (option recheckOutcome) :=
  if malware_due now entry then
    data <- open_artifact (ae_ArtifactPath entry);;
    res <- av_Scan data;;
    match res with
    | None => ret_st None
    | Some res =>
        if av_Incomplete res then ret_st None
        else if negb (av_Clean res) then
          _ <- evictRechecked ref;;
          ret_st (Some (mkRecheck GateMalware "malware" no_decision res))
        else
          _ <- on_cache (cache_MarkMalwareChecked ref now) (CMarkMalware ref now);;
          ret_st None
    end
  else ret_st None.

Definition runRechecks ref (entry : ArtifactEntry) : M (option recheckOutcome) :=
  now <- time_Now;;
  out <- recheck_cve now ref entry;;
  match out with
  | Some out => ret_st (Some out)
  | None => recheck_malware now ref entry
  end.

(** [true] when the entry was blocked and the response is written. *)
Definition recheckExpired (requestID : string) ref (entry : ArtifactEntry) (rec : recorder) : M bool :=
  due <- recheckDue entry;;
  if negb due then ret_st false
  else
    fl <- ask (fun tr => env_Flight env tr (Key ref)) (fun fl => CFlight (Key ref) (bool_decide (is_Some fl)));;
    out <- (match fl with Some out => ret_st out | None => runRechecks ref entry end);;
    match out with
    | None => ret_st false
    | Some out =>
        _ <- (if ro_gate out =s? GateCVE then
                _ <- rec VerdictBlock GateCVE (pd_Reason (ro_decision out)) StatusForbidden
                       (fun ev => with_cves (pd_Findings (ro_decision out)) (with_blocked_by [ro_blockedBy out] ev));;
                writeCVEBlockedResponse requestID ref (ro_decision out)
              else if ro_gate out =s? GateMalware then
                _ <- rec VerdictBlock GateMalware "malware_found" StatusForbidden
                       (fun ev => with_malware (av_Engine (ro_av out)) (av_Signature (ro_av out))
                                    (with_blocked_by ["malware"] ev));;
                writeMalwareBlockedResponse requestID ref (av_Engine (ro_av out)) (av_Signature (ro_av out))
              else ret_st tt);;
        ret_st true
    end.

(** ** An intercepted download *)

(** A stage that ends the request answers [None] or [false]. *)
Definition no_filter_result : FilterResult := mkFilterResult false "" 0 0.

Definition checkSupplyChain (requestID : string) ref (rec : recorder) (meta : PackageMetadata)
    : M (option FilterResult) :=
  scResult <- ask (fun tr => env_Filter env tr ref meta) (CFilter ref meta);;
  if negb (fr_Allowed scResult) then
    _ <- rec VerdictBlock GateSupply (fr_Reason scResult) StatusLocked
           (fun ev => with_dates (fr_PublishedAt scResult) (fr_BlockUntil scResult)
                        (with_blocked_by ["supply_chain"] ev));;
    _ <- writeBlockedResponse requestID ref scResult;;
    ret_st None
  else ret_st (Some scResult).

Definition fetchMetadata ref : M (result error PackageMetadata) :=
  ask (fun tr => env_FetchMetadata env tr ref) (CMetadata ref).

(** Supply-chain check up front, unless the adapter defers it. *)
Definition supply_stage (requestID : string) ref (rec : recorder) : M (option FilterResult) :=
  match MetadataFromHeader (cfg_Adapter cfg) with
  | Some _ => ret_st (Some no_filter_result)
  | None =>
      meta <- fetchMetadata ref;;
      match meta with
      | Err err =>
          th <- atts_Throttled (default [] (AttemptsFrom err));;
          match th with
          | Some (status, retry) =>
              if bool_decide (is_Some (AttemptsFrom err)) then
                _ <- rec VerdictError GateSupply "upstream_throttled" status no_mod;;
                _ <- w_SetRetryAfter retry;;
                _ <- writeError requestID ref status "upstream_throttled";;
                ret_st None
              else
                _ <- rec VerdictError GateSupply "upstream_metadata_unavailable" StatusBadGateway no_mod;;
                _ <- writeError requestID ref StatusBadGateway "upstream_metadata_unavailable";;
                ret_st None
          | None =>
              _ <- rec VerdictError GateSupply "upstream_metadata_unavailable" StatusBadGateway no_mod;;
              _ <- writeError requestID ref StatusBadGateway "upstream_metadata_unavailable";;
              ret_st None
          end
      | Ok meta => checkSupplyChain requestID ref rec meta
      end
  end.

(** CVE scan and policy, before the download; fail-closed. *)
Definition cve_stage (requestID : string) ref (rec : recorder) : M bool :=
  if cfg_CVEScanner cfg then
    scanResult <- cve_Scan ref;;
    match scanResult with
    | None =>
        _ <- rec VerdictError GateCVE "cve_scan_error" StatusServiceUnavailable no_mod;;
        _ <- writeError requestID ref StatusServiceUnavailable "cve_scan_error";;
        ret_st false
    | Some scanResult =>
        if cfg_Policy cfg then
          decision <- policy_Evaluate ref scanResult;;
          if negb (pd_Allowed decision) then
            _ <- rec VerdictBlock GateCVE (pd_Reason decision) StatusForbidden
                   (fun ev => with_cves (pd_Findings decision) (with_blocked_by [blockedBy decision] ev));;
            _ <- writeCVEBlockedResponse requestID ref decision;;
            ret_st false
          else ret_st true
        else ret_st true
    end
  else ret_st true.

Definition download_failed (requestID : string) ref (rec : recorder) (status : Z) (gateName reason : string)
    : M (option (bytes * Header)) :=
  _ <- rec VerdictError gateName reason status no_mod;;
  _ <- writeError requestID ref status reason;;
  ret_st None.

Definition download_stage (requestID : string) (r : Request) ref (rec : recorder)
    : M (option (bytes * Header)) :=
  let upstreamURLs := UpstreamURLs (cfg_Adapter cfg) r in
  match upstreamURLs with
  | [] => download_failed requestID ref rec StatusInternalServerError GateSupply "no_upstream_configured"
  | _ =>
      dl <- downloadFromUpstreams upstreamURLs [];;
      let '(res, atts) := dl in
      match res with
      | Ok (data, header) => ret_st (Some (data, header))
      | Err err =>
          if errors_Is err SErrArtifactTooLarge then
            download_failed requestID ref rec StatusForbidden GateCache "artifact_too_large"
          else if AllNotFound atts then
            download_failed requestID ref rec StatusNotFound GateSupply "artifact_not_found"
          else
            th <- atts_Throttled atts;;
            match th with
            | Some (status, retry) =>
                _ <- rec VerdictError GateSupply "upstream_throttled" status no_mod;;
                _ <- w_SetRetryAfter retry;;
                _ <- writeError requestID ref status "upstream_throttled";;
                ret_st None
            | None => download_failed requestID ref rec StatusBadGateway GateSupply "upstream_unavailable"
            end
      end
  end.

(** Antivirus scan of the downloaded file; fail-closed. *)
Definition av_stage (requestID : string) ref (rec : recorder) (data : bytes) : M bool :=
  if cfg_AVScanner cfg then
    avResult <- av_Scan (Some data);;
    match avResult with
    | None =>
        _ <- rec VerdictError GateMalware "av_scan_error" StatusServiceUnavailable no_mod;;
        _ <- writeError requestID ref StatusServiceUnavailable "av_scan_error";;
        ret_st false
    | Some av =>
        if av_Incomplete av then
          _ <- rec VerdictBlock GateMalware ReasonScanIncomplete StatusForbidden
                 (fun ev => with_malware (av_Engine av) (av_Signature av)
                              (with_blocked_by [ReasonScanIncomplete] ev));;
          _ <- writeError requestID ref StatusForbidden ReasonScanIncomplete;;
          ret_st false
        else if negb (av_Clean av) then
          _ <- rec VerdictBlock GateMalware "malware_found" StatusForbidden
                 (fun ev => with_malware (av_Engine av) (av_Signature av) (with_blocked_by ["malware"] ev));;
          _ <- writeMalwareBlockedResponse requestID ref (av_Engine av) (av_Signature av);;
          ret_st false
        else ret_st true
    end
  else ret_st true.

Definition lastGate : string :=
  if cfg_AVScanner cfg then GateMalware
  else if cfg_CVEScanner cfg && cfg_Policy cfg then GateCVE else GateSupply.

Definition cache_failed (requestID : string) ref (rec : recorder) : M unit :=
  _ <- rec VerdictError GateCache "cache_error" StatusInternalServerError no_mod;;
  writeError requestID ref StatusInternalServerError "cache_error".

(** Cache the artifact and serve it from the cache. *)
Definition finish_stage (requestID : string) ref (rec : recorder) (sc : FilterResult) (data : bytes) : M unit :=
  now <- time_Now;;
  put <- on_cache (cache_Put now ref data true "") (CPut ref data true);;
  if negb put then cache_failed requestID ref rec
  else
    found <- Cache_Get ref;;
    match found with
    | None => cache_failed requestID ref rec
    | Some entry =>
        served <- serveFromCache entry;;
        if served then
          rec VerdictPass lastGate (fr_Reason sc) StatusOK (with_dates (fr_PublishedAt sc) 0)
        else rec VerdictError GateCache "cache_read_error" StatusInternalServerError no_mod
    end.

(** What follows a download, the temporary file still there. *)
Definition gate_download (requestID : string) ref (rec : recorder) (sc : FilterResult)
    (data : bytes) (header : Header) : M unit :=
  sc <- (match MetadataFromHeader (cfg_Adapter cfg) with
        | Some extract => checkSupplyChain requestID ref rec (extract header)
        | None => ret_st (Some sc)
        end);;
  match sc with
  | None => ret_st tt
  | Some sc =>
      clean <- av_stage requestID ref rec data;;
      if clean then finish_stage requestID ref rec sc data else ret_st tt
  end.

Definition serve_miss (requestID : string) (r : Request) ref (rec : recorder) : M unit :=
  sc <- supply_stage requestID ref rec;;
  match sc with
  | None => ret_st tt
  | Some sc =>
      pass <- cve_stage requestID ref rec;;
      if pass then
        dl <- download_stage requestID r ref rec;;
        match dl with
        | None => ret_st tt
        | Some (data, header) =>
            _ <- gate_download requestID ref rec sc data header;;
            remove_temp
        end
      else ret_st tt
  end.

Definition serve_hit (requestID : string) ref (rec : recorder) (entry : ArtifactEntry) : M unit :=
  if negb (ae_ScanClean entry) then
    _ <- rec VerdictBlock GateCache "scan_failed" StatusForbidden no_mod;;
    writeError requestID ref StatusForbidden "scan_failed"
  else
    blocked <- recheckExpired requestID ref entry rec;;
    if blocked then ret_st tt
    else
      served <- serveFromCache entry;;
      if served then rec VerdictCache GateCache "cache_hit" StatusOK no_mod
      else rec VerdictError GateCache "cache_read_error" StatusInternalServerError no_mod.

Definition serve_artifact (requestID : string) (r : Request) ref : M unit :=
  start <- time_Now;;
  let rec := record requestID ref start in
  found <- Cache_Get ref;;
  match found with
  | Some entry => serve_hit requestID ref rec entry
  | None => serve_miss requestID r ref rec
  end.

(** ** Forwarding to the upstreams *)

Definition add_values (k : string) (vals : list string) (dst : Header) : Header :=
  foldl (fun h v => Header_Add k v h) dst vals.

Definition copyProxyHeaders (dst src : Header) : Header :=
  foldl (fun h hop => Header_Del hop h) (map_fold add_values dst src) hopByHopHeaders.

Inductive Forward :=
| FResp (status : Z) (header : Header) (body : bytes) (bodyErr : bool) (atts : Attempts)
| FFail (atts : Attempts) (err : option error).

Fixpoint forward_loop (r : Request) (body : bytes) (urls : list string) (atts : Attempts) : M Forward :=
  match urls with
  | [] => ret_st (FFail atts None)
  | u :: urls' =>
      start <- time_Now;;
      res <- http_Do (mkOut (rq_Method r) u (copyProxyHeaders ∅ (rq_Header r)) body);;
      match res with
      | ReqErr e =>
          now <- time_Now;;
          forward_loop r body urls'
            (add_attempt u 0 (EWrap "building request: " e "") (time_sub now start) atts)
      | DoErr e =>
          now <- time_Now;;
          forward_loop r body urls' (add_attempt u 0 e (time_sub now start) atts)
      | DoResp status header _ rbody bodyErr =>
          if status <? 400 then ret_st (FResp status header rbody bodyErr atts)
          else
            now <- time_Now;;
            forward_loop r body urls'
              (add_attempt u status (ENew ("upstream returned HTTP " +:+ FormatInt status))
                 (time_sub now start) atts)
      end
  end.

Definition forwardUpstream (r : Request) : M Forward :=
  match UpstreamURLs (cfg_Adapter cfg) r with
  | [] => ret_st (FFail [] (Some (ESentinel SErrNoUpstreams)))
  | urls =>
      match rq_Body r with
      | Some None => ret_st (FFail [] (Some (ESentinel SErrUnreadableBody)))
      | Some (Some body) => forward_loop r body urls []
      | None => forward_loop r [] urls []
      end
  end.

Definition error_is (err : option error) (s : sentinel) : bool :=
  match err with Some e => errors_Is e s | None => false end.

Definition writeForwardError (atts : Attempts) (err : option error) : M unit :=
  th <- atts_Throttled atts;;
  if error_is err SErrNoUpstreams then http_Error "no upstream configured" StatusInternalServerError
  else if error_is err SErrUnreadableBody then http_Error "bad request" StatusBadRequest
  else if AllNotFound atts then http_Error "not found" StatusNotFound
  else match th with
  | Some (throttleStatus, retry) =>
      _ <- w_SetRetryAfter retry;;
      http_Error "upstream throttled" throttleStatus
  | None => http_Error "upstream unavailable" StatusBadGateway
  end.

(** Relay a response's header, status and body. *)
Definition relay (status : Z) (header : Header) (body : bytes) : M unit :=
  _ <- header_map (fun h => copyProxyHeaders h header);;
  n <- ask (fun tr => Nat.min (env_Copied env tr body) (length body)) CCopied;;
  respond status (BStream body n).

Definition proxyTransparent (r : Request) : M unit :=
  res <- forwardUpstream r;;
  match res with
  | FFail atts err => writeForwardError atts err
  | FResp status header body _ _ => relay status header body
  end.
End Handler.
