(* ===== verification/HandlerProps.v ===== *)
(** * What the gating handler guarantees

    The proofs follow the code: a rule for each primitive step, a lemma for
    each stage of a request, and the theorems on whole requests and on
    sequences of them. *)
From S2P Require Import Prelude GoStd Gate Upstream CircuitBreaker HTTP Handler.
Local Open Scope Z_scope.

(** ** Reading a trace *)

Definition outcome_of (c : Call) : option Event := match c with COutcome ev => Some ev | _ => None end.
Definition record_of (c : Call) : option Event := match c with CRecord ev => Some ev | _ => None end.
Definition response_of (c : Call) : option Response := match c with CRespond r => Some r | _ => None end.

Definition outcomes (l : list Call) : list Event := omap outcome_of l.
Definition records (l : list Call) : list Event := omap record_of l.
Definition responses (l : list Call) : list Response := omap response_of l.

(** No outcome, no record and no response. *)
Definition quiet (l : list Call) : Prop := outcomes l = [] ∧ records l = [] ∧ responses l = [].

Lemma quiet_nil : quiet [].
Proof. done. Qed.

Lemma quiet_app l1 l2 : quiet l1 → quiet l2 → quiet (l1 ++ l2).
Proof.
  unfold quiet, outcomes, records, responses. rewrite !omap_app.
  intros (-> & -> & ->) (-> & -> & ->). done.
Qed.

Lemma quiet_cons c l :
  outcome_of c = None → record_of c = None → response_of c = None → quiet l → quiet (c :: l).
Proof. intros H1 H2 H3 (? & ? & ?). unfold quiet, outcomes, records, responses. simpl. by rewrite H1, H2, H3. Qed.

#[export] Hint Resolve quiet_nil quiet_app quiet_cons : joei.

(** The part of an event the telemetry modifiers leave alone. *)
Definition ev_core (ev : Event) : string * string * string * string * Verdict * string * Z * string :=
  (ev_RequestID ev, ev_Ecosystem ev, ev_Package ev, ev_Version ev, ev_Verdict ev, ev_Gate ev,
   ev_HTTPStatus ev, ev_Reason ev).

Definition is_stream (b : Body) : bool := match b with BStream _ _ => true | _ => false end.

(** ** Traces an environment produces *)

(** A logged answer is the one the environment gives at that point. *)
Definition ok_call (env : Env) (tr : list Call) (c : Call) : Prop :=
  match c with
  | CClock t => t = env_Now env tr
  | CMetadata ref r => r = env_FetchMetadata env tr ref
  | CFilter ref meta r => r = env_Filter env tr ref meta
  | CCVEScan ref r => r = env_CVEScan env tr ref
  | CPolicy ref sr d => d = env_Policy env tr ref sr
  | CDo out r => r = env_Do env tr out
  | CAVScan d r => r = env_AVScan env tr d
  | CDocFlight key r => r = env_DocFlight env tr key
  | _ => True
  end.

Fixpoint consistent (env : Env) (tr l : list Call) : Prop :=
  match l with
  | [] => True
  | c :: l' => ok_call env tr c ∧ consistent env (tr ++ [c]) l'
  end.

Lemma consistent_app env tr l1 l2 :
  consistent env tr (l1 ++ l2) ↔ consistent env tr l1 ∧ consistent env (tr ++ l1) l2.
Proof.
  revert tr. induction l1 as [|c l1 IH]; intros tr; simpl; [rewrite app_nil_r; tauto|].
  rewrite IH, <- app_assoc. simpl. tauto.
Qed.

Lemma consistent_elem env tr l c :
  consistent env tr l → c ∈ l → ∃ pre post, l = pre ++ c :: post ∧ ok_call env (tr ++ pre) c.
Proof.
  intros Hc (pre & post & ->)%list_elem_of_split. exists pre, post. split; [done|].
  apply consistent_app in Hc as [_ [Hc _]]. done.
Qed.

Section Props.
Context {C : Type} {AC : ArtifactCache C}.
Context (env : Env).

Notation W := (World C).
Notation M := (St (World C)).
Implicit Types (w : W) (l : list Call) (ref : PackageRef).

(** ** Symbolic execution *)

(** [m], run from [w], extends the trace by some [l] the environment agrees
    with, with [Q] on its answer, [l] and the state it ends in. *)
Definition steps {A} (m : M A) w (Q : A → list Call → W → Prop) : Prop :=
  ∃ l, w_trace (m w).2 = w_trace w ++ l ∧ consistent env (w_trace w) l ∧ Q (m w).1 l (m w).2.

Lemma steps_mono {A} (m : M A) w (Q Q' : A → list Call → W → Prop) :
  steps m w Q → (∀ a l w', Q a l w' → Q' a l w') → steps m w Q'.
Proof. intros (l & Hl & Hc & HQ) H. exists l. auto. Qed.

Lemma steps_bind {A B} (m : M A) (f : A → M B) w Q :
  steps m w (λ a l w', steps (f a) w' (λ b l' w'', Q b (l ++ l') w'')) → steps (bind_st m f) w Q.
Proof.
  intros (l & Hl & Hc & l' & Hl' & Hc' & H). unfold steps. rewrite bind_st_run. exists (l ++ l').
  split; [by rewrite Hl', Hl, app_assoc|]. split; [|done]. apply consistent_app. by rewrite <- Hl.
Qed.

(** A known stage first, the rest after it. *)
Lemma steps_seq {A B} (m : M A) (f : A → M B) w Q Q' :
  steps m w Q → (∀ a l w', Q a l w' → steps (f a) w' (λ b l' w'', Q' b (l ++ l') w'')) →
  steps (bind_st m f) w Q'.
Proof. intros Hm Hf. apply steps_bind. by eapply steps_mono. Qed.

(** The trace the rest of the code starts from. *)
Lemma steps_trace {A} (m : M A) w Q :
  steps m w Q → steps m w (λ a l w', w_trace w' = w_trace w ++ l ∧ Q a l w').
Proof. intros (l & Hl & Hc & HQ). by exists l. Qed.

Lemma steps_ret {A} (a : A) w (Q : A → list Call → W → Prop) : Q a [] w → steps (ret_st a) w Q.
Proof. intros. exists []. by rewrite app_nil_r. Qed.

Lemma steps_log c w (Q : unit → list Call → W → Prop) :
  ok_call env (w_trace w) c →
  Q tt [c] (mkWorld (w_cache w) (w_trace w ++ [c]) (w_header w) (w_temps w)) → steps (log_call c) w Q.
Proof. intros. by exists [c]. Qed.

Lemma steps_ask {A} (q : list Call → A) mk w (Q : A → list Call → W → Prop) :
  ok_call env (w_trace w) (mk (q (w_trace w))) →
  (∀ a, a = q (w_trace w) →
     Q a [mk a] (mkWorld (w_cache w) (w_trace w ++ [mk a]) (w_header w) (w_temps w))) →
  steps (ask q mk) w Q.
Proof. intros Hok H. exists [mk (q (w_trace w))]. split; [done|]. split; [done|]. by apply H. Qed.

Lemma steps_cache {A} (m : St C A) mk w (Q : A → list Call → W → Prop) :
  ok_call env (w_trace w) (mk (m (w_cache w)).1) →
  Q (m (w_cache w)).1 [mk (m (w_cache w)).1]
    (mkWorld (m (w_cache w)).2 (w_trace w ++ [mk (m (w_cache w)).1]) (w_header w) (w_temps w)) →
  steps (on_cache m mk) w Q.
Proof.
  unfold steps, on_cache. destruct (m (w_cache w)) as [a c'] eqn:E; simpl. intros.
  exists [mk a]. done.
Qed.

Lemma steps_header f w (Q : unit → list Call → W → Prop) :
  Q tt [] (mkWorld (w_cache w) (w_trace w) (f (w_header w)) (w_temps w)) → steps (header_map f) w Q.
Proof. intros. exists []. by rewrite app_nil_r. Qed.

Lemma steps_header_set k v w (Q : unit → list Call → W → Prop) :
  Q tt [] (mkWorld (w_cache w) (w_trace w) (Header_Set k v (w_header w)) (w_temps w)) →
  steps (header_set k v) w Q.
Proof. apply (steps_header (Header_Set k v)). Qed.

Lemma steps_temp d w (Q : unit → list Call → W → Prop) :
  Q tt [] (mkWorld (w_cache w) (w_trace w) (w_header w) (w_temps w + d)) → steps (add_temp d) w Q.
Proof. intros. exists []. by rewrite app_nil_r. Qed.

Lemma steps_respond s b w (Q : unit → list Call → W → Prop) :
  (∀ rs, rs = mkResp s (w_header w) b →
     Q tt [CRespond rs] (mkWorld (w_cache w) (w_trace w ++ [CRespond rs]) (w_header w) (w_temps w))) →
  steps (respond s b) w Q.
Proof. intros H. eexists [_]. split; [done|]. split; [done|]. by apply H. Qed.

(** Same cache and same temporary files. *)
Definition same w w' : Prop := w_cache w' = w_cache w ∧ w_temps w' = w_temps w.

Lemma same_refl w : same w w.
Proof. done. Qed.

Lemma same_trans w1 w2 w3 : same w1 w2 → same w2 w3 → same w1 w3.
Proof. unfold same. intros [] []. split; congruence. Qed.
End Props.

(** A concrete status is one of a list. *)
Ltac err_status := apply (bool_decide_eq_true_1 _); reflexivity.

(** One step of the code. *)
Ltac step :=
  lazymatch goal with
  | |- steps _ (ret_st _) _ _ => apply steps_ret
  | |- steps _ (bind_st _ _) _ _ => apply steps_bind
  | |- steps _ (log_call _) _ _ => apply steps_log; [done|]
  | |- steps _ (ask _ _) _ _ => apply steps_ask; [done|intros ? _]
  | |- steps _ (on_cache _ _) _ _ => apply steps_cache; [done|]
  | |- steps _ (header_map _) _ _ => apply steps_header
  | |- steps _ (header_set _ _) _ _ => apply steps_header_set
  | |- steps _ (add_temp _) _ _ => apply steps_temp
  | |- steps _ (respond _ _) _ _ => apply steps_respond; intros ? ?
  | |- steps _ (time_Now _) _ _ => unfold time_Now
  | |- steps _ (if ?b then _ else _) _ _ => destruct b eqn:?
  | |- steps _ (match ?x with _ => _ end) _ _ => destruct x eqn:?
  end; simpl.
Ltac run := repeat step.

(** The same, the environment's answers replaced by what they are. *)
Ltac run_eq :=
  repeat first
    [lazymatch goal with |- steps _ (ask _ _) _ _ => apply steps_ask; [done|intros ? ->]; simpl end | step].

Section Stages.
Context {C : Type} {AC : ArtifactCache C}.
Context (url_Parse : string -> option url) (url_String : url -> string).
Context (env : Env) (cfg : HandlerConfig).
(** What the handler relies on of its breaker and of its flights: the
    lookup reports the statuses the breaker trips on, and a joined flight's
    outcome is one [runRechecks] returns. *)
Context (Hthrottles : ∀ tr, lookup_ok (env_Throttles env tr)).
Context (Hflight : ∀ tr key out, env_Flight env tr key = Some (Some out) →
           ro_gate out = GateCVE ∨ ro_gate out = GateMalware).

Notation W := (World C).
Notation M := (St (World C)).
Local Notation steps := (steps env).
Implicit Types (w : W) (l : list Call) (ref : PackageRef).

(** ** Outcomes and responses *)

(** A request's part of the trace that ends it: one outcome, recorded if
    there is a recorder, and one response with the status of the outcome. *)
Definition ended (id : string) ref l (ev : Event) (rs : Response) : Prop :=
  outcomes l = [ev] ∧ records l = (if cfg_Recorder cfg then [ev] else []) ∧ responses l = [rs] ∧
  ev_RequestID ev = id ∧ ev_Ecosystem ev = Ecosystem ref ∧ ev_Package ev = Name ref ∧
  ev_Version ev = Version ref ∧ ev_HTTPStatus ev = rs_Status rs.

(** What each verdict means for the client. *)
Definition verdict_ok (ev : Event) (rs : Response) : Prop :=
  match ev_Verdict ev with
  | VerdictPass | VerdictCache => ev_HTTPStatus ev = 200 ∧ is_stream (rs_Body rs) = true
  | VerdictBlock => (ev_HTTPStatus ev = 403 ∨ ev_HTTPStatus ev = 423) ∧ is_stream (rs_Body rs) = false
  | VerdictError =>
      ev_HTTPStatus ev ∈ [403; 404; 429; 500; 502; 503] ∧ is_stream (rs_Body rs) = false
  end.

Definition refused (id : string) ref l : Prop :=
  ∃ ev rs, ended id ref l ev rs ∧ verdict_ok ev rs ∧ is_stream (rs_Body rs) = false.

Lemma ended_quiet_app id ref l1 l2 ev rs : quiet l1 → ended id ref l2 ev rs → ended id ref (l1 ++ l2) ev rs.
Proof.
  intros (H1 & H2 & H3) (? & ? & ? & ?). unfold ended, outcomes, records, responses in *.
  rewrite !omap_app, H1, H2, H3. done.
Qed.

Lemma ended_app_quiet id ref l1 l2 ev rs : quiet l2 → ended id ref l1 ev rs → ended id ref (l1 ++ l2) ev rs.
Proof.
  intros (H1 & H2 & H3) (? & ? & ? & ?). unfold ended, outcomes, records, responses in *.
  rewrite !omap_app, H1, H2, H3, !app_nil_r. done.
Qed.

Lemma refused_quiet_app id ref l1 l2 : quiet l1 → refused id ref l2 → refused id ref (l1 ++ l2).
Proof. intros Hq (ev & rs & ? & ?). exists ev, rs. split; [by apply ended_quiet_app|done]. Qed.

Lemma refused_app_quiet id ref l1 l2 : quiet l2 → refused id ref l1 → refused id ref (l1 ++ l2).
Proof. intros Hq (ev & rs & ? & ?). exists ev, rs. split; [by apply ended_app_quiet|done]. Qed.

Definition mod_ok (f : Event → Event) : Prop := ∀ ev, ev_core (f ev) = ev_core ev.

Lemma record_steps id ref start v g reason status f w :
  mod_ok f →
  steps (record env cfg id ref start v g reason status f) w (λ _ l w', same w w' ∧
    responses l = [] ∧ ∃ ev, outcomes l = [ev] ∧ records l = (if cfg_Recorder cfg then [ev] else []) ∧
    ev_core ev = (id, Ecosystem ref, Name ref, Version ref, v, g, status, reason)).
Proof.
  intros Hf. unfold record. run; (split; [done|]); (split; [done|]); eexists; (split; [done|]);
    (split; [done|]); by rewrite Hf.
Qed.

(** Code that writes one response without artifact bytes. *)
Definition writes (m : M unit) (status : Z) : Prop :=
  ∀ w, steps m w (λ _ l w', same w w' ∧
    ∃ rs, l = [CRespond rs] ∧ rs_Status rs = status ∧ is_stream (rs_Body rs) = false).

Lemma writeJSON_writes status body : writes (writeJSON status body) status.
Proof. intros w. unfold writeJSON. run. subst. (split; [done|]); eexists; done. Qed.

Lemma writeError_writes id ref status reason : writes (writeError id ref status reason) status.
Proof. apply writeJSON_writes. Qed.

Lemma http_Error_writes msg status : writes (http_Error msg status) status.
Proof. intros w. unfold http_Error. run. subst. (split; [done|]); eexists; done. Qed.

Lemma throttled_writes d id ref status reason :
  writes (_ <- w_SetRetryAfter d;; writeError id ref status reason) status.
Proof. intros w. unfold w_SetRetryAfter. run; unfold writeError, writeJSON; run; subst; (split; [done|]); eexists; done. Qed.

(** Recording a refusal and answering it ends the request. *)
Lemma refuse_steps id ref start v g reason status f (m : M unit) w :
  mod_ok f → writes m status →
  (v = VerdictBlock ∧ (status = 403 ∨ status = 423) ∨
   v = VerdictError ∧ status ∈ [403; 404; 429; 500; 502; 503]) →
  steps (_ <- record env cfg id ref start v g reason status f;; m) w
    (λ _ l w', same w w' ∧ refused id ref l).
Proof.
  intros Hf Hm Hv. eapply steps_seq; [by apply record_steps|].
  intros [] l1 w1 (Hs1 & Hr1 & ev & Ho1 & Hc1 & Hev).
  eapply steps_mono; [apply Hm|]. intros [] l2 w2 (Hs2 & rs & -> & Hst & Hb).
  split; [by eapply same_trans|]. unfold ev_core in Hev. simplify_eq/=.
  exists ev, rs. split_and!; [|destruct Hv as [[Hv ?]|[Hv ?]]; unfold verdict_ok; rewrite Hv; split; congruence|done].
  unfold ended, outcomes, records, responses in *. rewrite !omap_app, Ho1, Hc1, Hr1. simpl.
  rewrite app_nil_r. done.
Qed.

Lemma refuse_ret_steps {A} (a : A) id ref start v g reason status f (m : M unit) w :
  mod_ok f → writes m status →
  (v = VerdictBlock ∧ (status = 403 ∨ status = 423) ∨
   v = VerdictError ∧ status ∈ [403; 404; 429; 500; 502; 503]) →
  steps (_ <- record env cfg id ref start v g reason status f;; _ <- m;; ret_st a) w
    (λ x l w', x = a ∧ same w w' ∧ refused id ref l).
Proof.
  intros Hf Hm Hv. pose proof (refuse_steps id ref start v g reason status f m w Hf Hm Hv) as (l & Hl & H).
  exists l. rewrite !bind_st_run in *. split; [exact Hl|]. destruct H as [Hc H].
  split; [exact Hc|done].
Qed.

(** ** The stages of a miss *)

Notation adapter := (cfg_Adapter cfg).

Lemma mod_ok_id : mod_ok no_mod. Proof. done. Qed.

Lemma checkSupplyChain_steps id ref start meta w :
  steps (checkSupplyChain env id ref (record env cfg id ref start) meta) w (λ res l w', same w w' ∧
    match res with
    | None => refused id ref l
    | Some sc => quiet l ∧ fr_Allowed sc = true ∧ l = [CFilter ref meta sc]
    end).
Proof.
  unfold checkSupplyChain. step. step. step.
  - eapply steps_mono; [apply refuse_ret_steps; [done|apply writeJSON_writes|auto]|].
    intros res l w' (-> & Hs & Hr). split; [by eapply same_trans|].
    apply (refused_quiet_app _ _ [_]); [auto with joei|done].
  - run. split; [done|]. split_and!; [auto with joei| |done]. by destruct (fr_Allowed a).
Qed.

Lemma atts_Throttled_steps atts w :
  steps (atts_Throttled url_Parse env atts) w (λ res l w', same w w' ∧ quiet l ∧
    ∀ status retry, res = Some (status, retry) → status ∈ [403; 404; 429; 500; 502; 503]).
Proof.
  unfold atts_Throttled. step. apply steps_ask; [done|]. intros t ->. run. split; [done|]. split; [auto with joei|].
  intros status retry Ht. apply Throttled_status in Ht; [|apply Hthrottles].
  destruct Ht as [->| ->]; by err_status.
Qed.

Lemma throttled_refusal id ref start status retry w :
  status ∈ [403; 404; 429; 500; 502; 503] →
  ∀ B (b : B),
  steps (_ <- record env cfg id ref start VerdictError GateSupply "upstream_throttled" status no_mod;;
         _ <- w_SetRetryAfter retry;;
         _ <- writeError id ref status "upstream_throttled";;
         ret_st b) w (λ res l w', res = b ∧ same w w' ∧ refused id ref l).
Proof.
  intros Hst B b.
  pose proof (refuse_ret_steps b id ref start VerdictError GateSupply "upstream_throttled" status no_mod _ w
    mod_ok_id (throttled_writes retry id ref status "upstream_throttled") (or_intror (conj eq_refl Hst)))
    as (l & Hl & H).
  exists l. rewrite !bind_st_run in *. split; [exact Hl|]. destruct H as (Hc & _ & ? & ?).
  split; [exact Hc|done].
Qed.

(** The supply-chain gate passed up front, by an adapter that has it there. *)
Definition supply_passed ref (sc : FilterResult) l : Prop :=
  MetadataFromHeader adapter = None → fr_Allowed sc = true ∧
    ∃ meta, [CMetadata ref (Ok meta); CFilter ref meta sc] `sublist_of` l.

Lemma supply_stage_steps id ref start w :
  steps (supply_stage url_Parse env cfg id ref (record env cfg id ref start)) w (λ res l w', same w w' ∧
    match res with
    | None => refused id ref l
    | Some sc => quiet l ∧ supply_passed ref sc l
    end).
Proof.
  unfold supply_stage, supply_passed. destruct (MetadataFromHeader adapter) eqn:Hdefer.
  { run. split_and!; done. }
  unfold fetchMetadata. step. step. destruct a as [meta|err].
  { eapply steps_mono; [apply checkSupplyChain_steps|]. intros res l w' [Hs Hres].
    split; [by eapply same_trans|]. destruct res as [sc|]; simpl.
    - destruct Hres as (Hq & Hsc & ->). split; [auto with joei|]. intros _. split; [done|]. by exists meta.
    - apply (refused_quiet_app _ _ [_]); [auto with joei|done]. }
  eapply steps_seq; [apply atts_Throttled_steps|].
  intros th l1 w1 (Hs1 & Hq1 & Hth).
  assert (quiet (CMetadata ref (Err err) :: l1)) as Hq by auto with joei.
  assert (∀ (res : option FilterResult) w' l, res = None ∧ same w1 w' ∧ refused id ref l →
    same w w' ∧ refused id ref ((CMetadata ref (Err err) :: l1) ++ l)) as Hend.
  { intros res w' l (_ & Hs & Hr). split; [|by apply refused_quiet_app].
    eapply same_trans; [|exact Hs]. by eapply same_trans; [|exact Hs1]. }
  assert (steps (_ <- record env cfg id ref start VerdictError GateSupply "upstream_metadata_unavailable"
                        StatusBadGateway no_mod;;
                 _ <- writeError id ref StatusBadGateway "upstream_metadata_unavailable";;
                 ret_st (@None FilterResult)) w1
            (λ res l w', res = None ∧ same w1 w' ∧ refused id ref l)) as Hunavailable.
  { apply refuse_ret_steps; [done|apply writeError_writes|right; split; [done|err_status]]. }
  destruct th as [[status retry]|]; [case_bool_decide|].
  - eapply steps_mono; [apply throttled_refusal, (Hth status retry); done|].
    intros res l w' H'. destruct (Hend _ _ _ H'), H' as [-> _]. done.
  - eapply steps_mono; [exact Hunavailable|].
    intros res l w' H'. destruct (Hend _ _ _ H'), H' as [-> _]. done.
  - eapply steps_mono; [exact Hunavailable|].
    intros res l w' H'. destruct (Hend _ _ _ H'), H' as [-> _]. done.
Qed.

(** The CVE gate passed, with the policy if there is one. *)
Definition cve_passed ref l : Prop :=
  cfg_CVEScanner cfg = true →
  ∃ sr, if cfg_Policy cfg then
          ∃ dec, pd_Allowed dec = true ∧ [CCVEScan ref (Some sr); CPolicy ref sr dec] `sublist_of` l
        else [CCVEScan ref (Some sr)] `sublist_of` l.

Lemma cve_stage_steps id ref start w :
  steps (cve_stage env cfg id ref (record env cfg id ref start)) w (λ res l w', same w w' ∧
    if res : bool then quiet l ∧ cve_passed ref l else refused id ref l).
Proof.
  unfold cve_stage, cve_passed. destruct (cfg_CVEScanner cfg); [|run; split; [done|by split]].
  unfold cve_Scan. step. step. destruct a as [sr|].
  - destruct (cfg_Policy cfg).
    + unfold policy_Evaluate. step. step. step.
      * eapply steps_mono; [apply refuse_ret_steps; [done|apply writeJSON_writes|auto]|].
        intros res l w' (-> & Hs & Hr). split; [by eapply same_trans|].
        apply (refused_quiet_app _ _ [_; _]); [auto with joei|done].
      * run. split; [done|]. split; [auto with joei|]. intros _. exists sr, a.
        split; [by destruct (pd_Allowed a)|done].
    + run. split; [done|]. split; [auto with joei|]. intros _. by exists sr.
  - eapply steps_mono;
      [apply refuse_ret_steps; [done|apply writeError_writes|right; split; [done|by err_status]]|].
    intros res l w' (-> & Hs & Hr). split; [by eapply same_trans|].
    apply (refused_quiet_app _ _ [_]); [auto with joei|done].
Qed.

(** The malware gate passed on exactly these bytes. *)
Definition av_passed (d : bytes) l : Prop :=
  cfg_AVScanner cfg = true →
  ∃ av, av_Clean av = true ∧ av_Incomplete av = false ∧ [CAVScan (Some d) (Some av)] `sublist_of` l.

Lemma av_stage_steps id ref start d w :
  steps (av_stage env cfg id ref (record env cfg id ref start) d) w (λ res l w', same w w' ∧
    if res : bool then quiet l ∧ av_passed d l else refused id ref l).
Proof.
  unfold av_stage, av_passed. destruct (cfg_AVScanner cfg); [|run; split; [done|by split]].
  unfold av_Scan. step. step. destruct a as [av|].
  2:{ eapply steps_mono;
        [apply refuse_ret_steps; [done|apply writeError_writes|right; split; [done|by err_status]]|].
      intros res l w' (-> & Hs & Hr). split; [by eapply same_trans|].
      apply (refused_quiet_app _ _ [_]); [auto with joei|done]. }
  step.
  { eapply steps_mono; [apply refuse_ret_steps; [done|apply writeError_writes|auto]|].
    intros res l w' (-> & Hs & Hr). split; [by eapply same_trans|].
    apply (refused_quiet_app _ _ [_]); [auto with joei|done]. }
  step.
  { eapply steps_mono; [apply refuse_ret_steps; [done|apply writeJSON_writes|auto]|].
    intros res l w' (-> & Hs & Hr). split; [by eapply same_trans|].
    apply (refused_quiet_app _ _ [_]); [auto with joei|done]. }
  run. split; [done|]. split; [auto with joei|]. intros _. exists av.
  split_and!; [by destruct (av_Clean av)|done|done].
Qed.

(** ** Downloading *)

Hypothesis Hmax : MaxArtifactBytes cfg < max_int64.

(** The bytes are the whole body of a 200 answer to a plain GET of one of
    the mirrors, and no more of them than the cap. *)
Definition fetched (urls : list string) (d : bytes) (hdr : Header) l : Prop :=
  ∃ u cl, u ∈ urls ∧
    [CDo (mkOut "GET" u ∅ []) (DoResp 200 hdr cl d false); CWriteTemp d true] `sublist_of` l ∧
    (0 < MaxArtifactBytes cfg → Z.of_nat (length d) ≤ MaxArtifactBytes cfg).

Lemma limited_body_fits body err data :
  limited_body cfg body err = (data, false) →
  (0 <? MaxArtifactBytes cfg) && (MaxArtifactBytes cfg <? Z.of_nat (length data)) = false →
  data = body ∧ err = false ∧ (0 < MaxArtifactBytes cfg → Z.of_nat (length data) ≤ MaxArtifactBytes cfg).
Proof using Hmax.
  unfold limited_body. destruct (Z.ltb_spec 0 (MaxArtifactBytes cfg)) as [Hpos|Hneg]; simpl.
  - rewrite wrap64_id by (unfold in_int64, min_int64, max_int64 in *; lia).
    destruct (Z.leb_spec (MaxArtifactBytes cfg + 1) 0); [lia|].
    destruct (Z.leb_spec (MaxArtifactBytes cfg + 1) (Z.of_nat (length body))); intros He Hlt;
      simplify_eq.
    + rewrite length_take in Hlt. apply Z.ltb_ge in Hlt. lia.
    + apply Z.ltb_ge in Hlt. auto.
  - intros He _. simplify_eq. split_and!; [done..|lia].
Qed.

Lemma tryDownload_steps u w :
  steps (tryDownload url_Parse url_String env cfg u) w (λ res l w', quiet l ∧ w_cache w' = w_cache w ∧
    match res.1.1 with
    | Ok d => w_temps w' = w_temps w + 1 ∧ fetched [u] d res.1.2 l
    | Err _ => w_temps w' = w_temps w
    end).
Proof using Hmax.
  unfold tryDownload, http_Do, remove_temp. step. step. destruct a as [e|e|status hdr cl body err].
  1-2: run; split_and!; auto with joei.
  step; [run; split_and!; auto with joei|]. step; [run; split_and!; auto with joei|].
  step. step. step; [run; split_and!; auto with joei|].
  step. step. destruct (limited_body cfg body err) as [data rerr] eqn:Hlim.
  step. step. step; [run; split_and!; auto 10 with joei; lia|].
  step; [run; split_and!; auto 10 with joei; lia|].
  run. split_and!; [auto 10 with joei|done|done|]. exists u, cl.
  bool_to_prop. subst.
  destruct (limited_body_fits _ _ _ Hlim) as (<- & -> & ?); [done|].
  split_and!; [by left| |done]. simpl. apply sublist_skip, sublist_cons, sublist_skip, sublist_nil.
Qed.

Lemma fetched_mono urls urls' d hdr l l1 l2 :
  urls ⊆ urls' → fetched urls d hdr l → fetched urls' d hdr (l1 ++ l ++ l2).
Proof.
  intros Hsub (u & cl & Hu & Hl & Hc). exists u, cl. split_and!; [by apply Hsub| |done].
  by apply sublist_inserts_l, sublist_inserts_r.
Qed.

Lemma downloadFromUpstreams_steps urls atts w :
  steps (downloadFromUpstreams url_Parse url_String env cfg urls atts) w (λ res l w',
    quiet l ∧ w_cache w' = w_cache w ∧
    match res.1 with
    | Ok (d, hdr) => w_temps w' = w_temps w + 1 ∧ fetched urls d hdr l
    | Err _ => w_temps w' = w_temps w
    end).
Proof using Hmax.
  clear Hthrottles Hflight. revert atts w. induction urls as [|u urls IH]; intros atts w; simpl; [by run|].
  step. step. step. eapply steps_seq; [apply tryDownload_steps|].
  intros [[r hdr] status] l1 w1 (Hq & Hc & Hr). simpl in *. destruct r as [d|derr].
  - run. split_and!; [auto 10 with joei|done|tauto|].
    destruct Hr as [_ Hf]. apply (fetched_mono _ (u :: urls) _ _ _ [CClock a] []) in Hf; [|set_solver].
    done.
  - step.
    + run. split_and!; [auto 10 with joei|done|done].
    + step. step. eapply steps_mono; [apply IH|]. intros [[[d hdr2]|e] atts'] l2 w2 (Hq2 & Hc2 & Hr2); simpl in *.
      * split_and!; [auto 10 with joei|congruence|lia|].
        destruct Hr2 as [_ Hf]. apply (fetched_mono urls (u :: urls) _ _ l2 (CClock a :: l1 ++ [CClock a0]) []) in Hf;
          [|set_solver].
        rewrite app_nil_r in Hf. simpl in Hf. by rewrite <- app_assoc in Hf.
      * split_and!; [auto 10 with joei|congruence|congruence].
Qed.

Lemma download_failed_steps id ref start status g reason w :
  status ∈ [403; 404; 429; 500; 502; 503] →
  steps (download_failed id ref (record env cfg id ref start) status g reason) w
    (λ res l w', res = None ∧ same w w' ∧ refused id ref l).
Proof. intros Hs. apply refuse_ret_steps; [done|apply writeError_writes|auto]. Qed.

Lemma download_stage_steps id r ref start w :
  steps (download_stage url_Parse url_String env cfg id r ref (record env cfg id ref start)) w
    (λ res l w', w_cache w' = w_cache w ∧
       match res with
       | Some (d, hdr) => quiet l ∧ w_temps w' = w_temps w + 1 ∧ fetched (UpstreamURLs adapter r) d hdr l
       | None => refused id ref l ∧ w_temps w' = w_temps w
       end).
Proof using Hmax Hthrottles.
  unfold download_stage.
  assert (∀ status g reason w1, status ∈ [403; 404; 429; 500; 502; 503] →
    steps (download_failed id ref (record env cfg id ref start) status g reason) w1
      (λ res l w', res = None ∧ same w1 w' ∧ refused id ref l)) as Hfail
    by (intros; by apply download_failed_steps).
  destruct (UpstreamURLs adapter r) as [|u urls].
  { eapply steps_mono; [apply Hfail; err_status|]. by intros res l w' (-> & [] & ?). }
  eapply steps_seq; [apply downloadFromUpstreams_steps|].
  intros [res atts] l1 w1 (Hq & Hc & Hr). simpl in Hr |- *. destruct res as [[d hdr]|err].
  { run. rewrite app_nil_r. tauto. }
  assert (∀ (res : option (bytes * Header)) l w', res = None ∧ same w1 w' ∧ refused id ref l →
    w_cache w' = w_cache w ∧ res = None ∧ refused id ref (l1 ++ l) ∧ w_temps w' = w_temps w) as Hend.
  { intros res l w' (-> & [] & ?). split_and!; [congruence|done|by apply refused_quiet_app|congruence]. }
  assert (∀ m, steps m w1 (λ (res : option (bytes * Header)) l w', res = None ∧ same w1 w' ∧ refused id ref l) →
    steps m w1 (λ res l w', w_cache w' = w_cache w ∧
       match res with
       | Some (d, hdr) => quiet (l1 ++ l) ∧ w_temps w' = w_temps w + 1 ∧ fetched (u :: urls) d hdr (l1 ++ l)
       | None => refused id ref (l1 ++ l) ∧ w_temps w' = w_temps w
       end)) as Hm.
  { intros m Hm. eapply steps_mono; [exact Hm|]. intros res l w' H%Hend. destruct H as (? & -> & ?). done. }
  step; [apply Hm, Hfail; err_status|]. step; [apply Hm, Hfail; err_status|].
  apply Hm. eapply steps_seq; [apply atts_Throttled_steps|]. intros th l2 w2 (Hs2 & Hq2 & Hth).
  assert (∀ (res : option (bytes * Header)) l w', res = None ∧ same w2 w' ∧ refused id ref l →
    res = None ∧ same w1 w' ∧ refused id ref (l2 ++ l)) as Hend2.
  { intros res l w' (? & ? & ?). split_and!; [done|by eapply same_trans|by apply refused_quiet_app]. }
  destruct th as [[status retry]|].
  - eapply steps_mono; [apply throttled_refusal, (Hth status retry); done|]. intros; by apply Hend2.
  - eapply steps_mono; [apply Hfail; err_status|]. intros; by apply Hend2.
Qed.

(** ** The cache *)

Context {L : ArtifactCacheLaws C}.

(** Nothing new in the cache. *)
Definition shrinks w w' : Prop :=
  cache_ok (w_cache w') ∧
  ∀ ref' x, cache_holds (w_cache w') ref' = Some x → cache_holds (w_cache w) ref' = Some x.

(** Nothing new but these bytes, under this key. *)
Definition adds ref (d : bytes) w w' : Prop :=
  cache_ok (w_cache w') ∧
  ∀ ref' x, cache_holds (w_cache w') ref' = Some x →
    cache_holds (w_cache w) ref' = Some x ∨ (x.2 = d ∧ Key ref' = Key ref).

Lemma shrinks_refl w : cache_ok (w_cache w) → shrinks w w.
Proof. by split. Qed.

Lemma shrinks_same w w' : cache_ok (w_cache w) → w_cache w' = w_cache w → shrinks w w'.
Proof. intros ? E. unfold shrinks. rewrite E. auto. Qed.

Lemma shrinks_trans w1 w2 w3 : shrinks w1 w2 → shrinks w2 w3 → shrinks w1 w3.
Proof. intros [? ?] [? ?]. split; auto. Qed.

Lemma adds_shrinks ref d w1 w2 w3 : adds ref d w1 w2 → shrinks w2 w3 → adds ref d w1 w3.
Proof. intros [? ?] [? ?]. split; auto. Qed.

Lemma shrinks_adds ref d w1 w2 w3 : shrinks w1 w2 → adds ref d w2 w3 → adds ref d w1 w3.
Proof. intros [? Hs] [? Ha]. split; [done|]. intros ref' x Hx. destruct (Ha ref' x Hx); auto. Qed.

Lemma adds_same ref d w1 w2 w3 : adds ref d w1 w2 → w_cache w3 = w_cache w2 → adds ref d w1 w3.
Proof. intros [? ?] E. unfold adds. by rewrite E. Qed.

(** A response with the bytes of [d], all of them or as many as the client
    took, whose declared length is that of [d]. *)
Definition serves (d : bytes) (rs : Response) : Prop :=
  rs_Status rs = 200 ∧ (∃ n, rs_Body rs = BStream d n ∧ (n ≤ length d)%nat).

Lemma serveFromCache_steps entry w :
  cache_ok (w_cache w) →
  steps (serveFromCache env entry) w (λ res l w', w_temps w' = w_temps w ∧ shrinks w w' ∧
    outcomes l = [] ∧ records l = [] ∧ ∃ rs, responses l = [rs] ∧ [CRespond rs] `sublist_of` l ∧
    if res : bool then ∃ d, cache_file (w_cache w) (ae_ArtifactPath entry) = Some d ∧ serves d rs
    else rs_Status rs = 500 ∧ is_stream (rs_Body rs) = false).
Proof.
  intros Hok. unfold serveFromCache, open_artifact, http_Error, serves. step. step.
  pose proof (open_data (ae_ArtifactPath entry) (w_cache w)) as Hd.
  pose proof (open_ok (ae_ArtifactPath entry) (w_cache w) Hok) as Ho.
  pose proof (open_holds (ae_ArtifactPath entry) (w_cache w)) as Hh.
  assert (∀ w', w_cache w' = (cache_Open (ae_ArtifactPath entry) (w_cache w)).2 → shrinks w w') as Hs.
  { intros w' E. unfold shrinks. rewrite E. split; [done|]. intros ref' x. by rewrite Hh. }
  destruct (cache_Open (ae_ArtifactPath entry) (w_cache w)).1 as [d|].
  - run_eq; subst; (split_and!; [done|by apply Hs|done|done|]);
      (eexists; split; [done|]); (split; [repeat constructor|]); exists d; (split; [by apply Hd|]);
      (split; [done|]); (eexists; split; [done|]); lia.
  - run. split_and!; [done|by apply Hs|done..|]. eexists. split; [done|]. subst.
    split; [repeat constructor|done].
Qed.

(** Serving an entry, then recording it: the two endings of a hit and of a
    miss. *)
Lemma serve_record_steps id ref start entry v g reason f w :
  cache_ok (w_cache w) → mod_ok f → v = VerdictPass ∨ v = VerdictCache →
  steps (served <- serveFromCache env entry;;
         if served : bool then record env cfg id ref start v g reason StatusOK f
         else record env cfg id ref start VerdictError GateCache "cache_read_error"
                StatusInternalServerError no_mod) w
    (λ _ l w', w_temps w' = w_temps w ∧ shrinks w w' ∧ ∃ ev rs,
       ended id ref l ev rs ∧ verdict_ok ev rs ∧
       (is_stream (rs_Body rs) = true →
          ev_Verdict ev = v ∧ ev_Gate ev = g ∧ ev_Reason ev = reason ∧ [CRespond rs] `sublist_of` l ∧
          ∃ d, cache_file (w_cache w) (ae_ArtifactPath entry) = Some d ∧ serves d rs)).
Proof.
  intros Hok Hf Hv. eapply steps_seq; [by apply serveFromCache_steps|].
  intros served l1 w1 (Ht & Hs & Ho1 & Hc1 & rs & Hr1 & Hin & Hres).
  assert (∀ l2 w2 ev v' g' reason' status,
    same w1 w2 → responses l2 = [] → outcomes l2 = [ev] →
    records l2 = (if cfg_Recorder cfg then [ev] else []) →
    ev_core ev = (id, Ecosystem ref, Name ref, Version ref, v', g', status, reason') →
    status = rs_Status rs →
    w_temps w2 = w_temps w ∧ shrinks w w2 ∧ ended id ref (l1 ++ l2) ev rs ∧ ev_Verdict ev = v' ∧
    ev_Gate ev = g' ∧ ev_Reason ev = reason' ∧ ev_HTTPStatus ev = status) as Hfin.
  { intros l2 w2 ev v' g' reason' status [Hc2 Ht2] Hr2 Ho2 Hrec2 Hev Hst. unfold ev_core in Hev. simplify_eq/=.
    split_and!; [congruence| | |done..].
    - eapply shrinks_trans; [exact Hs|]. apply shrinks_same; [apply Hs|done].
    - unfold ended, outcomes, records, responses in *.
      rewrite !omap_app, Ho1, Hc1, Hr1, Ho2, Hrec2, Hr2. done. }
  destruct served; simpl.
  - destruct Hres as (d & Hd & Hserve).
    eapply steps_mono; [by apply record_steps|]. intros [] l2 w2 (Hs2 & Hr2 & ev & Ho2 & Hrec2 & Hev).
    destruct (Hfin _ _ _ _ _ _ _ Hs2 Hr2 Ho2 Hrec2 Hev) as (? & ? & He & Hv1 & Hg1 & Hre1 & Hst1);
      [by destruct Hserve as [-> _]|].
    split; [done|]. split; [done|]. exists ev, rs. split; [done|].
    pose proof Hserve as (_ & n & Hb & _). split.
    + unfold verdict_ok. rewrite Hv1, Hb. by destruct Hv as [->| ->].
    + intros _. split_and!; [done..|by apply sublist_inserts_r|by exists d].
  - destruct Hres as [Hst Hb].
    eapply steps_mono; [by apply record_steps|]. intros [] l2 w2 (Hs2 & Hr2 & ev & Ho2 & Hrec2 & Hev).
    destruct (Hfin _ _ _ _ _ _ _ Hs2 Hr2 Ho2 Hrec2 Hev) as (? & ? & He & Hv1 & Hg1 & Hre1 & Hst1); [done|].
    split; [done|]. split; [done|]. exists ev, rs. split; [done|].
    split; [|by rewrite Hb]. unfold verdict_ok. rewrite Hv1, Hst1. split; [err_status|done].
Qed.

Lemma cache_failed_steps id ref start w :
  steps (cache_failed id ref (record env cfg id ref start)) w (λ _ l w', same w w' ∧ refused id ref l).
Proof.
  unfold cache_failed. apply refuse_steps; [done|apply writeError_writes|right; split; [done|err_status]].
Qed.

Lemma put_steps now ref d w :
  cache_ok (w_cache w) →
  steps (on_cache (cache_Put now ref d true "") (CPut ref d true)) w (λ ok l w',
    l = [CPut ref d true ok] ∧ w_temps w' = w_temps w ∧ adds ref d w w' ∧
    (ok = true → cache_holds (w_cache w') ref = Some (true, d))).
Proof.
  intros Hok. step. split_and!; [done|done| |by apply put_hit]. split; [by apply put_ok|].
  intros ref' x. by apply put_holds.
Qed.

Lemma Cache_Get_steps ref w :
  cache_ok (w_cache w) →
  steps (Cache_Get env ref) w (λ e l w', (∃ t, l = [CClock t; CGet ref e]) ∧ w_temps w' = w_temps w ∧
    shrinks w w' ∧ ∀ entry, e = Some entry →
      ∃ d, cache_holds (w_cache w') ref = Some (ae_ScanClean entry, d) ∧
           cache_file (w_cache w') (ae_ArtifactPath entry) = Some d).
Proof.
  intros Hok. unfold Cache_Get. run. split_and!; [by eexists|done| |intros entry; by apply get_hit].
  split; [by apply get_ok|]. intros ref' x. by apply get_holds.
Qed.

(** How a miss that reached the cache ends. *)
Definition stored id ref sc d w l w' : Prop :=
  w_temps w' = w_temps w ∧ adds ref d w w' ∧ ∃ ev rs, ended id ref l ev rs ∧ verdict_ok ev rs ∧
    (is_stream (rs_Body rs) = true →
       ev_Verdict ev = VerdictPass ∧ ev_Gate ev = lastGate cfg ∧ ev_Reason ev = fr_Reason sc ∧ serves d rs ∧
       [CPut ref d true true; CRespond rs] `sublist_of` l).

Lemma stored_refused id ref sc d w l1 w1 l w' :
  adds ref d w w1 → w_temps w1 = w_temps w → quiet l1 → same w1 w' → refused id ref l →
  stored id ref sc d w (l1 ++ l) w'.
Proof.
  intros Ha Ht Hq [Hc' Ht'] (ev & rs & He & Hv & Hb). split; [congruence|]. split; [by eapply adds_same|].
  exists ev, rs. split; [by apply ended_quiet_app|]. split; [done|congruence].
Qed.

Lemma finish_stage_steps id ref start sc d w :
  cache_ok (w_cache w) →
  steps (finish_stage env cfg id ref (record env cfg id ref start) sc d) w
    (λ _ l w', stored id ref sc d w l w').
Proof.
  intros Hok. unfold finish_stage. step. step. step.
  eapply steps_seq; [by apply put_steps|]. intros put l1 w1 (-> & Ht1 & Ha1 & Hput). simpl in *.
  assert (adds ref d w w1) as Ha by exact Ha1.
  destruct put; simpl.
  2:{ eapply steps_mono; [apply cache_failed_steps|]. intros [] l w' [Hs Hr].
      apply (stored_refused _ _ _ _ _ [_; _] w1); auto with joei. }
  eapply steps_seq; [apply Cache_Get_steps, Ha|]. intros e l2 w2 ([t ->] & Ht2 & Hs2 & He).
  pose proof (adds_shrinks _ _ _ _ _ Ha Hs2) as Ha2.
  destruct e as [entry|]; simpl.
  2:{ eapply steps_mono; [apply cache_failed_steps|]. intros [] l w' [Hs Hr].
      apply (stored_refused _ _ _ _ _ [_; _; _; _] w2); auto with joei. congruence. }
  eapply steps_mono; [apply serve_record_steps; [apply Ha2|done|by left]|].
  intros [] l w' (Ht3 & Hs3 & ev & rs & Hend & Hv & Hserve).
  destruct (He entry eq_refl) as (d' & Hh & Hf). apply (proj2 Hs2) in Hh.
  rewrite (Hput eq_refl) in Hh. simplify_eq.
  split; [congruence|]. split; [by eapply adds_shrinks|]. exists ev, rs.
  split; [apply (ended_quiet_app _ _ [_; _; _; _]); auto with joei|]. split; [done|].
  intros Hb. destruct (Hserve Hb) as (? & ? & ? & Hin & d2 & Hd2 & ?). simplify_eq.
  split_and!; [done..|].
  by apply sublist_cons, sublist_skip, sublist_cons, sublist_cons.
Qed.

(** ** A miss *)

(** The supply-chain gate of an adapter that reads the publish date off the
    download. *)
Definition deferred_passed ref (hdr : Header) (sc : FilterResult) l : Prop :=
  ∀ extract, MetadataFromHeader adapter = Some extract →
    fr_Allowed sc = true ∧ [CFilter ref (extract hdr) sc] `sublist_of` l.

(** Every configured gate let the artifact through, in order, the malware
    gate on exactly these bytes: supply chain (unless deferred), CVE and
    policy, download, deferred supply chain, malware. *)
Definition gated (r : Request) ref (d : bytes) (sc : FilterResult) l : Prop :=
  ∃ hdr l1 l2 l3 l4, l = l1 ++ l2 ++ l3 ++ l4 ∧
    supply_passed ref sc l1 ∧ cve_passed ref l2 ∧ fetched (UpstreamURLs adapter r) d hdr l3 ∧
    deferred_passed ref hdr sc l4 ∧ av_passed d l4.

(** How a miss ends: refused with nothing new in the cache, or through the
    gates and into the cache. *)
Definition miss_end id (r : Request) ref w l w' : Prop :=
  (w_cache w' = w_cache w ∧ refused id ref l) ∨
  ∃ d sc lg lf, l = lg ++ lf ∧ quiet lg ∧ gated r ref d sc lg ∧ stored id ref sc d w lf w'.

Lemma gate_download_steps id r ref start sc d hdr l1 l2 l3 w :
  cache_ok (w_cache w) → quiet l1 → quiet l2 → quiet l3 →
  supply_passed ref sc l1 → cve_passed ref l2 → fetched (UpstreamURLs adapter r) d hdr l3 →
  steps (gate_download env cfg id ref (record env cfg id ref start) sc d hdr) w
    (λ _ l w', w_temps w' = w_temps w ∧ miss_end id r ref w ((l1 ++ l2 ++ l3) ++ l) w').
Proof.
  intros Hok Hq1 Hq2 Hq3 Hs1 Hc2 Hf3. unfold gate_download. apply steps_bind.
  assert (∀ l4 l w1 w', quiet l4 → same w w1 → same w1 w' → refused id ref l →
    w_temps w' = w_temps w ∧ miss_end id r ref w ((l1 ++ l2 ++ l3) ++ l4 ++ l) w') as Href.
  { intros l4 l w1 w' Hq4 [Hc4 Ht4] [Hc5 Ht5] Hr. split; [congruence|]. left. split; [congruence|].
    rewrite app_assoc. apply refused_quiet_app; auto with joei. }
  assert (∀ sc' l4 w1, quiet l4 → same w w1 → supply_passed ref sc' l1 → deferred_passed ref hdr sc' l4 →
    steps (clean <- av_stage env cfg id ref (record env cfg id ref start) d;;
           if clean : bool then finish_stage env cfg id ref (record env cfg id ref start) sc' d
           else ret_st tt) w1
      (λ _ l w', w_temps w' = w_temps w ∧ miss_end id r ref w ((l1 ++ l2 ++ l3) ++ l4 ++ l) w')) as Hrest.
  { intros sc' l4 w1 Hq4 Hw1 Hsp Hdp. eapply steps_seq; [apply av_stage_steps|].
    intros clean l5 w2 [Hw2 Hav]. destruct clean.
    - destruct Hav as [Hq5 Hav]. destruct Hw1 as [Hc1 Ht1], Hw2 as [Hc2' Ht2].
      eapply steps_mono; [apply finish_stage_steps; congruence|].
      intros [] l6 w3 Hst. pose proof Hst as (Ht3 & _). split; [congruence|]. right.
      exists d, sc', (l1 ++ l2 ++ l3 ++ l4 ++ l5), l6. split_and!.
      + by rewrite !app_assoc.
      + auto 10 with joei.
      + exists hdr, l1, l2, l3, (l4 ++ l5). split_and!; [done..| |].
        * intros ext E. destruct (Hdp ext E). split; [done|]. by apply sublist_inserts_r.
        * intros E. destruct (Hav E) as (av & ? & ? & ?). exists av. split_and!; [done..|].
          by apply sublist_inserts_l.
      + unfold stored, adds in *. by rewrite Hc2', Hc1, Ht2, Ht1 in Hst.
    - apply steps_ret. rewrite app_nil_r. by apply (Href l4 l5 w1). }
  destruct (MetadataFromHeader adapter) as [extract|] eqn:Hdefer.
  - eapply steps_mono; [apply checkSupplyChain_steps|]. intros [sc'|] l4 w1 [Hw1 Hres].
    + destruct Hres as (Hq4 & Hsc & ->). apply Hrest; [done|done| |].
      * unfold supply_passed. congruence.
      * intros ext E. rewrite Hdefer in E. by simplify_eq.
    + apply steps_ret. rewrite app_nil_r. apply (Href [] l4 w w1); [apply quiet_nil|done..].
  - apply steps_ret. apply (Hrest sc [] w); [apply quiet_nil|done|done|]. unfold deferred_passed. congruence.
Qed.

Lemma miss_end_tail id r ref w l w' :
  miss_end id r ref w l w' →
  miss_end id r ref w (l ++ [CRemoveTemp])
    (mkWorld (w_cache w') (w_trace w' ++ [CRemoveTemp]) (w_header w') (w_temps w')).
Proof.
  assert (quiet [CRemoveTemp]) as Hq by auto with joei.
  intros [[Hc Hr]|(d & sc & lg & lf & -> & Hqg & Hg & Ht & Ha & ev & rs & He & Hv & Hs)].
  - left. split; [done|]. by apply refused_app_quiet.
  - right. exists d, sc, lg, (lf ++ [CRemoveTemp]). rewrite app_assoc. split_and!; [done..|].
    split; [done|]. split; [exact Ha|]. exists ev, rs.
    split; [by apply ended_app_quiet|]. split; [done|]. intros Hb.
    destruct (Hs Hb) as (? & ? & ? & ? & ?). split_and!; [done..|by apply sublist_inserts_r].
Qed.

Lemma serve_miss_steps id r ref start w :
  cache_ok (w_cache w) →
  steps (serve_miss url_Parse url_String env cfg id r ref (record env cfg id ref start)) w
    (λ _ l w', w_temps w' = w_temps w ∧ miss_end id r ref w l w').
Proof.
  intros Hok. unfold serve_miss. eapply steps_seq; [apply supply_stage_steps|].
  intros [sc|] l1 w1 [[Hc1 Ht1] H1].
  2:{ apply steps_ret. rewrite app_nil_r. split; [done|]. by left. }
  destruct H1 as [Hq1 Hs1]. eapply steps_seq; [apply cve_stage_steps|].
  intros [] l2 w2 [[Hc2 Ht2] H2].
  2:{ apply steps_ret. rewrite app_nil_r. split; [congruence|]. left. split; [congruence|].
      by apply refused_quiet_app. }
  destruct H2 as [Hq2 Hp2]. eapply steps_seq; [apply download_stage_steps|].
  intros [[d hdr]|] l3 w3 [Hc3 H3].
  2:{ apply steps_ret. rewrite app_nil_r. destruct H3 as [Hr3 Ht3]. split; [congruence|].
      left. split; [congruence|]. rewrite app_assoc. apply refused_quiet_app; auto with joei. }
  destruct H3 as (Hq3 & Ht3 & Hf3).
  eapply steps_seq; [apply (gate_download_steps id r ref start sc d hdr l1 l2 l3); try done; congruence|].
  intros [] l4 w4 [Ht4 Hend]. unfold remove_temp. run.
  split; [lia|].
  assert (miss_end id r ref w ((l1 ++ l2 ++ l3) ++ l4) (mkWorld (w_cache w4) (w_trace w4) (w_header w4) (w_temps w))) as Hm.
  { destruct Hend as [[Hc Hr]|(d' & sc' & lg & lf & -> & Hqg & Hg & Ht & Ha & Hend)].
    - left. split; [simpl; congruence|done].
    - right. exists d', sc', lg, lf. split_and!; [done..|]. split; [done|]. split; [|done].
      unfold adds in *. simpl. by rewrite Hc3, Hc2, Hc1 in Ha. }
  apply miss_end_tail in Hm. rewrite !app_assoc in *. unfold miss_end, stored, adds in *. simpl in *.
  replace (w_temps w4 + -1) with (w_temps w) by lia. exact Hm.
Qed.

(** ** Re-checks and hits *)

(** The traces of one gate's re-check. *)
Inductive cve_trace (now : Z) ref : option recheckOutcome → list Call → Prop :=
| cve_fresh : cve_trace now ref None []
| cve_unreachable : cve_trace now ref None [CCVEScan ref None]
| cve_clean sr dec ok : pd_Allowed dec = true →
    cve_trace now ref None [CCVEScan ref (Some sr); CPolicy ref sr dec; CMarkCVE ref now ok]
| cve_blocked sr dec ok : pd_Allowed dec = false →
    cve_trace now ref (Some (mkRecheck GateCVE (blockedBy dec) dec no_av))
      [CCVEScan ref (Some sr); CPolicy ref sr dec; CInvalidate ref ok].

Inductive malware_trace (now : Z) ref (path : string) : option recheckOutcome → list Call → Prop :=
| malware_fresh : malware_trace now ref path None []
| malware_unreachable d : malware_trace now ref path None [COpen path d; CAVScan d None]
| malware_incomplete d av : av_Incomplete av = true →
    malware_trace now ref path None [COpen path d; CAVScan d (Some av)]
| malware_clean d av ok : av_Clean av = true → av_Incomplete av = false →
    malware_trace now ref path None [COpen path d; CAVScan d (Some av); CMarkMalware ref now ok]
| malware_found d av ok : av_Clean av = false → av_Incomplete av = false →
    malware_trace now ref path (Some (mkRecheck GateMalware "malware" no_decision av))
      [COpen path d; CAVScan d (Some av); CInvalidate ref ok].

(** Nothing new in the cache, and no file touched unless blocked. *)
Definition rechecked (out : option recheckOutcome) w w' : Prop :=
  w_temps w' = w_temps w ∧ shrinks w w' ∧
  (out = None → ∀ p, cache_file (w_cache w') p = cache_file (w_cache w) p).

Lemma rechecked_refl w : cache_ok (w_cache w) → rechecked None w w.
Proof. intros. split; [done|]. split; [by apply shrinks_refl|done]. Qed.

Lemma rechecked_same out w w' :
  cache_ok (w_cache w) → w_cache w' = w_cache w → w_temps w' = w_temps w → rechecked out w w'.
Proof. intros ? E ?. split; [done|]. split; [by apply shrinks_same|]. by rewrite E. Qed.

Lemma recheck_cve_steps now ref entry w :
  cache_ok (w_cache w) →
  steps (recheck_cve env cfg now ref entry) w (λ out l w', rechecked out w w' ∧
    cve_trace now ref out l ∧ (cve_due cfg now entry = false → l = [])).
Proof.
  intros Hok. unfold recheck_cve, cve_Scan, policy_Evaluate, evictRechecked, rechecked, shrinks.
  destruct (cve_due cfg now entry); [|run; split_and!; auto using cve_trace].
  step. step. destruct a as [sr|]; [|run; split_and!; auto; by eauto using cve_trace].
  step. step. destruct (pd_Allowed a) eqn:Hal; simpl; run;
    (split_and!; [done|auto using mark_cve_ok, invalidate_ok| | |by eauto using cve_trace|done]).
  - intros ref' x. by rewrite mark_cve_holds.
  - intros _ p. apply mark_cve_file.
  - intros ref' x. by apply invalidate_holds.
  - done.
Qed.

Lemma recheck_malware_steps now ref entry w :
  cache_ok (w_cache w) →
  steps (recheck_malware env cfg now ref entry) w (λ out l w', rechecked out w w' ∧
    malware_trace now ref (ae_ArtifactPath entry) out l ∧ (malware_due cfg now entry = false → l = [])).
Proof.
  intros Hok. unfold recheck_malware, av_Scan, open_artifact, evictRechecked, rechecked, shrinks.
  destruct (malware_due cfg now entry); [|run; split_and!; auto using malware_trace].
  step. step. pose proof (open_ok (ae_ArtifactPath entry) _ Hok) as Hok1.
  pose proof (open_holds (ae_ArtifactPath entry) (w_cache w)) as Hh.
  pose proof (open_file (ae_ArtifactPath entry) (w_cache w)) as Hf.
  destruct (cache_Open (ae_ArtifactPath entry) (w_cache w)) as [d c1]; simpl in *.
  assert (∀ ref' x, cache_holds c1 ref' = Some x → cache_holds (w_cache w) ref' = Some x) as Hh'
    by (intros; by rewrite <- Hh).
  step. step. destruct a as [av|]; [|run; split_and!; auto; by eauto using malware_trace].
  destruct (av_Incomplete av) eqn:Hi; [run; split_and!; auto; by eauto using malware_trace|].
  destruct (av_Clean av) eqn:Hcl; simpl; run;
    (split_and!; [done|auto using mark_malware_ok, invalidate_ok| | |by eauto using malware_trace|done]).
  - intros ref' x. rewrite mark_malware_holds by done. auto.
  - intros _ p. rewrite mark_malware_file. apply Hf.
  - intros ref' x Hx. apply Hh'. by apply invalidate_holds in Hx.
  - done.
Qed.

(** The trace of a flight of re-checks. *)
Definition flight_trace ref (entry : ArtifactEntry) (out : option recheckOutcome) l : Prop :=
  ∃ now out1 l1 out2 l2, l = CClock now :: l1 ++ l2 ∧
    cve_trace now ref out1 l1 ∧ (cve_due cfg now entry = false → l1 = []) ∧
    malware_trace now ref (ae_ArtifactPath entry) out2 l2 ∧ (malware_due cfg now entry = false → l2 = []) ∧
    out = (match out1 with Some o => Some o | None => out2 end) ∧ (is_Some out1 → l2 = []).

Lemma runRechecks_steps ref entry w :
  cache_ok (w_cache w) →
  steps (runRechecks env cfg ref entry) w (λ out l w', rechecked out w w' ∧ flight_trace ref entry out l).
Proof.
  intros Hok. unfold runRechecks. step. step. step.
  eapply steps_seq; [by apply recheck_cve_steps|]. intros out1 l1 w1 ((Ht1 & Hs1 & Hf1) & Htr1 & Hd1).
  destruct out1 as [o|].
  - run. split; [done|]. exists a, (Some o), l1, None, []. split_and!; [done..|apply malware_fresh|done|done|done].
  - eapply steps_mono; [apply recheck_malware_steps, Hs1|].
    intros out2 l2 w2 ((Ht2 & Hs2 & Hf2) & Htr2 & Hd2). split.
    + split_and!; [simpl in *; congruence|by eapply shrinks_trans|].
      intros E p. rewrite Hf2 by done. by apply Hf1.
    + exists a, None, l1, out2, l2. split_and!; [done..|]. by intros [].
Qed.

Lemma cve_trace_quiet now ref out l : cve_trace now ref out l → quiet l.
Proof. destruct 1; auto with joei. Qed.

Lemma malware_trace_quiet now ref p out l : malware_trace now ref p out l → quiet l.
Proof. destruct 1; auto with joei. Qed.

Lemma flight_trace_quiet ref entry out l : flight_trace ref entry out l → quiet l.
Proof.
  intros (now & out1 & l1 & out2 & l2 & -> & H1 & _ & H2 & _).
  apply cve_trace_quiet in H1. apply malware_trace_quiet in H2. auto with joei.
Qed.

Lemma flight_trace_gate ref entry o l :
  flight_trace ref entry (Some o) l → ro_gate o = GateCVE ∨ ro_gate o = GateMalware.
Proof.
  intros (now & out1 & l1 & out2 & l2 & -> & H1 & _ & H2 & _ & E & _).
  destruct out1; simplify_eq; [inversion H1|inversion H2]; subst; auto.
Qed.

Lemma recheckExpired_steps id ref entry start w :
  cache_ok (w_cache w) →
  steps (recheckExpired env cfg id ref entry (record env cfg id ref start)) w (λ res l w',
    rechecked (if res : bool then Some (mkRecheck "" "" no_decision no_av) else None) w w' ∧
    if res : bool then refused id ref l else quiet l).
Proof.
  intros Hok. unfold recheckExpired, recheckDue. step. step. step. step. apply steps_ret.
  destruct (cve_due cfg a entry || malware_due cfg a entry); simpl.
  2:{ run. split; [by apply rechecked_same|auto with joei]. }
  step. apply steps_ask; [done|]. intros fl ->. step.
  eapply (steps_mono _ _ _ (λ out l w', rechecked out w w' ∧ quiet l ∧
    ∀ o, out = Some o → ro_gate o = GateCVE ∨ ro_gate o = GateMalware)).
  { destruct (env_Flight env _ _) as [out|] eqn:Hfl.
    - apply steps_ret. split_and!; [by apply rechecked_same|done..|intros o ->; by eapply Hflight].
    - eapply steps_mono; [by apply runRechecks_steps|]. intros out l w' [Hr Htr].
      split_and!; [done|by eapply flight_trace_quiet|]. intros o ->. by eapply flight_trace_gate. }
  intros [o|] l w1 ((Ht1 & Hs1 & Hf1) & Hq1 & Hg).
  2:{ run. split; [done|]. auto 10 with joei. }
  assert (steps (if ro_gate o =s? GateCVE then
                   _ <- record env cfg id ref start VerdictBlock GateCVE (pd_Reason (ro_decision o)) StatusForbidden
                     (fun ev => with_cves (pd_Findings (ro_decision o)) (with_blocked_by [ro_blockedBy o] ev));;
                   writeCVEBlockedResponse id ref (ro_decision o)
                 else if ro_gate o =s? GateMalware then
                   _ <- record env cfg id ref start VerdictBlock GateMalware "malware_found" StatusForbidden
                     (fun ev => with_malware (av_Engine (ro_av o)) (av_Signature (ro_av o))
                                    (with_blocked_by ["malware"] ev));;
                   writeMalwareBlockedResponse id ref (av_Engine (ro_av o)) (av_Signature (ro_av o))
                 else ret_st tt) w1 (λ _ l w', same w1 w' ∧ refused id ref l)) as Hend.
  { destruct (Hg o eq_refl) as [-> | ->]; simpl; (apply refuse_steps; [done|apply writeJSON_writes|auto]). }
  eapply steps_seq; [exact Hend|]. intros [] l2 w2 [[Hc2 Ht2] Hr2]. apply steps_ret. rewrite app_nil_r. split.
  - split_and!; [simpl in *; congruence| |done]. eapply shrinks_trans; [exact Hs1|].
    apply shrinks_same; [apply Hs1|done].
  - apply (refused_quiet_app _ _ (_ :: _ :: l)); auto 10 with joei.
Qed.

Lemma serve_hit_steps id ref start entry d w :
  cache_ok (w_cache w) →
  cache_holds (w_cache w) ref = Some (ae_ScanClean entry, d) →
  cache_file (w_cache w) (ae_ArtifactPath entry) = Some d →
  steps (serve_hit env cfg id ref (record env cfg id ref start) entry) w (λ _ l w',
    w_temps w' = w_temps w ∧ shrinks w w' ∧ ∃ ev rs, ended id ref l ev rs ∧ verdict_ok ev rs ∧
      (is_stream (rs_Body rs) = true →
         ev_Verdict ev = VerdictCache ∧ ae_ScanClean entry = true ∧ serves d rs)).
Proof.
  intros Hok Hh Hf. unfold serve_hit. destruct (ae_ScanClean entry) eqn:Hcl; simpl.
  2:{ eapply steps_mono; [apply refuse_steps; [done|apply writeError_writes|auto]|].
      intros [] l w' [[Hc Ht] (ev & rs & He & Hv & Hb)].
      split; [done|]. split; [by apply shrinks_same|]. exists ev, rs. split_and!; [done..|congruence]. }
  eapply steps_seq; [by apply recheckExpired_steps|].
  intros [] l1 w1 [(Ht1 & Hs1 & Hf1) H1].
  - apply steps_ret. rewrite app_nil_r. split; [done|]. split; [done|].
    destruct H1 as (ev & rs & He & Hv & Hb). exists ev, rs. split_and!; [done..|congruence].
  - eapply steps_mono; [apply serve_record_steps; [apply Hs1|done|by right]|].
    intros [] l2 w2 (Ht2 & Hs2 & ev & rs & He & Hv & Hserve). split; [congruence|].
    split; [by eapply shrinks_trans|]. exists ev, rs. split; [by apply ended_quiet_app|]. split; [done|].
    intros Hb. destruct (Hserve Hb) as (? & _ & _ & _ & d' & Hd' & ?).
    rewrite Hf1 in Hd' by done. simplify_eq. done.
Qed.

(** ** A whole request *)

(** A part of [l] in which every gate let [d] through. *)
Definition gated_in (r : Request) ref (d : bytes) l : Prop :=
  ∃ sc pre lg post, l = pre ++ lg ++ post ∧ gated r ref d sc lg.

Lemma gated_in_app r ref d l l1 l2 : gated_in r ref d l → gated_in r ref d (l1 ++ l ++ l2).
Proof.
  intros (sc & pre & lg & post & -> & Hg). exists sc, (l1 ++ pre), lg, (post ++ l2).
  by rewrite <- !app_assoc.
Qed.

(** Where the bytes of an artifact response come from. *)
Definition served_from (r : Request) ref w l (ev : Event) (rs : Response) : Prop :=
  (ev_Verdict ev = VerdictCache ∧ ∃ d, cache_holds (w_cache w) ref = Some (true, d) ∧ serves d rs) ∨
  (ev_Verdict ev = VerdictPass ∧ ev_Gate ev = lastGate cfg ∧ ∃ d sc pre lg post,
     l = pre ++ lg ++ post ∧ gated r ref d sc lg ∧ ev_Reason ev = fr_Reason sc ∧
     [CPut ref d true true; CRespond rs] `sublist_of` post ∧ serves d rs).

Definition request_end id (r : Request) ref w l w' : Prop :=
  w_temps w' = w_temps w ∧ cache_ok (w_cache w') ∧
  (∀ ref' x, cache_holds (w_cache w') ref' = Some x →
     cache_holds (w_cache w) ref' = Some x ∨ (Key ref' = Key ref ∧ gated_in r ref x.2 l)) ∧
  ∃ ev rs, ended id ref l ev rs ∧ verdict_ok ev rs ∧
    (is_stream (rs_Body rs) = true → served_from r ref w l ev rs).

Lemma serve_artifact_steps id r ref w :
  cache_ok (w_cache w) →
  steps (serve_artifact url_Parse url_String env cfg id r ref) w
    (λ _ l w', request_end id r ref w l w').
Proof.
  intros Hok. unfold serve_artifact. step. step. step.
  eapply steps_seq; [by apply Cache_Get_steps|]. intros found l1 w1 ([t ->] & Ht1 & [Hok1 Hs1] & Hhit).
  simpl in Hs1, Ht1. destruct found as [entry|].
  - destruct (Hhit entry eq_refl) as (d & Hh & Hf).
    eapply steps_mono; [by apply serve_hit_steps|].
    intros [] l w' (Ht & [Hok' Hs] & ev & rs & He & Hv & Hserve).
    split; [congruence|]. split; [done|]. split; [intros ref' x Hx; left; auto|].
    exists ev, rs. split; [apply (ended_quiet_app _ _ [_; _; _]); auto with joei|]. split; [done|].
    intros Hb. destruct (Hserve Hb) as (? & Hcl & ?). left. split; [done|]. exists d.
    split; [|done]. rewrite Hcl in Hh. auto.
  - eapply steps_mono; [by apply serve_miss_steps|]. intros [] l w' [Ht Hend].
    set (l0 := [CClock a; CClock t; CGet ref None]).
    assert (quiet l0) as Hq0 by (unfold l0; auto with joei).
    change (CClock a :: [CClock t; CGet ref None] ++ l) with (l0 ++ l).
    destruct Hend as [[Hc Hr]|(d & sc & lg & lf & -> & Hqg & Hg & _ & [Hok' Ha] & ev & rs & He & Hv & Hserve)].
    + split; [congruence|]. split; [congruence|]. split; [rewrite Hc; auto|].
      destruct Hr as (ev & rs & He & Hv & Hb). exists ev, rs.
      split; [by apply ended_quiet_app|]. split; [done|congruence].
    + split; [congruence|]. split; [done|]. split.
      * intros ref' x Hx. destruct (Ha ref' x Hx) as [?|[-> ?]]; [auto|]. right. split; [done|].
        by exists sc, l0, lg, lf.
      * exists ev, rs. split; [rewrite app_assoc; apply ended_quiet_app; auto with joei|]. split; [done|].
        intros Hb. destruct (Hserve Hb) as (? & ? & ? & ? & ?). right. split_and!; [done..|].
        exists d, sc, l0, lg, lf. done.
Qed.
End Stages.
