(* ===== verification/HandlerSpec.v ===== *)
(** * The promises of the gating proxy

    Theorems on whole requests, on sequences of them, on the re-checks, on the
    download and on forwarding; then a run of the handler over the local cache
    with the real filter and policy, on which they are all instantiated. *)
From S2P Require Import Prelude GoStd Gate Supplychain Policy Cache CircuitBreaker Upstream HTTP Handler HandlerProps.
Local Open Scope Z_scope.

(** What the handler relies on of the world outside (see [HandlerProps]), and
    of its own configuration: a size cap short of the largest int64, as every
    multiple of a mebibyte is. *)
Record env_ok (env : Env) (cfg : HandlerConfig) : Prop := mkEnvOk {
  throttles_ok : ∀ tr, lookup_ok (env_Throttles env tr);
  flights_ok : ∀ tr key out, env_Flight env tr key = Some (Some out) →
    ro_gate out = GateCVE ∨ ro_gate out = GateMalware;
  cap_ok : MaxArtifactBytes cfg < max_int64;
}.

Section Spec.
Context {C : Type} {AC : ArtifactCache C} {L : ArtifactCacheLaws C}.
Context (url_Parse : string -> option url) (url_String : url -> string).
Context (env : Env) (cfg : HandlerConfig).
Implicit Types (w : World C) (ref : PackageRef) (l : list Call).

Notation serve := (serve_artifact url_Parse url_String env cfg).

Lemma serve_end id r ref w :
  env_ok env cfg → cache_ok (w_cache w) →
  ∃ l, w_trace (serve id r ref w).2 = w_trace w ++ l ∧ consistent env (w_trace w) l ∧
       request_end cfg id r ref w l (serve id r ref w).2.
Proof. intros [] Hok. by apply serve_artifact_steps. Qed.

(** C3: every artifact request ends in exactly one outcome and one response,
    whatever the collaborators answer: the outcome goes to the recorder if
    there is one, carries the request's identity and the response's status;
    PASS and CACHE come with status 200 and artifact bytes, BLOCK with 403
    or 423, an error with a 4xx or 5xx status, and neither with any
    artifact byte. *)
Theorem one_outcome_per_request id r ref w :
  env_ok env cfg → cache_ok (w_cache w) →
  ∃ l ev rs, w_trace (serve id r ref w).2 = w_trace w ++ l ∧
    ended cfg id ref l ev rs ∧ verdict_ok ev rs.
Proof.
  intros He Hok. destruct (serve_end id r ref w He Hok) as (l & Hl & _ & _ & _ & _ & ev & rs & ? & ? & _).
  by exists l, ev, rs.
Qed.

(** C2: an artifact request answers with artifact bytes only if they came
    out of the cache as held clean under the reference, or went through
    every configured gate in order during this very request - supply chain,
    CVE scan and policy, download from one of the adapter's mirrors under
    the size cap, deferred supply chain, and a clean and complete malware
    scan of exactly those bytes - and were put in the cache before the
    response. *)
Theorem served_only_through_gates id r ref w :
  env_ok env cfg → cache_ok (w_cache w) →
  ∃ l, w_trace (serve id r ref w).2 = w_trace w ++ l ∧
    ∀ rs, rs ∈ responses l → is_stream (rs_Body rs) = true →
      ∃ ev, ev ∈ outcomes l ∧ served_from cfg r ref w l ev rs.
Proof.
  intros He Hok. destruct (serve_end id r ref w He Hok) as (l & Hl & _ & _ & _ & _ & ev & rs & Hend & _ & Hs).
  exists l. split; [done|]. intros rs' Hin Hb. destruct Hend as (Ho & _ & Hr & _).
  rewrite Hr in Hin. apply list_elem_of_singleton in Hin as ->.
  exists ev. rewrite Ho. split; [by left|auto].
Qed.

(** no temporary file outlives its request, on any path. *)
Theorem temp_files_removed id r ref w :
  env_ok env cfg → cache_ok (w_cache w) → w_temps (serve id r ref w).2 = w_temps w.
Proof. intros He Hok. by destruct (serve_end id r ref w He Hok) as (l & _ & _ & ? & _). Qed.

(** ** Sequences of requests *)

(** One request after another, each with a response header of its own. *)
Definition serve_all (reqs : list (string * Request * PackageRef)) w : World C :=
  foldl (fun w '(id, r, ref) =>
           (serve id r ref (mkWorld (w_cache w) (w_trace w) ∅ (w_temps w))).2) w reqs.

(** Gated somewhere in a trace, under a reference with the same cache key. *)
Definition gated_before ref (d : bytes) (tr : list Call) : Prop :=
  ∃ r' ref', Key ref' = Key ref ∧ gated_in cfg r' ref' d tr.

Definition content_gated w : Prop :=
  cache_ok (w_cache w) ∧
  ∀ ref x, cache_holds (w_cache w) ref = Some x → gated_before ref x.2 (w_trace w).

Lemma gated_before_app ref d tr l : gated_before ref d tr → gated_before ref d (tr ++ l).
Proof.
  intros (r' & ref' & ? & Hg). exists r', ref'. split; [done|]. by apply (gated_in_app _ _ _ _ _ [] l) in Hg.
Qed.

Lemma serve_content_gated id r ref w :
  env_ok env cfg → content_gated w → content_gated (serve id r ref w).2.
Proof.
  intros He [Hok Hg]. destruct (serve_end id r ref w He Hok) as (l & Hl & _ & _ & Hok' & Hc & _).
  split; [done|]. intros ref' x Hx. rewrite Hl. destruct (Hc ref' x Hx) as [Hx'|[HK Hgi]].
  - by apply gated_before_app, Hg.
  - exists r, ref. split; [done|]. apply (gated_in_app _ _ _ _ _ (w_trace w) []) in Hgi.
    by rewrite app_nil_r in Hgi.
Qed.

Lemma serve_all_content_gated reqs w :
  env_ok env cfg → content_gated w → content_gated (serve_all reqs w).
Proof.
  intros He. revert w. induction reqs as [|[[id r] ref] reqs IH]; intros w Hw; simpl; [done|].
  apply IH. by apply serve_content_gated.
Qed.

(** C1: starting from an empty cache, whatever requests came before and
    whatever they met - hits, blocks, scanner failures, evictions, failing
    system calls - the bytes of any artifact response passed every
    configured gate earlier in the trace, under a reference with the same
    cache key. *)
Theorem served_bytes_were_gated reqs id r ref w0 :
  env_ok env cfg → cache_ok (w_cache w0) → (∀ ref', cache_holds (w_cache w0) ref' = None) →
  let w := serve_all reqs w0 in
  ∃ l, w_trace (serve id r ref w).2 = w_trace w ++ l ∧
    ∀ rs, rs ∈ responses l → is_stream (rs_Body rs) = true →
      ∃ d, serves d rs ∧ gated_before ref d (w_trace (serve id r ref w).2).
Proof.
  intros He Hok Hempty. cbv zeta. set (w := serve_all reqs w0).
  assert (content_gated w) as [Hokw Hg].
  { apply serve_all_content_gated; [done|]. split; [done|]. intros ref' x. by rewrite Hempty. }
  destruct (serve_end id r ref w He Hokw) as (l & Hl & _ & _ & _ & _ & ev & rs & Hend & _ & Hs).
  exists l. split; [done|]. intros rs' Hin Hb. destruct Hend as (_ & _ & Hr & _).
  rewrite Hr in Hin. apply list_elem_of_singleton in Hin as ->. rewrite Hl.
  destruct (Hs Hb) as [(_ & d & Hh & Hd)|(_ & _ & d & sc & pre & lg & post & -> & Hgd & _ & _ & Hd)];
    exists d; (split; [done|]).
  - apply gated_before_app. by apply (Hg ref (true, d)).
  - exists r, ref. split; [done|]. exists sc, (w_trace w ++ pre), lg, post. by rewrite !app_assoc.
Qed.

(** ** With the real filter and policy *)

Lemma Engine_Evaluate_allowed e ref sr :
  pd_Allowed (Engine_Evaluate e ref sr) = true →
  matchesIndex (denylist e) ref = false ∧
  (matchesIndex (allowlist e) ref = true ∨ cveBlock e = false ∨
   ∀ f, f ∈ sr_Findings sr → AtLeast (cf_Severity f) (blockOn e) = false).
Proof.
  unfold Engine_Evaluate. destruct (matchesIndex (denylist e) ref); simpl; [done|].
  destruct (matchesIndex (allowlist e) ref); simpl; [auto|]. destruct (cveBlock e); simpl; [|auto].
  intros Hf. split; [done|]. right. right. intros f Hin.
  destruct (AtLeast (cf_Severity f) (blockOn e)) eqn:Hat; [|done].
  destruct (List.filter _ (sr_Findings sr)) as [|f' fs] eqn:Hfl; [|done].
  assert (In f []) as []. rewrite <- Hfl. apply filter_In. by rewrite <- list_elem_of_In.
Qed.

Lemma Filter_Check_released f now ref meta :
  fr_Allowed (Filter_Check f now ref meta) = true →
  age_checked f ref → Mode (flt_cfg f) ≠ "dry_run" →
  0 ≤ MinAgeHours (flt_cfg f) ≤ max_min_age_hours →
  md_PublishedAt meta + MinAgeHours (flt_cfg f) * Hour ≤ now.
Proof.
  intros Hal Hage Hdry Hrange.
  destruct (Z.lt_ge_cases now (md_PublishedAt meta + MinAgeHours (flt_cfg f) * Hour)) as [Hlt|?]; [|done].
  assert (fr_Allowed (Filter_Check f now ref meta) = false); [|congruence].
  apply Filter_Check_blocked. split_and!; [done..|]. rewrite minAge_exact by done.
  pose proof (minAge_exact _ Hrange) as Hm.
  pose proof (wrap64_range (MinAgeHours (flt_cfg f) * Hour)) as Hr.
  change (in_int64 (minAge (flt_cfg f))) in Hr. rewrite Hm in Hr.
  apply time_sub_lt; [done|]. unfold Hour, Minute, Second, min_int64 in *. lia.
Qed.

(** The metadata that dates an artifact: what the registry answered just before
    the check or, of an adapter that dates a file by its download, what the
    header of the very download that is served says. *)
Definition dated_by (r : Request) ref (d : bytes) (meta : PackageMetadata) l : Prop :=
  match MetadataFromHeader (cfg_Adapter cfg) with
  | None => CMetadata ref (Ok meta) ∈ l
  | Some extract => ∃ hdr l3, meta = extract hdr ∧
      fetched cfg (UpstreamURLs (cfg_Adapter cfg) r) d hdr l3 ∧ l3 `sublist_of` l
  end.

Lemma sublist_pair {A} (a b : A) (l : list A) : [a; b] `sublist_of` l → ∃ p q, l = p ++ b :: q ∧ a ∈ p.
Proof.
  intros H. apply sublist_cons_l in H as (p1 & l1 & -> & H).
  assert (b ∈ l1) as (p2 & q & ->)%list_elem_of_split by (eapply elem_of_sublist; [|exact H]; by left).
  exists (p1 ++ a :: p2), q. split; [by rewrite <- app_assoc|]. rewrite elem_of_app. right. by left.
Qed.

(** The check of the supply chain, where it stands in the trace. *)
Lemma gated_filter r ref d sc l :
  gated cfg r ref d sc l →
  ∃ p q meta, l = p ++ CFilter ref meta sc :: q ∧ fr_Allowed sc = true ∧ dated_by r ref d meta p.
Proof.
  intros (hdr & l1 & l2 & l3 & l4 & -> & Hsup & _ & Hf & Hdp & _). unfold dated_by.
  destruct (MetadataFromHeader (cfg_Adapter cfg)) as [extract|] eqn:Hdefer.
  - destruct (Hdp extract Hdefer) as [Hsc Hin]. 
    assert (CFilter ref (extract hdr) sc ∈ l4) as (p & q & ->)%list_elem_of_split by (eapply elem_of_sublist; [|exact Hin]; by left).
    exists (l1 ++ l2 ++ l3 ++ p), q, (extract hdr). split; [by rewrite <- !app_assoc|]. split; [done|].
    exists hdr, l3. split_and!; [done..|]. apply sublist_inserts_l, sublist_inserts_l, sublist_inserts_r. done.
  - destruct (Hsup Hdefer) as (Hsc & meta & Hin). apply sublist_pair in Hin as (p & q & -> & Hm).
    exists p, (q ++ l2 ++ l3 ++ l4), meta. by rewrite <- app_assoc.
Qed.

(** C17: with the supply-chain filter and the policy engine wired in, and both
    scanners on, what the operator configures is enforced on every artifact
    that is downloaded and served.  The filter enforcing (its mode neither
    "off" nor "dry_run"), the package not among the approved entries and the
    minimum age a number of hours a Duration holds, its publish date - as
    the registry reported it earlier in this request or, for an adapter that
    reads it off the download, as the header of this download says - lies the
    minimum age or more before the reading of the clock at the filter's check.
    It is not denylisted; it is allowlisted, or CVE blocking is off, or no
    finding of its CVE scan reaches the threshold; and the bytes served were
    scanned clean and in full. *)
Theorem policy_enforced_on_download f e clock id r ref w :
  env_ok env cfg → cache_ok (w_cache w) →
  (∀ tr ref meta, env_Filter env tr ref meta = Filter_Check f (clock tr) ref meta) →
  (∀ tr ref sr, env_Policy env tr ref sr = Engine_Evaluate e ref sr) →
  cfg_CVEScanner cfg = true → cfg_Policy cfg = true → cfg_AVScanner cfg = true →
  age_checked f ref → Mode (flt_cfg f) ≠ "dry_run" → 0 ≤ MinAgeHours (flt_cfg f) ≤ max_min_age_hours →
  ∃ l, w_trace (serve id r ref w).2 = w_trace w ++ l ∧
    ∀ rs ev, rs ∈ responses l → is_stream (rs_Body rs) = true →
      ev ∈ outcomes l → ev_Verdict ev = VerdictPass →
      ∃ d meta sc sr av p q,
        l = p ++ CFilter ref meta sc :: q ∧ dated_by r ref d meta p ∧
        md_PublishedAt meta + MinAgeHours (flt_cfg f) * Hour ≤ clock (w_trace w ++ p) ∧
        CCVEScan ref (Some sr) ∈ l ∧ matchesIndex (denylist e) ref = false ∧
        (matchesIndex (allowlist e) ref = true ∨ cveBlock e = false ∨
         ∀ f, f ∈ sr_Findings sr → AtLeast (cf_Severity f) (blockOn e) = false) ∧
        serves d rs ∧ CAVScan (Some d) (Some av) ∈ l ∧ av_Clean av = true ∧ av_Incomplete av = false.
Proof.
  intros He Hok Hfil Hpol Hcve Hp Hav Hage Hdry Hrange.
  destruct (serve_end id r ref w He Hok) as (l & Hl & Hcons & _ & _ & _ & ev0 & rs0 & Hend & _ & Hs).
  exists l. split; [done|]. intros rs ev Hin Hb Hev Hpass. destruct Hend as (Ho & _ & Hr & _).
  rewrite Hr in Hin. rewrite Ho in Hev. apply list_elem_of_singleton in Hin as ->, Hev as ->.
  destruct (Hs Hb) as [[? _]|(_ & _ & d & sc & pre & lg & post & -> & Hg & _ & _ & Hd)]; [congruence|].
  destruct (gated_filter _ _ _ _ _ Hg) as (p & q & meta & Hlg & Hsc & Hdated).
  destruct Hg as (hdr & l1 & l2 & l3 & l4 & Hparts & _ & Hcv & _ & _ & Hmal).
  destruct (Hcv Hcve) as (sr & Hcv'). rewrite Hp in Hcv'. destruct Hcv' as (dec & Hdec & Hcv').
  destruct (Hmal Hav) as (av & Hclean & Hinc & Hmal').
  assert (∀ c, c ∈ lg → c ∈ pre ++ lg ++ post) as Hin by (intros c Hc; rewrite !elem_of_app; auto).
  assert (∀ c, c ∈ [CCVEScan ref (Some sr); CPolicy ref sr dec] → c ∈ lg) as H2.
  { intros c Hc. rewrite Hparts, !elem_of_app. right. left. by eapply elem_of_sublist. }
  assert (CAVScan (Some d) (Some av) ∈ lg) as H4.
  { rewrite Hparts, !elem_of_app. do 3 right. eapply elem_of_sublist; [|done]. by left. }
  destruct (consistent_elem _ _ _ (CPolicy ref sr dec) Hcons) as (p2 & q2 & _ & Hc2); [apply Hin, H2; set_solver|].
  cbn [ok_call] in Hc2. rewrite Hpol in Hc2. destruct (Engine_Evaluate_allowed e ref sr) as [Hdeny Hfind]; [by subst dec|].
  assert (pre ++ lg ++ post = (pre ++ p) ++ CFilter ref meta sc :: (q ++ post)) as El by (by rewrite Hlg, <- !app_assoc).
  rewrite El in Hcons. apply consistent_app in Hcons as [_ [Hc1 _]]. cbn [ok_call] in Hc1. rewrite Hfil in Hc1.
  exists d, meta, sc, sr, av, (pre ++ p), (q ++ post). split_and!; [done| | |apply Hin, H2; set_solver|done..|by apply Hin|done|done].
  - revert Hdated. unfold dated_by. destruct (MetadataFromHeader _).
    + intros (h & l3' & -> & Hf & Hsub). exists h, l3'. split_and!; [done..|by apply sublist_inserts_l].
    + intros Hm. rewrite elem_of_app. by right.
  - eapply Filter_Check_released; [by subst sc|done..].
Qed.

(** ** Re-checks *)

(** C18: a re-check of a cached entry blocks only on a definitive verdict, and
    a blocked entry is evicted: the CVE gate on a scan the policy refuses,
    the malware gate on a complete scan that is not clean.  Otherwise
    nothing is evicted and no file is touched, and a gate's timestamp
    moves to the flight's clock only after that gate passed - never after
    a scan that failed or was incomplete. *)
Theorem recheck_blocks_only_on_verdict ref entry w :
  cache_ok (w_cache w) →
  let out := (runRechecks env cfg ref entry w).1 in
  let w' := (runRechecks env cfg ref entry w).2 in
  ∃ l now, w_trace w' = w_trace w ++ CClock now :: l ∧
  (∀ o, out = Some o → (∃ ok, last l = Some (CInvalidate ref ok)) ∧
     ((ro_gate o = GateCVE ∧ pd_Allowed (ro_decision o) = false ∧
       ∃ sr, CCVEScan ref (Some sr) ∈ l ∧ CPolicy ref sr (ro_decision o) ∈ l) ∨
      (ro_gate o = GateMalware ∧ av_Clean (ro_av o) = false ∧ av_Incomplete (ro_av o) = false ∧
       ∃ d, CAVScan d (Some (ro_av o)) ∈ l))) ∧
  (out = None → (∀ ok, CInvalidate ref ok ∉ l) ∧
     (∀ ref' x, cache_holds (w_cache w') ref' = Some x → cache_holds (w_cache w) ref' = Some x) ∧
     (∀ p, cache_file (w_cache w') p = cache_file (w_cache w) p)) ∧
  (∀ ref' ts ok, CMarkCVE ref' ts ok ∈ l → ref' = ref ∧ ts = now ∧ CCVEScan ref None ∉ l ∧
     ∃ sr dec, CPolicy ref sr dec ∈ l ∧ pd_Allowed dec = true) ∧
  (∀ ref' ts ok, CMarkMalware ref' ts ok ∈ l → ref' = ref ∧ ts = now ∧
     ∃ d av, CAVScan d (Some av) ∈ l ∧ av_Clean av = true ∧ av_Incomplete av = false).
Proof.
  intros Hok. cbv zeta. destruct (runRechecks_steps env cfg ref entry w Hok) as (l0 & Hl & _ & (Ht & Hs & Hf) & Htr).
  destruct Htr as (now & out1 & l1 & out2 & l2 & -> & H1 & _ & H2 & _ & Hout & Hex).
  exists (l1 ++ l2), now. split; [done|].
  destruct H1 as [| |sr dec ok Hdec|sr dec ok Hdec]; simpl in Hout; rewrite Hout.
  4: { rewrite Hex by done. rewrite app_nil_r. split_and!.
    - intros o [= <-]. split; [by exists ok|]. left. split_and!; [done..|]. exists sr. set_solver.
    - done.
    - intros *. set_solver.
    - intros *. set_solver. }
  all: destruct H2 as [|d|d av Hi|d av ok' Hc Hi|d av ok' Hc Hi];
    (split_and!; [intros o Ho; simplify_eq; try (split; [by exists ok'|]; right; split_and!; [done..|exists d; set_solver])
                 |intros Ho; simplify_eq; try (split_and!; [intros ?; set_solver|apply Hs|by apply Hf])
                 |intros *; set_solver|intros *; set_solver]).
Qed.

(** ** Downloads *)

(** The HTTP calls of a trace, with their answers. *)
Definition dos l : list (OutRequest * DoResult) :=
  omap (fun c => match c with CDo out r => Some (out, r) | _ => None end) l.

Definition do_status (r : DoResult) : Z := match r with DoResp s _ _ _ _ => s | _ => 0 end.

(** The attempt that records a failed call. *)
Definition attempt_for (c : OutRequest * DoResult) (a : Attempt) : Prop :=
  URL a = SanitizeURL url_Parse url_String (out_URL c.1) ∧ Status a = do_status c.2 ∧
  ∃ e, AErr a = Some e ∧ errors_Is e SErrArtifactTooLarge = false.

Lemma dos_app l1 l2 : dos (l1 ++ l2) = dos l1 ++ dos l2.
Proof. apply omap_app. Qed.

Lemma tryDownload_do u w :
  MaxArtifactBytes cfg < max_int64 →
  steps env (tryDownload url_Parse url_String env cfg u) w (λ res l w', ∃ r,
    dos l = [(mkOut "GET" u ∅ [], r)] ∧ res.2 = do_status r ∧
    ∀ d, res.1.1 = Ok d → ∃ cl, r = DoResp 200 res.1.2 cl d false).
Proof.
  intros Hmax. unfold tryDownload, http_Do, remove_temp. step. step. destruct a as [e|e|status hdr cl body err].
  1-2: run; by eexists.
  step; [run; by eexists|]. step; [run; by eexists|]. step. step. step; [run; by eexists|].
  step. step. destruct (limited_body cfg body err) as [data rerr] eqn:Hlim.
  step. step. step; [run; by eexists|]. step; [run; by eexists|].
  run. eexists. split; [done|]. split; [done|]. intros d [= ->]. bool_to_prop. subst.
  destruct (limited_body_fits cfg Hmax _ _ _ Hlim) as (<- & -> & _); [done|]. by exists cl.
Qed.

Lemma download_loop urls atts w :
  MaxArtifactBytes cfg < max_int64 →
  steps env (downloadFromUpstreams url_Parse url_String env cfg urls atts) w (λ res l w',
    map (out_URL ∘ fst) (dos l) = take (length (dos l)) urls ∧
    match res.1 with
    | Ok (d, hdr) => ∃ failed u cl new, dos l = failed ++ [(mkOut "GET" u ∅ [], DoResp 200 hdr cl d false)] ∧
                      res.2 = atts ++ new ∧ Forall2 attempt_for failed new
    | Err e =>
        (errors_Is e SErrArtifactTooLarge = true ∧ ∃ failed c new, dos l = failed ++ [c] ∧
           res.2 = atts ++ new ∧ Forall2 attempt_for failed new) ∨
        (e = EAttempts res.2 ∧ length (dos l) = length urls ∧ ∃ new, res.2 = atts ++ new ∧
           Forall2 attempt_for (dos l) new)
    end).
Proof.
  intros Hmax. revert atts w. induction urls as [|u urls IH]; intros atts w; simpl.
  { run. split; [done|]. right. split_and!; [done..|]. exists []. by rewrite app_nil_r. }
  step. step. step. eapply steps_seq; [by apply tryDownload_do|].
  intros [[r hdr] status] l1 w1 (res & Hdo & Hst & Hok). simpl in *. destruct r as [d|derr].
  { destruct (Hok d eq_refl) as [cl ->]. run. unfold dos in *. simpl. rewrite omap_app, Hdo. simpl.
    split; [done|]. exists [], u, cl, []. by rewrite app_nil_r. }
  destruct (errors_Is derr SErrArtifactTooLarge) eqn:His.
  { run. unfold dos in *. simpl. rewrite omap_app, Hdo. simpl. split; [done|]. left. split; [done|].
    exists [], (mkOut "GET" u ∅ [], res), []. by rewrite app_nil_r. }
  step. step. eapply steps_mono; [apply IH|].
  intros [r2 atts2] l2 w2 [Hmap Hr2]. cbn [fst snd] in *.
  set (c0 := (mkOut "GET" u ∅ [], res)).
  assert (dos (l1 ++ CClock a0 :: l2) = c0 :: dos l2) as Hdos.
  { unfold dos in *. simpl. rewrite omap_app, Hdo. done. }
  rewrite Hdos. split; [simpl; f_equal; exact Hmap|].
  set (at0 := mkAttempt (SanitizeURL url_Parse url_String u) status (Some derr) (time_sub a0 a)).
  assert (attempt_for c0 at0) as Hat.
  { split_and!; [done|done|by exists derr]. }
  unfold add_attempt, Add in Hr2. destruct r2 as [[d hdr2]|e].
  - destruct Hr2 as (failed & u' & cl & new & -> & -> & Hnew). exists (c0 :: failed), u', cl, (at0 :: new).
    rewrite <- app_assoc. split_and!; [done..|by constructor].
  - destruct Hr2 as [(His2 & failed & c & new & -> & -> & Hnew)|(-> & Hlen & new & -> & Hnew)]; [left|right].
    + split; [done|]. exists (c0 :: failed), c, (at0 :: new). rewrite <- app_assoc.
      split_and!; [done..|by constructor].
    + split_and!; [done|simpl; lia|]. exists (at0 :: new). rewrite <- app_assoc. split; [done|by constructor].
Qed.

(** C38: the mirrors are tried in the order the adapter lists them, and no
    further than needed: the bytes returned are the whole body of the last
    answer, a 200, and every mirror before it failed and is recorded with
    its status; an oversized artifact ends the search, since no mirror has
    a smaller one; and otherwise every mirror was tried, and the fetch counts as not found exactly
    when each of them answered 404 or 410. *)
Theorem mirrors_in_order urls w :
  MaxArtifactBytes cfg < max_int64 → urls ≠ [] →
  let res := (downloadFromUpstreams url_Parse url_String env cfg urls [] w).1 in
  ∃ l, w_trace (downloadFromUpstreams url_Parse url_String env cfg urls [] w).2 = w_trace w ++ l ∧
    map (out_URL ∘ fst) (dos l) = take (length (dos l)) urls ∧
    match res.1 with
    | Ok (d, hdr) => ∃ failed u cl, dos l = failed ++ [(mkOut "GET" u ∅ [], DoResp 200 hdr cl d false)] ∧
                      Forall2 attempt_for failed res.2
    | Err e =>
        (errors_Is e SErrArtifactTooLarge = true ∧ ∃ failed c, dos l = failed ++ [c] ∧
           Forall2 attempt_for failed res.2) ∨
        (errors_Is e SErrArtifactTooLarge = false ∧ length (dos l) = length urls ∧
           Forall2 attempt_for (dos l) res.2 ∧
           (AllNotFound res.2 = true ↔ Forall (λ c, do_status c.2 = 404 ∨ do_status c.2 = 410) (dos l)))
    end.
Proof.
  intros Hmax Hne. cbv zeta. destruct (download_loop urls [] w Hmax) as (l & Hl & _ & Hmap & Hres).
  exists l. split; [done|]. split; [done|].
  destruct (downloadFromUpstreams url_Parse url_String env cfg urls [] w) as [[[[d hdr]|e] atts] w']; simpl in *.
  - destruct Hres as (failed & u & cl & new & ? & -> & ?). by exists failed, u, cl.
  - destruct Hres as [(? & failed & c & new & ? & -> & ?)|(-> & Hlen & new & -> & Hall)].
    + left. split; [done|]. by exists failed, c.
    + right. simpl. split_and!; [|done..|].
      * clear -Hall. induction Hall as [|c a cs al (_ & _ & e & He & Hi) Hall IH]; simpl; [done|].
        by rewrite He, Hi.
      * unfold AllNotFound. destruct new as [|a new].
        { exfalso. apply Hne. inversion Hall as [H0|]. rewrite <- H0 in Hlen. by destruct urls. }
        rewrite forallb_elem, <- Forall_forall. unfold not_found_status, StatusNotFound, StatusGone.
        clear -Hall. induction Hall as [|c a' cs al (_ & Hs & _) Hall IH]; [by split; constructor|].
        rewrite !Forall_cons, IH, Hs, orb_true_iff, !Z.eqb_eq. done.
Qed.

(** ** Forwarding *)

Lemma Header_Values_canonical (h : Header) k :
  CanonicalMIMEHeaderKey k = k → Header_Values h k = default [] (h !! k).
Proof. unfold Header_Values. by intros ->. Qed.

Lemma add_values_values i vs (h : Header) k :
  CanonicalMIMEHeaderKey i = i → CanonicalMIMEHeaderKey k = k →
  Header_Values (add_values i vs h) k = Header_Values h k ++ (if decide (i = k) then vs else []).
Proof.
  intros Hi Hk. unfold add_values. revert h. induction vs as [|v vs IH]; intros h; simpl.
  { case_decide; by rewrite app_nil_r. }
  rewrite IH. unfold Header_Add. rewrite !(Header_Values_canonical _ k Hk), (Header_Values_canonical _ i Hi), Hi.
  case_decide as Hd.
  - subst. rewrite lookup_insert_eq. simpl. by rewrite <- app_assoc.
  - by rewrite lookup_insert_ne.
Qed.

Lemma add_all_values (dst src : Header) k :
  canonical_header src → CanonicalMIMEHeaderKey k = k →
  Header_Values (map_fold add_values dst src) k = Header_Values dst k ++ Header_Values src k.
Proof.
  intros Hsrc Hk. revert Hsrc.
  apply (map_fold_weak_ind (λ r m, canonical_header m →
    Header_Values r k = Header_Values dst k ++ Header_Values m k)).
  - intros _. rewrite (Header_Values_canonical ∅ k Hk), lookup_empty. by rewrite app_nil_r.
  - intros i vs m r Hi IH Hm.
    assert (CanonicalMIMEHeaderKey i = i) as Hci by (apply (Hm i vs); by rewrite lookup_insert_eq).
    rewrite add_values_values, IH, !(Header_Values_canonical _ k Hk) by
      (try done; intros k' v Hk'; apply (Hm k' v); rewrite lookup_insert_ne by congruence; done).
    rewrite <- app_assoc. f_equal. case_decide as Hd.
    + subst. by rewrite Hi, lookup_insert_eq.
    + rewrite lookup_insert_ne by done. by rewrite app_nil_r.
Qed.

Lemma del_hops_values hops (h : Header) k :
  CanonicalMIMEHeaderKey k = k →
  Header_Values (foldl (fun h hop => Header_Del hop h) h hops) k =
    (if decide (k ∈ map CanonicalMIMEHeaderKey hops) then [] else Header_Values h k).
Proof using.
  clear. intros Hk. revert h. induction hops as [|hop hops IH]; intros h; cbn [foldl map].
  { rewrite decide_False by set_solver. done. }
  rewrite IH. unfold Header_Del. rewrite !(Header_Values_canonical _ k Hk).
  destruct (decide (k = CanonicalMIMEHeaderKey hop)) as [->|Hne].
  - rewrite lookup_delete_eq. rewrite (decide_True (P := _ ∈ _ :: _)) by set_solver. by case_decide.
  - rewrite lookup_delete_ne by done. repeat case_decide; set_solver.
Qed.

(** Of a canonical header, as net/http reads it, no hop-by-hop field is
    copied, and every other field arrives with all its values, in order. *)
Lemma copyProxyHeaders_values (dst src : Header) k :
  canonical_header src → CanonicalMIMEHeaderKey k = k →
  Header_Values (copyProxyHeaders dst src) k =
    (if decide (k ∈ map CanonicalMIMEHeaderKey hopByHopHeaders) then []
     else Header_Values dst k ++ Header_Values src k).
Proof using.
  intros Hsrc Hk. unfold copyProxyHeaders. rewrite del_hops_values by done. case_decide; [done|].
  by apply add_all_values.
Qed.

Lemma forward_loop_steps r body urls atts w :
  steps env (forward_loop url_Parse url_String env r body urls atts) w (λ res l w',
    quiet l ∧ same w w' ∧ w_header w' = w_header w ∧
    dos l = zip (map (λ u, mkOut (rq_Method r) u (copyProxyHeaders ∅ (rq_Header r)) body)
                   (take (length (dos l)) urls)) (dos l).*2 ∧
    match res with
    | FResp status hdr b berr atts' => ∃ failed out cl new, dos l = failed ++ [(out, DoResp status hdr cl b berr)] ∧
        status < 400 ∧ atts' = atts ++ new ∧ Forall2 (λ c a, Status a = do_status c.2) failed new ∧
        Forall (λ c, do_status c.2 = 0 ∨ 400 ≤ do_status c.2) failed
    | FFail atts' err => err = None ∧ length (dos l) = length urls ∧ ∃ new, atts' = atts ++ new ∧
        Forall2 (λ c a, Status a = do_status c.2) (dos l) new ∧
        Forall (λ c, do_status c.2 = 0 ∨ 400 ≤ do_status c.2) (dos l)
    end).
Proof.
  revert atts w. induction urls as [|u urls IH]; intros atts w; simpl.
  { run. split_and!; try done. exists []. by rewrite app_nil_r. }
  set (out := mkOut (rq_Method r) u (copyProxyHeaders ∅ (rq_Header r)) body).
  assert (∀ t t' res e d w1, same w w1 → w_header w1 = w_header w →
    do_status res = 0 ∨ 400 ≤ do_status res →
    steps env (forward_loop url_Parse url_String env r body urls
      (add_attempt url_Parse url_String u (do_status res) e d atts)) w1 (λ res' l' w',
      quiet (CClock t :: CDo out res :: CClock t' :: l') ∧ same w w' ∧ w_header w' = w_header w ∧
      (out, res) :: dos l' = zip (map (λ u, mkOut (rq_Method r) u (copyProxyHeaders ∅ (rq_Header r)) body)
                   (take (S (length (dos l'))) (u :: urls))) ((out, res) :: dos l').*2 ∧
      match res' with
      | FResp status hdr b berr atts' => ∃ failed out' cl new,
          (out, res) :: dos l' = failed ++ [(out', DoResp status hdr cl b berr)] ∧
          status < 400 ∧ atts' = atts ++ new ∧ Forall2 (λ c a, Status a = do_status c.2) failed new ∧
          Forall (λ c, do_status c.2 = 0 ∨ 400 ≤ do_status c.2) failed
      | FFail atts' err => err = None ∧ S (length (dos l')) = S (length urls) ∧ ∃ new, atts' = atts ++ new ∧
          Forall2 (λ c a, Status a = do_status c.2) ((out, res) :: dos l') new ∧
          Forall (λ c, do_status c.2 = 0 ∨ 400 ≤ do_status c.2) ((out, res) :: dos l')
      end)) as Hnext.
  { intros t t' res e d w1 Hs1 Hh1 Hst. eapply steps_mono; [apply IH|].
    intros res' l' w' (Hq & Hs & Hh & Hz & Hres).
    split_and!; [auto 10 with joei|by eapply same_trans|congruence|simpl; f_equal; exact Hz|].
    unfold add_attempt, Add in Hres.
    set (at0 := mkAttempt (SanitizeURL url_Parse url_String u) (do_status res) (Some e) d) in *.
    destruct res' as [status hdr b berr atts'|atts' err].
    - destruct Hres as (failed & out' & cl & new & -> & ? & -> & ? & ?).
      exists ((out, res) :: failed), out', cl, (at0 :: new). rewrite <- app_assoc.
      split_and!; [done..|by constructor|by constructor].
    - destruct Hres as (-> & -> & new & -> & ? & ?). split_and!; [done..|].
      exists (at0 :: new). rewrite <- app_assoc. split_and!; [done|by constructor|by constructor]. }
  step. step. step. step. unfold http_Do. step. destruct a0 as [e|e|status hdr cl b berr].
  - step. step. by apply (Hnext a a0 (ReqErr e)); [done|done|left].
  - step. step. by apply (Hnext a a0 (DoErr e)); [done|done|left].
  - destruct (Z.ltb_spec status 400) as [Hlt|Hge].
    + run. split_and!; [auto 10 with joei|done|done|done|].
      exists [], out, cl, []. rewrite app_nil_r. done.
    + step. step. by apply (Hnext a a0 (DoResp status hdr cl b berr)); [done|done|right].
Qed.

Lemma AllNotFound_dos (cs : list (OutRequest * DoResult)) (atts : Attempts) :
  Forall2 (λ c a, Status a = do_status c.2) cs atts → cs ≠ [] →
  AllNotFound atts = true ↔ Forall (λ c, do_status c.2 = 404 ∨ do_status c.2 = 410) cs.
Proof.
  intros Hall Hne. unfold AllNotFound. destruct atts as [|a atts].
  { exfalso. apply Hne. by inversion Hall. }
  rewrite forallb_elem, <- Forall_forall. unfold not_found_status, StatusNotFound, StatusGone.
  clear Hne. induction Hall as [|c a' cs al Hs Hall IH]; [by split; constructor|].
  rewrite !Forall_cons, IH, Hs, orb_true_iff, !Z.eqb_eq. done.
Qed.

Lemma no_hops (dst src : Header) hop :
  hop ∈ hopByHopHeaders → Header_Values (copyProxyHeaders dst src) hop = [].
Proof.
  intros Hin. unfold copyProxyHeaders.
  assert (∀ h : Header, Header_Values h hop = Header_Values h (CanonicalMIMEHeaderKey hop)) as Hc.
  { intros h. unfold Header_Values. by rewrite canonical_idemp. }
  rewrite Hc, del_hops_values by apply canonical_idemp. apply decide_True, list_elem_of_fmap. by exists hop.
Qed.

(** A response without an outcome, from here on. *)
Definition answered l (rs : Response) : Prop := outcomes l = [] ∧ responses l = [rs].

Lemma answered_app l1 l2 rs : quiet l1 → answered l2 rs → answered (l1 ++ l2) rs.
Proof.
  intros (H1 & _ & H3) [H4 H5]. unfold answered, outcomes, responses in *. by rewrite !omap_app, H1, H3, H4, H5.
Qed.

Lemma dos_quiet_respond rs : dos [CRespond rs] = [].
Proof. done. Qed.

Lemma http_Error_steps msg status w :
  steps env (http_Error msg status) w (λ _ l w', ∃ rs, l = [CRespond rs] ∧ rs_Status rs = status ∧
    is_stream (rs_Body rs) = false).
Proof. unfold http_Error. run. subst. eexists. done. Qed.

Lemma writeForwardError_steps atts err w :
  (∀ tr, lookup_ok (env_Throttles env tr)) →
  steps env (writeForwardError url_Parse env atts err) w (λ _ l w', ∃ rs, answered l rs ∧ dos l = [] ∧
    (err = Some (ESentinel SErrNoUpstreams) → rs_Status rs = 500) ∧
    (err = Some (ESentinel SErrUnreadableBody) → rs_Status rs = 400) ∧
    (err = None → rs_Status rs ∈ [404; 429; 503; 502] ∧ (rs_Status rs = 404 ↔ AllNotFound atts = true))).
Proof.
  intros Hth. unfold writeForwardError, atts_Throttled. step. step. apply steps_ask; [done|]. intros t ->. step.
  assert (∀ msg status (P : Response → Prop) w1, (∀ rs, rs_Status rs = status → P rs) →
    steps env (http_Error msg status) w1 (λ _ l _, ∃ rs, answered (CThrottles :: l) rs ∧
      dos (CThrottles :: l) = [] ∧ P rs)) as Hend.
  { intros msg status P w1 HP. eapply steps_mono; [apply http_Error_steps|].
    intros [] l w' (rs & -> & Hst & _). exists rs. split_and!; [done..|auto]. }
  destruct (error_is err SErrNoUpstreams) eqn:E1.
  { apply Hend. intros rs ->. destruct err as [e|]; [|done]. split_and!; [done|by intros [= ->]|done]. }
  destruct (error_is err SErrUnreadableBody) eqn:E2.
  { apply Hend. intros rs ->. destruct err as [e|]; [|done]. split_and!; [by intros [= ->]|done|done]. }
  assert (∀ rs, rs_Status rs ∈ [404; 429; 503; 502] → (rs_Status rs = 404 ↔ AllNotFound atts = true) →
    (err = Some (ESentinel SErrNoUpstreams) → rs_Status rs = 500) ∧
    (err = Some (ESentinel SErrUnreadableBody) → rs_Status rs = 400) ∧
    (err = None → rs_Status rs ∈ [404; 429; 503; 502] ∧ (rs_Status rs = 404 ↔ AllNotFound atts = true))) as Hcl.
  { intros rs H1 H2. split_and!; [by intros ->|by intros ->|done]. }
  destruct (AllNotFound atts) eqn:E3.
  { apply Hend. intros rs Hrs. apply Hcl; rewrite Hrs; [err_status|done]. }
  destruct (Throttled _ _ _) as [[status retry]|] eqn:E4.
  - assert (status = 429 ∨ status = 503) as Hst by (eapply Throttled_status, E4; apply Hth).
    unfold w_SetRetryAfter. destruct (SetRetryAfter retry); step; step; apply Hend;
      intros rs Hrs; apply Hcl; rewrite Hrs; destruct Hst as [->| ->]; done || err_status.
  - apply Hend. intros rs Hrs. apply Hcl; rewrite Hrs; [err_status|done].
Qed.

(** The body a request is forwarded with. *)
Definition request_body (r : Request) : bytes :=
  match rq_Body r with Some (Some b) => b | _ => [] end.

(** The calls of [l] replay the request to the first mirrors. *)
Definition replayed (r : Request) (urls : list string) l : Prop :=
  map (out_URL ∘ fst) (dos l) = take (length (dos l)) urls ∧
  ∀ c, c ∈ dos l → out_Method c.1 = rq_Method r ∧ out_Body c.1 = request_body r ∧
    out_Header c.1 = copyProxyHeaders ∅ (rq_Header r) ∧ ∀ hop, hop ∈ hopByHopHeaders → Header_Values (out_Header c.1) hop = [].

(** A failed mirror: no answer, or one from 400 on. *)
Definition mirror_failed (c : OutRequest * DoResult) : Prop := do_status c.2 = 0 ∨ 400 ≤ do_status c.2.
Definition mirror_absent (c : OutRequest * DoResult) : Prop := do_status c.2 = 404 ∨ do_status c.2 = 410.

Definition forwarded (r : Request) (urls : list string) l (rs : Response) : Prop :=
  (∃ failed out hdr cl b berr n, dos l = failed ++ [(out, DoResp (rs_Status rs) hdr cl b berr)] ∧
     rs_Status rs < 400 ∧ rs_Body rs = BStream b n ∧ (n ≤ length b)%nat ∧ Forall mirror_failed failed) ∨
  (dos l = [] ∧ (urls = [] ∧ rs_Status rs = 500 ∨ rq_Body r = Some None ∧ rs_Status rs = 400)) ∨
  (urls ≠ [] ∧ length (dos l) = length urls ∧ Forall mirror_failed (dos l) ∧
     rs_Status rs ∈ [404; 429; 503; 502] ∧ (rs_Status rs = 404 ↔ Forall mirror_absent (dos l))).

Lemma replayed_zip r urls l :
  dos l = zip (map (λ u, mkOut (rq_Method r) u (copyProxyHeaders ∅ (rq_Header r)) (request_body r))
            (take (length (dos l)) urls)) (dos l).*2 →
  replayed r urls l.
Proof.
  set (F := λ u, _). intros Hz.
  assert ((dos l).*1 = map F (take (length (dos l)) urls)) as Hfst.
  { rewrite Hz at 1. apply fst_zip. rewrite length_map, length_take, length_fmap.
    pose proof (f_equal length Hz) as Hlen. rewrite length_zip_with, length_map, length_take, length_fmap in Hlen.
    lia. }
  split.
  - transitivity (map out_URL (dos l).*1).
    + change ((dos l).*1) with (map fst (dos l)). by rewrite map_map.
    + rewrite Hfst, map_map. simpl. apply map_id.
  - intros [out res] Hin. assert (out ∈ (dos l).*1) as Hout by (apply list_elem_of_fmap; by exists (out, res)).
    rewrite Hfst in Hout. apply list_elem_of_fmap in Hout as (u & -> & _). split_and!; [done..|apply no_hops].
Qed.

Lemma relay_steps status hdr b w :
  steps env (relay env status hdr b) w (λ _ l _, ∃ rs, answered l rs ∧ dos l = [] ∧ rs_Status rs = status ∧
    ∃ n, rs_Body rs = BStream b n ∧ (n ≤ length b)%nat).
Proof.
  unfold relay. run_eq. subst. eexists. split; [done|]. split; [done|]. split; [done|].
  eexists. split; [done|]. lia.
Qed.

Lemma forward_answer_steps r urls body w :
  (∀ tr, lookup_ok (env_Throttles env tr)) → body = request_body r → urls ≠ [] →
  steps env (res <- forward_loop url_Parse url_String env r body urls [];;
      match res with
      | FFail atts err => writeForwardError url_Parse env atts err
      | FResp status header b _ _ => relay env status header b
      end) w (λ _ l _, ∃ rs, answered l rs ∧ replayed r urls l ∧ forwarded r urls l rs).
Proof.
  intros Hth -> Hne. eapply steps_seq; [apply forward_loop_steps|].
  intros res l1 w1 (Hq1 & _ & _ & Hz & Hres). apply replayed_zip in Hz.
  assert (∀ l2, dos l2 = [] → dos (l1 ++ l2) = dos l1) as Hd by (intros l2 E; by rewrite dos_app, E, app_nil_r).
  destruct res as [status hdr b berr atts|atts err].
  - destruct Hres as (failed & out & cl & new & Hdos & Hlt & _ & _ & Hf).
    eapply steps_mono; [apply relay_steps|]. intros [] l2 _ (rs & Ha & Hn & Hst & n & Hb & Hle).
    exists rs. split; [by apply answered_app|]. unfold replayed, forwarded in *. rewrite !(Hd l2 Hn).
    split; [done|]. left. exists failed, out, hdr, cl, b, berr, n. by rewrite Hst.
  - destruct Hres as (-> & Hlen & new & -> & Hall & Hf).
    eapply steps_mono; [by apply writeForwardError_steps|].
    intros [] l2 _ (rs & Ha & Hn & _ & _ & Hst). destruct (Hst eq_refl) as [Hin Hiff].
    exists rs. split; [by apply answered_app|]. unfold replayed, forwarded in *. rewrite !(Hd l2 Hn).
    split; [done|]. right. right. split_and!; [done..|]. rewrite Hiff. apply (AllNotFound_dos _ _ Hall).
    intros E. rewrite E in Hlen. by destruct urls.
Qed.

Lemma proxyTransparent_steps r w :
  (∀ tr, lookup_ok (env_Throttles env tr)) →
  steps env (proxyTransparent url_Parse url_String env cfg r) w (λ _ l _, ∃ rs,
    answered l rs ∧ replayed r (UpstreamURLs (cfg_Adapter cfg) r) l ∧ forwarded r (UpstreamURLs (cfg_Adapter cfg) r) l rs).
Proof.
  intros Hth. set (urls := UpstreamURLs (cfg_Adapter cfg) r).
  unfold proxyTransparent, forwardUpstream. fold urls.
  assert (∀ e w1, e = SErrNoUpstreams ∧ urls = [] ∨ e = SErrUnreadableBody ∧ rq_Body r = Some None →
    steps env (res <- ret_st (FFail [] (Some (ESentinel e)));;
      match res with
      | FFail atts err => writeForwardError url_Parse env atts err
      | FResp status header b _ _ => relay env status header b
      end) w1 (λ _ l _, ∃ rs, answered l rs ∧ replayed r urls l ∧ forwarded r urls l rs)) as Hfail.
  { intros e w1 He. step. step. eapply steps_mono; [by apply writeForwardError_steps|].
    intros [] l _ (rs & Ha & Hd & H1 & H2 & _). exists rs. unfold replayed, forwarded. rewrite !Hd.
    split_and!; [done..|set_solver|]. right. left. split; [done|].
    destruct He as [[-> ?]|[-> ?]]; auto. }
  destruct urls as [|u urls'] eqn:Hurls; [apply Hfail; by left|].
  destruct (rq_Body r) as [[body|]|] eqn:Hb; [|apply Hfail; by right|];
    apply forward_answer_steps; try done; unfold request_body; by rewrite Hb.
Qed.

(** a request that names no artifact is replayed, with its own method and
    body and without a single hop-by-hop header, against the mirrors in
    order until one answers below 400; that answer's status and body are
    relayed.  Otherwise the client gets 500 with no mirror configured, 400
    for a body that could not be read - and then no mirror is contacted -
    and else, every mirror having failed, 404 exactly when each of them
    answered 404 or 410, and 429, 503 or 502 if not. *)
Theorem proxyTransparent_forwards r w :
  (∀ tr, lookup_ok (env_Throttles env tr)) →
  let urls := UpstreamURLs (cfg_Adapter cfg) r in
  ∃ l rs, w_trace (proxyTransparent url_Parse url_String env cfg r w).2 = w_trace w ++ l ∧
    answered l rs ∧ replayed r urls l ∧ forwarded r urls l rs.
Proof. intros Hth. destruct (proxyTransparent_steps r w Hth) as (l & Hl & _ & rs & HP). exists l, rs. by split. Qed.
End Spec.

(** ** Witnesses: the handler over the local cache *)

#[local] Instance ex_AC : ArtifactCache LocalCache := artifactCacheAdapter ex_cfg hex.
#[local] Instance ex_L : ArtifactCacheLaws LocalCache := LocalCache_laws ex_cfg hex hex_ok.

Definition ex_url_Parse (s : string) : option url := Some (mkURL "https" None s "").
Definition ex_url_String (u : url) : string := u_Host u.

Definition ex_mirrors : list string :=
  ["https://mirror.example/left-pad-1.3.0.tgz"; "https://registry.npmjs.org/left-pad-1.3.0.tgz"].

Definition ex_adapter : RegistryAdapter := {|
  NormalizeRequest r := if HasSuffix (rq_Path r) ".tgz" then Some (ex_ref "1.3.0") else None;
  UpstreamURLs _ := ex_mirrors;
  IsArtifactPath := None;
  IsIndexRequest := None;
  RewriteIndex _ _ _ := None;
  NormalizeMetadataRequest := None;
  FilterVersions S doc _ _ _ := ret_st (Some (mkFiltered doc [] [] false));
  MetadataFromHeader := None;
|}.

(** All gates on, checks due again after an hour, at most a megabyte. *)
Definition ex_handler : HandlerConfig :=
  mkHandlerConfig ex_adapter true true true true Hour Hour 16 16 (2 ^ 20).

Definition ex_filter : Filter := NewFilter (mkSCConfig 48 "enforce") None.
Definition ex_engine : Engine := mkEngine SeverityHigh true ∅ ∅.

(** A registry published a month ago; the first mirror lacks the artifact; the
    scanners find nothing, or, from the second malware scan on, a virus. *)
Definition ex_clock (tr : list Call) : Z := 1720 * Hour + Z.of_nat (length tr) * (10 * Minute).

Definition ex_env (virus : list Call -> bool) : Env := {|
  env_Now := ex_clock;
  env_NewUUID _ := "00000000-0000-0000-0000-000000000000";
  env_FetchMetadata _ _ := Ok (mkMeta (1000 * Hour) "" "MIT");
  env_Filter tr ref meta := Filter_Check ex_filter (ex_clock tr) ref meta;
  env_CVEScan _ _ := Some (mkScan true [] "{}");
  env_Policy _ ref sr := Engine_Evaluate ex_engine ref sr;
  env_AVScan tr _ := Some (if virus tr then mkAV false "Eicar" "clamav" false else mkAV true "" "clamav" false);
  env_Do _ out :=
    if out_URL out =s? "https://registry.npmjs.org/left-pad-1.3.0.tgz"
    then DoResp 200 ∅ 7 (to_bytes "tarball") false else DoResp 404 ∅ 0 [] false;
  env_CreateTempOk _ := true;
  env_WriteTempOk _ _ := true;
  env_StatOk _ := true;
  env_Copied _ d := length d;
  env_Flight _ _ := None;
  env_DocFlight _ _ := None;
  env_Throttles _ := None;
|}.

Definition ex_good : Env := ex_env (fun _ => false).
Definition ex_bad : Env :=
  ex_env (fun tr => existsb (fun c => match c with CAVScan _ _ => true | _ => false end) tr).

Lemma ex_env_ok virus : env_ok (ex_env virus) ex_handler.
Proof. by split. Qed.

Definition ex_world : World LocalCache := mkWorld (empty_cache []) [] ∅ 0.

Lemma ex_cache_ok : cache_ok (w_cache ex_world).
Proof. intros ref r. done. Qed.

Definition ex_request : Request := 
  mkRequest "" "npm" "GET" "/left-pad-1.3.0.tgz" "" "" "proxy.example" "192.0.2.7:50000" true ∅ None.

Definition ex_serve (env : Env) (w : World LocalCache) : World LocalCache :=
  (serve_artifact ex_url_Parse ex_url_String env ex_handler "id" ex_request (ex_ref "1.3.0") w).2.

(** Two requests: a download, then a hit whose re-checks are due. *)
Example ex_two_good :
  let w := ex_serve ex_good (ex_serve ex_good ex_world) in
  map rs_Status (responses (w_trace w)) = [200; 200] ∧
  map rs_Body (responses (w_trace w)) = [BStream (to_bytes "tarball") 7; BStream (to_bytes "tarball") 7] ∧
  map ev_Verdict (outcomes (w_trace w)) = [VerdictPass; VerdictCache].
Proof. vm_compute. done. Qed.

(** The second time the malware scan finds a virus: blocked and evicted. *)
Example ex_then_bad :
  let w := ex_serve ex_bad (ex_serve ex_bad ex_world) in
  map rs_Status (responses (w_trace w)) = [200; 403] ∧
  map ev_Verdict (outcomes (w_trace w)) = [VerdictPass; VerdictBlock] ∧
  bool_decide (index (w_cache w) = ∅) = true.
Proof. vm_compute. done. Qed.

Lemma one_outcome_per_request_witness :
  env_ok ex_good ex_handler ∧ cache_ok (w_cache ex_world) ∧
  ∃ l ev rs, w_trace (ex_serve ex_good ex_world) = w_trace ex_world ++ l ∧
    ended ex_handler "id" (ex_ref "1.3.0") l ev rs ∧ verdict_ok ev rs.
Proof.
  split; [apply ex_env_ok|]. split; [apply ex_cache_ok|].
  exact (one_outcome_per_request _ _ _ _ "id" ex_request (ex_ref "1.3.0") _ (ex_env_ok _) ex_cache_ok).
Defined.

Lemma served_only_through_gates_witness :
  env_ok ex_good ex_handler ∧ cache_ok (w_cache ex_world) ∧
  ∃ l, w_trace (ex_serve ex_good ex_world) = w_trace ex_world ++ l ∧
    ∀ rs, rs ∈ responses l → is_stream (rs_Body rs) = true →
      ∃ ev, ev ∈ outcomes l ∧ served_from ex_handler ex_request (ex_ref "1.3.0") ex_world l ev rs.
Proof.
  split; [apply ex_env_ok|]. split; [apply ex_cache_ok|].
  exact (served_only_through_gates _ _ _ _ "id" ex_request (ex_ref "1.3.0") _ (ex_env_ok _) ex_cache_ok).
Defined.

Lemma temp_files_removed_witness :
  env_ok ex_bad ex_handler ∧ cache_ok (w_cache ex_world) ∧ w_temps (ex_serve ex_bad ex_world) = 0.
Proof.
  split; [apply ex_env_ok|]. split; [apply ex_cache_ok|].
  exact (temp_files_removed _ _ _ _ "id" ex_request (ex_ref "1.3.0") _ (ex_env_ok _) ex_cache_ok).
Defined.

Lemma served_bytes_were_gated_witness :
  let w := serve_all ex_url_Parse ex_url_String ex_good ex_handler [("id1", ex_request, ex_ref "1.3.0")] ex_world in
  ∃ l, w_trace (ex_serve ex_good w) = w_trace w ++ l ∧
    ∀ rs, rs ∈ responses l → is_stream (rs_Body rs) = true →
      ∃ d, serves d rs ∧ gated_before ex_handler (ex_ref "1.3.0") d (w_trace (ex_serve ex_good w)).
Proof.
  exact (served_bytes_were_gated _ _ _ _ [("id1", ex_request, ex_ref "1.3.0")] "id" ex_request (ex_ref "1.3.0")
    ex_world (ex_env_ok _) ex_cache_ok (λ _, eq_refl)).
Defined.

Lemma policy_enforced_on_download_witness :
  cfg_CVEScanner ex_handler = true ∧ age_checked ex_filter (ex_ref "1.3.0") ∧
  ∃ l, w_trace (ex_serve ex_good ex_world) = w_trace ex_world ++ l ∧
    ∀ rs ev, rs ∈ responses l → is_stream (rs_Body rs) = true →
      ev ∈ outcomes l → ev_Verdict ev = VerdictPass →
      ∃ d meta sc sr av p q,
        l = p ++ CFilter (ex_ref "1.3.0") meta sc :: q ∧ CMetadata (ex_ref "1.3.0") (Ok meta) ∈ p ∧
        md_PublishedAt meta + 48 * Hour ≤ ex_clock (w_trace ex_world ++ p) ∧
        CCVEScan (ex_ref "1.3.0") (Some sr) ∈ l ∧ matchesIndex (denylist ex_engine) (ex_ref "1.3.0") = false ∧
        (matchesIndex (allowlist ex_engine) (ex_ref "1.3.0") = true ∨ cveBlock ex_engine = false ∨
         ∀ f, f ∈ sr_Findings sr → AtLeast (cf_Severity f) (blockOn ex_engine) = false) ∧
        serves d rs ∧ CAVScan (Some d) (Some av) ∈ l ∧ av_Clean av = true ∧ av_Incomplete av = false.
Proof.
  assert (age_checked ex_filter (ex_ref "1.3.0")) as Hage by (split; [discriminate|reflexivity]).
  split; [reflexivity|]. split; [exact Hage|].
  refine (policy_enforced_on_download _ _ _ _ ex_filter ex_engine ex_clock "id" ex_request (ex_ref "1.3.0")
    _ (ex_env_ok _) ex_cache_ok (λ _ _ _, eq_refl) (λ _ _ _, eq_refl) eq_refl eq_refl eq_refl Hage _ _).
  - discriminate.
  - split; discriminate.
Defined.

Lemma recheck_blocks_only_on_verdict_witness :
  let w := ex_serve ex_bad ex_world in
  let entry := mkEntry (artifactPath ex_cfg hex (ex_ref "1.3.0")) true 0 0 in
  cache_ok (w_cache w) ∧
  option_map ro_gate (runRechecks ex_bad ex_handler (ex_ref "1.3.0") entry w).1 = Some GateMalware ∧
  ∀ o, (runRechecks ex_bad ex_handler (ex_ref "1.3.0") entry w).1 = Some o → ro_gate o = GateMalware →
    av_Clean (ro_av o) = false.
Proof.
  cbv zeta. assert (cache_ok (w_cache (ex_serve ex_bad ex_world))) as Hok.
  { destruct (serve_end ex_url_Parse ex_url_String ex_bad ex_handler "id" ex_request (ex_ref "1.3.0") ex_world
      (ex_env_ok _) ex_cache_ok) as (l & _ & _ & _ & Hok & _). exact Hok. }
  split; [exact Hok|]. split; [vm_compute; reflexivity|].
  destruct (recheck_blocks_only_on_verdict ex_bad ex_handler (ex_ref "1.3.0")
    (mkEntry (artifactPath ex_cfg hex (ex_ref "1.3.0")) true 0 0) _ Hok) as (l & now & _ & Hsome & _).
  intros o Ho Hg. destruct (Hsome o Ho) as [_ [[Hg' _]|(_ & Hc & _)]]; [|exact Hc].
  rewrite Hg in Hg'. discriminate.
Defined.

Lemma mirrors_in_order_witness :
  MaxArtifactBytes ex_handler < max_int64 ∧
  ∃ l, w_trace (downloadFromUpstreams ex_url_Parse ex_url_String ex_good ex_handler ex_mirrors [] ex_world).2 = l ∧
    map (out_URL ∘ fst) (dos l) = take (length (dos l)) ex_mirrors.
Proof.
  split; [reflexivity|].
  destruct (mirrors_in_order ex_url_Parse ex_url_String ex_good ex_handler ex_mirrors ex_world)
    as (l & Hl & Hmap & _); [reflexivity|discriminate|].
  exists l. split; [exact Hl|exact Hmap].
Defined.

Lemma proxyTransparent_forwards_witness :
  (∀ tr, lookup_ok (env_Throttles ex_good tr)) ∧
  ∃ l rs, w_trace (proxyTransparent ex_url_Parse ex_url_String ex_good ex_handler ex_request ex_world).2 = l ∧
    answered l rs ∧ replayed ex_request ex_mirrors l ∧ forwarded ex_request ex_mirrors l rs.
Proof.
  assert (∀ tr, lookup_ok (env_Throttles ex_good tr)) as Hth by (intros tr f host status left [=]).
  split; [exact Hth|].
  exact (proxyTransparent_forwards ex_url_Parse ex_url_String ex_good ex_handler ex_request ex_world Hth).
Defined.
