(* ===== verification/ClientIP.v ===== *)
(** * Package httpx: who is asking (clientip.go, trusted.go, publicbase.go)

    The client address of a request and the base URL it used to reach the
    proxy, from its peer, its headers and the set of trusted reverse proxies.
    Addresses are those of net/netip, behind a class; net.SplitHostPort and
    JoinHostPort are modelled; net/url's parser and printer are parameters. *)
From S2P Require Import Prelude GoStd HTTP.
Local Open Scope Z_scope.

(** ** net/netip *)

(** What the sources use of it.  [Addr_of_port] is the address part of
    netip.ParseAddrPort. *)
Class NetIP (Addr Prefix : Type) := {
  ParseAddr : string -> option Addr;
  Addr_of_port : string -> option Addr;
  Unmap : Addr -> Addr;
  Addr_String : Addr -> string;
  ParsePrefix : string -> option Prefix;
  Masked : Prefix -> Prefix;
  host_prefix : Addr -> Prefix;           (* PrefixFrom(a, a.BitLen()) *)
  Prefix_Contains : Prefix -> Addr -> bool;
}.

(** ** net.SplitHostPort and net.JoinHostPort *)

Definition no_bracket (l : bytes) : bool :=
  negb (existsb (Ascii.eqb "["%char) l) && negb (existsb (Ascii.eqb "]"%char) l).

(** The host and the port; the colon is the last one. *)
Definition SplitHostPort (hostport : string) : option (string * string) :=
  match cut_bytes ":"%char (rev (to_bytes hostport)) with
  | None => None
  | Some (rport, rhost) =>
      let host := rev rhost in
      let port := rev rport in
      match host with
      | "["%char :: inner =>
          match cut_bytes "]"%char inner with
          | Some (h, []) =>
              if negb (existsb (Ascii.eqb "["%char) h) && no_bracket port
              then Some (of_bytes h, of_bytes port) else None
          | _ => None
          end
      | _ =>
          if negb (existsb (Ascii.eqb ":"%char) host) && no_bracket host && no_bracket port
          then Some (of_bytes host, of_bytes port) else None
      end
  end.

Definition JoinHostPort (host port : string) : string :=
  if contains_byte host ":"%char then "[" +:+ host +:+ "]:" +:+ port else host +:+ ":" +:+ port.

(** ** The resolvers *)

Definition HeaderXForwardedFor : string := "X-Forwarded-For".
Definition HeaderXRealIP : string := "X-Real-IP".
Definition HeaderForwarded : string := "Forwarded".

Section ClientIP.
Context {Addr Prefix : Type} {NI : NetIP Addr Prefix}.

Definition TrustedPeers : Type := list Prefix.

Definition parseTrusted (entry : string) : option Prefix :=
  let entry := TrimSpace entry in
  if contains_byte entry "/"%char then Masked <$> ParsePrefix entry
  else a ← ParseAddr entry; Some (host_prefix (Unmap a)).

(** The error carries the index of the entry refused. *)
Fixpoint parse_trusted_from (i : Z) (entries : list string) : result Z TrustedPeers :=
  match entries with
  | [] => Ok []
  | e :: es =>
      match parseTrusted e with
      | None => Err i
      | Some p => match parse_trusted_from (i + 1) es with Ok ps => Ok (p :: ps) | Err j => Err j end
      end
  end.

Definition ParseTrustedPeers (entries : list string) : result Z TrustedPeers :=
  parse_trusted_from 0 entries.

Definition Peers_Contains (t : TrustedPeers) (a : Addr) : bool := existsb (fun p => Prefix_Contains p a) t.

(** The peer, or what RemoteAddr held. *)
Definition peerAddr (r : Request) : result string Addr :=
  let host := match SplitHostPort (rq_RemoteAddr r) with Some (h, _) => h | None => rq_RemoteAddr r end in
  match ParseAddr host with
  | Some a => Ok (Unmap a)
  | None => Err host
  end.

Definition PeerTrusted (t : TrustedPeers) (r : Request) : bool :=
  match peerAddr r with Ok a => Peers_Contains t a | Err _ => false end.

Record ClientIPResolver := mkResolver {
  cr_trusted : TrustedPeers;
  cr_header : string;
}.

(** The error is the unsupported header, or the index of a refused entry. *)
Definition NewClientIPResolver (trusted : list string) (header : string)
    : result (string + Z) ClientIPResolver :=
  let known :=
    if header =s? "" then Some HeaderXForwardedFor
    else if EqualFold header HeaderXForwardedFor then Some HeaderXForwardedFor
    else if EqualFold header HeaderXRealIP then Some HeaderXRealIP
    else if EqualFold header HeaderForwarded then Some HeaderForwarded
    else None in
  match known with
  | None => Err (inl header)
  | Some header =>
      match ParseTrustedPeers trusted with
      | Err i => Err (inr i)
      | Ok peers => Ok (mkResolver peers header)
      end
  end.

(** The parameter [k=v] of a Forwarded element, the pair split at its first
    equals sign. *)
Definition is_for (param : string) : option string :=
  let '(k, v, found) := Cut (TrimSpace param) "="%char in
  if found && EqualFold (TrimSpace k) "for" then Some v else None.

Definition hasForParam (element : string) : bool :=
  existsb (fun param => match is_for param with Some _ => true | None => false end) (Split element ";"%char).

Definition quote : ascii := byte_of 34.

Definition forwardedFor (element : string) : string :=
  match omap is_for (Split element ";"%char) with
  | v :: _ => Trim (TrimSpace v) [quote]
  | [] => ""
  end.

(** [None] is an entry that is not an IP. *)
Definition parseHop (s : string) : option Addr :=
  match ParseAddr s with
  | Some a => Some (Unmap a)
  | None =>
      match Addr_of_port s with
      | Some a => Some (Unmap a)
      | None =>
          if HasPrefix s "[" && HasSuffix s "]" then
            Unmap <$> ParseAddr (of_bytes (removelast (tail (to_bytes s))))
          else None
      end
  end.

(** The hops one part of a field line names: none for a Forwarded element
    without a for= parameter. *)
Definition part_hop (header part : string) : option (option Addr) :=
  let part := TrimSpace part in
  if header =s? HeaderForwarded then
    if (part =s? "") || negb (hasForParam part) then None else Some (parseHop (forwardedFor part))
  else Some (parseHop part).

Definition all_hops (header : string) (values : list string) : list (option Addr) :=
  flat_map (fun v => omap (part_hop header) (Split v ","%char)) values.

(** [None] for ok = false. *)
Definition hops (c : ClientIPResolver) (r : Request) : option (list (option Addr)) :=
  match Header_Values (rq_Header r) (cr_header c) with
  | [] => None
  | values =>
      let out := all_hops (cr_header c) values in
      if (cr_header c =s? HeaderXRealIP) && negb (Nat.eqb (length out) 1) then None else Some out
  end.

(** The walk over the hops, given right to left; [last] is the hop met before. *)
Fixpoint walk (trusted : TrustedPeers) (peer : Addr) (rhops : list (option Addr)) (last : Addr) : Addr :=
  match rhops with
  | [] => last
  | None :: _ => peer
  | Some a :: rhops' => if Peers_Contains trusted a then walk trusted peer rhops' a else a
  end.

Definition ClientIP (c : ClientIPResolver) (r : Request) : string :=
  match peerAddr r with
  | Err raw => raw
  | Ok peer =>
      if negb (Peers_Contains (cr_trusted c) peer) then Addr_String peer
      else
        match hops c r with
        | None | Some [] => Addr_String peer
        | Some hs => Addr_String (walk (cr_trusted c) peer (rev hs) peer)
        end
  end.

(** ** The public base URL *)

(** The parts of a parsed URL the sources look at. *)
Record URLParts := mkParts {
  up_Scheme : string;
  up_Opaque : string;
  up_User : bool;
  up_Host : string;
  up_Path : string;
  up_RawPath : string;
  up_RawQuery : string;
  up_Fragment : string;
}.

Context (url_Parts : string -> option URLParts).

Definition ParsePublicURL (raw : string) : option URLParts :=
  match url_Parts raw with
  | None => None
  | Some u =>
      if negb (up_Scheme u =s? "http") && negb (up_Scheme u =s? "https") then None
      else if (up_Host u =s? "") || up_User u || negb (up_RawQuery u =s? "") ||
              negb (up_Fragment u =s? "") || negb (up_Opaque u =s? "") then None
      else Some (mkParts (up_Scheme u) (up_Opaque u) (up_User u) (up_Host u) (TrimRight (up_Path u) ["/"%char]) ""
                   (up_RawQuery u) (up_Fragment u))
  end.

(** [None] as a whole is a nil resolver. *)
Record PublicBaseResolver := mkBase {
  pb_fixed : option URLParts;
  pb_trusted : TrustedPeers;
}.

Definition NewPublicBaseResolver (publicURL : string) (trusted : TrustedPeers) : option PublicBaseResolver :=
  if publicURL =s? "" then Some (mkBase None trusted)
  else u ← ParsePublicURL publicURL; Some (mkBase (Some u) trusted).

Definition lastValue (r : Request) (name : string) : string :=
  match last (Header_Values (rq_Header r) name) with
  | None => ""
  | Some v => TrimSpace (after_last ","%char v)
  end.

Definition forwarded_param (acc : string * string) (param : string) : string * string :=
  let '(k, v, found) := Cut (TrimSpace param) "="%char in
  if negb found then acc
  else
    let v := Trim (TrimSpace v) [quote] in
    let k := ToLower (TrimSpace k) in
    if k =s? "proto" then (v, acc.2) else if k =s? "host" then (acc.1, v) else acc.

Definition forwardedProtoHost (r : Request) : string * string :=
  foldl forwarded_param ("", "") (Split (lastValue r HeaderForwarded) ";"%char).

Definition validAuthority (host : string) : bool :=
  if (host =s? "") || ContainsAny host (to_bytes " /\?#@") then false
  else match url_Parts ("http://" +:+ host) with
       | Some u => (up_Host u =s? host) && (up_Path u =s? "")
       | None => false
       end.

(** What the request, or its trusted proxy, says: scheme, host, port, prefix. *)
Definition base_parts (p : option PublicBaseResolver) (r : Request) : string * string * string * string :=
  let scheme := if rq_TLS r then "https" else "http" in
  let trusted := match p with Some p => PeerTrusted (pb_trusted p) r | None => false end in
  if trusted then
    let '(proto, fwdHost) :=
      let proto := lastValue r "X-Forwarded-Proto" in
      let fwdHost := lastValue r "X-Forwarded-Host" in
      if (proto =s? "") && (fwdHost =s? "") then forwardedProtoHost r else (proto, fwdHost) in
    (if negb (proto =s? "") then ToLower proto else scheme,
     if negb (fwdHost =s? "") then fwdHost else rq_Host r,
     lastValue r "X-Forwarded-Port", lastValue r "X-Forwarded-Prefix")
  else (scheme, rq_Host r, "", "").

(** [None] is an error wrapping ErrBadForwardedHeader. *)
Definition Base (p : option PublicBaseResolver) (r : Request) : option URLParts :=
  match (p ≫= pb_fixed) with
  | Some u => Some u
  | None =>
      let '(scheme, host, port, prefix) := base_parts p r in
      if negb (scheme =s? "http") && negb (scheme =s? "https") then None
      else if negb (validAuthority host) then None
      else
        let host' :=
          if negb (port =s? "") then
            match SplitHostPort host with
            | Some _ => Some host
            | None =>
                let host := JoinHostPort (Trim host ["["%char; "]"%char]) port in
                if validAuthority host then Some host else None
            end
          else Some host in
        match host' with
        | None => None
        | Some host =>
            if negb (prefix =s? "") && (negb (HasPrefix prefix "/") || ContainsAny prefix ["?"%char; "#"%char]) then None
            else Some (mkParts scheme "" false host (TrimRight prefix ["/"%char]) "" "" "")
        end
  end.
End ClientIP.
Arguments ClientIPResolver Prefix : clear implicits.
Arguments PublicBaseResolver Prefix : clear implicits.
Arguments TrustedPeers Prefix : clear implicits.

(** * Properties *)

Section ClientIPProps.
Context {Addr Prefix : Type} {NI : NetIP Addr Prefix}.
Implicit Types (t : TrustedPeers Prefix) (hs : list (option Addr)).

(** The hops right of the client are valid and trusted. *)
Definition all_trusted t hs : Prop := Forall (λ h, ∃ a, h = Some a ∧ Peers_Contains t a = true) hs.

Lemma walk_trusted t peer hs rest last :
  all_trusted t hs → walk t peer (hs ++ rest) last = walk t peer rest (default last (mjoin (list.last hs))).
Proof.
  intros Hall. revert last. induction Hall as [|h hs (a & -> & Ha) Hall IH]; intros last'; simpl; [done|].
  rewrite Ha, IH. destruct hs as [|h' hs]; [done|]. f_equal.
  destruct (last_is_Some (h' :: hs)) as [_ Hl]. destruct Hl as [x Hx]; [done|].
  change (list.last (Some a :: h' :: hs)) with (list.last (h' :: hs)). rewrite Hx.
  apply last_Some_elem_of in Hx. rewrite Forall_forall in Hall.
  destruct (Hall x Hx) as (b & -> & _). done.
Qed.

Lemma all_trusted_rev t hs : all_trusted t hs → all_trusted t (rev hs).
Proof. unfold all_trusted. rewrite !Forall_forall. intros H x Hx. apply H. by rewrite list_elem_of_In, in_rev, <- list_elem_of_In. Qed.

Lemma all_hops_app header vs vs' : all_hops header (vs ++ vs') = all_hops header vs ++ all_hops header vs'.
Proof. apply flat_map_app. Qed.

Lemma Split_concat junk own sep :
  Split (junk +:+ String sep EmptyString +:+ own) sep = Split junk sep ++ Split own sep.
Proof.
  unfold Split. rewrite !to_bytes_app. simpl. rewrite split_bytes_concat. apply fmap_app.
Qed.

Lemma all_hops_line header junk own :
  all_hops header [junk +:+ "," +:+ own] = all_hops header [junk] ++ all_hops header [own].
Proof. unfold all_hops. simpl. rewrite !app_nil_r, Split_concat. apply omap_app. Qed.

Lemma Split_nonempty s sep : Split s sep ≠ [].
Proof. unfold Split. intros E%fmap_nil_inv. by apply split_bytes_nonempty in E. Qed.

Lemma real_ip_hops values : all_hops HeaderXRealIP values = flat_map (λ v, (parseHop ∘ TrimSpace) <$> Split v ","%char) values.
Proof.
  unfold all_hops. induction values as [|v values IH]; [done|]. cbn [flat_map]. rewrite IH. f_equal.
Qed.

(** X-Real-IP is believed when there is one of it, and it is one address. *)
Lemma hops_real_ip (c : ClientIPResolver Prefix) r :
  cr_header c = HeaderXRealIP →
  hops c r = match Header_Values (rq_Header r) HeaderXRealIP with
             | [v] => if bool_decide (","%char ∈ to_bytes v) then None else Some [parseHop (TrimSpace v)]
             | _ => None
             end.
Proof.
  intros Hreal. unfold hops. rewrite Hreal, String.eqb_refl. destruct (Header_Values _ _) as [|v values]; [done|].
  rewrite real_ip_hops. cbn [flat_map andb]. rewrite length_app, length_fmap.
  pose proof (Split_nonempty v ","%char) as Hne. destruct values as [|v' values].
  - cbn [flat_map length]. rewrite app_nil_r. case_bool_decide as Hin.
    + apply list_elem_of_split in Hin as (x & y & E). unfold Split. rewrite E, split_bytes_concat.
      pose proof (split_bytes_nonempty ","%char x). pose proof (split_bytes_nonempty ","%char y).
      rewrite length_fmap, length_app.
      destruct (split_bytes ","%char x) as [|? ?], (split_bytes ","%char y) as [|? ?]; try done.
      cbn [length]. rewrite (proj2 (Nat.eqb_neq _ _)) by lia. done.
    + unfold Split. rewrite split_bytes_no_sep by done. cbn. by rewrite of_to_bytes.
  - pose proof (Split_nonempty v' ","%char). cbn [flat_map]. rewrite length_app, length_fmap.
    destruct (Split v ","%char), (Split v' ","%char); try done. cbn [length].
    rewrite (proj2 (Nat.eqb_neq _ _)) by lia. done.
Qed.

(** C30: a client cannot forge its address.  A peer that is not a trusted
    proxy is reported itself, whatever headers it sends.  Behind a trusted
    one, with X-Forwarded-For or Forwarded as the header, a client whose own
    address is outside the trusted ranges is reported as the proxies named
    it: the rightmost address that is not a trusted proxy's, whatever the
    client sent to the left of it - in further field lines, or in the same
    line before what the proxies appended.  With X-Real-IP the header is
    believed only alone: an address in its single value, which is no list,
    is reported, and anything else - a second value a client slipped in
    beside the proxy's, a list, no address - has the peer reported. *)
Theorem ClientIP_spoof_resistant (c : ClientIPResolver Prefix) r peer :
  peerAddr r = Ok peer →
  (Peers_Contains (cr_trusted c) peer = false → ∀ h, ClientIP c (with_header h r) = Addr_String peer) ∧
  (Peers_Contains (cr_trusted c) peer = true → cr_header c ≠ HeaderXRealIP →
   ∀ front line back own a ps,
     Header_Values (rq_Header r) (cr_header c) = front ++ line :: back →
     line = own ∨ (∃ junk, line = junk +:+ "," +:+ own) →
     all_hops (cr_header c) (own :: back) = Some a :: ps →
     Peers_Contains (cr_trusted c) a = false → all_trusted (cr_trusted c) ps →
     ClientIP c r = Addr_String a) ∧
  (Peers_Contains (cr_trusted c) peer = true → cr_header c = HeaderXRealIP →
   ClientIP c r = Addr_String
     match Header_Values (rq_Header r) "X-Real-IP" with
     | [v] => if bool_decide (","%char ∈ to_bytes v) then peer else default peer (parseHop (TrimSpace v))
     | _ => peer
     end).
Proof.
  intros Hpeer. unfold ClientIP. split_and!.
  - intros Hp h. change (peerAddr (with_header h r)) with (peerAddr r). by rewrite Hpeer, Hp.
  - intros Hp Hreal front line back own a ps Hv Hline Hown Ha Hps. rewrite Hpeer, Hp. simpl.
    apply String.eqb_neq in Hreal. unfold hops. rewrite Hv, Hreal. simpl.
    assert (∃ pre, all_hops (cr_header c) (front ++ line :: back) = pre ++ Some a :: ps) as [pre Hpre].
    { change (line :: back) with ([line] ++ back). change (own :: back) with ([own] ++ back) in Hown.
      rewrite !all_hops_app in *. destruct Hline as [->|[junk ->]].
      - rewrite Hown. by eexists.
      - rewrite all_hops_line, <- (app_assoc (all_hops _ [junk])), Hown, app_assoc. by eexists. }
    destruct (front ++ line :: back) as [|v vs] eqn:Hf; [by destruct front|].
    change (omap (part_hop (cr_header c)) (Split v ",") ++ all_hops (cr_header c) vs)
      with (all_hops (cr_header c) (v :: vs)).
    rewrite Hpre.
    replace (match pre ++ Some a :: ps with [] => _ | _ :: _ => _ end)
      with (Addr_String (walk (cr_trusted c) peer (rev (pre ++ Some a :: ps)) peer)) by (by destruct pre).
    f_equal. rewrite rev_app_distr. simpl. rewrite <- app_assoc.
    rewrite walk_trusted by (by apply all_trusted_rev). simpl. by rewrite Ha.
  - intros Hp Hreal. rewrite Hpeer, Hp, hops_real_ip by done. cbn [negb].
    change "X-Real-IP" with HeaderXRealIP. destruct (Header_Values _ _) as [|v [|]]; [done| |done].
    case_bool_decide; [done|]. f_equal. cbn. destruct (parseHop _) as [a|]; [|done]. by destruct (Peers_Contains _ a).
Qed.

(** behind a trusted peer, the address reported is the peer's own or that of
    a hop with nothing but valid trusted hops to its right: a malformed or
    obfuscated entry on the way falls back to the peer. *)
Theorem ClientIP_from_trusted_suffix (c : ClientIPResolver Prefix) r peer :
  peerAddr r = Ok peer →
  ClientIP c r = Addr_String peer ∨
  ∃ hs pre a ps, hops c r = Some hs ∧ hs = pre ++ Some a :: ps ∧ ClientIP c r = Addr_String a ∧
    all_trusted (cr_trusted c) ps ∧ (Peers_Contains (cr_trusted c) a = false ∨ pre = []).
Proof.
  intros Hpeer. unfold ClientIP. rewrite Hpeer. destruct (Peers_Contains _ peer); simpl; [|by left].
  destruct (hops c r) as [hs|]; [|by left].
  assert (∀ rhs done_ last, all_trusted (cr_trusted c) done_ →
    (match done_ with [] => last = peer | h :: _ => h = Some last end) →
    let a := walk (cr_trusted c) peer rhs last in
    a = peer ∨ ∃ pre ps, rev rhs ++ done_ = pre ++ Some a :: ps ∧ all_trusted (cr_trusted c) ps ∧
      (Peers_Contains (cr_trusted c) a = false ∨ pre = [])) as Hwalk.
  { induction rhs as [|[x|] rhs IH]; intros done_ last Hdone Hlast; simpl; [|  |by left].
    - destruct done_ as [|h ds]; [by left|]. subst. right. exists [], ds.
      split_and!; [done| |by right]. by inversion Hdone.
    - destruct (Peers_Contains (cr_trusted c) x) eqn:Hx.
      + rewrite <- app_assoc. apply (IH (Some x :: done_)); [|done]. constructor; [by exists x|done].
      + right. exists (rev rhs), done_. rewrite <- app_assoc. auto. }
  destruct hs as [|h hs]; [by left|].
  destruct (Hwalk (rev (h :: hs)) [] peer) as [->|(pre & ps & Heq & Hps & Ha)]; [constructor|done|by left|].
  rewrite rev_involutive, app_nil_r in Heq. right. exists (h :: hs), pre, (walk (cr_trusted c) peer (rev (h :: hs)) peer), ps. done.
Qed.
End ClientIPProps.

(** ** The public base URL *)

Section BaseProps.
Context {Addr Prefix : Type} {NI : NetIP Addr Prefix}.
Context (url_Parts : string -> option URLParts).

(** A path a link can be appended to: empty, or from the root without a query
    or a fragment, and no slash at its end. *)
Definition base_path_ok (path : string) : Prop :=
  (path = "" ∨ ∃ l, to_bytes path = "/"%char :: l) ∧
  "?"%char ∉ to_bytes path ∧ "#"%char ∉ to_bytes path ∧ last (to_bytes path) ≠ Some "/"%char.

Lemma ContainsAny_false s chars c : ContainsAny s chars = false → c ∈ chars → c ∉ to_bytes s.
Proof.
  unfold ContainsAny. intros Hf Hc Hin.
  assert (existsb (fun c => existsb (Ascii.eqb c) chars) (to_bytes s) = true); [|congruence].
  apply existsb_exists. exists c. rewrite <- list_elem_of_In. split; [done|].
  apply existsb_exists. exists c. rewrite <- list_elem_of_In. split; [done|apply Ascii.eqb_refl].
Qed.

Lemma HasPrefix_slash s : HasPrefix s "/" = true → ∃ l, to_bytes s = "/"%char :: l.
Proof.
  unfold HasPrefix. destruct (strip_prefix _ _) as [l|] eqn:Hs; [|done].
  apply strip_prefix_Some in Hs. by exists l.
Qed.

Lemma trimmed_path_ok prefix :
  prefix = "" ∨ HasPrefix prefix "/" = true ∧ ContainsAny prefix ["?"%char; "#"%char] = false →
  base_path_ok (TrimRight prefix ["/"%char]).
Proof.
  intros Hp. destruct (TrimRight_spec prefix ["/"%char]) as [[q Hq] Hlast].
  split_and!.
  - destruct (to_bytes (TrimRight prefix ["/"%char])) as [|c l] eqn:Ht.
    + left. apply to_bytes_inj. done.
    + right. exists l. destruct Hp as [->|[Hp _]]; [done|].
      apply HasPrefix_slash in Hp as [l' Hl']. rewrite Hl' in Hq. by simplify_eq/=.
  - intros Hin. destruct Hp as [->|[_ Hc]]; [by apply elem_of_nil in Hin|].
    apply (ContainsAny_false _ _ "?" Hc); [set_solver|]. rewrite Hq. set_solver.
  - intros Hin. destruct Hp as [->|[_ Hc]]; [by apply elem_of_nil in Hin|].
    apply (ContainsAny_false _ _ "#" Hc); [set_solver|]. rewrite Hq. set_solver.
  - intros Hl. apply (Hlast _ Hl). by left.
Qed.

Lemma ParsePublicURL_ok raw u :
  ParsePublicURL url_Parts raw = Some u →
  (up_Scheme u = "http" ∨ up_Scheme u = "https") ∧ up_Host u ≠ "" ∧
  last (to_bytes (up_Path u)) ≠ Some "/"%char.
Proof.
  unfold ParsePublicURL. destruct (url_Parts raw) as [v|]; [|done].
  destruct (String.eqb_spec (up_Scheme v) "http"); destruct (String.eqb_spec (up_Scheme v) "https"); simpl; try done;
    destruct (String.eqb_spec (up_Host v) ""); simpl; try done; destruct (_ || _); try done;
    intros [= <-]; simpl; (split_and!; [by auto|done|]);
    intros Hl; apply (proj2 (TrimRight_spec _ _) _ Hl); by left.
Qed.

(** a link base the proxy derives from a request is safe to write into a
    document: an http or https URL with an authority that parses back to
    itself and a path that is empty or rooted, with no query, fragment or
    trailing slash - or the request is refused.  A configured public URL wins
    over everything the request says, and headers count only when the peer is
    a trusted proxy. *)
Theorem Base_safe (p : option (PublicBaseResolver Prefix)) r :
  (∀ u, (p ≫= pb_fixed) = Some u → Base url_Parts p r = Some u) ∧
  ((p ≫= pb_fixed) = None →
   (∀ u, Base url_Parts p r = Some u →
      (up_Scheme u = "http" ∨ up_Scheme u = "https") ∧ validAuthority url_Parts (up_Host u) = true ∧
      base_path_ok (up_Path u) ∧ up_RawQuery u = "" ∧ up_Fragment u = "" ∧ up_User u = false) ∧
   (match p with Some p => PeerTrusted (pb_trusted p) r | None => false end = false →
      ∀ h, Base url_Parts p (with_header h r) = Base url_Parts p r)).
Proof.
  split; [intros u Hu; unfold Base; by rewrite Hu|]. intros Hnone. unfold Base. rewrite Hnone. split.
  - intros u. destruct (base_parts p r) as [[[scheme host] port] prefix].
    destruct (negb (scheme =s? "http") && negb (scheme =s? "https")) eqn:Hs; [done|].
    destruct (validAuthority url_Parts host) eqn:Hv; simpl; [|done].
    match goal with |- context [match ?h with Some _ => _ | None => _ end] => destruct h as [host'|] eqn:Hh end; [|done].
    destruct (negb (prefix =s? "") && _) eqn:Hp; [done|]. intros [= <-]. simpl. split_and!; [| | |done..].
    + apply andb_false_iff in Hs. rewrite !negb_false_iff, !String.eqb_eq in Hs. done.
    + destruct (negb (port =s? "")); [|congruence]. destruct (SplitHostPort host); [congruence|].
      destruct (validAuthority url_Parts (JoinHostPort _ _)) eqn:Hj; congruence.
    + apply trimmed_path_ok. destruct (String.eqb_spec prefix ""); [by left|right]. simpl in Hp.
      apply orb_false_iff in Hp as [Hp1 Hp2]. by apply negb_false_iff in Hp1.
  - intros Hpeer h. unfold base_parts.
    change (match p with Some p => PeerTrusted (pb_trusted p) (with_header h r) | None => false end)
      with (match p with Some p => PeerTrusted (pb_trusted p) r | None => false end).
    by rewrite Hpeer.
Qed.
End BaseProps.

(** ** Witnesses: dotted quads, prefixes of whole octets *)

Definition octets (l : list string) : option (list Z) :=
  mapM (fun s => z ← ParseInt s; if (0 <=? z) && (z <? 256) then Some z else None) l.

Definition parse_quad (s : string) : option (list Z) :=
  l ← octets (Split s "."%char); if Nat.eqb (length l) 4 then Some l else None.

Definition join_dots (l : list Z) : string := String.concat "." (FormatInt <$> l).

#[local] Instance quads : NetIP (list Z) (list Z) := {
  ParseAddr := parse_quad;
  Addr_of_port s := let '(a, _, found) := Cut s ":"%char in if found then parse_quad a else None;
  Unmap a := a;
  Addr_String a := join_dots a;
  ParsePrefix s :=
    let '(a, bits, _) := Cut s "/"%char in
    l ← parse_quad a; n ← ParseInt bits; Some (take (Z.to_nat (n / 8)) l);
  Masked p := p;
  host_prefix a := a;
  Prefix_Contains p a := bool_decide (p = take (length p) a);
}.

Definition ex_resolver : ClientIPResolver (list Z) :=
  match NewClientIPResolver ["10.0.0.0/8"; " 192.0.2.1 "] "x-forwarded-for" with
  | Ok c => c
  | Err _ => mkResolver [] ""
  end.

(** The client, 203.0.113.9, claims to be a trusted address and more. *)
Definition ex_spoofed : Request :=
  mkRequest "" "" "GET" "/" "" "" "proxy.example" "10.1.2.3:4711" true
    (Header_Add "X-Forwarded-For" "10.9.9.9, 1.2.3.4, 203.0.113.9,10.0.0.7"
      (Header_Add "X-Forwarded-For" "8.8.8.8" ∅)) None.

(** A client that sends an X-Real-IP of its own. *)
Definition ex_two_addresses : Request :=
  mkRequest "" "" "GET" "/" "" "" "proxy.example" "10.1.2.3:4711" true
    (Header_Add "X-Real-IP" "203.0.113.9" (Header_Add "X-Real-IP" "8.8.8.8" ∅)) None.

Lemma ClientIP_spoof_resistant_witness :
  peerAddr ex_spoofed = Ok [10; 1; 2; 3] ∧ ClientIP ex_resolver ex_spoofed = "203.0.113.9" ∧
  ClientIP (mkResolver (cr_trusted ex_resolver) "X-Real-IP") ex_two_addresses = "10.1.2.3".
Proof.
  assert (peerAddr ex_spoofed = Ok [10; 1; 2; 3]) as Hp by (vm_compute; reflexivity).
  split; [exact Hp|]. split.
  - refine (proj1 (proj2 (ClientIP_spoof_resistant ex_resolver ex_spoofed _ Hp)) _ _ ["8.8.8.8"]
      "10.9.9.9, 1.2.3.4, 203.0.113.9,10.0.0.7" [] " 203.0.113.9,10.0.0.7" [203; 0; 113; 9] [Some [10; 0; 0; 7]] _ _ _ _ _);
      try (vm_compute; reflexivity); [vm_compute; discriminate|right; by exists "10.9.9.9, 1.2.3.4"|].
    constructor; [exists [10; 0; 0; 7]; split; vm_compute; reflexivity|constructor].
  - refine (eq_trans (proj2 (proj2 (ClientIP_spoof_resistant (mkResolver (cr_trusted ex_resolver) "X-Real-IP") ex_two_addresses
      [10; 1; 2; 3] _)) _ _) _); vm_compute; reflexivity.
Defined.

Lemma ClientIP_from_trusted_suffix_witness :
  peerAddr ex_spoofed = Ok [10; 1; 2; 3] ∧
  (ClientIP ex_resolver ex_spoofed = Addr_String [10; 1; 2; 3] ∨
   ∃ hs pre a ps, hops ex_resolver ex_spoofed = Some hs ∧ hs = pre ++ Some a :: ps ∧
     ClientIP ex_resolver ex_spoofed = Addr_String a ∧ all_trusted (cr_trusted ex_resolver) ps ∧
     (Peers_Contains (cr_trusted ex_resolver) a = false ∨ pre = [])).
Proof.
  assert (peerAddr ex_spoofed = Ok [10; 1; 2; 3]) as Hp by (vm_compute; reflexivity).
  split; [exact Hp|]. exact (ClientIP_from_trusted_suffix ex_resolver ex_spoofed _ Hp).
Defined.
