(* ===== verification/Metadata.v ===== *)
(** * Package proxy: metadata and index documents (metadata.go, index.go),
    and the routing of requests (handler.go's ServeHTTP, mux.go)

    Documents that link downloads are served only rewritten.  gzip, SHA-256,
    RequestURI and the printing of a URL are parameters. *)
From S2P Require Import Prelude GoStd Gate Upstream CircuitBreaker HTTP ClientIP Handler.
Local Open Scope Z_scope.

(** ** Conditional requests *)

Definition nul : string := String (byte_of 0) EmptyString.
Definition newline : string := String (byte_of 10) EmptyString.
Definition dquote : string := String (byte_of 34) EmptyString.

Definition syntheticETagPrefix : string := dquote +:+ "joei.".

(** strings.Join. *)
Definition Join (l : list string) (sep : string) : string := String.concat sep l.

Definition etagMatches (ifNoneMatch tag : string) : bool :=
  existsb (fun candidate => TrimSpace candidate =s? tag) (Split ifNoneMatch ","%char).

(** What reading an upstream document gives. *)
Inductive ReadDoc :=
| RDoc (doc : bytes)
| ROversized
| RUnsupported
| RReadErr.

Section Metadata.
Context {C : Type} {AC : ArtifactCache C}.
Context {Addr Prefix : Type} {NI : NetIP Addr Prefix}.
Context (url_Parse : string -> option url) (url_String : url -> string).
Context (url_Parts : string -> option URLParts) (base_String : URLParts -> string).
Context (RequestURI : Request -> string).
(** SHA-256 in lower-case hex. *)
Context (sha256_hex : string -> string).
(** gzip.NewReader on a body that ends in an error or not, and reading it:
    [None] for a bad header, else the decoded bytes and whether reading them
    ends in an error.  The writer's side is [gzip]. *)
Context (gunzip : bytes -> bool -> option (bytes * bool)) (gzip : bytes -> option bytes).
(** Whether strconv.ParseFloat reads a zero. *)
Context (ParseFloat_zero : string -> bool).
Context (env : Env) (publicBase : option (PublicBaseResolver Prefix)) (cfg : HandlerConfig).

Local Notation M := (St (World C)).

Definition syntheticETag (body : bytes) : string :=
  syntheticETagPrefix +:+ of_bytes (take 16 (to_bytes (sha256_hex (of_bytes body)))) +:+ dquote.

Definition credentialTag (r : Request) : string :=
  let auth := Header_Values (rq_Header r) "Authorization" in
  let cookie := Header_Values (rq_Header r) "Cookie" in
  match auth, cookie with
  | [], [] => ""
  | _, _ => sha256_hex (Join auth newline +:+ nul +:+ Join cookie newline)
  end.

Definition metadataLimit : Z :=
  if MetadataFilterMaxMB cfg <=? 0 then 0 else wrap64 (Z.shiftl (MetadataFilterMaxMB cfg) 20).

Definition metadataFilterRef (r : Request) : option MetadataRef :=
  match NormalizeMetadataRequest (cfg_Adapter cfg) with
  | None => None
  | Some normalize => normalize r
  end.

(** [None] is an encoding the proxy does not decode. *)
Definition decoded_body (header : Header) (body : bytes) (bodyErr : bool)
    : option (option (bytes * bool)) :=
  let coding := TrimSpace (Header_Get header "Content-Encoding") in
  if (coding =s? "") || EqualFold coding "identity" then Some (Some (body, bodyErr))
  else if EqualFold coding "gzip" then Some (gunzip body bodyErr)
  else None.

Definition readMetadataDocument (header : Header) (body : bytes) (bodyErr : bool) (limit : Z) : ReadDoc :=
  match decoded_body header body bodyErr with
  | None => RUnsupported
  | Some None => RReadErr
  | Some (Some (src, srcErr)) =>
      if limit <=? 0 then if srcErr then RReadErr else RDoc src
      else
        let n := wrap64 (limit + 1) in
        let '(buf, err) :=
          if n <=? 0 then ([], false)
          else if n <=? Z.of_nat (length src) then (take (Z.to_nat n) src, false)
          else (src, srcErr) in
        if err then RReadErr
        else if Z.of_nat (length buf) <=? limit then RDoc buf
        else ROversized
  end.

(** One element of Accept-Encoding: [None] for another coding than gzip. *)
Definition gzip_param_refuses (param : string) : bool :=
  let '(name, value, ok) := Cut (TrimSpace param) "="%char in
  ok && EqualFold (TrimSpace name) "q" && ParseFloat_zero (TrimSpace value).

Definition accepts_part (part : string) : option bool :=
  match Split (TrimSpace part) ";"%char with
  | [] => None
  | coding :: params =>
      if EqualFold (TrimSpace coding) "gzip" then Some (negb (existsb gzip_param_refuses params)) else None
  end.

Definition clientAcceptsGzip (r : Request) : bool :=
  match omap accepts_part (Split (Header_Get (rq_Header r) "Accept-Encoding") ","%char) with
  | b :: _ => b
  | [] => false
  end.

(** The request sent upstream: unconditional, whole, gzip or plain. *)
Definition outbound (r : Request) : Request :=
  with_header (Header_Set "Accept-Encoding" "gzip"
    (Header_Del "If-Range" (Header_Del "Range" (Header_Del "If-Modified-Since"
      (Header_Del "If-None-Match" (rq_Header r)))))) r.

Definition writeJSONError (status : Z) (code : string) : M unit :=
  writeJSON status [("error", JString code)].

Definition failMetadata : M unit := writeJSONError StatusBadGateway "metadata_rewrite_failed".
Definition failIndex : M unit := writeJSONError StatusBadGateway "index_rewrite_failed".

Definition writeMetadataDocument (r : Request) (header : Header) (status : Z) (body : bytes) (tag : string) : M unit :=
  _ <- header_map (fun h =>
         Header_Set "ETag" tag (Header_Del "Last-Modified" (Header_Del "Content-Encoding"
           (Header_Del "Content-Length" (copyProxyHeaders h header)))));;
  payload <- (if clientAcceptsGzip r then
                match gzip body with
                | Some gzipped => _ <- header_set "Content-Encoding" "gzip";; ret_st gzipped
                | None => ret_st body
                end
              else ret_st body);;
  _ <- header_set "Content-Length" (FormatInt (Z.of_nat (length payload)));;
  n <- ask (fun tr => Nat.min (env_Copied env tr payload) (length payload)) CCopied;;
  respond status (BStream payload n).

(** ** Index documents *)

Definition defaultIndexMaxMB : Z := 64.

Definition index_limit : Z :=
  wrap64 (Z.shiftl (if IndexMaxMB cfg <=? 0 then defaultIndexMaxMB else IndexMaxMB cfg) 20).

Definition not_modified (tag : string) : M unit :=
  _ <- header_set "ETag" tag;;
  respond StatusNotModified BNone.

Definition proxyIndex (r : Request) : M unit :=
  res <- forwardUpstream url_Parse url_String env cfg (outbound r);;
  match res with
  | FFail atts err => writeForwardError url_Parse env atts err
  | FResp status header body bodyErr _ =>
      if negb (status =? StatusOK) then
        if (status <? 300) && negb (status =? StatusNoContent) then failIndex
        else relay env status header body
      else
        match readMetadataDocument header body bodyErr index_limit with
        | RReadErr | RUnsupported | ROversized => failIndex
        | RDoc doc =>
            match RewriteIndex (cfg_Adapter cfg) doc (Header_Get header "Content-Type") (rq_Path r) with
            | None => failIndex
            | Some out =>
                let tag := syntheticETag (ir_Body out) in
                if etagMatches (Join (Header_Values (rq_Header r) "If-None-Match") ", ") tag
                then not_modified tag
                else writeMetadataDocument r header status (ir_Body out) tag
            end
        end
  end.

(** ** Metadata documents *)

(** The flight's own work.  The text around the wrapped errors reaches the
    log only. *)
Definition fetch_document (r : Request) (limit : Z) : M docResult :=
  res <- forwardUpstream url_Parse url_String env cfg r;;
  ret_st (match res with
  | FFail atts err => mkDocResult None atts err
  | FResp status header body bodyErr _ =>
      if status =? StatusOK then
        match readMetadataDocument header body bodyErr limit with
        | RReadErr => mkDocResult None [] (Some (ENew "reading metadata document"))
        | RUnsupported =>
            mkDocResult None [] (Some (EWrap "" (ESentinel SErrMetadataEncoding)
                                         (": " +:+ Header_Get header "Content-Encoding")))
        | ROversized => mkDocResult None [] (Some (ESentinel SErrMetadataOversized))
        | RDoc doc => mkDocResult (Some (mkFetch (Some doc) header status)) [] None
        end
      else if status =? StatusNoContent then mkDocResult (Some (mkFetch None header status)) [] None
      else mkDocResult None [] (Some (EWrap "" (ESentinel SErrMetadataStatus) (": " +:+ FormatInt status)))
  end).

Definition fetchMetadataDocument (r : Request) (key : string) (limit : Z) : M docResult :=
  fl <- ask (fun tr => env_DocFlight env tr key) (CDocFlight key);;
  match fl with
  | Some res => ret_st res
  | None => fetch_document r limit
  end.

Definition flight_key (r : Request) : string :=
  RequestURI r +:+ nul +:+ Header_Get (rq_Header r) "Accept" +:+ nul +:+ credentialTag r.

(** The gates' verdict on one version of a document, without network calls. *)
Definition versionDecider (mref : MetadataRef) (version : string) (publishedAt : Z) : M bool :=
  let ref := mkRef (mr_Ecosystem mref) (mr_Name mref) version "" in
  denied <- (if cfg_Policy cfg then
               d <- policy_Evaluate env ref (mkScan false [] "");;
               ret_st (negb (pd_Allowed d) && (pd_Reason d =s? ReasonDenylisted))
             else ret_st false);;
  if denied then ret_st false
  else if time_is_zero publishedAt then ret_st true
  else
    let meta := mkMeta publishedAt "" "" in
    res <- ask (fun tr => env_Filter env tr ref meta) (CFilter ref meta);;
    ret_st (fr_Allowed res).

(** The link base under which a request's document is rewritten. *)
Definition link_base (base : URLParts) (r : Request) : string :=
  if negb (rq_Prefix r =s? "") then base_String base +:+ "/" +:+ rq_Prefix r else base_String base.

Definition local_failure (err : option error) : bool :=
  match err with
  | None => true
  | Some _ => error_is err SErrNoUpstreams || error_is err SErrUnreadableBody
  end.

Definition set_if (k v : string) : M unit := if negb (v =s? "") then header_set k v else ret_st tt.

Definition serve_document (r : Request) (mref : MetadataRef) (linkBase : string) (fetch : metadataFetch) : M unit :=
  filtered <- FilterVersions (cfg_Adapter cfg) (World C) (default [] (mf_doc fetch)) mref (versionDecider mref) linkBase;;
  match filtered with
  | None => failMetadata
  | Some filtered =>
      let tag := syntheticETag (fd_Body filtered) in
      if etagMatches (Join (Header_Values (rq_Header r) "If-None-Match") ", ") tag then
        _ <- header_set "ETag" tag;;
        _ <- set_if "Cache-Control" (Header_Get (mf_header fetch) "Cache-Control");;
        _ <- set_if "Vary" (Header_Get (mf_header fetch) "Vary");;
        respond StatusNotModified BNone
      else writeMetadataDocument r (mf_header fetch) (mf_status fetch) (fd_Body filtered) tag
  end.

Definition proxyMetadata (r : Request) (mref : MetadataRef) : M unit :=
  match Base url_Parts publicBase r with
  | None => writeJSONError StatusBadRequest "bad_forwarded_header"
  | Some base =>
      res <- fetchMetadataDocument (outbound r) (flight_key r) metadataLimit;;
      match dr_fetch res with
      | None =>
          if local_failure (dr_err res) then writeForwardError url_Parse env (dr_atts res) (dr_err res)
          else failMetadata
      | Some fetch =>
          match dr_err res with
          | Some _ => failMetadata
          | None =>
              if mf_status fetch =? StatusNoContent then
                _ <- header_map (fun h => copyProxyHeaders h (mf_header fetch));;
                respond (mf_status fetch) BNone
              else serve_document r mref (link_base base r) fetch
          end
      end
  end.

(** ** Routing *)

(** logx.Ensure: the request with an identifier, and the identifier. *)
Definition Ensure (r : Request) : M (Request * string) :=
  if negb (rq_ID r =s? "") then ret_st (r, rq_ID r)
  else
    id <- ask (env_NewUUID env) CUUID;;
    ret_st (with_id id r, id).

Definition matches (test : option (Request -> bool)) (r : Request) : bool :=
  match test with Some f => f r | None => false end.

Definition ServeHTTP (r : Request) : M unit :=
  rid <- Ensure r;;
  let '(r, requestID) := rid in
  match NormalizeRequest (cfg_Adapter cfg) r with
  | Some ref => serve_artifact url_Parse url_String env cfg requestID r ref
  | None =>
      if matches (IsArtifactPath (cfg_Adapter cfg)) r then
        writeJSON StatusForbidden [("error", JString "unrecognized_artifact")]
      else if matches (IsIndexRequest (cfg_Adapter cfg)) r then proxyIndex r
      else
        match metadataFilterRef r with
        | Some mref => proxyMetadata r mref
        | None => proxyTransparent url_Parse url_String env cfg r
        end
  end.
End Metadata.

(** ** The mux *)

Definition isBrowserNoise (path : string) : bool := HasPrefix path "/.well-known/".

(** The registry prefix and the rest of the path. *)
Definition splitPrefix (path : string) : string * string :=
  let trimmed := match strip_prefix ["/"%char] (to_bytes path) with Some l => l | None => to_bytes path end in
  match cut_bytes "/"%char trimmed with
  | None => (of_bytes trimmed, "/")
  | Some (a, b) => (of_bytes a, of_bytes ("/"%char :: b))
  end.

Section Mux.
Context {C : Type}.
Local Notation M := (St (World C)).
(** The handlers of the package registries and of the others, by prefix. *)
Context (handlers raw : gmap string (Request -> M unit)).

Definition Mux_ServeHTTP (r : Request) : M unit :=
  if rq_Path r =s? "/health" then writeJSON StatusOK [("status", JString "ok")]
  else if isBrowserNoise (rq_Path r) then respond StatusNotFound BNone
  else
    let '(prefix, rest) := splitPrefix (rq_Path r) in
    let r' := with_prefix prefix rest r in
    match raw !! prefix with
    | Some rh => rh r'
    | None =>
        match handlers !! prefix with
        | Some h => h r'
        | None => writeJSON StatusNotFound [("error", JString "unknown_registry")]
        end
    end.
End Mux.
