(* ===== verification/MetadataSpec.v ===== *)
(** * The promises of the document paths and of the routing

    No document that links downloads reaches a client but as the adapter
    rewrote it; its fetch is unconditional; callers with different credentials
    never share a fetch; a hidden version is one the artifact gate would
    refuse; and every request gets exactly one response. *)
From S2P Require Import Prelude GoStd Gate Supplychain Policy Cache Upstream CircuitBreaker HTTP ClientIP Handler.
From S2P Require Import HandlerProps HandlerSpec Metadata.
Local Open Scope Z_scope.

(** An adapter's FilterVersions acts on the world only through the decider it
    is given: whatever each decision preserves, the rewriting preserves. *)
Definition decides_only (A : RegistryAdapter) : Prop :=
  ∀ S (R : S → S → Prop), (∀ s, R s s) → (∀ a b c, R a b → R b c → R a c) →
  ∀ doc mref decide base s, (∀ v t s, R s (decide v t s).2) → R s (FilterVersions A S doc mref decide base s).2.

(** A document response carries: all of [body], or as much of it as the client
    took, plain or compressed, under the length it has. *)
Definition carries (gzip : bytes -> option bytes) (body : bytes) (rs : Response) : Prop :=
  ∃ payload n, rs_Body rs = BStream payload n ∧ (n ≤ length payload)%nat ∧
    (payload = body ∨ gzip body = Some payload) ∧
    Header_Get (rs_Header rs) "Content-Length" = FormatInt (Z.of_nat (length payload)).

Section MetadataSpec.
Context {C : Type} {AC : ArtifactCache C}.
Context {Addr Prefix : Type} {NI : NetIP Addr Prefix}.
Context (url_Parse : string -> option url) (url_String : url -> string).
Context (url_Parts : string -> option URLParts) (base_String : URLParts -> string).
Context (RequestURI : Request -> string) (sha256_hex : string -> string).
Context (gunzip : bytes -> bool -> option (bytes * bool)) (gzip : bytes -> option bytes).
Context (ParseFloat_zero : string -> bool).
Context (env : Env) (publicBase : option (PublicBaseResolver Prefix)) (cfg : HandlerConfig).
Context (Hthrottles : ∀ tr, lookup_ok (env_Throttles env tr)).
Implicit Types (w : World C) (l : list Call).

Local Notation steps := (steps env).

(** ** Forwarding a document request *)

Lemma forwardUpstream_steps r w :
  steps (forwardUpstream url_Parse url_String env cfg r) w (λ res l w', quiet l ∧ same w w' ∧
    replayed r (UpstreamURLs (cfg_Adapter cfg) r) l ∧
    match res with
    | FResp status hdr b berr _ => status < 400 ∧ ∃ out cl, (out, DoResp status hdr cl b berr) ∈ dos l
    | FFail _ err => err = None ∨ ∃ s, err = Some (ESentinel s) ∧ (s = SErrNoUpstreams ∨ s = SErrUnreadableBody)
    end).
Proof using.
  clear Hthrottles. unfold forwardUpstream.
  assert (∀ s, s = SErrNoUpstreams ∨ s = SErrUnreadableBody → ∀ urls w1,
    steps (ret_st (FFail [] (Some (ESentinel s)))) w1 (λ res l w', quiet l ∧ same w1 w' ∧ replayed r urls l ∧
      match res with
      | FResp status hdr b berr _ => status < 400 ∧ ∃ out cl, (out, DoResp status hdr cl b berr) ∈ dos l
      | FFail _ err => err = None ∨ ∃ s, err = Some (ESentinel s) ∧ (s = SErrNoUpstreams ∨ s = SErrUnreadableBody)
      end)) as Hfail.
  { intros s Hs urls w1. step. split; [done|]. split; [done|]. split; [|by right; exists s].
    split; [done|]. intros c Hc. by apply elem_of_nil in Hc. }
  assert (∀ body urls w1, body = request_body r →
    steps (forward_loop url_Parse url_String env r body urls []) w1 (λ res l w', quiet l ∧ same w1 w' ∧ replayed r urls l ∧
      match res with
      | FResp status hdr b berr _ => status < 400 ∧ ∃ out cl, (out, DoResp status hdr cl b berr) ∈ dos l
      | FFail _ err => err = None ∨ ∃ s, err = Some (ESentinel s) ∧ (s = SErrNoUpstreams ∨ s = SErrUnreadableBody)
      end)) as Hloop.
  { intros body urls w1 ->. eapply steps_mono; [apply forward_loop_steps|].
    intros res l w' (Hq & Hs & _ & Hz & Hres). split; [done|]. split; [done|].
    split; [by apply replayed_zip|]. destruct res as [status hdr b e atts|atts err].
    - destruct Hres as (failed & out & cl & new & -> & ? & _). split; [done|]. exists out, cl.
      apply elem_of_app. right. by apply list_elem_of_singleton.
    - left. by destruct Hres as (-> & _). }
  destruct (UpstreamURLs (cfg_Adapter cfg) r) as [|u urls]; [apply Hfail; auto|].
  destruct (rq_Body r) as [[body|]|] eqn:Hb; [|apply Hfail; auto|]; apply Hloop; unfold request_body; by rewrite Hb.
Qed.

(** A response from the error branch is never a success. *)
Lemma forward_error_steps atts err w :
  err = None ∨ (∃ s, err = Some (ESentinel s) ∧ (s = SErrNoUpstreams ∨ s = SErrUnreadableBody)) →
  steps (writeForwardError url_Parse env atts err) w (λ _ l w', ∃ rs, answered l rs ∧ dos l = [] ∧ 400 ≤ rs_Status rs).
Proof.
  intros He. eapply steps_mono; [by apply writeForwardError_steps|].
  intros [] l w' (rs & Ha & Hd & H1 & H2 & H3). exists rs. split; [done|]. split; [done|].
  destruct He as [->|(s & -> & [->| ->])].
  - destruct (H3 eq_refl) as [Hin _]. set_unfold in Hin. lia.
  - rewrite H1 by done. done.
  - rewrite H2 by done. done.
Qed.

(** ** Writing a document *)

Lemma writeJSON_answers status body w :
  steps (writeJSON status body) w (λ _ l w', ∃ rs, answered l rs ∧ dos l = [] ∧ rs_Status rs = status).
Proof using. clear Hthrottles. unfold writeJSON. run. subst. eexists. done. Qed.

Lemma writeMetadataDocument_steps r header status body tag w :
  steps (writeMetadataDocument gzip ParseFloat_zero env r header status body tag) w (λ _ l w', ∃ rs, answered l rs ∧ dos l = [] ∧
    rs_Status rs = status ∧ carries gzip body rs ∧ Header_Get (rs_Header rs) "ETag" = tag).
Proof using.
  clear Hthrottles. unfold writeMetadataDocument. do 2 step.
  assert (∀ payload (h : Header) w1, payload = body ∨ gzip body = Some payload → w_header w1 = h →
    Header_Get h "ETag" = tag →
    steps (_ <- header_set "Content-Length" (FormatInt (Z.of_nat (length payload)));;
           n <- ask (fun tr => Nat.min (env_Copied env tr payload) (length payload)) CCopied;;
           respond status (BStream payload n)) w1 (λ _ l w', ∃ rs, answered l rs ∧ dos l = [] ∧
      rs_Status rs = status ∧ carries gzip body rs ∧ Header_Get (rs_Header rs) "ETag" = tag)) as Hend.
  { intros payload h w1 Hp <- Ht. run_eq. subst. eexists. split; [done|]. split; [done|]. split; [done|]. split.
    - exists payload. eexists. split; [done|]. split; [lia|]. split; [done|]. apply Header_Get_Set.
    - simpl. rewrite Header_Get_Set_ne by (vm_compute; discriminate). done. }
  assert (∀ h : Header, Header_Get (Header_Set "ETag" tag h) "ETag" = tag) as Htag by (intros; apply Header_Get_Set).
  destruct (clientAcceptsGzip ParseFloat_zero r); [destruct (gzip body) as [payload|] eqn:Hg|]; simpl.
  - do 4 step. eapply Hend; [by right|done|]. simpl. rewrite Header_Get_Set_ne by (vm_compute; discriminate). apply Htag.
  - do 2 step. eapply Hend; [by left|done|apply Htag].
  - do 2 step. eapply Hend; [by left|done|apply Htag].
Qed.

(** ** What goes upstream *)

(** Every call of [l] asks for the whole document, unconditionally. *)
Definition unconditional l : Prop := ∀ c, c ∈ dos l →
  (∀ k, k ∈ ["If-None-Match"; "If-Modified-Since"; "Range"; "If-Range"] → Header_Values (out_Header c.1) k = []) ∧
  Header_Values (out_Header c.1) "Accept-Encoding" = ["gzip"].

Lemma Header_Values_del_ne (h : Header) k k' :
  CanonicalMIMEHeaderKey k ≠ CanonicalMIMEHeaderKey k' → Header_Values (Header_Del k' h) k = Header_Values h k.
Proof using. clear. intros Hne. unfold Header_Values, Header_Del. by rewrite lookup_delete_ne. Qed.

Lemma Header_Values_del (h : Header) k : Header_Values (Header_Del k h) k = [].
Proof using. clear. unfold Header_Values, Header_Del. by rewrite lookup_delete_eq. Qed.

Lemma Header_Values_set_ne (h : Header) k k' v :
  CanonicalMIMEHeaderKey k ≠ CanonicalMIMEHeaderKey k' → Header_Values (Header_Set k' v h) k = Header_Values h k.
Proof using. clear. intros Hne. unfold Header_Values, Header_Set. by rewrite lookup_insert_ne. Qed.

Lemma outbound_replayed r urls l :
  canonical_header (rq_Header r) → replayed (outbound r) urls l → unconditional l.
Proof using.
  clear. intros Hc [_ Hall] c Hin. destruct (Hall c Hin) as (_ & _ & -> & _).
  assert (canonical_header (rq_Header (outbound r))) as Hc' by (unfold outbound; simpl; auto 10 with joei).
  assert (∀ k, CanonicalMIMEHeaderKey k = k → bool_decide (k ∈ map CanonicalMIMEHeaderKey hopByHopHeaders) = false →
    Header_Values (copyProxyHeaders ∅ (rq_Header (outbound r))) k = Header_Values (rq_Header (outbound r)) k) as Hv.
  { intros k Hk Hhop. apply bool_decide_eq_false in Hhop.
    rewrite (copyProxyHeaders_values ∅ _ k Hc' Hk), decide_False by done.
    by rewrite (Header_Values_canonical ∅ k Hk), lookup_empty. }
  split.
  - intros k Hk. rewrite Hv by (repeat (apply elem_of_cons in Hk as [->|Hk]; [by vm_compute|]); by apply elem_of_nil in Hk).
    unfold outbound. simpl.
    repeat (apply elem_of_cons in Hk as [->|Hk];
      [rewrite Header_Values_set_ne by (vm_compute; discriminate);
       repeat first [apply Header_Values_del|rewrite Header_Values_del_ne by (vm_compute; discriminate)]|]).
    by apply elem_of_nil in Hk.
  - rewrite Hv by by vm_compute. apply Header_Values_Set.
Qed.

Lemma unconditional_app l1 l2 : dos l2 = [] → unconditional l1 → unconditional (l1 ++ l2).
Proof using. clear. intros E H c. rewrite dos_app, E, app_nil_r. apply H. Qed.

(** ** Index documents *)

(** How a request for an index ends. *)
Definition index_end (r : Request) l (rs : Response) : Prop :=
  (∃ out hdr cl b berr doc ir, (out, DoResp 200 hdr cl b berr) ∈ dos l ∧
     readMetadataDocument gunzip hdr b berr (index_limit cfg) = RDoc doc ∧
     RewriteIndex (cfg_Adapter cfg) doc (Header_Get hdr "Content-Type") (rq_Path r) = Some ir ∧
     Header_Get (rs_Header rs) "ETag" = syntheticETag sha256_hex (ir_Body ir) ∧
     (rs_Status rs = 200 ∧ carries gzip (ir_Body ir) rs ∨ rs_Status rs = 304 ∧ rs_Body rs = BNone)) ∨
  (∃ out hdr cl b berr, (out, DoResp (rs_Status rs) hdr cl b berr) ∈ dos l ∧
     (rs_Status rs = 204 ∨ 300 ≤ rs_Status rs < 400)) ∨
  400 ≤ rs_Status rs.

Lemma proxyIndex_steps r w :
  steps (proxyIndex url_Parse url_String sha256_hex gunzip gzip ParseFloat_zero env cfg r) w
    (λ _ l _, replayed (outbound r) (UpstreamURLs (cfg_Adapter cfg) (outbound r)) l ∧
       ∃ rs, answered l rs ∧ index_end r l rs).
Proof using Hthrottles.
  unfold proxyIndex. eapply steps_seq; [apply forwardUpstream_steps|].
  intros res l1 w1 (Hq & _ & Hrep & Hres).
  assert (∀ (m : St (World C) unit) (P : Response → Prop),
    steps m w1 (λ _ l _, ∃ rs, answered l rs ∧ dos l = [] ∧ P rs) →
    (∀ l2 rs, dos (l1 ++ l2) = dos l1 → P rs → index_end r (l1 ++ l2) rs) →
    steps m w1 (λ _ l2 _, replayed (outbound r) (UpstreamURLs (cfg_Adapter cfg) (outbound r)) (l1 ++ l2) ∧
      ∃ rs, answered (l1 ++ l2) rs ∧ index_end r (l1 ++ l2) rs)) as Hend.
  { intros m P Hm HP. eapply steps_mono; [exact Hm|]. intros [] l2 w2 (rs & Ha & Hd & HPrs).
    assert (dos (l1 ++ l2) = dos l1) as Hd' by by rewrite dos_app, Hd, app_nil_r.
    split; [unfold replayed in *; by rewrite Hd'|]. exists rs. split; [by apply answered_app|by apply HP]. }
  assert (∀ m : St (World C) unit, steps m w1 (λ _ l _, ∃ rs, answered l rs ∧ dos l = [] ∧ 400 ≤ rs_Status rs) →
    steps m w1 (λ _ l2 _, replayed (outbound r) (UpstreamURLs (cfg_Adapter cfg) (outbound r)) (l1 ++ l2) ∧
      ∃ rs, answered (l1 ++ l2) rs ∧ index_end r (l1 ++ l2) rs)) as Herr.
  { intros m Hm. eapply Hend; [exact Hm|]. intros. by right; right. }
  assert (steps failIndex w1 (λ _ l _, ∃ rs, answered l rs ∧ dos l = [] ∧ 400 ≤ rs_Status rs)) as Hfail.
  { eapply steps_mono; [apply writeJSON_answers|]. intros [] l2 w2 (rs & ? & ? & Hst). exists rs. by rewrite Hst. }
  destruct res as [status hdr b berr atts|atts err]; [|by apply Herr, forward_error_steps].
  destruct Hres as [Hlt (out & cl & Hin)].
  destruct (Z.eqb_spec status StatusOK) as [->|Hne]; simpl.
  2:{ destruct ((status <? 300) && negb (status =? StatusNoContent)) eqn:Hs; [by apply Herr|].
      eapply Hend; [apply relay_steps|]. intros l2 rs Hd (Hst & _). right. left.
      exists out, hdr, cl, b, berr. rewrite Hd, Hst. split; [done|]. unfold StatusNoContent in Hs. lia. }
  destruct (readMetadataDocument gunzip hdr b berr (index_limit cfg)) as [doc| | |] eqn:Hdoc; try by apply Herr.
  destruct (RewriteIndex _ _ _ _) as [ir|] eqn:Hir; [|by apply Herr].
  destruct (etagMatches _ _).
  - unfold not_modified. eapply (Hend _ (λ rs, rs_Status rs = 304 ∧ rs_Body rs = BNone ∧
      Header_Get (rs_Header rs) "ETag" = syntheticETag sha256_hex (ir_Body ir))).
    + run. subst. eexists. split_and!; [done..|]. apply Header_Get_Set.
    + intros l2 rs Hd (? & ? & ?). left. exists out, hdr, cl, b, berr, doc, ir. rewrite Hd. auto 10.
  - eapply Hend; [apply writeMetadataDocument_steps|]. intros l2 rs Hd (? & ? & ?). left.
    exists out, hdr, cl, b, berr, doc, ir. rewrite Hd. auto 10.
Qed.

(** an index that links downloads is never relayed: each request for one
    gets a single response, and one below 300 other than 204 carries what the
    adapter made of a document the upstream answered with 200, in full or cut
    short by the client, under a tag made from those bytes; a matching tag of
    the client's gets 304 without a body.  What cannot be read within the
    limit or rewritten is refused. *)
Theorem index_served_only_rewritten r w :
  ∃ l rs, w_trace (proxyIndex url_Parse url_String sha256_hex gunzip gzip ParseFloat_zero env cfg r w).2 = w_trace w ++ l ∧
    answered l rs ∧ index_end r l rs.
Proof using Hthrottles. destruct (proxyIndex_steps r w) as (l & Hl & _ & _ & rs & ? & ?). by exists l, rs. Qed.

(** ** Metadata documents *)

(** A decision about a version consults the policy and the age filter only. *)
Definition consults (s s' : World C) : Prop :=
  ∃ l, w_trace s' = w_trace s ++ l ∧ consistent env (w_trace s) l ∧ quiet l ∧ dos l = [] ∧ same s s'.

Lemma consults_refl s : consults s s.
Proof using. clear. exists []. by rewrite app_nil_r. Qed.

Lemma consults_trans a b c : consults a b → consults b c → consults a c.
Proof using.
  clear. intros (l1 & H1 & C1 & Q1 & D1 & S1) (l2 & H2 & C2 & Q2 & D2 & S2). exists (l1 ++ l2).
  split; [by rewrite H2, H1, app_assoc|]. split; [apply consistent_app; by rewrite <- H1|].
  split; [auto with joei|]. split; [by rewrite dos_app, D1, D2|]. by eapply same_trans.
Qed.

Lemma versionDecider_steps mref version t w :
  steps (versionDecider env cfg mref version t) w (λ b l w', quiet l ∧ dos l = [] ∧ same w w').
Proof using.
  clear. unfold versionDecider, policy_Evaluate. run; (split; [auto 10 with joei|done]).
Qed.

Lemma versionDecider_consults mref version t w : consults w (versionDecider env cfg mref version t w).2.
Proof using. clear. destruct (versionDecider_steps mref version t w) as (l & ? & ? & ? & ? & ?). by exists l. Qed.

(** What a fetch of a document returns. *)
Definition doc_ok (res : docResult) : Prop :=
  match dr_fetch res with
  | Some f => mf_status f = 200 ∧ is_Some (mf_doc f) ∨ mf_status f = 204
  | None => local_failure (dr_err res) = true → dr_err res = None ∨
      ∃ s, dr_err res = Some (ESentinel s) ∧ (s = SErrNoUpstreams ∨ s = SErrUnreadableBody)
  end.

Local Notation fetch_doc r w := (fetch_document url_Parse url_String gunzip env cfg (outbound r) (metadataLimit cfg) w).
Local Notation key_of r := (flight_key RequestURI sha256_hex r).

(** A flight joined returns what its leader's own fetch returned: one that ran
    for a request with the same key. *)
Definition flights_led : Prop := ∀ tr key res, env_DocFlight env tr key = Some res →
  ∃ r' (w' : World C), key_of r' = key ∧ res = (fetch_doc r' w').1.

(** All of a body, decoded if it was compressed, its end reached without an
    error, and no larger than the cap, if there is one. *)
Definition read_whole (header : Header) (body : bytes) (bodyErr : bool) (doc : bytes) : Prop :=
  let coding := TrimSpace (Header_Get header "Content-Encoding") in
  ((coding = "" ∨ EqualFold coding "identity" = true) ∧ doc = body ∧ bodyErr = false ∨
   EqualFold coding "gzip" = true ∧ gunzip body bodyErr = Some (doc, false)) ∧
  (0 < MetadataFilterMaxMB cfg < 2 ^ 43 → Z.of_nat (length doc) ≤ MetadataFilterMaxMB cfg * 2 ^ 20).

Lemma read_limited (src : bytes) (srcErr : bool) doc limit :
  limit < max_int64 →
  (if limit <=? 0 then if srcErr then RReadErr else RDoc src
   else
     let n := wrap64 (limit + 1) in
     let '(buf, err) :=
       if n <=? 0 then ([], false)
       else if n <=? Z.of_nat (length src) then (take (Z.to_nat n) src, false) else (src, srcErr) in
     if err : bool then RReadErr else if Z.of_nat (length buf) <=? limit then RDoc buf else ROversized) = RDoc doc →
  doc = src ∧ srcErr = false ∧ (0 < limit → Z.of_nat (length doc) ≤ limit).
Proof using.
  clear. intros Hlt. destruct (Z.leb_spec limit 0); [destruct srcErr; [done|]; intros [= <-]; split_and!; [done..|lia]|].
  cbv zeta. rewrite wrap64_id by (unfold in_int64, min_int64; lia). rewrite (proj2 (Z.leb_gt _ _)) by lia.
  destruct (Z.leb_spec (limit + 1) (Z.of_nat (length src))).
  - rewrite length_take, (proj2 (Z.leb_gt _ _)) by lia. done.
  - destruct srcErr; [done|]. destruct (Z.leb_spec (Z.of_nat (length src)) limit); [|done]. by intros [= <-].
Qed.

Lemma metadataLimit_spec :
  metadataLimit cfg < max_int64 ∧
  (0 < MetadataFilterMaxMB cfg < 2 ^ 43 → metadataLimit cfg = MetadataFilterMaxMB cfg * 2 ^ 20).
Proof using.
  clear. unfold metadataLimit. destruct (Z.leb_spec (MetadataFilterMaxMB cfg) 0); [split; [done|lia]|].
  rewrite Z.shiftl_mul_pow2 by lia. split.
  - unfold wrap64, max_int64. change (2 ^ 63) with (2 ^ 43 * 2 ^ 20). change (2 ^ 64) with (2 ^ 44 * 2 ^ 20).
    rewrite <- Z.mul_add_distr_r, Z.mul_mod_distr_r by done.
    pose proof (Z.mod_pos_bound (MetadataFilterMaxMB cfg + 2 ^ 43) (2 ^ 44)). lia.
  - intros H'. apply wrap64_id. unfold in_int64, min_int64, max_int64. lia.
Qed.

Lemma read_whole_doc header body bodyErr doc :
  readMetadataDocument gunzip header body bodyErr (metadataLimit cfg) = RDoc doc → read_whole header body bodyErr doc.
Proof using.
  clear Hthrottles. destruct metadataLimit_spec as [Hlt Hcap]. unfold readMetadataDocument, read_whole, decoded_body.
  set (coding := TrimSpace _).
  destruct (_ || _) eqn:Hid; [|destruct (EqualFold coding "gzip") eqn:Hgz; [|done]].
  - rewrite orb_true_iff, String.eqb_eq in Hid. intros H.
    enough (doc = body ∧ bodyErr = false ∧ (0 < metadataLimit cfg → Z.of_nat (length doc) ≤ metadataLimit cfg)) as (? & ? & H3).
    { split; [by left|]. intros Hr. rewrite <- Hcap by done. apply H3. rewrite Hcap by done. lia. }
    by apply read_limited.
  - destruct (gunzip body bodyErr) as [[src srcErr]|]; [|done]. intros H.
    enough (doc = src ∧ srcErr = false ∧ (0 < metadataLimit cfg → Z.of_nat (length doc) ≤ metadataLimit cfg)) as (-> & -> & H3).
    { split; [by right|]. intros Hr. rewrite <- Hcap by done. apply H3. rewrite Hcap by done. lia. }
    by apply read_limited.
Qed.

(** A document fetched for this request, or by the leader of the flight it
    joined: an upstream answered a whole request for it. *)
Definition fetched (r : Request) (f : metadataFetch) l : Prop :=
  ∃ r' l',
    (r' = r ∧ l' `prefix_of` l ∨
     ∃ res (w' : World C), CDocFlight (key_of r) (Some res) ∈ l ∧ dr_fetch res = Some f ∧ key_of r' = key_of r ∧
       res = (fetch_doc r' w').1 ∧ w_trace (fetch_doc r' w').2 = w_trace w' ++ l' ∧ consistent env (w_trace w') l') ∧
    replayed (outbound r') (UpstreamURLs (cfg_Adapter cfg) (outbound r')) l' ∧
    ∃ out cl b berr, (out, DoResp (mf_status f) (mf_header f) cl b berr) ∈ dos l' ∧
      ∀ doc, mf_doc f = Some doc → read_whole (mf_header f) b berr doc.

Lemma fetch_document_steps r w :
  steps (fetch_document url_Parse url_String gunzip env cfg r (metadataLimit cfg)) w (λ res l w', quiet l ∧ same w w' ∧
    replayed r (UpstreamURLs (cfg_Adapter cfg) r) l ∧ doc_ok res ∧
    ∀ f, dr_fetch res = Some f → ∃ out cl b berr, (out, DoResp (mf_status f) (mf_header f) cl b berr) ∈ dos l ∧
      ∀ doc, mf_doc f = Some doc → read_whole (mf_header f) b berr doc).
Proof using.
  clear Hthrottles. unfold fetch_document. eapply steps_seq; [apply forwardUpstream_steps|].
  intros res l1 w1 (Hq & Hs & Hrep & Hres). apply steps_ret. rewrite app_nil_r.
  split; [done|]. split; [done|]. split; [done|]. destruct res as [status hdr b berr atts|atts err].
  2:{ simpl. split; [intros _; exact Hres|done]. }
  destruct Hres as [_ (out & cl & Hin)].
  destruct (Z.eqb_spec status StatusOK) as [->|_]; [destruct (readMetadataDocument _ _ _ _ _) as [doc| | |] eqn:Hd; simpl|
    destruct (Z.eqb_spec status StatusNoContent) as [->|_]; simpl]; unfold doc_ok; simpl;
    try (split; [done|intros f [=]]).
  - split; [left; eauto|]. intros f [= <-]. exists out, cl, b, berr. split; [done|]. intros ? [= <-].
    by apply read_whole_doc.
  - split; [by right|]. intros f [= <-]. exists out, cl, b, berr. by split.
Qed.

Lemma led_doc_ok : flights_led → ∀ tr key res, env_DocFlight env tr key = Some res → doc_ok res.
Proof using.
  clear Hthrottles. intros H tr key res Hr. destruct (H tr key res Hr) as (r' & w' & _ & ->).
  by destruct (fetch_document_steps (outbound r') w') as (l & _ & _ & _ & _ & _ & ? & _).
Qed.

Lemma fetchMetadataDocument_steps r w :
  (∀ tr key res, env_DocFlight env tr key = Some res → doc_ok res) →
  steps (fetchMetadataDocument url_Parse url_String gunzip env cfg (outbound r) (key_of r) (metadataLimit cfg)) w
    (λ res l w', quiet l ∧ same w w' ∧ doc_ok res ∧
      replayed (outbound r) (UpstreamURLs (cfg_Adapter cfg) (outbound r)) l ∧
      (flights_led → ∀ f, dr_fetch res = Some f → fetched r f l)).
Proof using.
  clear Hthrottles. intros Hfl. unfold fetchMetadataDocument. step. apply steps_ask; [done|]. intros fl ->.
  destruct (env_DocFlight _ _ _) as [res|] eqn:Hf.
  - run. split; [auto with joei|]. split; [done|]. split; [by eapply Hfl|]. split.
    { split; [done|]. intros c Hc. by apply elem_of_nil in Hc. }
    intros Hled f Hres. destruct (Hled _ _ _ Hf) as (r' & w' & Hkey & ->).
    destruct (fetch_document_steps (outbound r') w') as (l' & Hl' & Hc' & _ & _ & Hrep & _ & Hfet).
    exists r', l'. split; [|split; [done|by apply Hfet]]. right. eexists _, w'.
    split; [by apply list_elem_of_singleton|]. done.
  - eapply steps_mono; [apply fetch_document_steps|]. intros res l w' (Hq & Hs & Hrep & Hok & Hfet).
    split; [auto with joei|]. split; [done|]. split; [done|]. split; [done|].
    intros _ f Hres. exists r, (CDocFlight (key_of r) None :: l). split; [by left|]. split; [done|]. by apply Hfet.
Qed.

(** How a request for a metadata document ends. *)
Definition metadata_end (r : Request) (mref : MetadataRef) w l (rs : Response) : Prop :=
  (∃ base fetch doc pre s fd, Base url_Parts publicBase r = Some base ∧ fetched r fetch l ∧
     mf_status fetch = 200 ∧ mf_doc fetch = Some doc ∧ pre `prefix_of` l ∧ w_trace s = w_trace w ++ pre ∧
     (FilterVersions (cfg_Adapter cfg) (World C) doc mref (versionDecider env cfg mref) (link_base base_String base r) s).1
       = Some fd ∧
     Header_Get (rs_Header rs) "ETag" = syntheticETag sha256_hex (fd_Body fd) ∧
     (rs_Status rs = 200 ∧ carries gzip (fd_Body fd) rs ∨ rs_Status rs = 304 ∧ rs_Body rs = BNone)) ∨
  (∃ fetch, fetched r fetch l ∧ mf_status fetch = 204 ∧ rs_Status rs = 204 ∧ rs_Body rs = BNone) ∨
  400 ≤ rs_Status rs.

Lemma serve_document_steps r mref base fetch doc w :
  decides_only (cfg_Adapter cfg) → mf_status fetch = 200 → mf_doc fetch = Some doc →
  steps (serve_document sha256_hex gzip ParseFloat_zero env cfg r mref base fetch) w (λ _ l w', dos l = [] ∧
    ∃ rs, answered l rs ∧
    (400 ≤ rs_Status rs ∨ ∃ fd,
      (FilterVersions (cfg_Adapter cfg) (World C) doc mref (versionDecider env cfg mref) base w).1 = Some fd ∧
      Header_Get (rs_Header rs) "ETag" = syntheticETag sha256_hex (fd_Body fd) ∧
      (rs_Status rs = 200 ∧ carries gzip (fd_Body fd) rs ∨ rs_Status rs = 304 ∧ rs_Body rs = BNone))).
Proof using.
  clear Hthrottles. intros Hlaw Hst Hdoc. unfold serve_document. rewrite Hdoc, Hst. simpl.
  destruct (Hlaw _ consults consults_refl consults_trans doc mref (versionDecider env cfg mref) base w
    (λ v t s, versionDecider_consults mref v t s)) as (l0 & Ht & Hc & Hq & Hd & _).
  apply steps_bind. exists l0. split; [done|]. split; [done|].
  destruct (FilterVersions _ _ _ _ _ _ _) as [[fd|] w1]; simpl in *.
  2:{ eapply steps_mono; [apply writeJSON_answers|]. intros [] l w' (rs & Ha & Hd' & Hs).
      split; [by rewrite dos_app, Hd, Hd'|]. exists rs. split; [by apply answered_app|]. left. by rewrite Hs. }
  destruct (etagMatches _ _).
  - unfold set_if. step. step.
    assert (∀ w2, Header_Get (w_header w2) "ETag" = syntheticETag sha256_hex (fd_Body fd) →
      steps (respond StatusNotModified BNone) w2 (λ _ l w', dos (l0 ++ l) = [] ∧ ∃ rs, answered (l0 ++ l) rs ∧
        (400 ≤ rs_Status rs ∨ ∃ fd', Some fd = Some fd' ∧
          Header_Get (rs_Header rs) "ETag" = syntheticETag sha256_hex (fd_Body fd') ∧
          (rs_Status rs = 200 ∧ carries gzip (fd_Body fd') rs ∨ rs_Status rs = 304 ∧ rs_Body rs = BNone)))) as Hend.
    { intros w2 Hw2. run. subst. split; [by rewrite dos_app, Hd|]. eexists. split; [by apply answered_app|].
      right. exists fd. split; [done|]. split; [done|]. by right. }
    assert (∀ h : Header, Header_Get (Header_Set "ETag" (syntheticETag sha256_hex (fd_Body fd)) h) "ETag" =
      syntheticETag sha256_hex (fd_Body fd)) as Htag by (intros; apply Header_Get_Set).
    step. destruct (negb (_ =s? ""))%string; step; step;
      (destruct (negb (_ =s? ""))%string; step; apply Hend; simpl;
       repeat rewrite Header_Get_Set_ne by (vm_compute; discriminate); apply Htag).
  - eapply steps_mono; [apply writeMetadataDocument_steps|]. intros [] l w' (rs & Ha & Hd' & ? & ? & ?).
    split; [by rewrite dos_app, Hd, Hd'|]. exists rs. split; [by apply answered_app|]. right. exists fd. auto.
Qed.

Lemma replayed_no_dos r urls l : dos l = [] → replayed r urls l.
Proof using. clear. intros E. unfold replayed. rewrite E. split; [done|]. intros c Hc. by apply elem_of_nil in Hc. Qed.

Lemma fetched_app r f l1 l2 : fetched r f l1 → fetched r f (l1 ++ l2).
Proof using.
  clear. intros (r' & l' & Hl & H). exists r', l'. split; [|done]. destruct Hl as [[-> Hl]|(res & w' & Hin & ?)].
  - left. split; [done|]. by apply prefix_app_r.
  - right. exists res, w'. split; [|done]. apply elem_of_app. by left.
Qed.

Lemma proxyMetadata_steps r mref w :
  decides_only (cfg_Adapter cfg) → (∀ tr key res, env_DocFlight env tr key = Some res → doc_ok res) →
  steps (proxyMetadata url_Parse url_String url_Parts base_String RequestURI sha256_hex gunzip gzip ParseFloat_zero
           env publicBase cfg r mref) w
    (λ _ l w', replayed (outbound r) (UpstreamURLs (cfg_Adapter cfg) (outbound r)) l ∧
       ∃ rs, answered l rs ∧ (flights_led → metadata_end r mref w l rs)).
Proof using Hthrottles.
  intros Hlaw Hfl. unfold proxyMetadata, writeJSONError, failMetadata.
  destruct (Base url_Parts publicBase r) as [base|] eqn:Hbase.
  2:{ eapply steps_mono; [apply writeJSON_answers|]. intros [] l w' (rs & Ha & Hd & Hst).
      split; [by apply replayed_no_dos|]. exists rs. split; [done|]. intros _. right. right. by rewrite Hst. }
  eapply steps_seq; [by apply steps_trace, fetchMetadataDocument_steps|].
  intros res l1 w1 (Ht1 & Hq & Hs & Hok & Hrep & Hfet).
  assert (∀ (m : St (World C) unit) (P : Response → Prop),
    steps m w1 (λ _ l _, dos l = [] ∧ ∃ rs, answered l rs ∧ P rs) →
    (flights_led → ∀ l2 rs, P rs → metadata_end r mref w (l1 ++ l2) rs) →
    steps m w1 (λ _ l2 _, replayed (outbound r) (UpstreamURLs (cfg_Adapter cfg) (outbound r)) (l1 ++ l2) ∧
      ∃ rs, answered (l1 ++ l2) rs ∧ (flights_led → metadata_end r mref w (l1 ++ l2) rs))) as Hend.
  { intros m P Hm HP. eapply steps_mono; [exact Hm|]. intros [] l2 w2 (Hd & rs & Ha & HPrs).
    assert (dos (l1 ++ l2) = dos l1) as Hd' by by rewrite dos_app, Hd, app_nil_r.
    split; [unfold replayed in *; by rewrite Hd'|]. exists rs. split; [by apply answered_app|]. intros Hled. by apply HP. }
  assert (∀ m : St (World C) unit, steps m w1 (λ _ l _, ∃ rs, answered l rs ∧ dos l = [] ∧ 400 ≤ rs_Status rs) →
    steps m w1 (λ _ l2 _, replayed (outbound r) (UpstreamURLs (cfg_Adapter cfg) (outbound r)) (l1 ++ l2) ∧
      ∃ rs, answered (l1 ++ l2) rs ∧ (flights_led → metadata_end r mref w (l1 ++ l2) rs))) as Herr.
  { intros m Hm. apply (Hend m (λ rs, 400 ≤ rs_Status rs)); [|intros; by right; right].
    eapply steps_mono; [exact Hm|]. intros [] l2 w2 (rs & ? & ? & ?). split; [done|]. by exists rs. }
  assert (steps (writeJSON StatusBadGateway [("error", JString "metadata_rewrite_failed")]) w1
    (λ _ l _, ∃ rs, answered l rs ∧ dos l = [] ∧ 400 ≤ rs_Status rs)) as Hfail.
  { eapply steps_mono; [apply writeJSON_answers|]. intros [] l2 w2 (rs & ? & ? & Hst). exists rs. by rewrite Hst. }
  unfold doc_ok in Hok. destruct (dr_fetch res) as [fetch|] eqn:Hfetch; simpl.
  2:{ destruct (local_failure _) eqn:Hloc; [|by apply Herr]. apply Herr, forward_error_steps. by apply Hok. }
  destruct (dr_err res) as [e|]; [by apply Herr|].
  destruct (Z.eqb_spec (mf_status fetch) StatusNoContent) as [Hst|Hst].
  { apply (Hend _ (λ rs, rs_Status rs = 204 ∧ rs_Body rs = BNone)); [|intros Hled l2 rs [? ?]; right; left; exists fetch; split; [by apply fetched_app, Hfet|done]].
    run. subst. split; [done|]. eexists. by rewrite Hst. }
  destruct Hok as [[Hst200 [doc Hdoc]]|?]; [|done].
  eapply Hend; [by apply serve_document_steps|]. intros Hled l2 rs [?|(fd & Hfd & Htag & Hrs)]; [by right; right|].
  left. exists base, fetch, doc, l1, w1, fd. split; [done|]. split; [by apply fetched_app, Hfet|].
  do 2 (split; [done|]). split; [by apply prefix_app_r|]. done.
Qed.

(** C29: a metadata document is served only as the adapter rewrote it under
    the gates' verdicts and the request's own link base.  Each request for one
    gets a single response; one below 300 other than an upstream's 204 carries
    what FilterVersions made of a document that was read whole - the body of
    an upstream's 200 to the end without an error, decoded if it came as gzip,
    and within the configured cap; a matching tag of the client's gets 304
    without a body.  The upstream answered this request or, when it joined a
    fetch that was under way, the request that led it, one with the same flight
    key: a flight returns to those who join it what its leader fetched. *)
Theorem metadata_served_only_rewritten r mref w :
  decides_only (cfg_Adapter cfg) → flights_led →
  ∃ l rs, w_trace (proxyMetadata url_Parse url_String url_Parts base_String RequestURI sha256_hex gunzip gzip
      ParseFloat_zero env publicBase cfg r mref w).2 = w_trace w ++ l ∧
    answered l rs ∧ metadata_end r mref w l rs.
Proof using Hthrottles.
  intros Hlaw Hled. destruct (proxyMetadata_steps r mref w Hlaw (led_doc_ok Hled)) as (l & Hl & _ & _ & rs & Ha & Hend).
  exists l, rs. split; [done|]. split; [done|]. by apply Hend.
Qed.

(** whatever validators, ranges and encodings the client asks with, the
    upstream is asked for the whole document, unconditionally, as gzip: the
    client's validators hold for the rewritten bytes only, and a part of a
    document cannot be rewritten.  For a header as net/http reads it. *)
Theorem fetches_unconditional r mref w :
  canonical_header (rq_Header r) → decides_only (cfg_Adapter cfg) →
  (∀ tr key res, env_DocFlight env tr key = Some res → doc_ok res) →
  (∃ l, w_trace (proxyIndex url_Parse url_String sha256_hex gunzip gzip ParseFloat_zero env cfg r w).2 = w_trace w ++ l ∧
     unconditional l) ∧
  ∃ l, w_trace (proxyMetadata url_Parse url_String url_Parts base_String RequestURI sha256_hex gunzip gzip
      ParseFloat_zero env publicBase cfg r mref w).2 = w_trace w ++ l ∧ unconditional l.
Proof using Hthrottles.
  intros Hc Hlaw Hfl. split.
  - destruct (proxyIndex_steps r w) as (l & Hl & _ & Hrep & _). exists l. split; [done|]. by eapply outbound_replayed.
  - destruct (proxyMetadata_steps r mref w Hlaw Hfl) as (l & Hl & _ & Hrep & _).
    exists l. split; [done|]. by eapply outbound_replayed.
Qed.

(** ** A version shown and a version served *)

Lemma denylist_decision e ref sr :
  negb (pd_Allowed (Engine_Evaluate e ref sr)) && (pd_Reason (Engine_Evaluate e ref sr) =s? ReasonDenylisted) =
    matchesIndex (denylist e) ref.
Proof using.
  clear. unfold Engine_Evaluate. destruct (matchesIndex (denylist e) ref); [done|].
  destruct (matchesIndex (allowlist e) ref); [done|]. destruct (cveBlock e); [|done]. simpl.
  by destruct (List.filter _ _).
Qed.

(** what a listing shows and what the artifact gates let through agree,
    as far as a listing can tell: with the decider asking a policy engine and
    an age filter, a version is hidden exactly when the engine has a policy
    and denylists it, or its publication time is known and the filter
    refuses it at that moment. *)
Theorem hidden_versions (f : Filter) (e : Engine) (clock : list Call → Z) mref version t w :
  (∀ tr ref meta, env_Filter env tr ref meta = Filter_Check f (clock tr) ref meta) →
  (∀ tr ref sr, env_Policy env tr ref sr = Engine_Evaluate e ref sr) →
  let ref := mkRef (mr_Ecosystem mref) (mr_Name mref) version "" in
  let denied := cfg_Policy cfg && matchesIndex (denylist e) ref in
  ∃ tr, (versionDecider env cfg mref version t w).1 =
    negb denied && (time_is_zero t || fr_Allowed (Filter_Check f (clock tr) ref (mkMeta t "" ""))).
Proof using.
  clear Hthrottles. intros Hf He ref denied. unfold versionDecider, policy_Evaluate. fold ref.
  destruct (cfg_Policy cfg) eqn:Hp; simpl in denied; rewrite !bind_st_run; simpl.
  - rewrite He, denylist_decision. fold denied. destruct denied; [exists []; done|]. simpl.
    destruct (time_is_zero t); [exists []; done|]. rewrite bind_st_run. simpl. eexists. by rewrite Hf.
  - destruct (time_is_zero t); [exists []; done|]. rewrite bind_st_run. simpl. eexists. by rewrite Hf.
Qed.

(** ** Callers kept apart *)

Definition no_nul (s : string) : Prop := byte_of 0 ∉ to_bytes s.

(** What net/http guarantees of a request it has read: no NUL in its target
    nor in its header values. *)
Definition clean_request (r : Request) : Prop :=
  no_nul (RequestURI r) ∧ no_nul (Header_Get (rq_Header r) "Accept") ∧
  no_nul (Join (Header_Values (rq_Header r) "Authorization") newline).

Definition anonymous (r : Request) : Prop :=
  Header_Values (rq_Header r) "Authorization" = [] ∧ Header_Values (rq_Header r) "Cookie" = [].

(** All the credentials of a request. *)
Definition credentials (r : Request) : string :=
  Join (Header_Values (rq_Header r) "Authorization") newline +:+ nul +:+
  Join (Header_Values (rq_Header r) "Cookie") newline.

Lemma nul_split s t s' t' : no_nul s → no_nul s' → s +:+ nul +:+ t = s' +:+ nul +:+ t' → s = s' ∧ t = t'.
Proof using.
  clear. unfold no_nul. intros Hs Hs' E. apply (f_equal to_bytes) in E. rewrite !to_bytes_app in E. simpl in E.
  apply app_sep_inj in E as [E1 E2]; [|done..]. by apply to_bytes_inj in E1, E2.
Qed.

Lemma credentialTag_cases r :
  anonymous r ∧ credentialTag sha256_hex r = "" ∨
  ¬ anonymous r ∧ credentialTag sha256_hex r = sha256_hex (credentials r).
Proof using.
  clear. unfold anonymous, credentialTag, credentials.
  destruct (Header_Values (rq_Header r) "Authorization"); [destruct (Header_Values (rq_Header r) "Cookie"); [by left|]|];
    right; (split; [naive_solver|done]).
Qed.

(** a document fetched for one caller is never handed to another: two
    requests that share a flight ask for the same target with the same
    Accept, and both are anonymous or carry the very same Authorization and
    Cookie values - unless two different credentials have the same SHA-256,
    which the conclusion names. *)
Theorem flight_separates_callers r r' :
  (∀ s, sha256_hex s ≠ "") → clean_request r → clean_request r' →
  flight_key RequestURI sha256_hex r = flight_key RequestURI sha256_hex r' →
  RequestURI r = RequestURI r' ∧
  Header_Get (rq_Header r) "Accept" = Header_Get (rq_Header r') "Accept" ∧
  (anonymous r ∧ anonymous r' ∨
   Join (Header_Values (rq_Header r) "Authorization") newline = Join (Header_Values (rq_Header r') "Authorization") newline ∧
   Join (Header_Values (rq_Header r) "Cookie") newline = Join (Header_Values (rq_Header r') "Cookie") newline ∨
   credentials r ≠ credentials r' ∧ sha256_hex (credentials r) = sha256_hex (credentials r')).
Proof using.
  clear Hthrottles. intros Hne (Hu & Ha & Hc) (Hu' & Ha' & Hc') E. unfold flight_key in E.
  apply nul_split in E as [EU E]; [|done..]. apply nul_split in E as [EA E]; [|done..].
  split; [done|]. split; [done|].
  destruct (credentialTag_cases r) as [[Han Ht]|[Han Ht]], (credentialTag_cases r') as [[Han' Ht']|[Han' Ht']];
    rewrite Ht, Ht' in E.
  - by left.
  - by destruct (Hne (credentials r')).
  - by destruct (Hne (credentials r)).
  - right. destruct (decide (credentials r = credentials r')) as [Ec|]; [|by right]. left.
    unfold credentials in Ec. by apply nul_split in Ec.
Qed.
End MetadataSpec.

(** ** Routing *)

Section Routing.
Context {C : Type} {AC : ArtifactCache C} {L : ArtifactCacheLaws C}.
Context {Addr Prefix : Type} {NI : NetIP Addr Prefix}.
Context (url_Parse : string -> option url) (url_String : url -> string).
Context (url_Parts : string -> option URLParts) (base_String : URLParts -> string).
Context (RequestURI : Request -> string) (sha256_hex : string -> string).
Context (gunzip : bytes -> bool -> option (bytes * bool)) (gzip : bytes -> option bytes).
Context (ParseFloat_zero : string -> bool).
Context (env : Env) (publicBase : option (PublicBaseResolver Prefix)) (cfg : HandlerConfig).
Implicit Types (w : World C) (l : list Call).

Local Notation serve_http r w :=
  (ServeHTTP url_Parse url_String url_Parts base_String RequestURI sha256_hex gunzip gzip ParseFloat_zero env publicBase cfg r w).

(** How a request ends, by what the adapter says it is. *)
Definition request_answered (r : Request) l (rs : Response) : Prop :=
  match NormalizeRequest (cfg_Adapter cfg) r with
  | Some ref => ∃ ev, outcomes l = [ev] ∧ ev_HTTPStatus ev = rs_Status rs ∧ ev_RequestID ev = rq_ID r
  | None => outcomes l = [] ∧
      (matches (IsArtifactPath (cfg_Adapter cfg)) r = true → rs_Status rs = 403 ∧ dos l = [])
  end.

Lemma Ensure_steps r w :
  steps env (Ensure env r) w (λ rid l w', quiet l ∧ dos l = [] ∧ same w w' ∧ rid.2 = rq_ID rid.1 ∧
    rid.1 = with_id (rq_ID rid.1) r ∧ (rq_ID r ≠ "" → rq_ID rid.1 = rq_ID r)).
Proof using.
  clear. unfold Ensure. destruct (String.eqb_spec (rq_ID r) ""); simpl; run; split_and!; auto with joei; try done.
  by destruct r.
Qed.

(** C28: every request that reaches a registry's handler gets exactly one
    response.  A request the adapter can name goes through the gates and
    leaves one outcome, with the response's status and the request's
    identifier; one that only looks like an artifact is refused with 403
    without any upstream call - it is never passed through unchecked; the
    others leave no outcome. *)
Theorem every_request_answered r w :
  env_ok env cfg → cache_ok (w_cache w) → decides_only (cfg_Adapter cfg) →
  (∀ tr key res, env_DocFlight env tr key = Some res → doc_ok res) →
  ∃ l rs id, w_trace (serve_http r w).2 = w_trace w ++ l ∧ responses l = [rs] ∧
    (rq_ID r ≠ "" → id = rq_ID r) ∧ request_answered (with_id id r) l rs.
Proof using L.
  intros He Hok Hlaw Hdoc.
  enough (steps env (ServeHTTP url_Parse url_String url_Parts base_String RequestURI sha256_hex gunzip gzip
    ParseFloat_zero env publicBase cfg r) w (λ _ l _, ∃ rs id, responses l = [rs] ∧ (rq_ID r ≠ "" → id = rq_ID r) ∧
      request_answered (with_id id r) l rs)) as (l & Hl & _ & rs & id & ?) by (by exists l, rs, id).
  unfold ServeHTTP. eapply steps_seq; [apply Ensure_steps|].
  intros [r' id] l1 w1 (Hq & Hd & [Hc _] & Hid & Hr & Hkeep). simpl in *. subst id.
  assert (∀ (m : St (World C) unit), steps env m w1 (λ _ l _, ∃ rs, responses l = [rs] ∧ request_answered r' (l1 ++ l) rs) →
    steps env m w1 (λ _ l _, ∃ rs id, responses (l1 ++ l) = [rs] ∧ (rq_ID r ≠ "" → id = rq_ID r) ∧
      request_answered (with_id id r) (l1 ++ l) rs)) as Hend.
  { intros m Hm. eapply steps_mono; [exact Hm|]. intros [] l2 w2 (rs & Hrs & Ha). exists rs, (rq_ID r').
    split; [|by rewrite <- Hr]. destruct Hq as (_ & _ & Hq). unfold responses in *. by rewrite omap_app, Hq, Hrs. }
  apply Hend. unfold request_answered.
  assert (∀ l, outcomes (l1 ++ l) = outcomes l) as Ho.
  { intros l. destruct Hq as (Hq & _). unfold outcomes in *. by rewrite omap_app, Hq. }
  destruct (NormalizeRequest _ r') as [ref|].
  { destruct He. eapply steps_mono; [apply serve_artifact_steps; [done..|congruence]|].
    intros [] l2 w2 (_ & _ & _ & ev & rs & (Ho2 & _ & Hr2 & Hi2 & _ & _ & _ & Hs2) & _).
    exists rs. split; [done|]. exists ev. by rewrite Ho. }
  destruct (matches (IsArtifactPath _) r').
  { eapply steps_mono; [apply writeJSON_answers|]. intros [] l2 w2 (rs & [Ho2 Hr2] & Hd2 & Hst).
    exists rs. rewrite Ho, dos_app, Hd, Hd2. done. }
  assert (∀ (m : St (World C) unit), steps env m w1 (λ _ l _, ∃ rs, answered l rs) →
    steps env m w1 (λ _ l _, ∃ rs, responses l = [rs] ∧ outcomes (l1 ++ l) = [] ∧
      (false = true → rs_Status rs = 403 ∧ dos (l1 ++ l) = []))) as Hplain.
  { intros m Hm. eapply steps_mono; [exact Hm|]. intros [] l2 w2 (rs & Ho2 & Hr2). exists rs. by rewrite Ho. }
  destruct (matches (IsIndexRequest _) r'); [|destruct (metadataFilterRef cfg r') as [mref|]]; apply Hplain.
  - eapply steps_mono; [apply proxyIndex_steps, He|]. intros [] l2 w2 (_ & rs & ? & _). by exists rs.
  - eapply steps_mono; [apply proxyMetadata_steps; [apply He|done..]|]. intros [] l2 w2 (_ & rs & ? & _). by exists rs.
  - eapply steps_mono; [apply proxyTransparent_steps, He|]. intros [] l2 w2 (rs & ? & _). by exists rs.
Qed.
End Routing.

Section MuxSpec.
Context {C : Type} (handlers raw : gmap string (Request -> St (World C) unit)).

Lemma splitPrefix_spec prefix rest :
  "/"%char ∉ to_bytes prefix → splitPrefix ("/" +:+ prefix +:+ "/" +:+ rest) = (prefix, "/" +:+ rest).
Proof.
  intros Hp. unfold splitPrefix. rewrite !to_bytes_app. simpl.
  rewrite (proj2 (cut_bytes_Some _ _ (to_bytes prefix) (to_bytes rest)) (conj eq_refl Hp)).
  by rewrite !of_to_bytes.
Qed.

(** a request for /<prefix>/<rest> goes to the handler of that prefix and
    to no other, with exactly the path after the prefix, no raw path, and the
    prefix remembered - so that the links written back lead to the same
    registry; an unknown prefix gets 404 from no handler, and no registry
    ever sees a /.well-known/ or /health probe. *)
Theorem Mux_routes r prefix rest base_String base w :
  "/"%char ∉ to_bytes prefix → rq_Path r = "/" +:+ prefix +:+ "/" +:+ rest → prefix ≠ ".well-known" →
  ∃ r', rq_Path r' = "/" +:+ rest ∧ rq_RawPath r' = "" ∧ rq_Header r' = rq_Header r ∧ rq_Body r' = rq_Body r ∧
    (prefix ≠ "" → link_base base_String base r' = base_String base +:+ "/" +:+ prefix) ∧
    Mux_ServeHTTP handlers raw r w =
      match raw !! prefix, handlers !! prefix with
      | Some rh, _ => rh r' w
      | None, Some h => h r' w
      | None, None => writeJSON StatusNotFound [("error", JString "unknown_registry")] w
      end.
Proof.
  intros Hp Hpath Hw. exists (with_prefix prefix ("/" +:+ rest) r). do 4 (split; [done|]). split.
  { intros Hne. unfold link_base. simpl. by destruct (String.eqb_spec prefix ""). }
  unfold Mux_ServeHTTP. rewrite Hpath, splitPrefix_spec by done.
  destruct (String.eqb_spec ("/" +:+ prefix +:+ "/" +:+ rest) "/health") as [E|_].
  { exfalso. apply (f_equal to_bytes) in E. rewrite !to_bytes_app in E. simpl in E. injection E as E.
    assert ("/"%char ∈ to_bytes prefix ++ "/"%char :: to_bytes rest) as Hin by set_solver.
    rewrite E in Hin. apply (bool_decide_eq_true_2 _) in Hin. by vm_compute in Hin. }
  unfold isBrowserNoise, HasPrefix. rewrite !to_bytes_app.
  destruct (strip_prefix _ _) as [l|] eqn:E.
  { exfalso. apply strip_prefix_Some in E. simpl in E. injection E as E.
    apply (app_sep_inj "/"%char _ _ (to_bytes ".well-known") l) in E as [E _]; [|done|].
    - by apply (to_bytes_inj _ ".well-known") in E.
    - intros Hin. apply (bool_decide_eq_true_2 _) in Hin. by vm_compute in Hin. }
  by destruct (raw !! prefix), (handlers !! prefix).
Qed.
End MuxSpec.

(** ** Witnesses: documents over the handler's example *)

#[local] Existing Instances ex_AC ex_L quads.

(** One version per document, dropped when it is refused. *)
Definition ex_docs : RegistryAdapter := {|
  NormalizeRequest r := if HasSuffix (rq_Path r) ".tgz" then Some (ex_ref "1.3.0") else None;
  UpstreamURLs _ := ex_mirrors;
  IsArtifactPath := Some (fun r => HasPrefix (rq_Path r) "/-/");
  IsIndexRequest := Some (fun r => rq_Path r =s? "/simple/");
  RewriteIndex doc _ _ := Some (mkIndexRewrite (rev doc) 1 []);
  NormalizeMetadataRequest := Some (fun r => Some (mkMetadataRef "npm" "left-pad" ""));
  FilterVersions S doc _ decide _ :=
    keep <- decide "1.3.0" (1000 * Hour);;
    ret_st (Some (if keep : bool then mkFiltered doc [] [] false else mkFiltered [] ["1.3.0"] [] true));
  MetadataFromHeader := None;
|}.

Lemma ex_docs_decides : decides_only ex_docs.
Proof.
  intros S R Hr Ht doc mref decide base s H. simpl. rewrite bind_st_run. specialize (H "1.3.0" (1000 * Hour) s).
  by destruct (decide "1.3.0" (1000 * Hour) s).
Qed.

Definition ex_doc_cfg : HandlerConfig := mkHandlerConfig ex_docs true true true true Hour Hour 16 16 (2 ^ 20).

Definition ex_asked : Request :=
  mkRequest "id" "npm" "GET" "/left-pad" "" "" "proxy.example" "192.0.2.7:50000" true
    (Header_Add "authorization" "Bearer t" (Header_Add "range" "bytes=0-" (Header_Add "if-none-match" "x" ∅))) None.

Definition ex_base : PublicBaseResolver (list Z) :=
  mkBase (Some (mkParts "https" "" false "proxy.example" "" "" "" "")) [].

Definition ex_index (r : Request) : World LocalCache :=
  (proxyIndex ex_url_Parse ex_url_String (fun s => "h" +:+ s) (fun b e => Some (b, e)) Some (fun s => s =s? "0")
     ex_good ex_doc_cfg r ex_world).2.

Definition ex_metadata (r : Request) : World LocalCache :=
  (proxyMetadata ex_url_Parse ex_url_String (fun _ => None) (fun u => up_Scheme u +:+ "://" +:+ up_Host u)
     rq_Path (fun s => "h" +:+ s) (fun b e => Some (b, e)) Some (fun s => s =s? "0")
     ex_good (Some ex_base) ex_doc_cfg r (mkMetadataRef "npm" "left-pad" "") ex_world).2.

Example ex_documents :
  map rs_Status (responses (w_trace (ex_index ex_asked))) = [200] ∧
  map rs_Body (responses (w_trace (ex_index ex_asked))) = [BStream (rev (to_bytes "tarball")) 7] ∧
  map rs_Status (responses (w_trace (ex_metadata ex_asked))) = [200] ∧
  map rs_Body (responses (w_trace (ex_metadata ex_asked))) = [BStream (to_bytes "tarball") 7].
Proof. vm_compute. done. Qed.

Lemma ex_throttles tr : lookup_ok (env_Throttles ex_good tr).
Proof. intros f host status left [=]. Qed.

Lemma index_served_only_rewritten_witness :
  (∀ tr, lookup_ok (env_Throttles ex_good tr)) ∧
  ∃ l rs, w_trace (ex_index ex_asked) = l ∧ answered l rs ∧
    index_end (fun s => "h" +:+ s) (fun b e => Some (b, e)) Some ex_doc_cfg ex_asked l rs.
Proof.
  split; [exact ex_throttles|].
  exact (index_served_only_rewritten ex_url_Parse ex_url_String (fun s => "h" +:+ s) (fun b e => Some (b, e)) Some
    (fun s => s =s? "0") ex_good ex_doc_cfg ex_throttles ex_asked ex_world).
Defined.

(** The same world, where the request joins a fetch under way. *)
Definition ex_led : docResult :=
  (fetch_document ex_url_Parse ex_url_String (fun b e => Some (b, e)) ex_good ex_doc_cfg (outbound ex_asked)
     (metadataLimit ex_doc_cfg) ex_world).1.

Definition ex_joined : Env :=
  mkEnv (env_Now ex_good) (env_NewUUID ex_good) (env_FetchMetadata ex_good) (env_Filter ex_good) (env_CVEScan ex_good)
    (env_Policy ex_good) (env_AVScan ex_good) (env_Do ex_good) (env_CreateTempOk ex_good) (env_WriteTempOk ex_good)
    (env_StatOk ex_good) (env_Copied ex_good) (env_Flight ex_good)
    (fun _ key => if key =s? flight_key rq_Path (fun s => "h" +:+ s) ex_asked then Some ex_led else None)
    (env_Throttles ex_good).

Lemma metadata_served_only_rewritten_witness :
  decides_only ex_docs ∧ dr_fetch ex_led = Some (mkFetch (Some (to_bytes "tarball")) ∅ 200) ∧
  ∃ l rs, w_trace (proxyMetadata ex_url_Parse ex_url_String (fun _ => None)
      (fun u => up_Scheme u +:+ "://" +:+ up_Host u) rq_Path (fun s => "h" +:+ s) (fun b e => Some (b, e)) Some
      (fun s => s =s? "0") ex_joined (Some ex_base) ex_doc_cfg ex_asked (mkMetadataRef "npm" "left-pad" "") ex_world).2 = l ∧
    answered l rs ∧ rs_Status rs = 200 ∧ rs_Body rs = BStream (to_bytes "tarball") 7.
Proof.
  split; [exact ex_docs_decides|]. split; [vm_compute; reflexivity|].
  destruct (metadata_served_only_rewritten ex_url_Parse ex_url_String (fun _ => None)
    (fun u => up_Scheme u +:+ "://" +:+ up_Host u) rq_Path (fun s => "h" +:+ s) (fun b e => Some (b, e)) Some
    (fun s => s =s? "0") ex_joined (Some ex_base) ex_doc_cfg ex_throttles ex_asked (mkMetadataRef "npm" "left-pad" "")
    ex_world ex_docs_decides) as (l & rs & Hl & Ha & _).
  { intros tr key res H. cbn [env_DocFlight ex_joined] in H. destruct (String.eqb_spec key (flight_key rq_Path (fun s => "h" +:+ s) ex_asked)); [|discriminate].
    injection H as <-. exists ex_asked, ex_world. split; [by subst|]. vm_compute. reflexivity. }
  exists l, rs. split; [exact Hl|]. split; [exact Ha|].
  destruct Ha as [_ Hr]. vm_compute in Hl. rewrite <- Hl in Hr. vm_compute in Hr. injection Hr as <-. split; reflexivity.
Defined.

Lemma fetches_unconditional_witness :
  canonical_header (rq_Header ex_asked) ∧
  (∃ l, w_trace (ex_index ex_asked) = l ∧ unconditional l) ∧ (∃ l, w_trace (ex_metadata ex_asked) = l ∧ unconditional l).
Proof.
  assert (canonical_header (rq_Header ex_asked)) as Hc by (unfold ex_asked; simpl; auto 10 with joei).
  split; [exact Hc|].
  refine (fetches_unconditional ex_url_Parse ex_url_String (fun _ => None)
    (fun u => up_Scheme u +:+ "://" +:+ up_Host u) rq_Path (fun s => "h" +:+ s) (fun b e => Some (b, e)) Some
    (fun s => s =s? "0") ex_good (Some ex_base) ex_doc_cfg ex_throttles ex_asked (mkMetadataRef "npm" "left-pad" "")
    ex_world Hc ex_docs_decides _).
  discriminate.
Defined.

(** A version published an hour ago, under a filter that holds it for two days. *)
Lemma hidden_versions_witness :
  let mref := mkMetadataRef "npm" "left-pad" "" in
  (versionDecider ex_good ex_doc_cfg mref "1.3.0" (1719 * Hour) ex_world).1 = false ∧
  ∃ tr, false = negb false && (false ||
    fr_Allowed (Filter_Check ex_filter (ex_clock tr) (ex_ref "1.3.0") (mkMeta (1719 * Hour) "" ""))).
Proof.
  cbv zeta. split; [vm_compute; reflexivity|].
  destruct (hidden_versions ex_good ex_doc_cfg ex_filter ex_engine ex_clock (mkMetadataRef "npm" "left-pad" "") "1.3.0"
    (1719 * Hour) ex_world (λ _ _ _, eq_refl) (λ _ _ _, eq_refl)) as [tr Htr].
  exists tr. refine (eq_trans _ Htr). vm_compute. reflexivity.
Defined.

Lemma flight_separates_callers_witness :
  let sha s := "h" +:+ s in
  (∀ s, sha s ≠ "") ∧ clean_request rq_Path ex_asked ∧
  ∀ r', clean_request rq_Path r' → flight_key rq_Path sha ex_asked = flight_key rq_Path sha r' →
    rq_Path r' = "/left-pad" ∧ Join (Header_Values (rq_Header r') "Authorization") newline = "Bearer t".
Proof.
  cbv zeta.
  assert (∀ s, "h" +:+ s ≠ "") as Hne by discriminate.
  assert (clean_request rq_Path ex_asked) as Hc by (split_and!; apply (bool_decide_unpack _); vm_compute; reflexivity).
  split; [exact Hne|]. split; [exact Hc|]. intros r' Hc' E.
  destruct (flight_separates_callers rq_Path (fun s => "h" +:+ s) ex_asked r' Hne Hc Hc' E)
    as (Hp & _ & [[Han _]|[[Ha _]|[Hn Hsha]]]).
  - exfalso. destruct Han as [Han _]. vm_compute in Han. discriminate.
  - split; [by rewrite <- Hp|]. rewrite <- Ha. vm_compute. reflexivity.
  - exfalso. apply Hn. by injection Hsha.
Defined.

Lemma every_request_answered_witness :
  let w := (ServeHTTP ex_url_Parse ex_url_String (fun _ => None) (fun u => up_Host u) rq_Path (fun s => "h" +:+ s)
     (fun b e => Some (b, e)) Some (fun s => s =s? "0") ex_good (Some ex_base) ex_doc_cfg ex_request ex_world).2 in
  env_ok ex_good ex_doc_cfg ∧ cache_ok (w_cache ex_world) ∧ decides_only ex_docs ∧
  ∃ l rs id, w_trace w = l ∧ responses l = [rs] ∧ request_answered ex_doc_cfg (with_id id ex_request) l rs.
Proof.
  cbv zeta. assert (env_ok ex_good ex_doc_cfg) as He by (split; [exact ex_throttles|discriminate|reflexivity]).
  split; [exact He|]. split; [exact ex_cache_ok|]. split; [exact ex_docs_decides|].
  destruct (every_request_answered ex_url_Parse ex_url_String (fun _ => None) (fun u => up_Host u) rq_Path
    (fun s => "h" +:+ s) (fun b e => Some (b, e)) Some (fun s => s =s? "0") ex_good (Some ex_base) ex_doc_cfg
    ex_request ex_world He ex_cache_ok ex_docs_decides) as (l & rs & id & Hl & Hr & _ & Ha); [discriminate|].
  exists l, rs, id. split; [exact Hl|]. split; [exact Hr|exact Ha].
Defined.

Lemma Mux_routes_witness :
  let r := mkRequest "" "" "GET" "/npm/left-pad" "" "" "proxy.example" "192.0.2.7:50000" true ∅ None in
  "/"%char ∉ to_bytes "npm" ∧ ∃ r', rq_Path r' = "/left-pad" ∧
  ∀ h : Request → St (World LocalCache) unit, ∃ r'', rq_Path r'' = "/left-pad" ∧
    Mux_ServeHTTP {["npm" := h]} ∅ r ex_world = h r'' ex_world.
Proof.
  cbv zeta. assert ("/"%char ∉ to_bytes "npm") as Hn by (apply (bool_decide_unpack _); vm_compute; reflexivity).
  split; [exact Hn|]. exists ex_asked. split; [reflexivity|]. intros h.
  destruct (Mux_routes {["npm" := h]} ∅
    (mkRequest "" "" "GET" "/npm/left-pad" "" "" "proxy.example" "192.0.2.7:50000" true ∅ None)
    "npm" "left-pad" (fun u => up_Host u) (mkParts "https" "" false "proxy.example" "" "" "" "") ex_world Hn eq_refl)
    as (r'' & Hp & _ & _ & _ & _ & Hm); [discriminate|].
  exists r''. split; [exact Hp|exact Hm].
Defined.
