(* ===== verification/Users.v ===== *)
(** * Package users: console accounts (users.go, store.go)

    The users table is a finite map keyed by the name as SQLite's NOCASE
    collation compares it; each statement consumes one element of a fault
    schedule and fails if it is [true].  A transaction writes at its commit.
    Bcrypt, random numbers and the clock are arguments. *)
From S2P Require Import Prelude GoStd.
Local Open Scope Z_scope.

(** ** users.go *)

Definition Role : Type := string.
Definition RoleAdmin : Role := "admin".
Definition RoleOperator : Role := "operator".

Definition Role_Valid (r : Role) : bool := (r =s? RoleAdmin) || (r =s? RoleOperator).

Record User := mkUser {
  Username : string;
  PasswordHash : string;
  u_Role : Role;
  Disabled : bool;
  MustChangePassword : bool;
  TokenVersion : Z;
  CreatedAt : Z;
  LastLoginAt : option Z;
}.

(** [ErrStorage] is any failure of the database or of bcrypt. *)
Inductive UserError :=
| ErrNotFound
| ErrExists
| ErrLastAdmin
| ErrInvalid (field message : string)
| ErrStorage.

#[export] Instance UserError_eq_dec : EqDecision UserError.
Proof. solve_decision. Defined.

Definition minPasswordRunes : nat := 12.
Definition maxPasswordBytes : Z := 72.

Definition username_byte (c : ascii) : bool :=
  let n := Ascii.nat_of_ascii c in
  in_range 65 90 n || in_range 97 122 n || in_range 48 57 n || (n =? 46)%nat || (n =? 95)%nat || (n =? 64)%nat || (n =? 45)%nat.

(** The pattern ^[A-Za-z0-9._@-]{1,64}$. *)
Definition usernameRe (s : string) : bool :=
  let l := to_bytes s in
  (1 <=? length l)%nat && (length l <=? 64)%nat && forallb username_byte l.

Lemma usernameRe_text s : usernameRe s = true → ValidString s = true ∧ s ≠ "".
Proof.
  unfold usernameRe. intros [[Hl _]%andb_true_iff Hb]%andb_true_iff. split; [|by intros ->].
  apply ascii_ValidString. eapply forallb_impl; [|exact Hb]. intros c.
  unfold username_byte, in_range, is_ascii.
  rewrite !orb_true_iff, !andb_true_iff, !Nat.leb_le, !Nat.eqb_eq, Nat.ltb_lt. lia.
Qed.

Definition ValidateUsername (name : string) : option UserError :=
  if usernameRe name then None
  else Some (ErrInvalid "username" "must be 1-64 characters of letters, digits, '.', '_', '@' or '-'").

Fixpoint rune_count (fuel : nat) (l : bytes) : nat :=
  match fuel, l with
  | S fuel, _ :: _ => S (rune_count fuel (drop (rune_width l) l))
  | _, _ => 0
  end.

(** utf8.RuneCountInString; each rune takes at least a byte. *)
Definition RuneCount (s : string) : nat := rune_count (String.length s) (to_bytes s).

(** strings.EqualFold against an ASCII string: besides the ASCII letters only
    the Kelvin sign and the long s fold into ASCII. *)
Fixpoint fold_bytes (l : bytes) : bytes :=
  match l with
  | c :: ((d :: l'') as l') =>
      if Ascii.eqb c (byte_of 197) && Ascii.eqb d (byte_of 191) then "s"%char :: fold_bytes l''
      else match l'' with
           | e :: l3 =>
               if Ascii.eqb c (byte_of 226) && Ascii.eqb d (byte_of 132) && Ascii.eqb e (byte_of 170)
               then "k"%char :: fold_bytes l3
               else lower_byte c :: fold_bytes l'
           | [] => lower_byte c :: fold_bytes l'
           end
  | [c] => [lower_byte c]
  | [] => []
  end.

Definition EqualFold_ascii (s t : string) : bool := bool_decide (fold_bytes (to_bytes s) = lower_byte <$> to_bytes t).

Definition ValidatePassword (username password : string) : option UserError :=
  if (RuneCount password <? minPasswordRunes)%nat then Some (ErrInvalid "password" "must be at least 12 characters")
  else if maxPasswordBytes <? str_len password then Some (ErrInvalid "password" "must be at most 72 bytes")
  else if EqualFold_ascii password username then Some (ErrInvalid "password" "must not equal the username")
  else None.

Definition InitialAdminUsername : string := "admin".

Definition generatedPasswordAlphabet : bytes :=
  to_bytes "ABCDEFGHIJKLMNOPQRSTUVWXYZabcdefghijklmnopqrstuvwxyz0123456789".

(** The password drawn: one index below the alphabet's length per character,
    [None] when the random source fails. *)
Definition GeneratePassword (draws : list (option nat)) : option string :=
  of_bytes <$> mapM (fun d => d ≫= fun n => generatedPasswordAlphabet !! n) (take 20 draws).

(** ** store.go: the table and its statements *)

(** A name as COLLATE NOCASE compares it: ASCII letters folded. *)
Definition nocase (name : string) : string := of_bytes (lower_byte <$> to_bytes name).

Notation Table := (gmap string User).

Record Store := mkStore {
  rows : Table;
  faults : list bool;
}.

Definition fails : St Store bool := fun s =>
  match faults s with
  | [] => (false, s)
  | b :: fs => (b, mkStore (rows s) fs)
  end.

(** A SELECT. *)
Definition query {A} (f : Table -> A) : St Store (option A) := fun s =>
  let '(b, s) := fails s in (if b : bool then None else Some (f (rows s)), s).

(** A statement that writes when it succeeds. *)
Definition exec (f : Table -> Table) : St Store bool := fun s =>
  let '(b, s) := fails s in if b : bool then (false, s) else (true, mkStore (f (rows s)) (faults s)).

Definition Get (username : string) : St Store (result UserError User) :=
  r <- query (fun t => t !! nocase username);;
  ret_st (match r with
          | None => Err ErrStorage
          | Some None => Err ErrNotFound
          | Some (Some u) => Ok u
          end).

(** ORDER BY username COLLATE NOCASE, bytewise on the folded names. *)
Definition name_le (p q : string * User) : Prop := bytes_le (to_bytes p.1) (to_bytes q.1) = true.

#[export] Instance name_le_dec : RelDecision name_le.
Proof. intros p q. unfold name_le. apply _. Defined.

Definition List_users : St Store (result UserError (list User)) :=
  r <- query (fun t => snd <$> merge_sort name_le (map_to_list t));;
  ret_st (match r with None => Err ErrStorage | Some l => Ok l end).

Definition enabled (u : User) : Prop := Disabled u = false.

Definition HasEnabledUsers : St Store (result UserError bool) :=
  r <- query (fun t => negb (bool_decide (filter (fun p => enabled p.2) t = ∅)));;
  ret_st (match r with None => Err ErrStorage | Some b => Ok b end).

Definition validateNew (u : User) : option UserError :=
  match ValidateUsername (Username u) with
  | Some e => Some e
  | None =>
      if Role_Valid (u_Role u) then None else Some (ErrInvalid "role" "must be admin or operator")
  end.

(** The row an INSERT at Unix nanosecond [now] writes. *)
Definition new_row (u : User) (now : Z) : User :=
  mkUser (Username u) (PasswordHash u) (u_Role u) (Disabled u) (MustChangePassword u) now (time_unix now) None.

(** The INSERT: the primary key's uniqueness, the role's CHECK. *)
Definition insert_row (u : User) (now : Z) (t : Table) : UserError + Table :=
  match t !! nocase (Username u) with
  | Some _ => inl ErrExists
  | None => if Role_Valid (u_Role u) then inr (<[nocase (Username u) := new_row u now]> t) else inl ErrStorage
  end.

Definition insert (u : User) (now : Z) : St Store (option UserError) := fun s =>
  let '(b, s) := fails s in
  if b : bool then (Some ErrStorage, s)
  else match insert_row u now (rows s) with
       | inl e => (Some e, s)
       | inr t => (None, mkStore t (faults s))
       end.

Definition Create (u : User) (now : Z) : St Store (option UserError) :=
  match validateNew u with
  | Some e => ret_st (Some e)
  | None => insert u now
  end.

(** ** store.go: mutations *)

(** [fn] gets the transaction's current row: its guards, and the update. *)
Definition mutate (username : string) (fn : User -> St Store (result UserError (option (Table -> Table))))
    : St Store (option UserError) :=
  b <- fails;;
  if b : bool then ret_st (Some ErrStorage)
  else
    cur <- query (fun t => t !! nocase username);;
    match cur with
    | None => ret_st (Some ErrStorage)
    | Some None => ret_st (Some ErrNotFound)
    | Some (Some cur) =>
        up <- fn cur;;
        match up with
        | Err e => ret_st (Some e)
        | Ok up =>
            bad <- match up with None => ret_st false | Some _ => fails end;;
            if bad : bool then ret_st (Some ErrStorage)
            else
              ok <- exec (default (fun t => t) up);;
              ret_st (if ok : bool then None else Some ErrStorage)
        end
    end.

Definition is_admin (u : User) : Prop := u_Role u = RoleAdmin ∧ enabled u.

#[export] Instance is_admin_dec u : Decision (is_admin u).
Proof. unfold is_admin, enabled. apply _. Defined.

(** The enabled admins of other names. *)
Definition other_admins (name : string) (t : Table) : Table :=
  filter (fun p => is_admin p.2 ∧ nocase (Username p.2) ≠ nocase name) t.

Definition guardLastAdmin (cur : User) : St Store (option UserError) :=
  if negb (u_Role cur =s? RoleAdmin) || Disabled cur then ret_st None
  else
    n <- query (fun t => size (other_admins (Username cur) t));;
    ret_st (match n with
            | None => Some ErrStorage
            | Some n => if (n =? 0)%nat then Some ErrLastAdmin else None
            end).

(** UPDATE users SET ... WHERE username=?. *)
Definition update_row (name : string) (f : User -> User) (t : Table) : Table := alter f (nocase name) t.

Definition bump_role (r : Role) (u : User) : User :=
  mkUser (Username u) (PasswordHash u) r (Disabled u) (MustChangePassword u) (TokenVersion u + 1) (CreatedAt u) (LastLoginAt u).
Definition bump_disabled (d : bool) (u : User) : User :=
  mkUser (Username u) (PasswordHash u) (u_Role u) d (MustChangePassword u) (TokenVersion u + 1) (CreatedAt u) (LastLoginAt u).
Definition bump_password (hash : string) (mustChange : bool) (u : User) : User :=
  mkUser (Username u) hash (u_Role u) (Disabled u) mustChange (TokenVersion u + 1) (CreatedAt u) (LastLoginAt u).
Definition touch (at_ : Z) (u : User) : User :=
  mkUser (Username u) (PasswordHash u) (u_Role u) (Disabled u) (MustChangePassword u) (TokenVersion u) (CreatedAt u) (Some at_).
Definition restore_admin (hash : string) (u : User) : User :=
  mkUser (Username u) hash RoleAdmin false true (TokenVersion u + 1) (CreatedAt u) (LastLoginAt u).

Definition guarded (needed : bool) (cur : User) (f : User -> User)
    : St Store (result UserError (option (Table -> Table))) :=
  g <- (if needed then guardLastAdmin cur else ret_st None);;
  ret_st (match g with Some e => Err e | None => Ok (Some (update_row (Username cur) f)) end).

Definition SetRole (username : string) (r : Role) : St Store (option UserError) :=
  if negb (Role_Valid r) then ret_st (Some (ErrInvalid "role" "must be admin or operator"))
  else mutate username (fun cur =>
    if u_Role cur =s? r then ret_st (Ok None)
    else guarded (negb (r =s? RoleAdmin)) cur (bump_role r)).

Definition SetDisabled (username : string) (disabled : bool) : St Store (option UserError) :=
  mutate username (fun cur =>
    if Bool.eqb (Disabled cur) disabled then ret_st (Ok None)
    else guarded disabled cur (bump_disabled disabled)).

Definition SetPassword (username hash : string) (mustChange : bool) : St Store (option UserError) :=
  mutate username (fun cur => ret_st (Ok (Some (update_row (Username cur) (bump_password hash mustChange))))).

Definition Delete (username : string) : St Store (option UserError) :=
  mutate username (fun cur =>
    g <- guardLastAdmin cur;;
    ret_st (match g with Some e => Err e | None => Ok (Some (delete (nocase (Username cur)))) end)).

Definition TouchLogin (username : string) (at_ : Z) : St Store (option UserError) := fun s =>
  let '(b, s) := fails s in
  if b : bool then (Some ErrStorage, s)
  else match rows s !! nocase username with
       | None => (Some ErrNotFound, s)
       | Some _ => (None, mkStore (update_row username (touch (time_unix at_)) (rows s)) (faults s))
       end.

(** The first start: [other] is what another process does to the table between
    the two statements. *)
Definition EnsureInitialAdmin (draws : list (option nat)) (HashPassword : string -> option string) (now : Z)
    (other : Table -> Table) : St Store (result UserError (option string)) :=
  n <- query size;;
  match n with
  | None => ret_st (Err ErrStorage)
  | Some (S _) => ret_st (Ok None)
  | Some 0%nat =>
      match GeneratePassword draws with
      | None => ret_st (Err ErrStorage)
      | Some password =>
          match HashPassword password with
          | None => ret_st (Err ErrStorage)
          | Some hash =>
              _ <- modify_st (fun s => mkStore (other (rows s)) (faults s));;
              s <- get_st;;
              let empty := bool_decide (rows s = ∅) in
              let row := new_row (mkUser InitialAdminUsername hash RoleAdmin false true 0 0 None) now in
              ok <- exec (fun t => if empty then {[nocase InitialAdminUsername := row]} else t);;
              if negb ok then ret_st (Err ErrStorage)
              else ret_st (Ok (if empty then Some password else None))
          end
      end
  end.

(** Begin, UPDATE, maybe INSERT, commit: [true] when the account was recreated. *)
Definition ResetAdmin (hash : string) (now : Z) : St Store (result UserError bool) :=
  b <- fails;;
  if b : bool then ret_st (Err ErrStorage)
  else
    bad <- fails;;
    if bad : bool then ret_st (Err ErrStorage)
    else
      s <- get_st;;
      match rows s !! nocase InitialAdminUsername with
      | Some _ =>
          ok <- exec (update_row InitialAdminUsername (restore_admin hash));;
          ret_st (if ok : bool then Ok false else Err ErrStorage)
      | None =>
          bad <- fails;;
          if bad : bool then ret_st (Err ErrStorage)
          else
            match insert_row (mkUser InitialAdminUsername hash RoleAdmin false true 0 0 None) now (rows s) with
            | inl e => ret_st (Err e)
            | inr t =>
                ok <- exec (fun _ => t);;
                ret_st (if ok : bool then Ok true else Err ErrStorage)
            end
      end.

(** * Properties *)

(** ** The table's shape *)

Definition row_ok (k : string) (u : User) : Prop :=
  k = nocase (Username u) ∧ usernameRe (Username u) = true ∧ Role_Valid (u_Role u) = true.

Definition table_ok (t : Table) : Prop := map_Forall row_ok t.

Definition has_admin (t : Table) : Prop := ∃ k u, t !! k = Some u ∧ is_admin u.

(** What an operation may do to a row: keep its name and, at most, raise its
    version by one. *)
Definition keeps (f : User -> User) : Prop := ∀ u,
  Username (f u) = Username u ∧ (Role_Valid (u_Role u) = true → Role_Valid (u_Role (f u)) = true) ∧
  TokenVersion u ≤ TokenVersion (f u) ≤ TokenVersion u + 1.

Lemma nocase_idemp s : nocase (nocase s) = nocase s.
Proof.
  unfold nocase. rewrite to_of_bytes, <- list_fmap_compose. f_equal. apply list_fmap_ext. intros _ c _. simpl.
  by destruct c as [[] [] [] [] [] [] [] []].
Qed.

Lemma alter_table_ok f k t : keeps f → table_ok t → table_ok (alter f k t).
Proof.
  intros Hf Ht k' u'. rewrite lookup_alter. case_decide as Hk; [|by apply Ht].
  intros (u & <- & Hu)%fmap_Some_1 || (destruct (t !! k) as [u|] eqn:Hu; simpl; [intros [= <-]|done]).
  destruct (Ht _ _ Hu) as (-> & ? & ?). destruct (Hf u) as (E & Hr & _). split_and!; rewrite ?E; auto.
Qed.

Lemma keeps_bump_role r : Role_Valid r = true → keeps (bump_role r).
Proof. intros Hr u. simpl. split; [done|]. split; [done|lia]. Qed.
Lemma keeps_bump_disabled d : keeps (bump_disabled d).
Proof. intros u. simpl. split; [done|]. split; [done|lia]. Qed.
Lemma keeps_bump_password h m : keeps (bump_password h m).
Proof. intros u. simpl. split; [done|]. split; [done|lia]. Qed.
Lemma keeps_touch a : keeps (touch a).
Proof. intros u. simpl. split; [done|]. split; [done|lia]. Qed.
Lemma keeps_restore h : keeps (restore_admin h).
Proof. intros u. simpl. split; [done|]. split; [done|lia]. Qed.

#[export] Hint Resolve keeps_bump_role keeps_bump_disabled keeps_bump_password keeps_touch keeps_restore : joei.

(** ** The effect of an operation *)

(** How one operation at nanosecond [now] may change the table. *)
Inductive effect (now : Z) (t : Table) : Table → Prop :=
| eff_none : effect now t t
| eff_update k u f : t !! k = Some u → keeps f → (is_admin u → is_admin (f u) ∨ other_admins (Username u) t ≠ ∅) →
    effect now t (alter f k t)
| eff_delete k u : t !! k = Some u → (is_admin u → other_admins (Username u) t ≠ ∅) → effect now t (delete k t)
| eff_insert u : t !! nocase (Username u) = None → usernameRe (Username u) = true → Role_Valid (u_Role u) = true →
    effect now t (<[nocase (Username u) := new_row u now]> t).

Lemma rows_fails s : rows (fails s).2 = rows s.
Proof. unfold fails. by destruct (faults s) as [|[] ?]. Qed.

Lemma rows_query {A} (f : Table → A) s : rows (query f s).2 = rows s.
Proof. unfold query. pose proof (rows_fails s). by destruct (fails s). Qed.

Lemma query_Some {A} (f : Table → A) s x : (query f s).1 = Some x → x = f (rows s).
Proof.
  unfold query. pose proof (rows_fails s) as H. destruct (fails s) as [[] s1]; simpl in *; [done|].
  intros [= <-]. by rewrite H.
Qed.

Lemma exec_rows f s : rows (exec f s).2 = if (exec f s).1 then f (rows s) else rows s.
Proof. unfold exec. pose proof (rows_fails s) as H. destruct (fails s) as [[] s1]; simpl in *; [done|]. by rewrite H. Qed.

(** A mutation leaves the table alone, or commits the update its guards
    allowed. *)
Lemma mutate_cases name fn s :
  (∀ cur s, rows (fn cur s).2 = rows s) →
  let res := mutate name fn s in
  (rows res.2 = rows s ∧
     (res.1 = None → ∃ cur s1, rows s !! nocase name = Some cur ∧ rows s1 = rows s ∧ (fn cur s1).1 = Ok None)) ∨
  (∃ cur s1 up, rows s !! nocase name = Some cur ∧ rows s1 = rows s ∧ (fn cur s1).1 = Ok (Some up) ∧
     rows res.2 = up (rows s) ∧ res.1 = None).
Proof.
  intros Hfn. simpl. unfold mutate. rewrite bind_st_run. pose proof (rows_fails s) as H1.
  destruct (fails s) as [[] s1]; simpl in *; [by left|].
  rewrite bind_st_run. pose proof (rows_query (λ t : Table, t !! nocase name) s1) as H2.
  pose proof (query_Some (λ t : Table, t !! nocase name) s1) as H3.
  destruct (query (λ t : Table, t !! nocase name) s1) as [[[cur|]|] s2]; simpl in *; try (left; split; [congruence|done]).
  rewrite bind_st_run. specialize (H3 _ eq_refl). pose proof (Hfn cur s2) as H4.
  destruct (fn cur s2) as [[[up|]|e] s3] eqn:E; simpl in *; [| |left; split; [congruence|done]].
  - rewrite bind_st_run. pose proof (rows_fails s3) as H5. destruct (fails s3) as [[] s4]; simpl in *; [left; split; [congruence|done]|].
    rewrite bind_st_run. simpl. pose proof (exec_rows up s4) as H6. destruct (exec up s4) as [[] s5]; simpl in *.
    + right. exists cur, s2, up. rewrite E. split_and!; try done; congruence.
    + left. split; [congruence|done].
  - rewrite bind_st_run. simpl. rewrite bind_st_run. pose proof (exec_rows (λ t : Table, t) s3) as H6.
    destruct (exec _ s3) as [[] s5]; simpl in *; (left; split; [congruence|]); [|done].
    intros _. exists cur, s2. rewrite E. split_and!; try done; congruence.
Qed.

Lemma guardLastAdmin_spec cur s :
  rows (guardLastAdmin cur s).2 = rows s ∧
  ((guardLastAdmin cur s).1 = None → is_admin cur → other_admins (Username cur) (rows s) ≠ ∅) ∧
  ((guardLastAdmin cur s).1 = Some ErrLastAdmin → is_admin cur ∧ other_admins (Username cur) (rows s) = ∅).
Proof.
  unfold guardLastAdmin, is_admin, enabled. destruct (String.eqb_spec (u_Role cur) RoleAdmin) as [Hr|Hr]; simpl.
  2:{ split; [done|]. split; [|done]. intros _ []. done. }
  destruct (Disabled cur) eqn:Hd; simpl; [split; [done|]; split; [|done]; intros _ []; done|].
  rewrite bind_st_run. simpl. pose proof (rows_query (λ t, size (other_admins (Username cur) t)) s) as H1.
  pose proof (query_Some (λ t, size (other_admins (Username cur) t)) s) as H2.
  destruct (query _ s) as [[n|] s1]; simpl in *; (split; [done|]); [|done].
  specialize (H2 _ eq_refl). destruct (Nat.eqb_spec n 0) as [->|Hn].
  - split; [done|]. intros _. split; [done|]. by apply map_size_empty_iff.
  - split; [|done]. intros _ _ E. rewrite E, map_size_empty in H2. done.
Qed.

Lemma guarded_rows needed cur f s : rows (guarded needed cur f s).2 = rows s.
Proof. unfold guarded. rewrite bind_st_run. simpl. destruct needed; simpl; [apply guardLastAdmin_spec|done]. Qed.

Lemma guarded_Ok needed cur f s up :
  (guarded needed cur f s).1 = Ok up → up = Some (update_row (Username cur) f) ∧
  (needed = true → is_admin cur → other_admins (Username cur) (rows s) ≠ ∅).
Proof.
  unfold guarded. rewrite bind_st_run. simpl. destruct needed; simpl; [|by intros [= <-]].
  destruct (guardLastAdmin_spec cur s) as (_ & H & _). destruct (guardLastAdmin cur s) as [[e|] s1]; simpl in *; [done|].
  intros [= <-]. auto.
Qed.

(** ** Every operation has an effect *)

(** The operations of the store, each with the nanosecond it runs at. *)
Inductive UserOp :=
| OCreate (u : User)
| OSetRole (name : string) (r : Role)
| OSetDisabled (name : string) (disabled : bool)
| OSetPassword (name hash : string) (mustChange : bool)
| ODelete (name : string)
| OTouchLogin (name : string)
| OEnsureInitialAdmin (draws : list (option nat)) (HashPassword : string -> option string)
| OResetAdmin (hash : string).

Definition run_op (op : UserOp) (now : Z) (s : Store) : Store :=
  match op with
  | OCreate u => (Create u now s).2
  | OSetRole name r => (SetRole name r s).2
  | OSetDisabled name d => (SetDisabled name d s).2
  | OSetPassword name h m => (SetPassword name h m s).2
  | ODelete name => (Delete name s).2
  | OTouchLogin name => (TouchLogin name now s).2
  | OEnsureInitialAdmin draws H => (EnsureInitialAdmin draws H now (fun t => t) s).2
  | OResetAdmin h => (ResetAdmin h now s).2
  end.

Definition run_ops (ops : list (UserOp * Z)) (s : Store) : Store :=
  foldl (fun s op => run_op op.1 op.2 s) s ops.

Lemma validateNew_ok u : validateNew u = None → usernameRe (Username u) = true ∧ Role_Valid (u_Role u) = true.
Proof. unfold validateNew, ValidateUsername. by destruct (usernameRe _), (Role_Valid _). Qed.

Lemma insert_effect u now s :
  usernameRe (Username u) = true → Role_Valid (u_Role u) = true → effect now (rows s) (rows (insert u now s).2).
Proof.
  intros Hn Hr. unfold insert, insert_row. pose proof (rows_fails s) as H. destruct (fails s) as [[] s1]; simpl in *.
  { rewrite H. constructor. }
  rewrite <- H, Hr. destruct (rows s1 !! _) eqn:E; simpl; by constructor.
Qed.

Section Effects.
Context (now : Z) (s : Store).
Hypothesis (Hok : table_ok (rows s)).

Lemma row_key name u : rows s !! nocase name = Some u → nocase (Username u) = nocase name.
Proof. intros Hu. by destruct (Hok _ _ Hu) as [-> _]. Qed.

(** A guarded update of one row. *)
Lemma guarded_effect name fn :
  (∀ cur s, rows (fn cur s).2 = rows s) →
  (∀ cur s1 up, rows s !! nocase name = Some cur → rows s1 = rows s → (fn cur s1).1 = Ok (Some up) →
     effect now (rows s) (up (rows s))) →
  effect now (rows s) (rows (mutate name fn s).2).
Proof.
  intros Hfn Hup. destruct (mutate_cases name fn s Hfn) as [[-> _]|(cur & s1 & up & H1 & H2 & H3 & -> & _)];
    [constructor|by eapply Hup].
Qed.

Lemma update_effect name cur f :
  rows s !! nocase name = Some cur → keeps f →
  (is_admin cur → is_admin (f cur) ∨ other_admins (Username cur) (rows s) ≠ ∅) →
  effect now (rows s) (update_row (Username cur) f (rows s)).
Proof. intros Hc Hf Ha. unfold update_row. rewrite (row_key _ _ Hc). by eapply eff_update. Qed.

Lemma SetRole_effect name r : effect now (rows s) (rows (SetRole name r s).2).
Proof.
  unfold SetRole. destruct (Role_Valid r) eqn:Hr; simpl; [|constructor].
  apply guarded_effect; [intros cur s1; destruct (u_Role cur =s? r); [done|apply guarded_rows]|].
  intros cur s1 up Hc Hs. destruct (u_Role cur =s? r); [done|]. intros [[= ->] Hg]%guarded_Ok.
  apply (update_effect name); [done|auto with joei|]. rewrite Hs in Hg. intros Ha.
  destruct (String.eqb_spec r RoleAdmin) as [->|Hne]; [left; split; [done|apply Ha]|right; auto].
Qed.

Lemma SetDisabled_effect name d : effect now (rows s) (rows (SetDisabled name d s).2).
Proof.
  apply guarded_effect; [intros cur s1; destruct (Bool.eqb _ d); [done|apply guarded_rows]|].
  intros cur s1 up Hc Hs. destruct (Bool.eqb_spec (Disabled cur) d) as [|Hne]; [done|]. intros [[= ->] Hg]%guarded_Ok.
  apply (update_effect name); [done|auto with joei|]. rewrite Hs in Hg. intros Ha. destruct d; [right; auto|].
  left. split; [apply Ha|done].
Qed.

Lemma SetPassword_effect name h m : effect now (rows s) (rows (SetPassword name h m s).2).
Proof.
  apply guarded_effect; [done|]. intros cur s1 up Hc Hs [= <-].
  apply (update_effect name); [done|auto with joei|]. by left.
Qed.

Lemma Delete_effect name : effect now (rows s) (rows (Delete name s).2).
Proof.
  apply guarded_effect.
  - intros cur s1. rewrite bind_st_run. apply guardLastAdmin_spec.
  - intros cur s1 up Hc Hs. rewrite bind_st_run. simpl.
    destruct (guardLastAdmin_spec cur s1) as (_ & Hg & _). destruct (guardLastAdmin cur s1) as [[e|] s2]; simpl in *; [done|].
    intros [= <-]. rewrite (row_key _ _ Hc). eapply eff_delete; [done|]. rewrite <- Hs. auto.
Qed.

Lemma TouchLogin_effect name : effect now (rows s) (rows (TouchLogin name now s).2).
Proof.
  unfold TouchLogin. pose proof (rows_fails s) as H. destruct (fails s) as [[] s1]; simpl in *; [rewrite H; constructor|].
  rewrite H. destruct (rows s !! nocase name) as [u|] eqn:Hu; simpl; [|rewrite H; constructor].
  eapply eff_update; [done|auto with joei|]. by left.
Qed.

Lemma EnsureInitialAdmin_effect draws H : effect now (rows s) (rows (EnsureInitialAdmin draws H now (λ t, t) s).2).
Proof.
  unfold EnsureInitialAdmin. rewrite bind_st_run. pose proof (rows_query size s) as H1.
  destruct (query size s) as [[[|n]|] s1]; simpl in *; rewrite <- H1; try constructor.
  destruct (GeneratePassword draws) as [pw|]; [|constructor]. destruct (H pw) as [hash|]; [|constructor].
  rewrite !bind_st_run. simpl. set (s2 := mkStore _ _). set (row := new_row _ _).
  assert (∀ ok, rows ((if negb ok then ret_st (Err ErrStorage) else
    ret_st (Ok (if bool_decide (rows s1 = ∅) then Some pw else None)) : St Store (result UserError (option string)))
      (exec (λ t, if bool_decide (rows s1 = ∅) then {[nocase InitialAdminUsername := row]} else t) s2).2).2 =
    rows (exec (λ t, if bool_decide (rows s1 = ∅) then {[nocase InitialAdminUsername := row]} else t) s2).2) as ->
    by by intros [].
  rewrite exec_rows. destruct (exec _ _).1; simpl; [|constructor]. case_bool_decide as He; [|constructor].
  rewrite He. apply (eff_insert now ∅ (mkUser InitialAdminUsername hash RoleAdmin false true 0 0 None)); done.
Qed.

Lemma ResetAdmin_effect h : effect now (rows s) (rows (ResetAdmin h now s).2).
Proof.
  unfold ResetAdmin. rewrite bind_st_run. pose proof (rows_fails s) as H1.
  destruct (fails s) as [[] s1]; simpl in *; [rewrite H1; constructor|].
  rewrite bind_st_run. pose proof (rows_fails s1) as H2. destruct (fails s1) as [[] s2]; simpl in *; [rewrite H2, H1; constructor|].
  rewrite bind_st_run. simpl. assert (rows s2 = rows s) as H3 by congruence. rewrite H3.
  destruct (rows s !! nocase InitialAdminUsername) as [u|] eqn:Hu.
  - rewrite bind_st_run. simpl. rewrite exec_rows, H3. destruct (exec _ _).1; [|constructor].
    eapply eff_update; [done|auto with joei|]. by left.
  - rewrite bind_st_run. pose proof (rows_fails s2) as H4. destruct (fails s2) as [[] s3]; simpl in *; [rewrite H4, H3; constructor|].
    unfold insert_row. cbn [Username u_Role]. rewrite Hu. simpl. rewrite bind_st_run. simpl. rewrite exec_rows, H4, H3.
    destruct (exec _ _).1; [|constructor].
    apply (eff_insert now (rows s) (mkUser InitialAdminUsername h RoleAdmin false true 0 0 None)); done.
Qed.

Lemma run_op_effect op : effect now (rows s) (rows (run_op op now s)).
Proof.
  destruct op; simpl; auto using SetRole_effect, SetDisabled_effect, SetPassword_effect, Delete_effect,
    TouchLogin_effect, EnsureInitialAdmin_effect, ResetAdmin_effect.
  unfold Create. destruct (validateNew u) eqn:Hv; simpl; [constructor|].
  apply validateNew_ok in Hv as []. by apply insert_effect.
Qed.
End Effects.

(** ** What every effect keeps *)

Lemma effect_table_ok now t t' : table_ok t → effect now t t' → table_ok t'.
Proof.
  intros Hok [|k u f Hu Hf _|k u Hu _|u Hu Hn Hr]; [done|by apply alter_table_ok| |].
  - by apply map_Forall_delete.
  - apply map_Forall_insert_2; [by split_and!|done].
Qed.

Lemma other_admins_elem name t :
  table_ok t → other_admins name t ≠ ∅ → ∃ k u, t !! k = Some u ∧ is_admin u ∧ k ≠ nocase name.
Proof.
  intros Hok (k & u & Hu)%map_choose. apply map_lookup_filter_Some in Hu as (Hu & Ha & Hne).
  exists k, u. split; [done|]. split; [done|]. destruct (Hok _ _ Hu) as [-> _]. done.
Qed.

Lemma effect_has_admin now t t' : table_ok t → effect now t t' → has_admin t → has_admin t'.
Proof.
  intros Hok He (k0 & u0 & Hu0 & Ha0). destruct He as [|k u f Hu Hf Hg|k u Hu Hg|u Hu Hn Hr]; [by exists k0, u0|..].
  - destruct (Hok _ _ Hu) as [Hk _]. destruct (decide (k0 = k)) as [->|Hne].
    + rewrite Hu0 in Hu. simplify_eq. destruct (Hg Ha0) as [Ha|Ho].
      * exists (nocase (Username u)), (f u). split; [by rewrite lookup_alter_eq, Hu0|done].
      * apply other_admins_elem in Ho as (k1 & u1 & ? & ? & ?); [|done]. exists k1, u1. by rewrite lookup_alter_ne.
    + exists k0, u0. by rewrite lookup_alter_ne.
  - destruct (Hok _ _ Hu) as [Hk _]. destruct (decide (k0 = k)) as [->|Hne].
    + rewrite Hu0 in Hu. simplify_eq. apply other_admins_elem in Hg as (k1 & u1 & ? & ? & ?); [|done..].
      exists k1, u1. by rewrite lookup_delete_ne.
    + exists k0, u0. by rewrite lookup_delete_ne.
  - exists k0, u0. split; [|done]. rewrite lookup_insert_ne; [done|]. intros <-. congruence.
Qed.

Lemma run_ops_inv (P : Table → Prop) ops s :
  (∀ op t t', P t → effect (op : UserOp * Z).2 t t' → op ∈ ops → P t') →
  table_ok (rows s) → P (rows s) → table_ok (rows (run_ops ops s)) ∧ P (rows (run_ops ops s)).
Proof.
  revert s. induction ops as [|op ops IH]; intros s Hstep Hok HP; [done|]. simpl.
  pose proof (run_op_effect op.2 s Hok op.1) as He. apply IH.
  - intros op' t t' Ht He' Hin. apply (Hstep op' t t' Ht He'). by right.
  - by eapply effect_table_ok.
  - eapply (Hstep op); [exact HP|exact He|by left].
Qed.

(** C10: whatever the console and the command line do to the accounts, in any
    order and whichever statements fail, the table stays well formed - every
    row under its folded name, with a valid name and role - and once there is
    an enabled admin there always is one: nobody can lock everybody out. *)
Theorem last_admin_kept ops s :
  table_ok (rows s) →
  table_ok (rows (run_ops ops s)) ∧ (has_admin (rows s) → has_admin (rows (run_ops ops s))).
Proof.
  intros Hok. split; [by apply (run_ops_inv (λ _, True))|]. intros Ha.
  enough (table_ok (rows (run_ops ops s)) ∧ table_ok (rows (run_ops ops s)) ∧ has_admin (rows (run_ops ops s))) as (_ & _ & ?) by done.
  apply (run_ops_inv (λ t, table_ok t ∧ has_admin t)); [|done..].
  intros op t t' [Ht Hat] He _. split; [by eapply effect_table_ok|by eapply effect_has_admin].
Qed.

(** the guard is exact: without storage failures, a deletion, a demotion
    to operator and a disabling of an account are refused as the last admin's
    exactly when the account is the only enabled admin, and a refusal changes
    nothing. *)
Theorem guard_exact name u s :
  faults s = [] → table_ok (rows s) → rows s !! nocase name = Some u →
  let last := is_admin u ∧ other_admins (Username u) (rows s) = ∅ in
  ((Delete name s).1 = Some ErrLastAdmin ↔ last) ∧
  ((SetDisabled name true s).1 = Some ErrLastAdmin ↔ last) ∧
  ((SetRole name RoleOperator s).1 = Some ErrLastAdmin ↔ last) ∧
  (last → rows (Delete name s).2 = rows s ∧ rows (SetDisabled name true s).2 = rows s ∧
          rows (SetRole name RoleOperator s).2 = rows s).
Proof.
  intros Hf Hok Hu. cbv zeta. destruct s as [t fs]. simpl in *. subst fs.
  unfold Delete, SetDisabled, SetRole, mutate, guarded, guardLastAdmin, query, exec, fails, is_admin, enabled,
    bind_st, ret_st. simpl. rewrite Hu. simpl.
  destruct (String.eqb_spec (u_Role u) RoleAdmin) as [Hr|Hr]; simpl.
  2:{ assert (u_Role u = RoleOperator) as Ho.
      { destruct (Hok _ _ Hu) as (_ & _ & Hv). unfold Role_Valid in Hv. bool_to_prop.
        apply orb_true_iff in Hv as [Hv|Hv]; by apply String.eqb_eq in Hv. }
      rewrite Ho. simpl. destruct (Disabled u); simpl; naive_solver. }
  rewrite Hr. destruct (Disabled u) eqn:Hd; simpl; [naive_solver|].
  destruct (Nat.eqb_spec (size (other_admins (Username u) t)) 0) as [E|E]; simpl.
  - apply map_size_empty_iff in E. naive_solver.
  - assert (other_admins (Username u) t ≠ ∅) by (by intros E'; apply E; rewrite E', map_size_empty). naive_solver.
Qed.

(** ** Token versions *)

(** Every version is at most the current time. *)
Definition versions_below (now : Z) (t : Table) : Prop := map_Forall (λ _ u, TokenVersion u ≤ now) t.

(** A row under [k], if any, has a version above [v]. *)
Definition above (k : string) (v : Z) (t : Table) : Prop := ∀ u, t !! k = Some u → v < TokenVersion u.

Lemma effect_versions_below now now' t t' :
  now < now' → versions_below now t → effect now' t t' → versions_below now' t'.
Proof.
  intros Hlt Hv He. assert (versions_below now' t) as Hv'.
  { intros k u Hu. apply Hv in Hu. simpl in *. lia. }
  destruct He as [|k u f Hu Hf _|k u Hu _|u Hu Hn Hr]; [done| | |].
  - intros k' u'. rewrite lookup_alter. case_decide as Hk; [|by apply Hv']. subst k'. rewrite Hu. intros [= <-].
    destruct (Hf u) as (_ & _ & ?). apply Hv in Hu. simpl in *. lia.
  - by apply map_Forall_delete.
  - apply map_Forall_insert_2; [simpl; lia|done].
Qed.

Lemma effect_above k v now' t t' : v < now' → above k v t → effect now' t t' → above k v t'.
Proof.
  intros Hlt Hv He. destruct He as [|k' u f Hu Hf _|k' u Hu _|u Hu Hn Hr]; [done| | |]; intros u'.
  - rewrite lookup_alter. case_decide as Hk; [|apply Hv]. subst k'. rewrite Hu. intros [= <-].
    destruct (Hf u) as (_ & _ & ?). specialize (Hv _ Hu). lia.
  - rewrite lookup_delete. case_decide; [done|apply Hv].
  - rewrite lookup_insert. case_decide; [intros [= <-]; simpl; lia|apply Hv].
Qed.

(** Operations one after the other, each after the clock has moved. *)
Fixpoint later (now : Z) (ops : list (UserOp * Z)) : Prop :=
  match ops with
  | [] => True
  | op :: ops => now < op.2 ∧ later op.2 ops
  end.

Lemma run_ops_above k v now ops s :
  table_ok (rows s) → v ≤ now → later now ops → above k v (rows s) → above k v (rows (run_ops ops s)).
Proof.
  revert now s. induction ops as [|op ops IH]; intros now s Hok Hle Hl Ha; [done|]. destruct Hl as [Hlt Hl]. simpl.
  pose proof (run_op_effect op.2 s Hok op.1) as He. apply (IH op.2); [|lia|done|].
  - by eapply effect_table_ok.
  - eapply effect_above; [|exact Ha|exact He]. lia.
Qed.

Lemma mutate_done name fn s :
  (∀ cur s, rows (fn cur s).2 = rows s) → (mutate name fn s).1 = None →
  ∃ cur s1, rows s !! nocase name = Some cur ∧ rows s1 = rows s ∧
    ((fn cur s1).1 = Ok None ∧ rows (mutate name fn s).2 = rows s ∨
     ∃ up, (fn cur s1).1 = Ok (Some up) ∧ rows (mutate name fn s).2 = up (rows s)).
Proof.
  intros Hfn Hres. destruct (mutate_cases name fn s Hfn) as [[Hr H]|(cur & s1 & up & H1 & H2 & H3 & H4 & _)].
  - destruct (H Hres) as (cur & s1 & ? & ? & ?). exists cur, s1. auto.
  - exists cur, s1. eauto 10.
Qed.

(** An operation that revokes the sessions of [name] when it succeeds. *)
Inductive revokes (name : string) (u : User) (s : Store) : Store → Prop :=
| revoke_password h m : (SetPassword name h m s).1 = None → revokes name u s (SetPassword name h m s).2
| revoke_role r : r ≠ u_Role u → (SetRole name r s).1 = None → revokes name u s (SetRole name r s).2
| revoke_disabled d : d ≠ Disabled u → (SetDisabled name d s).1 = None → revokes name u s (SetDisabled name d s).2
| revoke_delete : (Delete name s).1 = None → revokes name u s (Delete name s).2.

Lemma bumped name u f t :
  table_ok t → t !! nocase name = Some u → TokenVersion (f u) = TokenVersion u + 1 →
  above (nocase name) (TokenVersion u) (update_row (Username u) f t).
Proof.
  intros Hok Hu Hf u'. destruct (Hok _ _ Hu) as [Hk _]. unfold update_row. rewrite <- Hk, lookup_alter_eq, Hu.
  intros [= <-]. lia.
Qed.

Lemma revokes_above name u s s' :
  table_ok (rows s) → rows s !! nocase name = Some u → revokes name u s s' →
  above (nocase name) (TokenVersion u) (rows s').
Proof.
  intros Hok Hu [h m H|r Hne H|d Hne H|H]; unfold SetPassword, SetRole, SetDisabled, Delete in *.
  - apply mutate_done in H as (cur & s1 & Hc & _ & [[? _]|(up & [= <-] & ->)]); [done| |done].
    rewrite Hu in Hc. simplify_eq. by apply bumped.
  - destruct (Role_Valid r); simpl in *; [|done].
    apply mutate_done in H as (cur & s1 & Hc & _ & Hfn).
    2:{ intros cur s1. destruct (u_Role cur =s? r); [done|apply guarded_rows]. }
    rewrite Hu in Hc. simplify_eq. destruct (String.eqb_spec (u_Role cur) r); [congruence|].
    destruct Hfn as [[[? _]%guarded_Ok _]|(up & [[= ->] _]%guarded_Ok & ->)]; [done|by apply bumped].
  - apply mutate_done in H as (cur & s1 & Hc & _ & Hfn).
    2:{ intros cur s1. destruct (Bool.eqb _ d); [done|apply guarded_rows]. }
    rewrite Hu in Hc. simplify_eq. destruct (Bool.eqb_spec (Disabled cur) d); [congruence|].
    destruct Hfn as [[[? _]%guarded_Ok _]|(up & [[= ->] _]%guarded_Ok & ->)]; [done|by apply bumped].
  - apply mutate_done in H as (cur & s1 & Hc & _ & Hfn).
    2:{ intros cur s1. rewrite bind_st_run. apply guardLastAdmin_spec. }
    rewrite bind_st_run in Hfn. simpl in Hfn. rewrite Hu in Hc. simplify_eq. destruct (Hok _ _ Hu) as [Hk _].
    destruct (guardLastAdmin cur s1) as [[e|] s2]; simpl in Hfn.
    { by destruct Hfn as [[? _]|(up & ? & _)]. }
    destruct Hfn as [[? _]|(up & [= <-] & ->)]; [done|]. intros u'. rewrite <- Hk, lookup_delete_eq. discriminate.
Qed.

Lemma revokes_ok name u s s' : table_ok (rows s) → revokes name u s s' → table_ok (rows s').
Proof.
  intros Hok Hr. assert (effect 0 (rows s) (rows s')) as He.
  { destruct Hr; auto using SetPassword_effect, SetRole_effect, SetDisabled_effect, Delete_effect. }
  by eapply effect_table_ok.
Qed.

Lemma Get_Ok name s u : (Get name s).1 = Ok u → rows s !! nocase name = Some u.
Proof.
  unfold Get. rewrite bind_st_run. simpl. pose proof (query_Some (λ t : Table, t !! nocase name) s) as H.
  destruct (query _ s).1 as [[u'|]|]; simpl; try done. intros [= <-]. by rewrite <- (H _ eq_refl).
Qed.

(** A revoked version never comes back. *)
Lemma revocation_final name u s s' now ops :
  table_ok (rows s) → rows s !! nocase name = Some u → TokenVersion u ≤ now →
  revokes name u s s' → later now ops → above (nocase name) (TokenVersion u) (rows (run_ops ops s')).
Proof. intros Hok Hu Hv Hr Hl. eapply run_ops_above; [by eapply revokes_ok|exact Hv|exact Hl|]. exact (revokes_above _ _ _ _ Hok Hu Hr). Qed.

(** an account is created exactly when its name and role are valid and no
    account has the name in any letter case; it is then found under every
    spelling of the name with the spelling it was created with, at a version
    taken from the clock, and the name is taken. *)
Theorem Create_case_insensitive u now s :
  faults s = [] →
  ((Create u now s).1 = None ↔
     usernameRe (Username u) = true ∧ Role_Valid (u_Role u) = true ∧ rows s !! nocase (Username u) = None) ∧
  ((Create u now s).1 = None → ∀ name, nocase name = nocase (Username u) →
     (Get name (Create u now s).2).1 = Ok (new_row u now) ∧
     ∀ u' later, Username u' = name → validateNew u' = None →
       (Create u' later (Create u now s).2).1 = Some ErrExists).
Proof.
  destruct s as [t fs]. simpl. intros ->. unfold Create at 1 2 3 5. 
  destruct (validateNew u) as [e|] eqn:Hv.
  { split; [|done]. split; [done|]. intros (Hn & Hr & _). unfold validateNew, ValidateUsername in Hv.
    by rewrite Hn, Hr in Hv. }
  apply validateNew_ok in Hv as [Hn Hr]. unfold insert, insert_row, fails. simpl.
  destruct (t !! nocase (Username u)) as [u0|] eqn:Hu; simpl.
  { split; [|done]. split; [done|]. by intros (_ & _ & ?). }
  rewrite Hr. simpl. split; [done|]. intros _ name Hname. rewrite <- Hname.
  split.
  - unfold Get, query, fails, bind_st, ret_st. simpl. by rewrite lookup_insert_eq.
  - intros u' later' <- Hv'. unfold Create. rewrite Hv'. unfold insert, insert_row, fails. simpl.
    by rewrite lookup_insert_eq.
Qed.

(** ** Witnesses *)

Definition ex_admin : User := mkUser "Root" "$2a$10$h" RoleAdmin false false 100 0 None.
Definition ex_operator : User := mkUser "ops" "$2a$10$k" RoleOperator false false 101 0 None.
Definition ex_users : Store := mkStore {["root" := ex_admin; "ops" := ex_operator]} [].

Lemma ex_users_ok : table_ok (rows ex_users).
Proof. apply (bool_decide_unpack _). vm_compute. done. Qed.

Lemma ex_has_admin : has_admin (rows ex_users).
Proof. by exists "root", ex_admin. Qed.

(** The only admin cannot delete or demote itself; with a second one it can. *)
Example ex_lockout :
  (Delete "ROOT" ex_users).1 = Some ErrLastAdmin ∧
  (SetRole "root" RoleOperator ex_users).1 = Some ErrLastAdmin ∧
  (Delete "ROOT" (SetRole "Ops" RoleAdmin ex_users).2).1 = None.
Proof. vm_compute. done. Qed.

Definition ex_ops : list (UserOp * Z) :=
  [(OSetRole "ops" RoleAdmin, 200); (ODelete "root", 300); (OSetDisabled "ops" true, 400); (OResetAdmin "$2a$10$n", 500)].

Lemma last_admin_kept_witness :
  table_ok (rows ex_users) ∧ has_admin (rows ex_users) ∧ has_admin (rows (run_ops ex_ops ex_users)).
Proof.
  split; [exact ex_users_ok|]. split; [exact ex_has_admin|].
  exact (proj2 (last_admin_kept ex_ops ex_users ex_users_ok) ex_has_admin).
Defined.

Lemma guard_exact_witness :
  rows ex_users !! nocase "ROOT" = Some ex_admin ∧ (Delete "ROOT" ex_users).1 = Some ErrLastAdmin ∧
  other_admins "Root" (rows ex_users) = ∅.
Proof.
  assert (rows ex_users !! nocase "ROOT" = Some ex_admin) as Hu by (vm_compute; reflexivity).
  assert ((Delete "ROOT" ex_users).1 = Some ErrLastAdmin) as Hd by (vm_compute; reflexivity).
  split; [exact Hu|]. split; [exact Hd|].
  exact (proj2 (proj1 (proj1 (guard_exact "ROOT" ex_admin ex_users eq_refl ex_users_ok Hu)) Hd)).
Defined.

Lemma Create_case_insensitive_witness :
  let u := mkUser "Eve" "$2a$10$e" RoleOperator false true 0 0 None in
  faults ex_users = [] ∧ (Get "EVE" (Create u 5000 ex_users).2).1 = Ok (new_row u 5000).
Proof.
  cbv zeta. split; [reflexivity|].
  destruct (Create_case_insensitive (mkUser "Eve" "$2a$10$e" RoleOperator false true 0 0 None) 5000 ex_users eq_refl)
    as [_ H].
  refine (proj1 (H _ "EVE" _)); vm_compute; reflexivity.
Defined.
