(* ===== verification/Login.v ===== *)
(** * Package auth: the login limiter (ratelimit.go)

    Each operation runs under the limiter's mutex, at a time it reads there:
    an interleaving of requests is a sequence of operations at times that
    never go back. *)
From S2P Require Import Prelude GoStd Users.
Local Open Scope Z_scope.

Definition LoginPairLimit : Z := 5.
Definition LoginIPLimit : Z := 20.
Definition LoginWindow : Z := 15 * Minute.
Definition sweepThreshold : nat := 10000.
Definition sweepInterval : Z := LoginWindow / 15.

Record window := mkWindow {
  w_start : Z;
  w_count : Z;
}.

Record LoginLimiter := mkLimiter {
  entries : gmap string window;
  nextSweep : Z;
}.

Definition NewLoginLimiter : LoginLimiter := mkLimiter ∅ 0.

Definition nul_string : string := String (byte_of 0) EmptyString.

(** [""] for a name no account can have. *)
Definition pairKey (username ip : string) : string :=
  match ValidateUsername username with
  | Some _ => ""
  | None => "p" +:+ nul_string +:+ ToLower username +:+ nul_string +:+ ip
  end.

Definition ipKey (ip : string) : string := "i" +:+ nul_string +:+ ip.

(** !now.Before(w.start.Add(LoginWindow)) *)
Definition expired (now : Z) (w : window) : bool := w_start w + LoginWindow <=? now.

Definition set_entries (e : gmap string window) (l : LoginLimiter) : LoginLimiter := mkLimiter e (nextSweep l).

Definition blocked (key : string) (limit now : Z) : St LoginLimiter Z := fun l =>
  match entries l !! key with
  | None => (0, l)
  | Some w =>
      if expired now w then (0, set_entries (delete key (entries l)) l)
      else (if limit <=? w_count w then w_start w + LoginWindow - now else 0, l)
  end.

Definition bump (key : string) (now : Z) : St LoginLimiter unit := fun l =>
  let w :=
    match entries l !! key with
    | Some w => if expired now w then mkWindow now 1 else mkWindow (w_start w) (w_count w + 1)
    | None => mkWindow now 1
    end in
  (tt, set_entries (<[key := w]> (entries l)) l).

Definition sweep (now : Z) (e : gmap string window) : gmap string window :=
  filter (fun p => expired now p.2 = false) e.

Definition sweep_due (now : Z) (l : LoginLimiter) : bool :=
  (sweepThreshold <? size (entries l))%nat && (nextSweep l <=? now).

Definition maybe_sweep (now : Z) : St LoginLimiter unit := fun l =>
  (tt, if sweep_due now l then mkLimiter (sweep now (entries l)) (now + sweepInterval) else l).

Definition Allow (username ip : string) (now : Z) : St LoginLimiter (Z * bool) :=
  _ <- maybe_sweep now;;
  let pk := pairKey username ip in
  retry <- (if negb (pk =s? "") then blocked pk LoginPairLimit now else ret_st 0);;
  d <- blocked (ipKey ip) LoginIPLimit now;;
  let retry := if retry <? d then d else retry in
  if 0 <? retry then ret_st (retry, false)
  else
    _ <- (if negb (pk =s? "") then bump pk now else ret_st tt);;
    _ <- bump (ipKey ip) now;;
    ret_st (0, true).

Definition Success (username ip : string) : St LoginLimiter unit := fun l =>
  let pk := pairKey username ip in
  let e := if negb (pk =s? "") then delete pk (entries l) else entries l in
  (tt, set_entries (match e !! ipKey ip with
                    | Some w => if 0 <? w_count w then <[ipKey ip := mkWindow (w_start w) (w_count w - 1)]> e else e
                    | None => e
                    end) l).

(** rateLimited's Retry-After: whole seconds, rounded up, at least one.  The
    sum fits an int64: a retry is at most a window. *)
Definition retry_seconds (retry : Z) : Z :=
  let secs := Z.quot (retry + Second - 1) Second in
  if secs <? 1 then 1 else secs.

(** ** A reference: nothing is ever dropped *)

(** The window of a key at [now]. *)
Definition live (now : Z) (e : gmap string window) (key : string) : option window :=
  match e !! key with
  | Some w => if expired now w then None else Some w
  | None => None
  end.

Definition left_of (limit now : Z) (w : option window) : Z :=
  match w with
  | Some w => if limit <=? w_count w then w_start w + LoginWindow - now else 0
  | None => 0
  end.

Definition count_one (now : Z) (w : option window) : window :=
  match w with
  | Some w => mkWindow (w_start w) (w_count w + 1)
  | None => mkWindow now 1
  end.

Definition ref_Allow (username ip : string) (now : Z) (e : gmap string window) : (Z * bool) * gmap string window :=
  let pk := pairKey username ip in
  let retry := Z.max (if pk =s? "" then 0 else left_of LoginPairLimit now (live now e pk))
                     (left_of LoginIPLimit now (live now e (ipKey ip))) in
  if 0 <? retry then ((retry, false), e)
  else
    let e1 := if pk =s? "" then e else <[pk := count_one now (live now e pk)]> e in
    ((0, true), <[ipKey ip := count_one now (live now e (ipKey ip))]> e1).

Definition ref_Success (username ip : string) (e : gmap string window) : gmap string window :=
  let pk := pairKey username ip in
  let e := if pk =s? "" then e else delete pk e in
  alter (fun w => mkWindow (w_start w) (if 0 <? w_count w then w_count w - 1 else w_count w)) (ipKey ip) e.

(** ** Sequences of operations *)

Inductive LoginOp :=
| OpAllow (username ip : string) (now : Z)
| OpSuccess (username ip : string).

Definition login_step (op : LoginOp) : St LoginLimiter (option (Z * bool)) :=
  match op with
  | OpAllow u ip now => r <- Allow u ip now;; ret_st (Some r)
  | OpSuccess u ip => _ <- Success u ip;; ret_st None
  end.

Definition ref_step (op : LoginOp) (e : gmap string window) : option (Z * bool) * gmap string window :=
  match op with
  | OpAllow u ip now => let '(r, e) := ref_Allow u ip now e in (Some r, e)
  | OpSuccess u ip => (None, ref_Success u ip e)
  end.

Fixpoint login_run (ops : list LoginOp) (l : LoginLimiter) : list (option (Z * bool)) * LoginLimiter :=
  match ops with
  | [] => ([], l)
  | op :: ops =>
      let '(r, l) := login_step op l in
      let '(rs, l) := login_run ops l in
      (r :: rs, l)
  end.

Fixpoint ref_run (ops : list LoginOp) (e : gmap string window) : list (option (Z * bool)) * gmap string window :=
  match ops with
  | [] => ([], e)
  | op :: ops =>
      let '(r, e) := ref_step op e in
      let '(rs, e) := ref_run ops e in
      (r :: rs, e)
  end.

(** Times that never go back. *)
Fixpoint timed (now : Z) (ops : list LoginOp) : Prop :=
  match ops with
  | [] => True
  | OpAllow _ _ t :: ops => now <= t /\ timed t ops
  | OpSuccess _ _ :: ops => timed now ops
  end.

(** * Properties *)

Lemma pairKey_not_ipKey u ip ip' : pairKey u ip ≠ ipKey ip'.
Proof. unfold pairKey, ipKey. by destruct (ValidateUsername u). Qed.

(** ** The reference behaves alike *)

(** The same windows from [now] on. *)
Definition same_windows (now : Z) (e e' : gmap string window) : Prop := ∀ t k, now ≤ t → live t e k = live t e' k.

Lemma same_windows_refl now e : same_windows now e e.
Proof. done. Qed.
Lemma same_windows_sym now e e' : same_windows now e e' → same_windows now e' e.
Proof. intros H t k Ht. by rewrite H. Qed.
Lemma same_windows_trans now e1 e2 e3 : same_windows now e1 e2 → same_windows now e2 e3 → same_windows now e1 e3.
Proof. intros H1 H2 t k Ht. by rewrite H1, H2. Qed.
Lemma same_windows_later now t e e' : now ≤ t → same_windows now e e' → same_windows t e e'.
Proof. intros Hle H t' k Ht. apply H. lia. Qed.

#[export] Instance same_windows_equiv now : Equivalence (same_windows now).
Proof.
  split; [intros e; apply same_windows_refl|intros e e'; apply same_windows_sym|intros e1 e2 e3; apply same_windows_trans].
Qed.

Lemma live_later now t e k : now ≤ t → live now e k = None → live t e k = None.
Proof.
  unfold live, expired. intros Hle. destruct (e !! k) as [w|]; [|done].
  destruct (Z.leb_spec (w_start w + LoginWindow) now); [|done].
  destruct (Z.leb_spec (w_start w + LoginWindow) t); [done|lia].
Qed.

Lemma live_insert t e k w k' :
  live t (<[k := w]> e) k' = if decide (k = k') then (if expired t w then None else Some w) else live t e k'.
Proof. unfold live. rewrite lookup_insert. by case_decide. Qed.

Lemma live_delete t e k k' : live t (delete k e) k' = if decide (k = k') then None else live t e k'.
Proof. unfold live. rewrite lookup_delete. by case_decide. Qed.

#[export] Instance insert_same_windows now k w : Proper (same_windows now ==> same_windows now) (<[k := w]>).
Proof. intros e e' H t k' Ht. rewrite !live_insert. case_decide; [done|by apply H]. Qed.

#[export] Instance delete_same_windows now (k : string) : Proper (same_windows now ==> same_windows now) (delete k).
Proof. intros e e' H t k' Ht. rewrite !live_delete. case_decide; [done|by apply H]. Qed.

(** Dropping an expired window changes nothing. *)
Lemma drop_expired now e k : live now e k = None → same_windows now (delete k e) e.
Proof.
  intros H t k' Ht. rewrite live_delete. case_decide as Hk; [subst|done]. symmetry. by eapply live_later.
Qed.

Lemma sweep_same now e : same_windows now (sweep now e) e.
Proof.
  intros t k Ht. unfold live, sweep. rewrite map_lookup_filter. destruct (e !! k) as [w|]; simpl; [|done].
  unfold expired. case_guard as Hg; simpl; [done|].
  destruct (Z.leb_spec (w_start w + LoginWindow) now); [|done].
  destruct (Z.leb_spec (w_start w + LoginWindow) t); [done|lia].
Qed.

Lemma maybe_sweep_same now l : same_windows now (entries (maybe_sweep now l).2) (entries l).
Proof. unfold maybe_sweep. simpl. destruct (sweep_due now l); [apply sweep_same|done]. Qed.

Lemma blocked_ref key limit now l :
  (blocked key limit now l).1 = left_of limit now (live now (entries l) key) ∧
  same_windows now (entries (blocked key limit now l).2) (entries l).
Proof.
  unfold blocked, live. destruct (entries l !! key) as [w|] eqn:E; [|done].
  destruct (expired now w) eqn:Hx; [|done]. simpl. split; [done|].
  apply drop_expired. unfold live. by rewrite E, Hx.
Qed.

Lemma bump_ref key now l :
  entries (bump key now l).2 = <[key := count_one now (live now (entries l) key)]> (entries l).
Proof. unfold bump, live. simpl. f_equal. destruct (entries l !! key) as [w|]; [|done]. by destruct (expired now w). Qed.

Lemma max_retry (a b : Z) : 0 ≤ a → (if a <? b then b else a) = Z.max a b.
Proof. intros. destruct (Z.ltb_spec a b); lia. Qed.

Lemma left_of_nonneg limit now e key : 0 ≤ left_of limit now (live now e key).
Proof.
  unfold left_of, live, expired. destruct (e !! key) as [w|]; [|done].
  destruct (Z.leb_spec (w_start w + LoginWindow) now); [done|]. destruct (limit <=? w_count w); lia.
Qed.

(** What the code asks and does for the pair, if there is one. *)
Lemma pair_blocked_ref pk now l :
  let m := if negb (pk =s? "") then blocked pk LoginPairLimit now else ret_st 0 in
  (m l).1 = (if pk =s? "" then 0 else left_of LoginPairLimit now (live now (entries l) pk)) ∧
  same_windows now (entries (m l).2) (entries l).
Proof. cbv zeta. destruct (pk =s? ""); simpl; [done|apply blocked_ref]. Qed.

Lemma pair_bump_ref pk now l :
  entries ((if negb (pk =s? "") then bump pk now else ret_st tt) l).2 =
  (if pk =s? "" then entries l else <[pk := count_one now (live now (entries l) pk)]> (entries l)).
Proof. destruct (pk =s? ""); simpl; [done|apply bump_ref]. Qed.

Lemma Allow_ref u ip now l e :
  same_windows now (entries l) e →
  (Allow u ip now l).1 = (ref_Allow u ip now e).1 ∧
  same_windows now (entries (Allow u ip now l).2) (ref_Allow u ip now e).2.
Proof.
  intros H0. unfold Allow, ref_Allow. rewrite bind_st_run.
  pose proof (maybe_sweep_same now l) as H1. destruct (maybe_sweep now l) as [[] l1]. simpl in H1.
  set (pk := pairKey u ip). cbv zeta. rewrite bind_st_run. cbn [snd].
  destruct (pair_blocked_ref pk now l1) as [Hp H2].
  destruct ((if negb (pk =s? "") then blocked pk LoginPairLimit now else ret_st 0) l1) as [r l2]. simpl in Hp, H2.
  cbn [fst snd]. rewrite bind_st_run. destruct (blocked_ref (ipKey ip) LoginIPLimit now l2) as [Hi H3].
  destruct (blocked (ipKey ip) LoginIPLimit now l2) as [d l3]. simpl in Hi, H3. simpl.
  assert (same_windows now (entries l1) e) as H1' by (by rewrite H1).
  assert (same_windows now (entries l2) e) as H2' by (by rewrite H2).
  assert (same_windows now (entries l3) e) as H3' by (by rewrite H3).
  assert (r = if pk =s? "" then 0 else left_of LoginPairLimit now (live now e pk)) as ->.
  { rewrite Hp, H1' by lia. done. }
  rewrite H2' in Hi by lia. subst d. rewrite max_retry by (destruct (pk =s? ""); [done|apply left_of_nonneg]).
  destruct (0 <? _); [done|]. rewrite bind_st_run. pose proof (pair_bump_ref pk now l3) as H4.
  destruct ((if negb (pk =s? "") then bump pk now else ret_st tt) l3) as [[] l4]. simpl in H4. simpl.
  split; [done|].
  change (same_windows now (entries (bump (ipKey ip) now l4).2)
    (<[ipKey ip:=count_one now (live now e (ipKey ip))]> (if pk =s? "" then e else <[pk:=count_one now (live now e pk)]> e))).
  rewrite bump_ref, H4.
  assert (pk ≠ ipKey ip) as Hne by apply pairKey_not_ipKey.
  destruct (pk =s? ""); [rewrite (H3' now) by lia; by rewrite H3'|].
  rewrite live_insert, decide_False, (H3' now), (H3' now) by (done || lia). by rewrite H3'.
Qed.

Definition take_back (w : window) : window :=
  mkWindow (w_start w) (if 0 <? w_count w then w_count w - 1 else w_count w).

Lemma live_alter f t e k k' :
  (∀ w, w_start (f w) = w_start w) →
  live t (alter f k e) k' = if decide (k = k') then f <$> live t e k else live t e k'.
Proof.
  intros Hf. unfold live. rewrite lookup_alter. case_decide; [|done]. destruct (e !! k) as [w|]; simpl; [|done].
  unfold expired. rewrite Hf. by destruct (_ <=? t).
Qed.

Lemma Success_entries u ip l :
  entries (Success u ip l).2 =
    alter take_back (ipKey ip) (if pairKey u ip =s? "" then entries l else delete (pairKey u ip) (entries l)).
Proof.
  unfold Success. simpl. assert (∀ e : gmap string window, match e !! ipKey ip with
    | Some w => if 0 <? w_count w then <[ipKey ip:=mkWindow (w_start w) (w_count w - 1)]> e else e
    | None => e end = alter take_back (ipKey ip) e) as He.
  { intros e. apply map_eq. intros k. rewrite lookup_alter. unfold take_back.
    destruct (e !! ipKey ip) as [w|] eqn:E; [destruct (0 <? w_count w) eqn:Hc; [rewrite lookup_insert|]|];
      case_decide as Hk; simplify_eq; rewrite ?E; simpl; rewrite ?Hc; try done. by destruct w. }
  rewrite He. by destruct (pairKey u ip =s? "").
Qed.

Lemma Success_ref u ip now l e :
  same_windows now (entries l) e → same_windows now (entries (Success u ip l).2) (ref_Success u ip e).
Proof.
  intros H0. rewrite Success_entries. unfold ref_Success. fold take_back.
  change (λ w : window, _) with take_back.
  set (e1 := if _ =s? _ then entries l else _). set (e2 := if _ =s? _ then e else _).
  assert (same_windows now e1 e2) as H1 by (unfold e1, e2; destruct (pairKey u ip =s? ""); by rewrite H0).
  intros t k Ht. rewrite !live_alter by done. case_decide; by rewrite H1.
Qed.

Lemma login_run_ref now ops l e :
  timed now ops → same_windows now (entries l) e → (login_run ops l).1 = (ref_run ops e).1.
Proof.
  revert now l e. induction ops as [|[u ip t|u ip] ops IH]; intros now l e;
    cbn [login_run ref_run login_step ref_step timed]; [done|intros [Hle Ht] Hs|intros Ht Hs].
  - unfold bind_st. apply (same_windows_later _ t) in Hs; [|done].
    destruct (Allow_ref u ip t l e Hs) as [H1 H2]. destruct (Allow u ip t l) as [r l1], (ref_Allow u ip t e) as [r' e1].
    simpl in *. subst r'. specialize (IH _ _ _ Ht H2). destruct (login_run ops l1), (ref_run ops e1). simpl in *. congruence.
  - unfold bind_st. pose proof (Success_ref u ip now l e Hs) as H2. destruct (Success u ip l) as [[] l1].
    specialize (IH _ _ _ Ht H2). cbn [ret_st snd] in *.
    unfold ret_st. destruct (login_run ops l1), (ref_run ops (ref_Success u ip e)). simpl in *. congruence.
Qed.

(** C21: forgetting is invisible: over any sequence of attempts and successes at
    times that never go back, the limiter answers exactly as one that keeps
    every window for ever - neither the sweep nor dropping an expired window
    ever lets an attempt through or turns one away. *)
Theorem limiter_refines_reference now ops l :
  timed now ops → (login_run ops l).1 = (ref_run ops (entries l)).1.
Proof. intros Ht. by apply (login_run_ref now). Qed.

(** ** Waiting out Retry-After *)

Lemma retry_seconds_enough d : 0 < d → d ≤ retry_seconds d * Second.
Proof.
  intros Hd. unfold retry_seconds. set (n := d + Second - 1).
  assert (0 ≤ n) as Hn by (unfold n, Second; lia).
  rewrite Z.quot_div_nonneg by (unfold Second; lia).
  pose proof (Z.div_mod n Second ltac:(unfold Second; lia)) as Hm.
  pose proof (Z.mod_pos_bound n Second ltac:(unfold Second; lia)) as Hb.
  unfold n in *. destruct (Z.ltb_spec ((d + Second - 1) / Second) 1); nia.
Qed.

Lemma live_Some now e k w : live now e k = Some w → e !! k = Some w ∧ now < w_start w + LoginWindow.
Proof.
  unfold live, expired. destruct (e !! k) as [w'|]; [|done].
  destruct (Z.leb_spec (w_start w' + LoginWindow) now); [done|]. by intros [= <-].
Qed.

Lemma left_of_0 limit now e k w : left_of limit now (live now e k) ≤ 0 → live now e k = Some w → w_count w < limit.
Proof.
  intros H Hw. pose proof (live_Some _ _ _ _ Hw) as [_ ?]. rewrite Hw in H. simpl in H.
  destruct (Z.leb_spec limit (w_count w)); lia.
Qed.

(** An attempt, seen from one key. *)
Lemma ref_Allow_cases u ip now e :
  ((ref_Allow u ip now e).1.2 = false ∧ (ref_Allow u ip now e).2 = e) ∨
  ((ref_Allow u ip now e).1.2 = true ∧
   (pairKey u ip ≠ "" → left_of LoginPairLimit now (live now e (pairKey u ip)) ≤ 0) ∧
   left_of LoginIPLimit now (live now e (ipKey ip)) ≤ 0 ∧
   ∀ k, (ref_Allow u ip now e).2 !! k =
     if decide (k = ipKey ip ∨ (k = pairKey u ip ∧ k ≠ "")) then Some (count_one now (live now e k)) else e !! k).
Proof.
  unfold ref_Allow. set (pk := pairKey u ip). assert (pk ≠ ipKey ip) as Hne by apply pairKey_not_ipKey.
  cbv zeta. destruct (Z.ltb_spec 0 (Z.max (if pk =s? "" then 0 else left_of LoginPairLimit now (live now e pk))
    (left_of LoginIPLimit now (live now e (ipKey ip))))) as [Hlt|Hle]; simpl; [by left|right].
  split; [done|]. split; [|split; [lia|]].
  - intros Hpk. apply String.eqb_neq in Hpk. rewrite Hpk in Hle. lia.
  - intros k. rewrite lookup_insert. destruct (decide (ipKey ip = k)) as [<-|Hk].
    + by rewrite decide_True by auto.
    + destruct (String.eqb_spec pk ""); [rewrite decide_False by naive_solver; done|].
      rewrite lookup_insert. destruct (decide (pk = k)) as [<-|]; [rewrite decide_True by auto|rewrite decide_False by naive_solver]; done.
Qed.

(** ** A bound on guessing *)

Definition op_time (now : Z) (op : LoginOp) : Z := match op with OpAllow _ _ t => t | OpSuccess _ _ => now end.
Definition last_time (now : Z) (ops : list LoginOp) : Z := foldl op_time now ops.

Definition admitted (r : option (Z * bool)) : bool := match r with Some (_, ok) => ok | None => false end.

(** What an operation and its answer add to a key's failures. *)
Definition pair_adds (pk : string) (op : LoginOp) (r : option (Z * bool)) : Z :=
  match op with
  | OpAllow u ip _ => if (pairKey u ip =s? pk) && admitted r then 1 else 0
  | OpSuccess _ _ => 0
  end.

Definition ip_adds (ik : string) (op : LoginOp) (r : option (Z * bool)) : Z :=
  match op with
  | OpAllow _ ip _ => if (ipKey ip =s? ik) && admitted r then 1 else 0
  | OpSuccess _ ip => if ipKey ip =s? ik then -1 else 0
  end.

Definition tally (adds : LoginOp -> option (Z * bool) -> Z) (ops : list LoginOp) (rs : list (option (Z * bool))) : Z :=
  foldr Z.add 0 (zip_with adds ops rs).

Section Bound.
Context (k : string) (limit t0 : Z) (adds : LoginOp -> option (Z * bool) -> Z).
Hypothesis (Hlimit : 0 < limit).

(** [F] failures so far: at most [limit] in each window before the current one,
    windows at least a LoginWindow apart. *)
Definition bounded (now F : Z) (e : gmap string window) : Prop :=
  match e !! k with
  | None => F ≤ 0
  | Some w => ∃ m, 0 ≤ m ∧ F ≤ limit * m + w_count w ∧ 0 ≤ w_count w ≤ limit ∧ t0 + m * LoginWindow ≤ w_start w ≤ now
  end.

Lemma bounded_later now t F e : now ≤ t → bounded now F e → bounded t F e.
Proof. unfold bounded. intros Hle. destruct (e !! k); [|done]. intros (m & ? & ? & ? & ?). exists m. lia. Qed.

Lemma bounded_count now F e :
  t0 ≤ now → left_of limit now (live now e k) ≤ 0 → bounded now F e →
  ∀ e', e' !! k = Some (count_one now (live now e k)) → bounded now (F + 1) e'.
Proof.
  intros Ht Hl Hb e' He'. unfold bounded in *. rewrite He'.
  destruct (live now e k) as [w|] eqn:Hw; simpl.
  - pose proof (left_of_0 limit now e k w) as Hc. rewrite Hw in Hc. specialize (Hc Hl eq_refl).
    apply live_Some in Hw as [Hw _]. rewrite Hw in Hb. destruct Hb as (m & ? & ? & ? & ?). exists m. lia.
  - unfold live, expired in Hw. destruct (e !! k) as [w|].
    + destruct (Z.leb_spec (w_start w + LoginWindow) now); [|done]. destruct Hb as (m & ? & ? & ? & ?).
      exists (m + 1). lia.
    + exists 0. lia.
Qed.

Lemma bounded_end now F e : t0 ≤ now → bounded now F e → F ≤ limit * ((now - t0) / LoginWindow + 1).
Proof.
  intros Ht. assert (0 < LoginWindow) as HW by (unfold LoginWindow, Minute, Second; lia).
  unfold bounded. destruct (e !! k) as [w|].
  - intros (m & Hm & HF & Hc & Hs). assert (m ≤ (now - t0) / LoginWindow) by (apply Z.div_le_lower_bound; lia). nia.
  - intros HF. assert (0 ≤ (now - t0) / LoginWindow) by (apply Z.div_pos; lia). nia.
Qed.

(** If each step keeps the bound, so does a run. *)
Lemma bounded_run now F ops e :
  (∀ op now' F' e', op ∈ ops → t0 ≤ now' → now' ≤ op_time now' op → bounded now' F' e' →
     bounded (op_time now' op) (F' + adds op (ref_step op e').1) (ref_step op e').2) →
  t0 ≤ now → timed now ops → bounded now F e →
  bounded (last_time now ops) (F + tally adds ops (ref_run ops e).1) (ref_run ops e).2.
Proof.
  revert now F e. induction ops as [|op ops IH]; intros now F e Hstep Ht Htm Hb; [by rewrite Z.add_0_r|].
  assert (now ≤ op_time now op ∧ timed (op_time now op) ops) as [Hle Htm'] by (destruct op; simpl in *; auto with lia).
  pose proof (Hstep op now F e ltac:(by left) Ht Hle Hb) as H1. cbn [ref_run].
  destruct (ref_step op e) as [r e1]. simpl in H1.
  assert (bounded (last_time (op_time now op) ops) (F + adds op r + tally adds ops (ref_run ops e1).1) (ref_run ops e1).2) as H2.
  { apply IH; [|lia|done..]. intros op' now' F' e' Hin. apply Hstep. by right. }
  destruct (ref_run ops e1) as [rs e2]. unfold tally in *. simpl in *. by rewrite Z.add_assoc.
Qed.
End Bound.

Lemma pair_step pk t0 op now F e :
  pk ≠ "" → (∀ ip', pk ≠ ipKey ip') → (∀ u ip, op = OpSuccess u ip → pairKey u ip ≠ pk) →
  t0 ≤ now → now ≤ op_time now op → bounded pk LoginPairLimit t0 now F e →
  bounded pk LoginPairLimit t0 (op_time now op) (F + pair_adds pk op (ref_step op e).1) (ref_step op e).2.
Proof.
  intros Hpk Hik Hns Ht Hle Hb. destruct op as [u ip t|u ip]; simpl in *.
  - apply (bounded_later _ _ _ _ t) in Hb; [|done].
    pose proof (ref_Allow_cases u ip t e) as Hc. destruct (ref_Allow u ip t e) as [[d ok] e']. simpl in *.
    destruct Hc as [[-> ->]|(-> & Hp & _ & He')].
    + rewrite andb_false_r. by rewrite Z.add_0_r.
    + rewrite andb_true_r. destruct (String.eqb_spec (pairKey u ip) pk) as [E|Hne].
      * subst pk. eapply bounded_count; [done|lia|by apply Hp|exact Hb|]. rewrite He', decide_True; auto.
      * rewrite Z.add_0_r. unfold bounded in *. rewrite He', decide_False; [done|]. intros [E|[E _]]; [by apply (Hik ip)|congruence].
  - rewrite Z.add_0_r. unfold bounded, ref_Success in *. rewrite lookup_alter_ne by (intros E; by apply (Hik ip)).
    specialize (Hns u ip eq_refl). destruct (pairKey u ip =s? ""); [done|]. by rewrite lookup_delete_ne.
Qed.

Lemma ip_step ip0 t0 op now F e :
  t0 ≤ now → now ≤ op_time now op → bounded (ipKey ip0) LoginIPLimit t0 now F e →
  bounded (ipKey ip0) LoginIPLimit t0 (op_time now op) (F + ip_adds (ipKey ip0) op (ref_step op e).1) (ref_step op e).2.
Proof.
  intros Ht Hle Hb. destruct op as [u ip t|u ip]; cbn [ref_step ip_adds op_time fst snd] in *.
  - apply (bounded_later _ _ _ _ t) in Hb; [|done].
    pose proof (ref_Allow_cases u ip t e) as Hc. destruct (ref_Allow u ip t e) as [[d ok] e']. cbn [fst snd admitted] in *.
    destruct Hc as [[-> ->]|(-> & _ & Hi & He')].
    + rewrite andb_false_r. by rewrite Z.add_0_r.
    + rewrite andb_true_r. destruct (String.eqb_spec (ipKey ip) (ipKey ip0)) as [E|Hne].
      * rewrite E in *. eapply bounded_count; [done|lia|exact Hi|exact Hb|]. rewrite He', decide_True; auto.
      * rewrite Z.add_0_r. unfold bounded in *. rewrite He', decide_False; [done|].
        intros [E|[E _]]; [congruence|]. by apply (pairKey_not_ipKey u ip ip0).
  - unfold ref_Success. fold take_back. change (λ w : window, _) with take_back.
    assert (∀ e1 : gmap string window, (if pairKey u ip =s? "" then e1 else delete (pairKey u ip) e1) !! ipKey ip0 = e1 !! ipKey ip0) as Hd.
    { intros e1. destruct (pairKey u ip =s? ""); [done|]. rewrite lookup_delete_ne; [done|]. apply pairKey_not_ipKey. }
    unfold bounded in *. destruct (String.eqb_spec (ipKey ip) (ipKey ip0)) as [E|Hne].
    + rewrite E, lookup_alter_eq, Hd. destruct (e !! ipKey ip0) as [w|]; simpl; [|lia].
      destruct Hb as (m & ? & ? & ? & ?). exists m. destruct (Z.ltb_spec 0 (w_count w)); lia.
    + rewrite lookup_alter_ne, Hd by done. by rewrite Z.add_0_r.
Qed.

(** C22: guessing is bounded, however many requests run in parallel and however
    they interleave: from a fresh limiter, over any sequence of attempts and
    successes at times that never go back, a (username, address) pair that
    never succeeds is admitted at most five times per quarter of an hour
    begun, and an address has at most twenty admitted attempts that did not
    succeed per quarter of an hour begun. *)
Theorem guessing_bounded t0 ops u ip :
  timed t0 ops → usernameRe u = true →
  let rs := (login_run ops NewLoginLimiter).1 in
  let periods := (last_time t0 ops - t0) / LoginWindow + 1 in
  ((∀ u' ip', OpSuccess u' ip' ∈ ops → pairKey u' ip' ≠ pairKey u ip) →
     tally (pair_adds (pairKey u ip)) ops rs ≤ LoginPairLimit * periods) ∧
  tally (ip_adds (ipKey ip)) ops rs ≤ LoginIPLimit * periods.
Proof.
  intros Ht Hu rs periods. assert (rs = (ref_run ops ∅).1) as ->.
  { apply (login_run_ref t0); [done|]. intros t k _. done. }
  assert (t0 ≤ last_time t0 ops) as Hlast.
  { clear - Ht. unfold last_time. revert t0 Ht. generalize 0 as z. intros _. induction ops as [|op ops IH]; intros t0 Ht; simpl; [done|].
    destruct op; simpl in *; [|by apply IH]. destruct Ht as [? Ht]. apply IH in Ht. lia. }
  split.
  - intros Hns. eapply bounded_end; [done|exact Hlast|].
    apply (bounded_run (pairKey u ip) LoginPairLimit t0 (pair_adds (pairKey u ip)) t0 0);
      [|done|done|unfold bounded; by rewrite lookup_empty].
    intros op now' F' e' Hin. apply pair_step.
    + unfold pairKey, ValidateUsername. by rewrite Hu.
    + apply pairKey_not_ipKey.
    + intros u' ip' ->. by apply Hns.
  - eapply bounded_end; [done|exact Hlast|].
    apply (bounded_run (ipKey ip) LoginIPLimit t0 (ip_adds (ipKey ip)) t0 0);
      [|done|done|unfold bounded; by rewrite lookup_empty].
    intros op now' F' e' Hin. apply ip_step.
Qed.

(** ** Waiting is enough *)

Lemma left_of_wait limit now t e k :
  now ≤ t → now + left_of limit now (live now e k) ≤ t → left_of limit t (live t e k) ≤ 0.
Proof.
  intros Hle Hw. destruct (live now e k) as [w|] eqn:Hl.
  - apply live_Some in Hl as [He Hlt]. unfold live, expired. rewrite He. simpl in Hw.
    destruct (Z.leb_spec (w_start w + LoginWindow) t); simpl; [lia|]. destruct (limit <=? w_count w); lia.
  - rewrite (live_later now t) by done. simpl. lia.
Qed.

(** a refused attempt counts for nothing, names a positive wait, and
    waiting is always enough: with nothing else in between, an attempt is
    admitted from the moment the Retry-After header's whole seconds have
    passed. *)
Theorem retry_after_enough u ip now l d l' :
  Allow u ip now l = ((d, false), l') →
  0 < d ∧ same_windows now (entries l') (entries l) ∧
  ∀ t, now + retry_seconds d * Second ≤ t → (Allow u ip t l').1 = (0, true).
Proof.
  intros Ha. destruct (Allow_ref u ip now l (entries l)) as [H1 H2]; [done|]. rewrite Ha in H1, H2. simpl in H1, H2.
  unfold ref_Allow in H1, H2. cbv zeta in H1, H2.
  set (r := Z.max _ _) in *. destruct (Z.ltb_spec 0 r) as [Hr|Hr]; simpl in H1, H2; [|done].
  injection H1 as ->. split; [done|]. split; [done|]. intros t Ht.
  pose proof (retry_seconds_enough r Hr) as Hs.
  destruct (Allow_ref u ip t l' (entries l)) as [-> _]; [apply (same_windows_later now); [lia|done]|].
  unfold ref_Allow. cbv zeta. destruct (Z.ltb_spec 0 (Z.max (if pairKey u ip =s? "" then 0 else
    left_of LoginPairLimit t (live t (entries l) (pairKey u ip))) (left_of LoginIPLimit t (live t (entries l) (ipKey ip)))))
    as [Hlt|_]; [exfalso|done].
  pose proof (left_of_wait LoginIPLimit now t (entries l) (ipKey ip)).
  pose proof (left_of_wait LoginPairLimit now t (entries l) (pairKey u ip)).
  unfold r in *. destruct (pairKey u ip =s? ""); lia.
Qed.

(** ** Witnesses *)

Definition ex_guesses (n : nat) : list LoginOp :=
  (fun i => OpAllow "admin" "203.0.113.9" (Z.of_nat i * Second)) <$> seq 1 n.

(** Seven guesses in seven seconds: five are admitted, then the window blocks. *)
Example ex_five_guesses :
  (login_run (ex_guesses 7) NewLoginLimiter).1 =
    [Some (0, true); Some (0, true); Some (0, true); Some (0, true); Some (0, true);
     Some (895 * Second, false); Some (894 * Second, false)].
Proof. vm_compute. done. Qed.

(** A success may take back another attempt: the address's window the attempt
    was counted in has ended, and the count goes off the next one. *)
Example ex_success_in_next_window :
  let ops := [OpAllow "alice" "203.0.113.9" Second; OpAllow "mallory" "203.0.113.9" (Second + LoginWindow);
              OpSuccess "alice" "203.0.113.9"] in
  w_count <$> entries (login_run ops NewLoginLimiter).2 !! ipKey "203.0.113.9" = Some 0.
Proof. vm_compute. done. Qed.

Lemma limiter_refines_reference_witness :
  timed 0 (ex_guesses 7) ∧
  (login_run (ex_guesses 7) NewLoginLimiter).1 = (ref_run (ex_guesses 7) ∅).1.
Proof.
  assert (timed 0 (ex_guesses 7)) as Ht by (vm_compute; repeat split; discriminate).
  split; [exact Ht|]. exact (limiter_refines_reference 0 (ex_guesses 7) NewLoginLimiter Ht).
Defined.

Lemma guessing_bounded_witness :
  timed 0 (ex_guesses 7) ∧
  tally (pair_adds (pairKey "admin" "203.0.113.9")) (ex_guesses 7) (login_run (ex_guesses 7) NewLoginLimiter).1 ≤ 5.
Proof.
  assert (timed 0 (ex_guesses 7)) as Ht by (vm_compute; repeat split; discriminate).
  split; [exact Ht|].
  refine (proj1 (guessing_bounded 0 (ex_guesses 7) "admin" "203.0.113.9" Ht eq_refl) _).
  intros u' ip' Hin. exfalso. unfold ex_guesses in Hin. apply list_elem_of_fmap in Hin as (i & E & _). discriminate.
Defined.

Lemma retry_after_enough_witness :
  let l := (login_run (ex_guesses 5) NewLoginLimiter).2 in
  (Allow "admin" "203.0.113.9" (6 * Second) l).1 = (895 * Second, false) ∧
  (Allow "admin" "203.0.113.9" (901 * Second) (Allow "admin" "203.0.113.9" (6 * Second) l).2).1 = (0, true).
Proof.
  cbv zeta. set (l := (login_run (ex_guesses 5) NewLoginLimiter).2).
  assert ((Allow "admin" "203.0.113.9" (6 * Second) l).1 = (895 * Second, false)) as H by (vm_compute; reflexivity).
  split; [exact H|].
  destruct (retry_after_enough "admin" "203.0.113.9" (6 * Second) l (895 * Second)
    (Allow "admin" "203.0.113.9" (6 * Second) l).2) as (_ & _ & Hw).
  - rewrite <- H. apply surjective_pairing.
  - apply Hw. vm_compute. discriminate.
Defined.
