(* ===== verification/Base64.v ===== *)
(** * encoding/base64: RawURLEncoding and StdEncoding

    The unpadded URL alphabet, for tokens and cursors, and the padded standard
    one, for the stored signing key; decoding what was encoded gives it back. *)
From S2P Require Import Prelude GoStd.
Local Open Scope Z_scope.

Definition url_alphabet : bytes := to_bytes "ABCDEFGHIJKLMNOPQRSTUVWXYZabcdefghijklmnopqrstuvwxyz0123456789-_".
Definition std_alphabet : bytes := to_bytes "ABCDEFGHIJKLMNOPQRSTUVWXYZabcdefghijklmnopqrstuvwxyz0123456789+/".

Definition byte_Z (c : ascii) : Z := Z.of_nat (Ascii.nat_of_ascii c).
Definition Z_byte (z : Z) : ascii := byte_of (Z.to_nat z).

Definition quantum (w x y z : Z) : bytes :=
  [Z_byte (w * 4 + x / 16); Z_byte (x mod 16 * 16 + y / 4); Z_byte (y mod 4 * 64 + z)].

(** Newlines are skipped wherever they are. *)
Definition skip_newlines (l : bytes) : bytes :=
  List.filter (fun c => negb (Ascii.eqb c (byte_of 10)) && negb (Ascii.eqb c (byte_of 13))) l.

Section Codec.
Context (alphabet : bytes).

Definition enc6 (n : Z) : ascii := nth (Z.to_nat n) alphabet "A"%char.

Definition dec6 (c : ascii) : option Z :=
  Z.of_nat <$> (fst <$> list_find (fun d => c = d) alphabet).

(** [pad] characters fill the last quantum. *)
Fixpoint encode_bytes (pad : bytes) (l : bytes) : bytes :=
  match l with
  | a :: b :: c :: l' =>
      enc6 (byte_Z a / 4) :: enc6 (byte_Z a mod 4 * 16 + byte_Z b / 16) ::
      enc6 (byte_Z b mod 16 * 4 + byte_Z c / 64) :: enc6 (byte_Z c mod 64) :: encode_bytes pad l'
  | [a; b] =>
      [enc6 (byte_Z a / 4); enc6 (byte_Z a mod 4 * 16 + byte_Z b / 16); enc6 (byte_Z b mod 16 * 4)] ++ pad
  | [a] => [enc6 (byte_Z a / 4); enc6 (byte_Z a mod 4 * 16)] ++ pad ++ pad
  | [] => []
  end.

Definition dec2 (a b : ascii) : option bytes :=
  match dec6 a, dec6 b with
  | Some w, Some x => Some (take 1 (quantum w x 0 0))
  | _, _ => None
  end.

Definition dec3 (a b c : ascii) : option bytes :=
  match dec6 a, dec6 b, dec6 c with
  | Some w, Some x, Some y => Some (take 2 (quantum w x y 0))
  | _, _, _ => None
  end.

Definition dec4 (a b c d : ascii) : option bytes :=
  match dec6 a, dec6 b, dec6 c, dec6 d with
  | Some w, Some x, Some y, Some z => Some (quantum w x y z)
  | _, _, _, _ => None
  end.

(** Four characters at a time; what is left of the last bits is ignored. *)
Fixpoint decode_raw (l : bytes) : option bytes :=
  match l with
  | a :: b :: c :: d :: l' =>
      match dec4 a b c d, decode_raw l' with
      | Some q, Some r => Some (q ++ r)
      | _, _ => None
      end
  | [a; b; c] => dec3 a b c
  | [a; b] => dec2 a b
  | [_] => None
  | [] => Some []
  end.

(** With padding: the last four characters may end in one or two [=]. *)
Fixpoint decode_padded (l : bytes) : option bytes :=
  match l with
  | [] => Some []
  | a :: b :: c :: d :: l' =>
      match l' with
      | [] =>
          if Ascii.eqb d "=" then if Ascii.eqb c "=" then dec2 a b else dec3 a b c
          else dec4 a b c d
      | _ =>
          match dec4 a b c d, decode_padded l' with
          | Some q, Some r => Some (q ++ r)
          | _, _ => None
          end
      end
  | _ => None
  end.
End Codec.

(** base64.RawURLEncoding *)
Definition EncodeToString (l : bytes) : string := of_bytes (encode_bytes url_alphabet [] l).
Definition DecodeString (s : string) : option bytes := decode_raw url_alphabet (skip_newlines (to_bytes s)).

(** base64.StdEncoding *)
Definition Std_EncodeToString (l : bytes) : string := of_bytes (encode_bytes std_alphabet ["="%char] l).
Definition Std_DecodeString (s : string) : option bytes := decode_padded std_alphabet (skip_newlines (to_bytes s)).

Example ex_base64 :
  EncodeToString (to_bytes "jo-ei?>") = "am8tZWk_Pg" ∧ Std_EncodeToString (to_bytes "jo-ei?>") = "am8tZWk/Pg==" ∧
  Std_DecodeString "am8t ZWk/Pg==" = None ∧ Std_DecodeString "am8=ZWk/" = None.
Proof. vm_compute. done. Qed.

(** * Properties *)

(** The digits are read back and none is a separator. *)
Class Alphabet (al : bytes) := {
  dec6_enc6 n : 0 ≤ n < 64 → dec6 al (enc6 al n) = Some n;
  enc6_plain n : 0 ≤ n < 64 → enc6 al n ∉ [byte_of 10; byte_of 13; "."%char; "="%char];
}.

Lemma below_64 (P : Z → Prop) `{dec : !∀ n, Decision (P n)} :
  forallb (λ n, bool_decide (P (Z.of_nat n))) (seq 0 64) = true → ∀ n, 0 ≤ n < 64 → P n.
Proof.
  intros H n Hn. rewrite forallb_elem in H. specialize (H (Z.to_nat n)). rewrite bool_decide_eq_true, Z2Nat.id in H by lia.
  apply H. apply elem_of_seq. lia.
Qed.

#[export] Instance url_Alphabet : Alphabet url_alphabet.
Proof. split; apply (below_64 (λ n, _)); vm_compute; done. Qed.

#[export] Instance std_Alphabet : Alphabet std_alphabet.
Proof. split; apply (below_64 (λ n, _)); vm_compute; done. Qed.

Lemma byte_Z_range c : 0 ≤ byte_Z c < 256.
Proof. unfold byte_Z. pose proof (Ascii.nat_ascii_bounded c). lia. Qed.

Lemma Z_byte_byte_Z c : Z_byte (byte_Z c) = c.
Proof. unfold Z_byte, byte_Z, byte_of. by rewrite Nat2Z.id, Ascii.ascii_nat_embedding. Qed.

(** Lists three bytes at a time. *)
Lemma bytes_ind3 (P : bytes → Prop) :
  P [] → (∀ a, P [a]) → (∀ a b, P [a; b]) → (∀ a b c l, P l → P (a :: b :: c :: l)) → ∀ l, P l.
Proof.
  intros H0 H1 H2 H3. fix IH 1. intros [|a [|b [|c l]]]; [exact H0|apply H1|apply H2|apply H3, IH].
Qed.

Ltac sextet := match goal with |- context [dec6 ?al (enc6 ?al ?n)] =>
  rewrite (dec6_enc6 n) by (Z.to_euclidean_division_equations; lia) end.

Ltac octets := match goal with |- Z_byte ?z = ?c =>
  replace z with (byte_Z c) by (Z.to_euclidean_division_equations; lia); apply Z_byte_byte_Z end.

Section Props.
Context (al : bytes) `{!Alphabet al}.

Lemma dec4_enc a b c :
  dec4 al (enc6 al (byte_Z a / 4)) (enc6 al (byte_Z a mod 4 * 16 + byte_Z b / 16))
    (enc6 al (byte_Z b mod 16 * 4 + byte_Z c / 64)) (enc6 al (byte_Z c mod 64)) = Some [a; b; c].
Proof.
  pose proof (byte_Z_range a). pose proof (byte_Z_range b). pose proof (byte_Z_range c).
  unfold dec4. repeat sextet. unfold quantum. repeat f_equal.
  all: octets.
Qed.

Lemma dec3_enc a b :
  dec3 al (enc6 al (byte_Z a / 4)) (enc6 al (byte_Z a mod 4 * 16 + byte_Z b / 16)) (enc6 al (byte_Z b mod 16 * 4)) =
    Some [a; b].
Proof.
  pose proof (byte_Z_range a). pose proof (byte_Z_range b). unfold dec3. repeat sextet. unfold quantum. simpl. repeat f_equal.
  all: octets.
Qed.

Lemma dec2_enc a : dec2 al (enc6 al (byte_Z a / 4)) (enc6 al (byte_Z a mod 4 * 16)) = Some [a].
Proof.
  pose proof (byte_Z_range a). unfold dec2. repeat sextet. unfold quantum. simpl. repeat f_equal. octets.
Qed.

Lemma decode_raw_encode l : decode_raw al (encode_bytes al [] l) = Some l.
Proof.
  induction l as [|a|a b|a b c l IH] using bytes_ind3; cbn [encode_bytes decode_raw app];
    [done|apply dec2_enc|apply dec3_enc|by rewrite dec4_enc, IH].
Qed.

(** The characters of an encoding. *)
Lemma encode_plain pad l c : c ∈ encode_bytes al pad l → c ∈ pad ∨ c ∉ [byte_of 10; byte_of 13; "."%char; "="%char].
Proof.
  induction l as [|a|a b|a b d l IH] using bytes_ind3; cbn [encode_bytes]; [by intros ?%elem_of_nil|..];
    try pose proof (byte_Z_range a); try pose proof (byte_Z_range b); try pose proof (byte_Z_range d);
    repeat (simpl; rewrite elem_of_cons; intros [->|Hin];
      [right; apply enc6_plain; Z.to_euclidean_division_equations; lia|revert Hin]); [set_solver..|exact IH].
Qed.

Lemma decode_padded_cons a b c d l :
  l ≠ [] → decode_padded al (a :: b :: c :: d :: l) =
    match dec4 al a b c d, decode_padded al l with Some q, Some r => Some (q ++ r) | _, _ => None end.
Proof. by destruct l. Qed.

Lemma decode_padded_encode l : decode_padded al (encode_bytes al ["="%char] l) = Some l.
Proof.
  assert (∀ n, 0 ≤ n < 64 → Ascii.eqb (enc6 al n) "=" = false) as Hne.
  { intros n Hn%enc6_plain. apply Ascii.eqb_neq. set_solver. }
  induction l as [|a|a b|a b c l IH] using bytes_ind3.
  - done.
  - cbn [encode_bytes app decode_padded]. rewrite Ascii.eqb_refl. apply dec2_enc.
  - cbn [encode_bytes app decode_padded]. rewrite Ascii.eqb_refl.
    rewrite Hne by (pose proof (byte_Z_range b); Z.to_euclidean_division_equations; lia). apply dec3_enc.
  - cbn [encode_bytes]. destruct (encode_bytes al _ l) as [|x xs] eqn:E.
    + assert (l = []) as -> by by destruct l as [|? [|? [|? ?]]]. cbn [decode_padded].
      rewrite Hne by (pose proof (byte_Z_range c); Z.to_euclidean_division_equations; lia). apply dec4_enc.
    + rewrite decode_padded_cons by done. by rewrite dec4_enc, IH.
Qed.

Lemma skip_newlines_encode pad l :
  pad ⊆ ["="%char] → skip_newlines (encode_bytes al pad l) = encode_bytes al pad l.
Proof.
  intros Hp. unfold skip_newlines. pose proof (encode_plain pad l) as H. induction (encode_bytes al pad l) as [|c cs IH]; [done|].
  simpl. assert (c ≠ byte_of 10 ∧ c ≠ byte_of 13) as [H1 H2].
  { destruct (H c) as [Hc|Hc]; [by left| |set_solver]. apply Hp, list_elem_of_singleton in Hc as ->. done. }
  apply Ascii.eqb_neq in H1, H2. rewrite H1, H2. simpl. f_equal. apply IH. intros x ?. apply H. by right.
Qed.
End Props.

Lemma DecodeString_EncodeToString l : DecodeString (EncodeToString l) = Some l.
Proof.
  unfold DecodeString, EncodeToString. rewrite to_of_bytes, (skip_newlines_encode url_alphabet) by (intros ? ?%elem_of_nil; done).
  apply decode_raw_encode, _.
Qed.

Lemma Std_DecodeString_EncodeToString l : Std_DecodeString (Std_EncodeToString l) = Some l.
Proof.
  unfold Std_DecodeString, Std_EncodeToString. rewrite to_of_bytes, (skip_newlines_encode std_alphabet) by done.
  apply decode_padded_encode, _.
Qed.

Lemma EncodeToString_no_dot l : "."%char ∉ to_bytes (EncodeToString l).
Proof. unfold EncodeToString. rewrite to_of_bytes. intros Hin%encode_plain; [|apply _]. set_solver. Qed.

Lemma enc6_in al n : enc6 al n ∈ "A"%char :: al.
Proof.
  unfold enc6. destruct (nth_in_or_default (Z.to_nat n) al "A"%char) as [H| ->]; [right; by apply list_elem_of_In|left].
Qed.

Lemma encode_chars al pad l : Forall (λ c, c ∈ pad ∨ c ∈ "A"%char :: al) (encode_bytes al pad l).
Proof.
  assert (∀ p, Forall (λ c, c ∈ pad ∨ c ∈ "A"%char :: al) p → Forall (λ c, c ∈ pad ∨ c ∈ "A"%char :: al) (p ++ pad)) as Hp.
  { intros p Hp. apply Forall_app. split; [done|]. apply Forall_forall. auto. }
  induction l as [|a|a b|a b c l IH] using bytes_ind3; cbn [encode_bytes]; [constructor|..].
  - rewrite app_assoc. apply (Hp (_ ++ pad)), (Hp [_; _]). do 2 (apply Forall_cons; split; [right; apply enc6_in|]). apply Forall_nil_2.
  - apply (Hp [_; _; _]). do 3 (apply Forall_cons; split; [right; apply enc6_in|]). apply Forall_nil_2.
  - do 4 (apply Forall_cons; split; [right; apply enc6_in|]). exact IH.
Qed.

Lemma Std_valid l : ValidString (Std_EncodeToString l) = true.
Proof.
  apply ascii_ValidString. unfold Std_EncodeToString. rewrite to_of_bytes. apply forallb_forall. intros c Hc%list_elem_of_In.
  assert (Forall (λ c, is_ascii c = true) ("=" :: "A" :: std_alphabet)%char) as Ha by (repeat constructor).
  rewrite Forall_forall in Ha. apply Ha. pose proof (encode_chars std_alphabet ["="%char] l) as H. rewrite Forall_forall in H.
  destruct (H c Hc) as [->%list_elem_of_singleton|H']; [by left|by right].
Qed.
