(* ===== verification/Token.v ===== *)
(** * Package auth: signed tokens (token.go)

    HMAC-SHA256 and the JSON form of the claims are parameters. *)
From S2P Require Import Prelude GoStd Base64.
Local Open Scope Z_scope.

(** ** token.go *)

Definition TypeAccess : string := "access".
Definition TypeRefresh : string := "refresh".
Definition MinSecretLen : nat := 32.

Inductive TokenError :=
| ErrMalformedToken
| ErrBadSignature
| ErrExpiredToken
| ErrWrongTokenType.

Record Claims := mkClaims {
  c_Sub : string;
  c_Ver : Z;
  c_Typ : string;
  c_IAT : Z;
  c_Exp : Z;
  c_JTI : string;
}.

Definition algHS256 : string := "HS256".

(** encoding/json on the two parts of a token. *)
Class TokenJSON := {
  marshal_header : bytes;
  unmarshal_alg : bytes -> option string;
  marshal_claims : Claims -> bytes;
  unmarshal_claims : bytes -> option Claims;
}.

(** What the signer relies on: reading back what it wrote, where the strings
    are UTF-8 text. *)
Class TokenJSONLaws `{TokenJSON} := {
  header_read : unmarshal_alg marshal_header = Some algHS256;
  claims_read c : ValidString (c_Sub c) = true → ValidString (c_Typ c) = true → ValidString (c_JTI c) = true →
    unmarshal_claims (marshal_claims c) = Some c;
}.

Definition Signer : Type := bytes.

Definition NewSigner (secret : bytes) : option Signer :=
  if (length secret <? MinSecretLen)%nat then None else Some secret.

Section Token.
Context `{TJ : TokenJSON}.
(** hmac.New(sha256.New, secret) over a message. *)
Context (hmac_sha256 : bytes -> bytes -> bytes).

Definition sign (s : Signer) (signingInput : string) : bytes := hmac_sha256 s (to_bytes signingInput).

(** [rand] is the sixteen random bytes, [None] when there are none. *)
Definition Issue (s : Signer) (username : string) (ver : Z) (typ : string) (ttl now : Z) (rand : option bytes)
    : option string :=
  match rand with
  | None => None
  | Some raw =>
      let payload := marshal_claims (mkClaims username ver typ (time_unix now) (time_unix (now + ttl))
                       (hex_EncodeToString raw)) in
      let signing := EncodeToString marshal_header +:+ "." +:+ EncodeToString payload in
      Some (signing +:+ "." +:+ EncodeToString (sign s signing))
  end.

Definition check_claims (now : Z) (wantType : string) (c : Claims) : result TokenError Claims :=
  if c_Sub c =s? "" then Err ErrMalformedToken
  else if negb (c_Typ c =s? wantType) then Err ErrWrongTokenType
  else if c_Exp c <=? time_unix now then Err ErrExpiredToken
  else Ok c.

Definition Verify (s : Signer) (now : Z) (token wantType : string) : result TokenError Claims :=
  match Split token "."%char with
  | [header; payload; signature] =>
      match DecodeString signature with
      | None => Err ErrMalformedToken
      | Some sig =>
          if negb (bool_decide (sig = sign s (header +:+ "." +:+ payload))) then Err ErrBadSignature
          else
            match DecodeString header with
            | None => Err ErrMalformedToken
            | Some rawHeader =>
                match unmarshal_alg rawHeader with
                | None => Err ErrMalformedToken
                | Some alg =>
                    if negb (alg =s? algHS256) then Err ErrBadSignature
                    else
                      match DecodeString payload ≫= unmarshal_claims with
                      | None => Err ErrMalformedToken
                      | Some c => check_claims now wantType c
                      end
                end
            end
      end
  | _ => Err ErrMalformedToken
  end.
End Token.

(** * Properties *)

(** ** Splitting at the dots *)

Lemma split_bytes_join sep l x xs :
  split_bytes sep l = x :: xs → l = x ++ mjoin ((λ y, sep :: y) <$> xs).
Proof.
  revert x xs. induction l as [|c l IH]; intros x xs; simpl; [by intros [= <- <-]|].
  destruct (Ascii.eqb_spec c sep) as [->|_].
  - intros [= <- <-]. destruct (split_bytes sep l) as [|y ys] eqn:E; [by apply split_bytes_nonempty in E|].
    simpl. f_equal. by apply IH.
  - destruct (split_bytes sep l) as [|y ys] eqn:E; [by apply split_bytes_nonempty in E|].
    intros [= <- <-]. simpl. f_equal. by apply IH.
Qed.

Lemma Split_three s a b c : Split s "."%char = [a; b; c] → s = a +:+ "." +:+ b +:+ "." +:+ c.
Proof.
  unfold Split. intros E. destruct (split_bytes "." (to_bytes s)) as [|x [|y [|z [|]]]] eqn:H; simplify_eq/=.
  apply split_bytes_join in H. apply to_bytes_inj. rewrite H, !to_bytes_app, !to_of_bytes. simpl. by rewrite app_nil_r.
Qed.

Lemma Split_dots a b c :
  "."%char ∉ to_bytes a → "."%char ∉ to_bytes b → "."%char ∉ to_bytes c →
  Split ((a +:+ "." +:+ b) +:+ "." +:+ c) "."%char = [a; b; c].
Proof.
  intros Ha Hb Hc. unfold Split. rewrite !to_bytes_app. simpl. rewrite <- app_assoc. simpl.
  rewrite !split_bytes_app by done. rewrite split_bytes_no_sep by done. simpl. by rewrite !of_to_bytes.
Qed.

(** ** Tokens *)

Section TokenSpec.
Context `{TL : TokenJSONLaws}.
Context (hmac_sha256 : bytes -> bytes -> bytes).

Lemma Verify_Issue s username ver typ ttl now rand tok later want :
  Issue hmac_sha256 s username ver typ ttl now rand = Some tok → ValidString username = true → ValidString typ = true →
  ∃ raw, rand = Some raw ∧ Verify hmac_sha256 s later tok want =
    check_claims later want (mkClaims username ver typ (time_unix now) (time_unix (now + ttl)) (hex_EncodeToString raw)).
Proof.
  unfold Issue. destruct rand as [raw|]; [|done]. intros [= <-] Hu Ht. exists raw. split; [done|].
  unfold Verify. rewrite Split_dots by apply EncodeToString_no_dot.
  rewrite DecodeString_EncodeToString, bool_decide_eq_true_2 by done. simpl.
  by rewrite !DecodeString_EncodeToString, header_read, String.eqb_refl; simpl; rewrite claims_read by (simpl; auto using hex_valid).
Qed.

(** C26: a token signed for an account reads back: with the same secret it
    verifies, as the type it was issued as and for that type only, from the
    second it was issued until its lifetime is over, to the account, the
    version and the times it was issued with. *)
Theorem token_round_trip s username ver typ ttl now rand tok later :
  Issue hmac_sha256 s username ver typ ttl now rand = Some tok →
  username ≠ "" → ValidString username = true → typ ∈ [TypeAccess; TypeRefresh] →
  (Verify hmac_sha256 s later tok typ =
     if time_unix (now + ttl) <=? time_unix later then Err ErrExpiredToken
     else Ok (mkClaims username ver typ (time_unix now) (time_unix (now + ttl)) (hex_EncodeToString (default [] rand)))) ∧
  ∀ want, want ≠ typ → Verify hmac_sha256 s later tok want = Err ErrWrongTokenType.
Proof.
  intros Ht Hu Hv Htyp. apply String.eqb_neq in Hu. assert (ValidString typ = true) as Htv by (by set_unfold; destruct Htyp as [->|[->|[]]]).
  split.
  - destruct (Verify_Issue _ _ _ _ _ _ _ _ later typ Ht Hv Htv) as (jti & -> & ->).
    unfold check_claims. cbn [c_Sub c_Typ c_Exp]. by rewrite Hu, String.eqb_refl.
  - intros want Hw. destruct (Verify_Issue _ _ _ _ _ _ _ _ later want Ht Hv Htv) as (jti & -> & ->).
    unfold check_claims. cbn [c_Sub c_Typ c_Exp]. rewrite Hu. by destruct (String.eqb_spec typ want).
Qed.

Lemma check_claims_Ok now want c c' :
  check_claims now want c = Ok c' → c' = c ∧ c_Sub c ≠ "" ∧ c_Typ c = want ∧ time_unix now < c_Exp c.
Proof.
  unfold check_claims. destruct (String.eqb_spec (c_Sub c) ""); [done|].
  destruct (String.eqb_spec (c_Typ c) want); simpl; [|done].
  destruct (Z.leb_spec (c_Exp c) (time_unix now)); [done|]. intros [= <-]. auto.
Qed.

(** C27: nothing unsigned is believed: a token is accepted only if its third
    part decodes to the secret's MAC of exactly its first two parts, its
    header names HS256 and no other algorithm - so neither "none" nor a
    confusion of algorithms gets by - and the claims it carries name an
    account, the wanted type and a time still to come. *)
Theorem Verify_sound s now tok want c :
  Verify hmac_sha256 s now tok want = Ok c →
  ∃ header payload signature h p, tok = header +:+ "." +:+ payload +:+ "." +:+ signature ∧
    DecodeString signature = Some (hmac_sha256 s (to_bytes (header +:+ "." +:+ payload))) ∧
    DecodeString header = Some h ∧ unmarshal_alg h = Some "HS256" ∧
    DecodeString payload = Some p ∧ unmarshal_claims p = Some c ∧
    c_Sub c ≠ "" ∧ c_Typ c = want ∧ time_unix now < c_Exp c.
Proof.
  unfold Verify. destruct (Split tok "."%char) as [|a [|b [|sg [|]]]] eqn:Hs; try done.
  destruct (DecodeString sg) as [sig|] eqn:Hsig; [|done]. case_bool_decide as Hmac; [|done]. simpl.
  destruct (DecodeString a) as [h|] eqn:Hh; [|done]. destruct (unmarshal_alg h) as [alg|] eqn:Halg; [|done].
  destruct (String.eqb_spec alg algHS256) as [->|]; simpl; [|done].
  destruct (DecodeString b) as [p|] eqn:Hp; simpl; [|done]. destruct (unmarshal_claims p) as [c'|] eqn:Hc; [|done].
  intros (-> & ? & ? & ?)%check_claims_Ok. exists a, b, sg, h, p. split; [by apply Split_three|].
  by rewrite Hsig, Hmac.
Qed.
End TokenSpec.

(** ** Witnesses: claims as a string of bits *)

Fixpoint bits (p : positive) : bytes :=
  match p with
  | xH => []
  | xO p => "0"%char :: bits p
  | xI p => "1"%char :: bits p
  end.

Fixpoint unbits (l : bytes) : positive :=
  match l with
  | [] => xH
  | c :: l => if Ascii.eqb c "0" then xO (unbits l) else xI (unbits l)
  end.

Lemma unbits_bits p : unbits (bits p) = p.
Proof. induction p; simpl; congruence. Qed.

Definition claims_tuple (c : Claims) : string * Z * string * Z * Z * string :=
  (c_Sub c, c_Ver c, c_Typ c, c_IAT c, c_Exp c, c_JTI c).

#[local] Instance ex_json : TokenJSON := {|
  marshal_header := to_bytes "{HS256}";
  unmarshal_alg h := if bool_decide (h = to_bytes "{HS256}") then Some "HS256" else None;
  marshal_claims c := bits (encode (claims_tuple c));
  unmarshal_claims b :=
    (fun t : string * Z * string * Z * Z * string =>
       let '(sub, ver, typ, iat, exp, jti) := t in mkClaims sub ver typ iat exp jti) <$> decode (unbits b);
|}.

#[local] Instance ex_json_laws : TokenJSONLaws.
Proof.
  split; [done|]. intros [] _ _ _. unfold unmarshal_claims, marshal_claims, ex_json, claims_tuple.
  rewrite unbits_bits, decode_encode. done.
Qed.

Definition ex_mac (key msg : bytes) : bytes := take 8 (rev msg) ++ take 4 key.
Definition ex_secret : bytes := to_bytes "0123456789abcdef0123456789abcdef".

Definition ex_token : string :=
  default "" (Issue ex_mac ex_secret "Root" 100 TypeAccess Hour (1000 * Hour) (Some (to_bytes "0a1b0a1b0a1b0a1b"))).

Lemma ex_token_issued : Issue ex_mac ex_secret "Root" 100 TypeAccess Hour (1000 * Hour) (Some (to_bytes "0a1b0a1b0a1b0a1b")) = Some ex_token.
Proof. reflexivity. Qed.

Lemma token_round_trip_witness :
  Issue ex_mac ex_secret "Root" 100 TypeAccess Hour (1000 * Hour) (Some (to_bytes "0a1b0a1b0a1b0a1b")) = Some ex_token ∧
  (∃ c, Verify ex_mac ex_secret (1000 * Hour + Second) ex_token TypeAccess = Ok c ∧ c_Sub c = "Root") ∧
  Verify ex_mac ex_secret (1000 * Hour + Second) ex_token TypeRefresh = Err ErrWrongTokenType.
Proof.
  split; [exact ex_token_issued|].
  assert ("Root" ≠ "") as Hn by discriminate.
  destruct (token_round_trip ex_mac _ _ _ _ _ _ _ _ (1000 * Hour + Second) ex_token_issued Hn) as [H1 H2];
    [reflexivity|left|].
  split; [|apply H2; discriminate]. eexists. split; [rewrite H1; reflexivity|reflexivity].
Defined.

Lemma Verify_sound_witness :
  ∃ c, Verify ex_mac ex_secret (1000 * Hour + Second) ex_token TypeAccess = Ok c ∧ c_Typ c = TypeAccess.
Proof.
  assert (∃ c, Verify ex_mac ex_secret (1000 * Hour + Second) ex_token TypeAccess = Ok c) as [c Hc]
    by (eexists; vm_compute; reflexivity).
  exists c. split; [exact Hc|].
  destruct (Verify_sound ex_mac _ _ _ _ _ Hc) as (? & ? & ? & ? & ? & _ & _ & _ & _ & _ & _ & _ & H & _). exact H.
Defined.
