(* ===== verification/Session.v ===== *)
(** * Package auth: sessions and the session endpoints (session.go, handlers.go)

    The user store is an interface, implemented by Users.v's table.  What a
    request does besides is in the trace: clock readings, password checks, the
    cookies set, the gated handler's run and the response. *)
From S2P Require Import Prelude GoStd Upstream HTTP ClientIP Users Login Token.
Local Open Scope Z_scope.

Definition AccessCookie : string := "joei_at".
Definition RefreshCookie : string := "joei_rt".
Definition RefreshCookiePath : string := "/api/auth".

Definition StatusUnauthorized : Z := 401.
Definition StatusTooManyRequests : Z := 429.

(** What sessions need of a user store. *)
Class UserStore (S : Type) := {
  us_Get : string -> St S (result UserError User);
  us_HasEnabledUsers : St S (result UserError bool);
  us_TouchLogin : string -> Z -> St S (option UserError);
  us_SetPassword : string -> string -> bool -> St S (option UserError);
}.

#[export] Instance Store_UserStore : UserStore Store := {|
  us_Get := Get;
  us_HasEnabledUsers := HasEnabledUsers;
  us_TouchLogin := TouchLogin;
  us_SetPassword := SetPassword;
|}.

Record Identity := mkIdentity {
  id_Username : string;
  id_Role : Role;
  id_MustChangePassword : bool;
}.

Definition identityOf (u : User) : Identity := mkIdentity (Username u) (u_Role u) (MustChangePassword u).

(** A Set-Cookie: HttpOnly and SameSite=Strict always. *)
Record SetCookie := mkCookie {
  ck_Name : string;
  ck_Path : string;
  ck_Value : string;
  ck_MaxAge : Z;
  ck_Secure : bool;
}.

Inductive AuthCall :=
| ANow (t : Z)
| ARand (raw : option bytes)
| ACheckPassword (hash password : string)
| AHashPassword (hash : option string)
| ASetCookie (c : SetCookie)
| AServe (id : Identity)
| ARespond (rs : Response).

(** What the clock, the random source and bcrypt answer. *)
Record AuthEnv := mkAuthEnv {
  ae_Now : list AuthCall -> Z;
  ae_Rand : list AuthCall -> option bytes;
  ae_HashPassword : list AuthCall -> string -> option string;
  ae_CheckPassword : string -> string -> bool;
}.

Record AuthWorld (S : Type) := mkAuth {
  aw_store : S;
  aw_limiter : LoginLimiter;
  aw_trace : list AuthCall;
  aw_header : Header;
}.
Arguments mkAuth {S}.
Arguments aw_store {S}.
Arguments aw_limiter {S}.
Arguments aw_trace {S}.
Arguments aw_header {S}.

Record Sessions := mkSessions {
  ss_signer : Signer;
  accessTTL : Z;
  refreshTTL : Z;
}.

(** The default client address. *)
Definition remoteHost (r : Request) : string :=
  match SplitHostPort (rq_RemoteAddr r) with
  | Some (host, _) => host
  | None => rq_RemoteAddr r
  end.

Definition isMutating (method : string) : bool :=
  (method =s? "POST") || (method =s? "PUT") || (method =s? "PATCH") || (method =s? "DELETE").

Definition isTLS (r : Request) : bool :=
  rq_TLS r || EqualFold_ascii (Header_Get (rq_Header r) "X-Forwarded-Proto") "https".

Definition maxLoginBody : nat := 4096.

Section Session.
Context {S : Type} `{US : UserStore S} `{TJ : TokenJSON}.
Context (hmac_sha256 : bytes -> bytes -> bytes).
Context (url_Parse : string -> option url).
(** r.Cookie: the value of the first cookie of that name. *)
Context (Cookie : Request -> string -> option string).
Context (clientIP : Request -> string).
(** encoding/json on the first bytes of a body, [true] when reading it ends in
    an error: the user name and password, the current and new password. *)
Context (decode_login decode_password : bytes -> bool -> option (string * string)).
Context (dummyHash : string).
Context (env : AuthEnv) (s : Sessions).

Local Notation M := (St (AuthWorld S)).

(** ** Primitive steps *)

Definition alog (c : AuthCall) : M unit := fun w =>
  (tt, mkAuth (aw_store w) (aw_limiter w) (aw_trace w ++ [c]) (aw_header w)).

Definition aask {A} (q : list AuthCall -> A) (mk : A -> AuthCall) : M A := fun w =>
  let a := q (aw_trace w) in (a, mkAuth (aw_store w) (aw_limiter w) (aw_trace w ++ [mk a]) (aw_header w)).

Definition on_store {A} (m : St S A) : M A := fun w =>
  let '(a, st) := m (aw_store w) in (a, mkAuth st (aw_limiter w) (aw_trace w) (aw_header w)).

Definition on_limiter {A} (m : St LoginLimiter A) : M A := fun w =>
  let '(a, l) := m (aw_limiter w) in (a, mkAuth (aw_store w) l (aw_trace w) (aw_header w)).

Definition aheader (k v : string) : M unit := fun w =>
  (tt, mkAuth (aw_store w) (aw_limiter w) (aw_trace w) (Header_Set k v (aw_header w))).

Definition arespond (status : Z) (b : Body) : M unit := fun w =>
  alog (ARespond (mkResp status (aw_header w) b)) w.

Definition anow : M Z := aask (ae_Now env) ANow.

Definition CheckPassword (hash password : string) : M bool :=
  aask (fun _ => ae_CheckPassword env hash password) (fun _ => ACheckPassword hash password).

Definition json_response (status : Z) (fields : list (string * JSON)) : M unit :=
  _ <- aheader "Content-Type" "application/json";;
  arespond status (BJSON fields).

Definition json_error (status : Z) (code : string) : M unit := json_response status [("error", JString code)].

(** ** session.go *)

Definition Locked : M bool :=
  r <- on_store us_HasEnabledUsers;;
  ret_st (match r with Ok b => negb b | Err _ => true end).

Definition userForToken (token wantType : string) : M (option User) :=
  now <- anow;;
  match Verify hmac_sha256 (ss_signer s) now token wantType with
  | Err _ => ret_st None
  | Ok claims =>
      u <- on_store (us_Get (c_Sub claims));;
      ret_st (match u with
              | Err _ => None
              | Ok u => if Disabled u || negb (c_Ver claims =? TokenVersion u) then None else Some u
              end)
  end.

(** The access token presented, and whether it came in a header. *)
Definition accessCredential (r : Request) : option string * bool :=
  let h := Header_Get (rq_Header r) "Authorization" in
  if negb (h =s? "") then
    let '(scheme, rest, hasSpace) := Cut h " "%char in
    if negb (EqualFold scheme "Bearer") || negb hasSpace then (None, true)
    else
      let v := TrimSpace rest in
      ((if v =s? "" then None else Some v), true)
  else
    match Cookie r AccessCookie with
    | Some v => ((if v =s? "" then None else Some v), false)
    | None => (None, false)
    end.

Definition authenticate (r : Request) : M (option User * bool) :=
  let '(token, bearer) := accessCredential r in
  match token with
  | None => ret_st (None, bearer)
  | Some token => u <- userForToken token TypeAccess;; ret_st (u, bearer)
  end.

Definition sameOrigin (r : Request) : bool :=
  let site := Header_Get (rq_Header r) "Sec-Fetch-Site" in
  if (site =s? "same-origin") || (site =s? "none") then true
  else if (site =s? "cross-site") || (site =s? "same-site") then false
  else
    let origin := Header_Get (rq_Header r) "Origin" in
    if origin =s? "" then true
    else
      match url_Parse origin with
      | None => false
      | Some u => (u_Host u =s? rq_Host r) && (u_Scheme u =s? (if isTLS r then "https" else "http"))
      end.

(** Recheck: whether the session [u] authenticated with is still good. *)
Definition recheck (u : User) : M bool :=
  cur <- on_store (us_Get (Username u));;
  ret_st (match cur with
          | Err _ => false
          | Ok cur => negb (Disabled cur) && negb (MustChangePassword cur) && (TokenVersion cur =? TokenVersion u)
          end).

(** The gated handler gets the identity and the session's re-validator. *)
Definition Middleware (h : Identity -> M bool -> M unit) (r : Request) : M unit :=
  locked <- Locked;;
  if locked : bool then json_error StatusServiceUnavailable "auth_not_configured"
  else
    ub <- authenticate r;;
    match ub with
    | (None, _) => json_error StatusUnauthorized "unauthorized"
    | (Some u, bearer) =>
        if negb bearer && isMutating (rq_Method r) && negb (sameOrigin r) then json_error StatusForbidden "cross_origin"
        else if MustChangePassword u then json_error StatusForbidden "password_change_required"
        else
          _ <- alog (AServe (identityOf u));;
          h (identityOf u) (recheck u)
    end.

Definition Authenticate (r : Request) : M (option Identity) :=
  ub <- authenticate r;;
  ret_st (identityOf <$> ub.1).

(** int(d.Seconds()) *)
Definition seconds (d : Z) : Z := Z.quot d Second.

Definition issue (username : string) (ver : Z) (typ : string) (ttl : Z) : M (option string) :=
  rand <- aask (ae_Rand env) ARand;;
  match rand with
  | None => ret_st None
  | Some _ => now <- anow;; ret_st (Issue hmac_sha256 (ss_signer s) username ver typ ttl now rand)
  end.

Definition issueSession (r : Request) (username : string) (ver : Z) : M (option string) :=
  access <- issue username ver TypeAccess (accessTTL s);;
  match access with
  | None => ret_st None
  | Some access =>
      refresh <- issue username ver TypeRefresh (refreshTTL s);;
      match refresh with
      | None => ret_st None
      | Some refresh =>
          _ <- alog (ASetCookie (mkCookie AccessCookie "/" access (seconds (accessTTL s)) (isTLS r)));;
          _ <- alog (ASetCookie (mkCookie RefreshCookie RefreshCookiePath refresh (seconds (refreshTTL s)) (isTLS r)));;
          ret_st (Some access)
      end
  end.

Definition clearSession (r : Request) : M unit :=
  _ <- alog (ASetCookie (mkCookie AccessCookie "/" "" (-1) (isTLS r)));;
  alog (ASetCookie (mkCookie RefreshCookie RefreshCookiePath "" (-1) (isTLS r))).

(** ** handlers.go *)

Definition no_store : M unit := aheader "Cache-Control" "no-store".

Definition rateLimited (retry : Z) : M unit :=
  _ <- aheader "Retry-After" (FormatInt (retry_seconds retry));;
  json_error StatusTooManyRequests "too_many_attempts".

(** http.MaxBytesReader: the bytes allowed, and whether reading on fails. *)
Definition limited_request_body (limit : nat) (r : Request) : bytes * bool :=
  match rq_Body r with
  | None => ([], false)
  | Some None => ([], true)
  | Some (Some b) => (take limit b, (limit <? length b)%nat)
  end.

(** An attempt under the limiter's mutex. *)
Definition limiter_Allow (username ip : string) : M (Z * bool) :=
  now <- anow;;
  on_limiter (Allow username ip now).

Definition session_json (u : User) (access : string) : list (string * JSON) :=
  [("username", JString (Username u)); ("role", JString (u_Role u));
   ("must_change_password", JBool (MustChangePassword u)); ("access_token", JString access);
   ("expires_in", JInt (seconds (accessTTL s)))].

Definition login (r : Request) : M unit :=
  _ <- no_store;;
  locked <- Locked;;
  if locked : bool then json_error StatusServiceUnavailable "auth_not_configured"
  else if negb (sameOrigin r) then json_error StatusForbidden "cross_origin"
  else
    match (let '(b, bad) := limited_request_body maxLoginBody r in decode_login b bad) with
    | None => json_error StatusBadRequest "invalid_request"
    | Some (username, password) =>
        let ip := clientIP r in
        ok <- limiter_Allow username ip;;
        if negb ok.2 then rateLimited ok.1
        else
          u <- on_store (us_Get username);;
          valid <- match u with
                   | Ok u => ok <- CheckPassword (PasswordHash u) password;; ret_st (ok && negb (Disabled u))
                   | Err _ => _ <- CheckPassword dummyHash password;; ret_st false
                   end;;
          match u with
          | Ok u =>
              if negb valid then json_error StatusUnauthorized "invalid_credentials"
              else
                _ <- on_limiter (Success username ip);;
                now <- anow;;
                _ <- on_store (us_TouchLogin (Username u) now);;
                access <- issueSession r (Username u) (TokenVersion u);;
                match access with
                | None => json_error StatusInternalServerError "token_issue_failed"
                | Some access => json_response StatusOK (session_json u access)
                end
          | Err _ => json_error StatusUnauthorized "invalid_credentials"
          end
    end.

Definition refresh (r : Request) : M unit :=
  _ <- no_store;;
  locked <- Locked;;
  if locked : bool then json_error StatusServiceUnavailable "auth_not_configured"
  else if negb (sameOrigin r) then json_error StatusForbidden "cross_origin"
  else
    match Cookie r RefreshCookie with
    | None | Some EmptyString => json_error StatusUnauthorized "unauthorized"
    | Some token =>
        u <- userForToken token TypeRefresh;;
        match u with
        | None => json_error StatusUnauthorized "unauthorized"
        | Some u =>
            access <- issueSession r (Username u) (TokenVersion u);;
            match access with
            | None => json_error StatusInternalServerError "token_issue_failed"
            | Some _ =>
                json_response StatusOK [("username", JString (Username u)); ("expires_in", JInt (seconds (accessTTL s)))]
            end
        end
    end.

Definition logout (r : Request) : M unit :=
  _ <- no_store;;
  if negb (sameOrigin r) then json_error StatusForbidden "cross_origin"
  else
    _ <- clearSession r;;
    arespond StatusNoContent BNone.

Definition me (r : Request) : M unit :=
  _ <- no_store;;
  locked <- Locked;;
  if locked : bool then json_error StatusServiceUnavailable "auth_not_configured"
  else
    id <- Authenticate r;;
    match id with
    | None => json_error StatusUnauthorized "unauthorized"
    | Some id =>
        json_response StatusOK [("username", JString (id_Username id)); ("role", JString (id_Role id));
                                ("must_change_password", JBool (id_MustChangePassword id))]
    end.

Definition invalid_password (msg : string) : M unit :=
  json_response StatusBadRequest [("error", JString "invalid_password"); ("message", JString msg)].

(** The message of a password ValidatePassword refuses. *)
Definition password_message (e : UserError) : string :=
  match e with ErrInvalid _ msg => "password " +:+ msg | _ => "" end.

(** The password is right: validate the new one, store it, start afresh. *)
Definition set_new_password (r : Request) (u : User) (current new : string) : M unit :=
  match ValidatePassword (Username u) new with
  | Some e => invalid_password (password_message e)
  | None =>
      if new =s? current then invalid_password "new password must differ from the current one"
      else
        h <- aask (fun tr => ae_HashPassword env tr new) AHashPassword;;
        match h with
        | None => json_error StatusInternalServerError "internal_error"
        | Some h =>
            e <- on_store (us_SetPassword (Username u) h false);;
            match e with
            | Some ErrNotFound => json_error StatusUnauthorized "unauthorized"
            | Some _ => json_error StatusInternalServerError "internal_error"
            | None =>
                fresh <- on_store (us_Get (Username u));;
                match fresh with
                | Err _ => json_error StatusInternalServerError "internal_error"
                | Ok fresh =>
                    access <- issueSession r (Username fresh) (TokenVersion fresh);;
                    match access with
                    | None => json_error StatusInternalServerError "token_issue_failed"
                    | Some access => json_response StatusOK (session_json fresh access)
                    end
                end
            end
        end
  end.

Definition changePassword (r : Request) : M unit :=
  _ <- no_store;;
  locked <- Locked;;
  if locked : bool then json_error StatusServiceUnavailable "auth_not_configured"
  else if negb (sameOrigin r) then json_error StatusForbidden "cross_origin"
  else
    ub <- authenticate r;;
    match ub.1 with
    | None => json_error StatusUnauthorized "unauthorized"
    | Some u =>
        match (let '(b, bad) := limited_request_body maxLoginBody r in decode_password b bad) with
        | None => json_error StatusBadRequest "invalid_request"
        | Some (current, new) =>
            let ip := clientIP r in
            ok <- limiter_Allow (Username u) ip;;
            if negb ok.2 then rateLimited ok.1
            else
              valid <- CheckPassword (PasswordHash u) current;;
              if negb valid then json_error StatusUnauthorized "invalid_credentials"
              else
                _ <- on_limiter (Success (Username u) ip);;
                set_new_password r u current new
        end
    end.
End Session.
