(* ===== verification/SessionSpec.v ===== *)
(** * The promises of the session layer

    Only a live session of an enabled account reaches a gated handler; a
    failed login tells nothing about the account; a revoked session stays
    revoked; a session just opened works. *)
From S2P Require Import Prelude GoStd Upstream HTTP ClientIP Users Login Token Session.
Local Open Scope Z_scope.

Definition a_responses (l : list AuthCall) : list Response :=
  omap (fun c => match c with ARespond rs => Some rs | _ => None end) l.
Definition a_served (l : list AuthCall) : list Identity :=
  omap (fun c => match c with AServe id => Some id | _ => None end) l.
Definition a_cookies (l : list AuthCall) : list SetCookie :=
  omap (fun c => match c with ASetCookie ck => Some ck | _ => None end) l.

Section SessionSpec.
Context {S : Type} `{US : UserStore S} `{TJ : TokenJSON}.
Context (hmac_sha256 : bytes -> bytes -> bytes) (url_Parse : string -> option url).
Context (Cookie : Request -> string -> option string) (env : AuthEnv) (s : Sessions).

(** ** The steps of a request *)

Lemma on_store_run {A} (m : St S A) (w : AuthWorld S) :
  on_store m w = ((m (aw_store w)).1, mkAuth (m (aw_store w)).2 (aw_limiter w) (aw_trace w) (aw_header w)).
Proof. unfold on_store. by destruct (m (aw_store w)). Qed.

Lemma on_limiter_run {A} (m : St LoginLimiter A) (w : AuthWorld S) :
  on_limiter m w = ((m (aw_limiter w)).1, mkAuth (aw_store w) (m (aw_limiter w)).2 (aw_trace w) (aw_header w)).
Proof. unfold on_limiter. by destruct (m (aw_limiter w)). Qed.

Lemma json_error_run status code (w : AuthWorld S) :
  ∃ rs, rs_Status rs = status ∧ rs_Body rs = BJSON [("error", JString code)] ∧
    aw_trace (json_error status code w).2 = aw_trace w ++ [ARespond rs] ∧
    aw_store (json_error status code w).2 = aw_store w ∧ aw_limiter (json_error status code w).2 = aw_limiter w.
Proof.
  by exists (mkResp status (Header_Set "Content-Type" "application/json" (aw_header w)) (BJSON [("error", JString code)])).
Qed.

(** What a credential stands for: the account it names, read from the store
    after the clock, in a state that grants it. *)
Definition grants (w : AuthWorld S) (token want : string) (u : User) : Prop :=
  ∃ claims, Verify hmac_sha256 (ss_signer s) (ae_Now env (aw_trace w)) token want = Ok claims ∧
    (us_Get (c_Sub claims) (aw_store w)).1 = Ok u ∧ Disabled u = false ∧ c_Ver claims = TokenVersion u.

Lemma userForToken_run token want (w : AuthWorld S) :
  let res := userForToken hmac_sha256 env s token want w in
  (aw_trace res.2 = aw_trace w ++ [ANow (ae_Now env (aw_trace w))] ∧ aw_limiter res.2 = aw_limiter w ∧
   aw_header res.2 = aw_header w) ∧
  ∀ u, res.1 = Some u ↔ grants w token want u.
Proof.
  cbv zeta. unfold userForToken, grants. rewrite bind_st_run. simpl.
  destruct (Verify _ _ _ _ _) as [claims|e] eqn:Hv; simpl.
  2:{ split; [done|]. intros u. split; [done|]. by intros (? & ? & _). }
  rewrite bind_st_run, on_store_run. simpl. split; [done|]. intros u.
  destruct (us_Get (c_Sub claims) (aw_store w)).1 as [u'|e] eqn:Hg; simpl.
  - destruct (Disabled u') eqn:Hd; simpl; [|destruct (Z.eqb_spec (c_Ver claims) (TokenVersion u')) as [Hc|Hc]; simpl].
    + split; [done|]. intros (c & [= <-] & Hu & Hd' & _). congruence.
    + split; [intros [= <-]; by exists claims|]. intros (c & [= <-] & Hu & _). congruence.
    + split; [done|]. intros (c & [= <-] & Hu & _ & Hc'). congruence.
  - split; [done|]. intros (c & [= <-] & Hu & _). congruence.
Qed.

Lemma authenticate_run r (w : AuthWorld S) :
  let res := authenticate hmac_sha256 Cookie env s r w in
  res.1.2 = (accessCredential Cookie r).2 ∧
  (∃ l, aw_trace res.2 = aw_trace w ++ l ∧ a_responses l = [] ∧ a_served l = []) ∧ aw_header res.2 = aw_header w ∧
  ∀ u, res.1.1 = Some u ↔
    ∃ token, (accessCredential Cookie r).1 = Some token ∧ grants w token TypeAccess u.
Proof.
  cbv zeta. unfold authenticate. destruct (accessCredential Cookie r) as [[token|] bearer]; simpl.
  - rewrite bind_st_run. simpl. destruct (userForToken_run token TypeAccess w) as ((Ht & _ & Hh) & Hg).
    split; [done|]. split; [by eexists|]. split; [done|]. intros u. rewrite Hg. naive_solver.
  - split; [done|]. split; [exists []; by rewrite app_nil_r|]. split; [done|]. naive_solver.
Qed.

(** The store after the locked check. *)
Definition unlocked (w : AuthWorld S) : AuthWorld S :=
  mkAuth (us_HasEnabledUsers (aw_store w)).2 (aw_limiter w) (aw_trace w) (aw_header w).

Lemma Locked_run (w : AuthWorld S) :
  Locked w = (negb (match (us_HasEnabledUsers (aw_store w)).1 with Ok b => b | Err _ => false end), unlocked w).
Proof. unfold Locked. rewrite bind_st_run, on_store_run. simpl. unfold unlocked. by destruct (us_HasEnabledUsers (aw_store w)) as [[[]|] ?]. Qed.

(** ** The middleware *)

(** The request may act for [u]: a token of this session presented in a header,
    or in a cookie by a request that cannot come from another site; the
    account enabled, at the token's version and with no password change due. *)
Definition admitted_as (r : Request) (w : AuthWorld S) (u : User) : Prop :=
  (us_HasEnabledUsers (aw_store w)).1 = Ok true ∧
  (∃ token, (accessCredential Cookie r).1 = Some token ∧ grants (unlocked w) token TypeAccess u) ∧
  ((accessCredential Cookie r).2 = true ∨ isMutating (rq_Method r) = false ∨ sameOrigin url_Parse r = true) ∧
  MustChangePassword u = false.

(** C4: a gated handler runs exactly for the requests that may act for an
    account, and then for that account, once, before any response of the
    middleware's; every other request gets one response, 401, 403 or 503, and
    the handler does not run. *)
Theorem Middleware_gate h r w :
  (∃ u w1 l, admitted_as r w u ∧ aw_trace w1 = aw_trace w ++ l ++ [AServe (identityOf u)] ∧
     a_responses l = [] ∧ a_served l = [] ∧
     Middleware hmac_sha256 url_Parse Cookie env s h r w = h (identityOf u) (recheck u) w1) ∨
  ((∀ u, ¬ admitted_as r w u) ∧
   ∃ l rs, aw_trace (Middleware hmac_sha256 url_Parse Cookie env s h r w).2 = aw_trace w ++ l ∧
     a_responses l = [rs] ∧ a_served l = [] ∧ rs_Status rs ∈ [401; 403; 503]).
Proof.
  unfold Middleware. rewrite bind_st_run, Locked_run. simpl.
  assert (∀ status code (w1 : AuthWorld S) l, status ∈ [401; 403; 503] → (∀ u, ¬ admitted_as r w u) →
    aw_trace w1 = aw_trace w ++ l → a_responses l = [] → a_served l = [] →
    (∀ u, ¬ admitted_as r w u) ∧ ∃ l rs, aw_trace (json_error status code w1).2 = aw_trace w ++ l ∧
     a_responses l = [rs] ∧ a_served l = [] ∧ rs_Status rs ∈ [401; 403; 503]) as Hend.
  { intros status code w1 l Hst Hn Ht Hr Hs. split; [done|].
    destruct (json_error_run status code w1) as (rs & Hrs & _ & Htr & _).
    exists (l ++ [ARespond rs]), rs. rewrite Htr, Ht, <- app_assoc. split; [done|].
    unfold a_responses, a_served in *. rewrite !omap_app, Hr, Hs, Hrs. done. }
  assert (∀ (w1 : AuthWorld S), aw_trace w1 = aw_trace w → aw_trace w1 = aw_trace w ++ []) as Hnil
    by (intros ? ->; by rewrite app_nil_r).
  destruct (us_HasEnabledUsers (aw_store w)).1 as [[|]|e] eqn:Hen; simpl; unfold admitted_as in *; rewrite Hen in *.
  2:{ right. eapply Hend; [set_solver|naive_solver|by apply Hnil|done|done]. }
  2:{ right. eapply Hend; [set_solver|naive_solver|by apply Hnil|done|done]. }
  rewrite bind_st_run. destruct (authenticate_run r (unlocked w)) as (Hb & (l & Ht & Hr & Hs) & _ & Hu).
  destruct (authenticate _ _ _ _ r (unlocked w)) as [[[u|] bearer] w1]; cbn [fst snd] in *; subst bearer.
  2:{ right. eapply Hend; [set_solver| |exact Ht|done|done]. intros u (_ & Hg & _). apply Hu in Hg. done. }
  pose proof (proj1 (Hu u) eq_refl) as Hg.
  destruct (negb (accessCredential Cookie r).2 && isMutating (rq_Method r) && negb (sameOrigin url_Parse r)) eqn:Ho.
  { right. apply (Hend StatusForbidden "cross_origin" w1 l); [set_solver| |exact Ht|done|done].
    intros u' (_ & _ & Hor & _). bool_to_prop. by destruct Hor as [?|[?|?]]; congruence. }
  destruct (MustChangePassword u) eqn:Hm.
  { right. eapply Hend; [set_solver| |exact Ht|done|done]. intros u' (_ & Hg' & _ & Hm'). apply Hu in Hg'. congruence. }
  left. exists u. rewrite bind_st_run. simpl. eexists. exists l. split.
  - split; [done|]. split; [done|]. split; [|done].
    destruct (accessCredential Cookie r).2; [by left|]. destruct (isMutating _); [|by right; left].
    destruct (sameOrigin url_Parse r); [by right; right|done].
  - split_and!; [|done|done|reflexivity]. simpl. by rewrite Ht, app_assoc.
Qed.
End SessionSpec.

(** ** A failed login *)

Section LoginSpec.
Context {S : Type} `{US : UserStore S} `{TJ : TokenJSON}.
Context (hmac_sha256 : bytes -> bytes -> bytes) (url_Parse : string -> option url).
Context (clientIP : Request -> string) (decode_login : bytes -> bool -> option (string * string)).
Context (dummyHash : string) (env : AuthEnv) (s : Sessions).

(** The credentials are wrong, the account is disabled or there is none. *)
Definition bad_login (w : AuthWorld S) (username password : string) : Prop :=
  match (us_Get username (aw_store (unlocked w))).1 with
  | Ok u => ae_CheckPassword env (PasswordHash u) password = false ∨ Disabled u = true
  | Err _ => True
  end.

(** The trace, but for which hash was compared. *)
Definition erase (c : AuthCall) : AuthCall :=
  match c with ACheckPassword _ p => ACheckPassword "" p | c => c end.

Local Notation login r w := (login hmac_sha256 url_Parse clientIP decode_login dummyHash env s r w).

(** What a failed login does, whoever the account is. *)
Definition failed_login (r : Request) (username password hash : string) (l : LoginLimiter) (tr : list AuthCall) (hd : Header)
    : list AuthCall :=
  let now := ae_Now env tr in
  let hd := Header_Set "Cache-Control" "no-store" hd in
  let '(retry, ok) := (Allow username (clientIP r) now l).1 in
  ANow now ::
  (if ok : bool then
     [ACheckPassword hash password;
      ARespond (mkResp 401 (Header_Set "Content-Type" "application/json" hd)
        (BJSON [("error", JString "invalid_credentials")]))]
   else
     [ARespond (mkResp 429 (Header_Set "Content-Type" "application/json"
        (Header_Set "Retry-After" (FormatInt (retry_seconds retry)) hd))
        (BJSON [("error", JString "too_many_attempts")]))]).

Lemma limiter_Allow_run username ip (w : AuthWorld S) :
  limiter_Allow env username ip w =
    ((Allow username ip (ae_Now env (aw_trace w)) (aw_limiter w)).1,
     mkAuth (aw_store w) (Allow username ip (ae_Now env (aw_trace w)) (aw_limiter w)).2
       (aw_trace w ++ [ANow (ae_Now env (aw_trace w))]) (aw_header w)).
Proof. unfold limiter_Allow. rewrite bind_st_run. unfold on_limiter. simpl. by destruct (Allow _ _ _ _). Qed.

Lemma bad_login_run r username password (w : AuthWorld S) :
  (us_HasEnabledUsers (aw_store w)).1 = Ok true → sameOrigin url_Parse r = true →
  (let '(b, bad) := limited_request_body maxLoginBody r in decode_login b bad) = Some (username, password) →
  bad_login w username password →
  ∃ hash, aw_trace (login r w).2 = aw_trace w ++ failed_login r username password hash (aw_limiter w) (aw_trace w) (aw_header w) ∧
    aw_limiter (login r w).2 = (Allow username (clientIP r) (ae_Now env (aw_trace w)) (aw_limiter w)).2.
Proof.
  intros Hen Hso Hdec Hbad. unfold Session.login, no_store, failed_login. rewrite bind_st_run. simpl.
  rewrite bind_st_run, Locked_run. simpl. rewrite Hen. simpl. rewrite Hso, Hdec. simpl.
  rewrite bind_st_run, limiter_Allow_run. simpl.
  unfold bad_login, unlocked in Hbad. simpl in Hbad.
  destruct (Allow username (clientIP r) (ae_Now env (aw_trace w)) (aw_limiter w)) as [[retry ok] l']. simpl.
  destruct ok; simpl.
  2:{ exists "". by rewrite <- app_assoc. }
  rewrite bind_st_run, on_store_run. simpl. rewrite bind_st_run.
  destruct (us_Get username (us_HasEnabledUsers (aw_store w)).2).1 as [u|e]; simpl.
  - exists (PasswordHash u).
    assert (ae_CheckPassword env (PasswordHash u) password && negb (Disabled u) = false) as ->.
    { destruct Hbad as [-> | ->]; [done|apply andb_false_r]. }
    simpl. by rewrite <- !app_assoc.
  - exists dummyHash. by rewrite <- !app_assoc.
Qed.

(** C32: a failed login tells nothing about the account: whether there is no
    such account, a disabled one or one with another password, the server does
    the same - one attempt on the limiter and, if it is admitted, one password
    comparison - and answers byte for byte the same, 401 without a cookie or
    429. *)
Theorem login_failures_alike r username password (w1 w2 : AuthWorld S) :
  aw_limiter w1 = aw_limiter w2 → aw_trace w1 = aw_trace w2 → aw_header w1 = aw_header w2 →
  (us_HasEnabledUsers (aw_store w1)).1 = Ok true → (us_HasEnabledUsers (aw_store w2)).1 = Ok true →
  sameOrigin url_Parse r = true →
  (let '(b, bad) := limited_request_body maxLoginBody r in decode_login b bad) = Some (username, password) →
  bad_login w1 username password → bad_login w2 username password →
  ∃ l1 l2, aw_trace (login r w1).2 = aw_trace w1 ++ l1 ∧ aw_trace (login r w2).2 = aw_trace w1 ++ l2 ∧
    erase <$> l1 = erase <$> l2 ∧ a_responses l1 = a_responses l2 ∧
    (∃ rs, a_responses l1 = [rs] ∧ rs_Status rs ∈ [401; 429]) ∧ a_cookies l1 = [] ∧ a_cookies l2 = [] ∧
    aw_limiter (login r w1).2 = aw_limiter (login r w2).2.
Proof.
  intros El Et Eh H1 H2 Hso Hdec Hb1 Hb2.
  destruct (bad_login_run r username password w1 H1 Hso Hdec Hb1) as (h1 & -> & ->).
  destruct (bad_login_run r username password w2 H2 Hso Hdec Hb2) as (h2 & -> & ->).
  rewrite <- El, <- Et, <- Eh. eexists _, _. split; [done|]. split; [done|]. unfold failed_login.
  destruct (Allow _ _ _ _).1 as [retry []]; simpl; (split_and!; [done..| |done|done|done]); eexists; (split; [done|]);
    set_solver.
Qed.
(** ** A session opened *)

Lemma issue_run username ver typ ttl (w : AuthWorld S) :
  let res := issue hmac_sha256 env s username ver typ ttl w in
  ∃ l, aw_trace res.2 = aw_trace w ++ l ∧ a_responses l = [] ∧ a_cookies l = [] ∧
    (aw_store res.2 = aw_store w ∧ aw_limiter res.2 = aw_limiter w ∧ aw_header res.2 = aw_header w) ∧
    ∀ tok, res.1 = Some tok → ∃ t jti, ANow t ∈ l ∧ Issue hmac_sha256 (ss_signer s) username ver typ ttl t (Some jti) = Some tok.
Proof.
  cbv zeta. unfold issue. rewrite bind_st_run. simpl. destruct (ae_Rand env (aw_trace w)) as [jti|]; simpl.
  - eexists. rewrite <- app_assoc. split; [done|]. do 3 (split; [done|]).
    intros tok Htok. eexists _, jti. split; [|exact Htok]. set_solver.
  - eexists. split; [done|]. by split_and!.
Qed.

(** The two cookies of a session. *)
Definition session_cookies (r : Request) (access refresh : string) : list SetCookie :=
  [mkCookie AccessCookie "/" access (seconds (accessTTL s)) (isTLS r);
   mkCookie RefreshCookie RefreshCookiePath refresh (seconds (refreshTTL s)) (isTLS r)].

Lemma issueSession_run r username ver (w : AuthWorld S) :
  let res := issueSession hmac_sha256 env s r username ver w in
  ∃ l, aw_trace res.2 = aw_trace w ++ l ∧ a_responses l = [] ∧
    match res.1 with
    | None => a_cookies l = []
    | Some access => ∃ refresh t jti, a_cookies l = session_cookies r access refresh ∧ ANow t ∈ l ∧
        Issue hmac_sha256 (ss_signer s) username ver TypeAccess (accessTTL s) t (Some jti) = Some access
    end.
Proof.
  cbv zeta. unfold issueSession. rewrite bind_st_run.
  destruct (issue_run username ver TypeAccess (accessTTL s) w) as (l1 & Ht1 & Hr1 & Hc1 & _ & Hi1).
  destruct (issue _ _ _ username ver TypeAccess _ w) as [[access|] w1]; simpl in *.
  2:{ exists l1. done. }
  rewrite bind_st_run. destruct (issue_run username ver TypeRefresh (refreshTTL s) w1) as (l2 & Ht2 & Hr2 & Hc2 & _ & _).
  destruct (issue _ _ _ username ver TypeRefresh _ w1) as [[refresh|] w2]; simpl in *.
  - destruct (Hi1 _ eq_refl) as (t & jti & Hin & Hiss). eexists (l1 ++ l2 ++ [_; _]).
    split; [rewrite Ht2, Ht1, <- !app_assoc; done|]. unfold a_responses, a_cookies in *.
    rewrite !omap_app, Hr1, Hr2, Hc1, Hc2. split; [done|]. exists refresh, t, jti. split; [done|]. set_solver.
  - exists (l1 ++ l2). unfold a_responses, a_cookies in *. rewrite !omap_app, Ht2, Ht1, Hr1, Hr2, Hc1, Hc2, app_assoc. done.
Qed.

Lemma grants_run token want u (w : AuthWorld S) :
  grants hmac_sha256 env s w token want u → (userForToken hmac_sha256 env s token want w).1 = Some u.
Proof. intros Hg. by apply (proj2 (userForToken_run hmac_sha256 env s token want w)). Qed.


(** A branch that answers otherwise than with 200. *)
Ltac refused :=
  let Htr := fresh in
  intros Htr; exfalso; simpl in Htr; rewrite <- ?app_assoc in Htr; apply app_inv_head in Htr; simpl in Htr; subst;
  match goal with H : _ ∈ a_responses _ |- _ => apply list_elem_of_singleton in H; subst end; discriminate.

(** a login succeeds only with the password of an enabled account, on an
    attempt the limiter admitted, and the session it opens works: the
    response and the cookie carry the same access token, and as long as the
    token has not expired and the account stays enabled at its version, that
    token authenticates as the account - and is never taken for a refresh
    token. *)
Theorem login_opens_session `{!TokenJSONLaws} r (w : AuthWorld S) l rs :
  aw_trace (login r w).2 = aw_trace w ++ l → rs ∈ a_responses l → rs_Status rs = 200 →
  ∃ username password u access refresh t, a_responses l = [rs] ∧
    (let '(b, bad) := limited_request_body maxLoginBody r in decode_login b bad) = Some (username, password) ∧
    (us_Get username (aw_store (unlocked w))).1 = Ok u ∧ Disabled u = false ∧
    ae_CheckPassword env (PasswordHash u) password = true ∧
    (Allow username (clientIP r) (ae_Now env (aw_trace w)) (aw_limiter w)).1.2 = true ∧
    rs_Body rs = BJSON (session_json s u access) ∧ a_cookies l = session_cookies r access refresh ∧ ANow t ∈ l ∧
    ∀ (w' : AuthWorld S) u', usernameRe (Username u) = true → (us_Get (Username u) (aw_store w')).1 = Ok u' →
      Disabled u' = false → TokenVersion u' = TokenVersion u →
      time_unix (ae_Now env (aw_trace w')) < time_unix (t + accessTTL s) →
      (userForToken hmac_sha256 env s access TypeAccess w').1 = Some u' ∧
      (userForToken hmac_sha256 env s access TypeRefresh w').1 = None.
Proof.
  intros Htr Hin H200. revert Htr.
  unfold Session.login, no_store. rewrite bind_st_run. cbn [fst snd aheader]. rewrite bind_st_run, Locked_run.
  cbn [fst snd unlocked aw_store aw_limiter aw_trace aw_header].
  destruct (negb _); [refused|]. destruct (negb (sameOrigin url_Parse r)); [refused|].
  destruct (let '(b, bad) := limited_request_body maxLoginBody r in decode_login b bad) as [[username password]|]; [|refused].
  rewrite bind_st_run, limiter_Allow_run. cbn [fst snd aw_limiter aw_trace aw_store aw_header].
  destruct (Allow username (clientIP r) _ _) as [[retry ok] l'] eqn:Hallow.
  cbn [unlocked aw_trace aw_limiter] in Hallow. cbn [fst snd].
  destruct ok; cbn [negb]; [|refused].
  rewrite bind_st_run, on_store_run. cbn [fst snd aw_limiter aw_trace aw_store aw_header].
  destruct (us_Get username _).1 as [u|e] eqn:Hget; [|refused].
  rewrite bind_st_run. cbn [fst snd]. unfold CheckPassword at 1. 
  destruct (ae_CheckPassword env (PasswordHash u) password) eqn:Hpw; [destruct (Disabled u) eqn:Hd|]; [refused| |refused].
  simpl. rewrite bind_st_run, on_limiter_run. cbn [fst snd]. rewrite bind_st_run. cbn [fst snd].
  rewrite bind_st_run, on_store_run. cbn [fst snd]. rewrite bind_st_run. set (w2 := mkAuth (us_TouchLogin _ _ _).2 _ _ _).
  assert (∃ l0, aw_trace w2 = aw_trace w ++ l0 ∧ a_responses l0 = [] ∧ a_cookies l0 = []) as (l0 & Hl0 & Hr0 & Hc0).
  { eexists. split; [simpl; rewrite <- !app_assoc; reflexivity|done]. }
  destruct (issueSession_run r (Username u) (TokenVersion u) w2) as (l3 & Ht3 & Hr3 & H3).
  destruct (issueSession _ _ _ r _ _ w2) as [[access|] w3]; cbn [fst snd] in *.
  2:{ intros Htr. exfalso. simpl in Htr. rewrite Ht3, Hl0, <- !app_assoc in Htr. apply app_inv_head in Htr. subst l.
      unfold a_responses in *. rewrite !omap_app, Hr0, Hr3 in Hin. apply list_elem_of_singleton in Hin. by subst. }
  intros Htr. simpl in Htr. rewrite Ht3, Hl0, <- !app_assoc in Htr. apply app_inv_head in Htr. subst l.
  destruct H3 as (refresh & t & jti & Hck & Hnow & Hiss).
  unfold a_responses, a_cookies in *. rewrite !omap_app, Hr0, Hr3 in *. rewrite Hc0, Hck.
  apply list_elem_of_singleton in Hin. subst rs.
  exists username, password, u, access, refresh, t.
  split_and!; try done; [by rewrite Hallow|set_solver|].
  intros w' u' [Htext Hne]%usernameRe_text Hg Hd' Hv Hexp. split.
  - apply grants_run. eexists.
    destruct (Verify_Issue hmac_sha256 _ _ _ _ _ _ _ _ (ae_Now env (aw_trace w')) TypeAccess Hiss Htext eq_refl) as (_ & [= <-] & ->).
    unfold check_claims. cbn [c_Sub c_Typ c_Exp]. rewrite (proj2 (String.eqb_neq _ _) Hne), String.eqb_refl. simpl.
    destruct (Z.leb_spec (time_unix (t + accessTTL s)) (time_unix (ae_Now env (aw_trace w')))); [lia|].
    split; [done|]. simpl. by split_and!.
  - destruct (userForToken_run hmac_sha256 env s access TypeRefresh w') as [_ Hgr].
    destruct (userForToken _ _ _ access TypeRefresh w').1 as [u2|]; [|done].
    destruct (proj1 (Hgr u2) eq_refl) as (c & Hc & _).
    destruct (Verify_Issue hmac_sha256 _ _ _ _ _ _ _ _ (ae_Now env (aw_trace w')) TypeRefresh Hiss Htext eq_refl) as (_ & [= <-] & E).
    rewrite E in Hc. unfold check_claims in Hc. cbn [c_Sub c_Typ c_Exp] in Hc. by destruct (Username u =s? "").
Qed.
End LoginSpec.

(** ** Revocation, over the users table *)

Section Revocation.
Context `{TJ : TokenJSON}.
Context (hmac_sha256 : bytes -> bytes -> bytes) (env : AuthEnv) (s : Sessions).

(** C5: a revoked session stays revoked: once an account at version v has its
    password set, its role or status changed, or is deleted, a token for the
    account at version v or below is refused ever after - whatever is done to
    the accounts later, even when the account is deleted and created again -
    and so is the re-check of a stream it opened, provided no two operations
    on the table fall in the same nanosecond. *)
Theorem revoked_session_refused name u s0 s1 now ops token want (w : AuthWorld Store) :
  table_ok (rows s0) → rows s0 !! nocase name = Some u → TokenVersion u ≤ now →
  revokes name u s0 s1 → later now ops → rows (aw_store w) = rows (run_ops ops s1) →
  (∀ t c, Verify hmac_sha256 (ss_signer s) t token want = Ok c → nocase (c_Sub c) = nocase name ∧ c_Ver c ≤ TokenVersion u) →
  (userForToken hmac_sha256 env s token want w).1 = None ∧ (recheck u w).1 = false.
Proof.
  intros Hok Hu Hv Hr Hl Hw Htok. pose proof (revocation_final name u s0 s1 now ops Hok Hu Hv Hr Hl) as Habove.
  split.
  - destruct (userForToken_run hmac_sha256 env s token want w) as [_ Hg].
    destruct (userForToken hmac_sha256 env s token want w).1 as [u'|]; [exfalso|done].
    destruct (proj1 (Hg u') eq_refl) as (c & Hc & Hget & _ & Hver). apply Htok in Hc as [Hn Hle].
    apply Get_Ok in Hget. rewrite Hn, Hw in Hget. apply Habove in Hget. lia.
  - unfold recheck. rewrite bind_st_run, on_store_run. simpl.
    destruct (Get (Username u) (aw_store w)).1 as [cur|] eqn:Hget; [|done].
    apply Get_Ok in Hget. destruct (Hok _ _ Hu) as [Hk _]. rewrite <- Hk, Hw in Hget. apply Habove in Hget.
    destruct (Z.eqb_spec (TokenVersion cur) (TokenVersion u)); [lia|]. by rewrite andb_false_r.
Qed.
End Revocation.

(** ** Witnesses: the example accounts and tokens *)

#[local] Existing Instances ex_json ex_json_laws.

Definition ex_auth : AuthEnv := {|
  ae_Now tr := 2000 * Hour + Z.of_nat (length tr) * Second;
  ae_Rand _ := Some (to_bytes "0a1b0a1b0a1b0a1b");
  ae_HashPassword _ p := Some ("$2a$10$" +:+ p);
  ae_CheckPassword h p := h =s? "$2a$10$" +:+ p;
|}.

Definition ex_sessions : Sessions := mkSessions ex_secret Hour (24 * Hour).

(** A body is a name, a blank and a password. *)
Definition ex_decode (b : bytes) (bad : bool) : option (string * string) :=
  if bad then None else let '(u, p, ok) := Cut (of_bytes b) " "%char in if ok then Some (u, p) else None.

Definition ex_post (body : string) : Request :=
  mkRequest "id" "" "POST" "/api/auth/login" "" "" "console.example" "203.0.113.9:40000" true ∅ (Some (Some (to_bytes body))).

Definition ex_login (body : string) (w : AuthWorld Store) : AuthWorld Store :=
  (login ex_mac (fun _ => None) remoteHost ex_decode "$2a$10$dummy" ex_auth ex_sessions (ex_post body) w).2.

Definition ex_console (st : Store) : AuthWorld Store := mkAuth st NewLoginLimiter [] ∅.

Definition ex_statuses (w : AuthWorld Store) : list Z := rs_Status <$> a_responses (aw_trace w).

Example ex_logins :
  ex_statuses (ex_login "ROOT h" (ex_console ex_users)) = [200] ∧
  ex_statuses (ex_login "root x" (ex_console ex_users)) = [401] ∧
  ex_statuses (ex_login "nobody x" (ex_console ex_users)) = [401].
Proof. vm_compute. done. Qed.

Lemma login_failures_alike_witness :
  bad_login ex_auth (ex_console ex_users) "root" "x" ∧
  let st := (SetDisabled "ops" true ex_users).2 in
  ∃ l1 l2, aw_trace (ex_login "ops k" (ex_console ex_users)) = l1 ∧ aw_trace (ex_login "ops k" (ex_console st)) = l2 ∧
    a_responses l1 ≠ a_responses l2 ∧
  ∃ l3 l4, aw_trace (ex_login "ops x" (ex_console ex_users)) = l3 ∧ aw_trace (ex_login "ops x" (ex_console st)) = l4 ∧
    a_responses l3 = a_responses l4.
Proof.
  split; [left; reflexivity|]. cbv zeta. do 2 eexists. split; [reflexivity|]. split; [reflexivity|].
  split; [vm_compute; discriminate|].
  destruct (login_failures_alike ex_mac (fun _ => None) remoteHost ex_decode "$2a$10$dummy" ex_auth ex_sessions
    (ex_post "ops x") "ops" "x" (ex_console ex_users) (ex_console (SetDisabled "ops" true ex_users).2))
    as (l3 & l4 & H3 & H4 & _ & H & _); try reflexivity.
  - left. reflexivity.
  - right. reflexivity.
  - exists l3, l4. split; [exact H3|]. split; [exact H4|exact H].
Defined.

Lemma login_opens_session_witness :
  let w := ex_login "ROOT h" (ex_console ex_users) in
  ∃ u access, (us_Get "ROOT" (aw_store (unlocked (ex_console ex_users)))).1 = Ok u ∧
    ∃ rs, a_responses (aw_trace w) = [rs] ∧ rs_Body rs = BJSON (session_json ex_sessions u access).
Proof.
  cbv zeta. set (w := ex_login "ROOT h" (ex_console ex_users)).
  assert (∃ rs, a_responses (aw_trace w) = [rs] ∧ rs_Status rs = 200) as (rs & Hrs & Hst)
    by (eexists; split; vm_compute; reflexivity).
  destruct (login_opens_session ex_mac (fun _ => None) remoteHost ex_decode "$2a$10$dummy" ex_auth ex_sessions
    (ex_post "ROOT h") (ex_console ex_users) (aw_trace w) rs) as (n & p & u & access & rf & t & H1 & H2 & H3 & H4 & H5 & _ & H6 & _).
  - reflexivity.
  - rewrite Hrs. by left.
  - exact Hst.
  - assert (n = "ROOT") as -> by (vm_compute in H2; congruence).
    exists u, access. split; [exact H3|]. exists rs. split; [exact Hrs|exact H6].
Defined.

(** The administrator's token, before and after the password is reset and the
    account deleted and created again. *)
Definition ex_s0 : Store := (SetRole "ops" RoleAdmin ex_users).2.
Definition ex_s1 : Store := (SetPassword "root" "$2a$10$n" false ex_s0).2.
Definition ex_recreate : list (UserOp * Z) := [(ODelete "root", 200); (OCreate ex_admin, 300)].
Definition ex_at (st : Store) : AuthWorld Store := mkAuth st NewLoginLimiter [] ∅.
Definition ex_root_token : string :=
  default "" (Issue ex_mac ex_secret "Root" 100 TypeAccess Hour (2000 * Hour) (Some (to_bytes "0a1b0a1b0a1b0a1b"))).

Lemma ex_root_token_issued :
  Issue ex_mac ex_secret "Root" 100 TypeAccess Hour (2000 * Hour) (Some (to_bytes "0a1b0a1b0a1b0a1b")) = Some ex_root_token.
Proof. vm_compute. reflexivity. Qed.

Lemma ex_root_token_claims t c :
  Verify ex_mac ex_secret t ex_root_token TypeAccess = Ok c → nocase (c_Sub c) = nocase "root" ∧ c_Ver c ≤ 100.
Proof.
  intros Hc. destruct (Verify_Issue ex_mac _ _ _ _ _ _ _ _ t TypeAccess ex_root_token_issued eq_refl eq_refl) as (_ & [= <-] & E).
  rewrite E in Hc. apply check_claims_Ok in Hc as (-> & _). split; [vm_compute; reflexivity|discriminate].
Qed.

Lemma revoked_session_refused_witness :
  (userForToken ex_mac ex_auth ex_sessions ex_root_token TypeAccess (ex_at ex_s0)).1 = Some ex_admin ∧
  (userForToken ex_mac ex_auth ex_sessions ex_root_token TypeAccess (ex_at (run_ops ex_recreate ex_s1))).1 = None.
Proof.
  split; [vm_compute; reflexivity|].
  assert (table_ok (rows ex_s0)) as Hok by (apply (bool_decide_unpack _); vm_compute; reflexivity).
  assert (rows ex_s0 !! nocase "root" = Some ex_admin) as Hu by (vm_compute; reflexivity).
  assert (revokes "root" ex_admin ex_s0 ex_s1) as Hr by (apply revoke_password; vm_compute; reflexivity).
  assert (TokenVersion ex_admin ≤ 150) as Hv by discriminate.
  assert (later 150 ex_recreate) as Hl by (repeat split).
  exact (proj1 (revoked_session_refused ex_mac ex_auth ex_sessions "root" ex_admin ex_s0 ex_s1 150 ex_recreate
    ex_root_token TypeAccess (ex_at (run_ops ex_recreate ex_s1)) Hok Hu Hv Hr Hl eq_refl ex_root_token_claims)).
Defined.
