(* ===== verification/Limiter.v ===== *)
(** * Package httpx: the per-host concurrency cap (limiter.go)

    Requests run concurrently: a step is one of them reaching, entering or
    leaving RoundTrip's critical part, or giving up.  A host's semaphore is a
    buffered channel; its fill is the number of values in the buffer. *)
From S2P Require Import Prelude.

(** Where a request is. *)
Inductive Phase :=
| Waiting (host : string)
| Inside (host : string)
| Finished
| Cancelled.

#[export] Instance Phase_eq_dec : EqDecision Phase.
Proof. solve_decision. Defined.

(** [cl_max] below one means no limit. *)
Record ConcurrencyLimiter := mkCL {
  cl_max : Z;
  cl_hosts : gmap string nat;
}.

Definition NewConcurrencyLimiter (maxPerHost : Z) : ConcurrencyLimiter := mkCL maxPerHost ∅.

(** sem: the fill of a host's channel, made on first use. *)
Definition sem (host : string) (l : ConcurrencyLimiter) : nat := default 0 (cl_hosts l !! host).

Definition set_sem (host : string) (n : nat) (l : ConcurrencyLimiter) : ConcurrencyLimiter :=
  mkCL (cl_max l) (<[host := n]> (cl_hosts l)).

Definition unlimited (l : ConcurrencyLimiter) : bool := (cl_max l <=? 0)%Z.

(** The limiter and its requests, by an identifier each. *)
Record Net := mkNet {
  n_limiter : ConcurrencyLimiter;
  n_requests : gmap nat Phase;
}.

Definition initial (maxPerHost : Z) : Net := mkNet (NewConcurrencyLimiter maxPerHost) ∅.

(** RoundTrip, a step at a time. *)
Definition arrive (id : nat) (host : string) (s : Net) : option Net :=
  match n_requests s !! id with
  | Some _ => None
  | None =>
      Some (mkNet (set_sem host (sem host (n_limiter s)) (n_limiter s))
              (<[id := if unlimited (n_limiter s) then Inside host else Waiting host]> (n_requests s)))
  end.

Definition enter (id : nat) (s : Net) : option Net :=
  match n_requests s !! id with
  | Some (Waiting host) =>
      if (Z.of_nat (sem host (n_limiter s)) <? cl_max (n_limiter s))%Z then
        Some (mkNet (set_sem host (S (sem host (n_limiter s))) (n_limiter s)) (<[id := Inside host]> (n_requests s)))
      else None
  | _ => None
  end.

Definition lose_patience (id : nat) (s : Net) : option Net :=
  match n_requests s !! id with
  | Some (Waiting host) => Some (mkNet (n_limiter s) (<[id := Cancelled]> (n_requests s)))
  | _ => None
  end.

Definition leave (id : nat) (s : Net) : option Net :=
  match n_requests s !! id with
  | Some (Inside host) =>
      Some (mkNet (if unlimited (n_limiter s) then n_limiter s
                   else set_sem host (pred (sem host (n_limiter s))) (n_limiter s))
              (<[id := Finished]> (n_requests s)))
  | _ => None
  end.

(** A step of a request that has arrived. *)
Inductive moves (s s' : Net) : Prop :=
| move_enter id : enter id s = Some s' → moves s s'
| move_lose_patience id : lose_patience id s = Some s' → moves s s'
| move_leave id : leave id s = Some s' → moves s s'.

Inductive reachable (maxPerHost : Z) : Net → Prop :=
| reach_initial : reachable maxPerHost (initial maxPerHost)
| reach_arrive s s' id host : reachable maxPerHost s → arrive id host s = Some s' → reachable maxPerHost s'
| reach_move s s' : reachable maxPerHost s → moves s s' → reachable maxPerHost s'.

(** [n] moves, one after the other. *)
Inductive moves_n : nat → Net → Net → Prop :=
| moves_0 s : moves_n 0 s s
| moves_S n s s' s'' : moves s s' → moves_n n s' s'' → moves_n (S n) s s''.

(** * Properties *)

Definition inside (host : string) (s : Net) : gmap nat Phase := filter (λ p, p.2 = Inside host) (n_requests s).

(** A request not yet answered. *)
Definition live (s : Net) (id : nat) : Prop := ∃ host, n_requests s !! id = Some (Waiting host) ∨ n_requests s !! id = Some (Inside host).

(** The semaphores count the requests inside, up to the limit. *)
Definition counted (s : Net) : Prop :=
  (0 < cl_max (n_limiter s))%Z → ∀ host,
    sem host (n_limiter s) = size (inside host s) ∧ (Z.of_nat (sem host (n_limiter s)) ≤ cl_max (n_limiter s))%Z.

Lemma sem_set_sem host n host' l : sem host' (set_sem host n l) = if decide (host = host') then n else sem host' l.
Proof. unfold sem, set_sem. simpl. rewrite lookup_insert. by case_decide. Qed.

(** Moving a request in or out of [inside]. *)
Lemma size_inside_insert host id ph s l :
  size (inside host (mkNet l (<[id := ph]> (n_requests s)))) =
  (size (inside host (mkNet l (delete id (n_requests s)))) + if decide (ph = Inside host) then 1 else 0)%nat.
Proof.
  unfold inside. simpl. rewrite <- insert_delete_eq, map_filter_insert. simpl.
  case_decide as Hd.
  - rewrite map_size_insert_None; [lia|]. apply map_lookup_filter_None. left. by rewrite lookup_delete_eq.
  - rewrite delete_delete_eq. lia.
Qed.

Lemma size_inside_delete host id ph s :
  n_requests s !! id = Some ph →
  size (inside host s) =
  (size (inside host (mkNet (n_limiter s) (delete id (n_requests s)))) + if decide (ph = Inside host) then 1 else 0)%nat.
Proof.
  intros Hid. rewrite <- size_inside_insert. f_equal. unfold inside. simpl. by rewrite insert_id.
Qed.

Lemma inside_limiter host l l' m : inside host (mkNet l m) = inside host (mkNet l' m).
Proof. done. Qed.

(** A request changing phase. *)
Lemma size_inside_change host id ph ph' s l :
  n_requests s !! id = Some ph →
  (size (inside host (mkNet l (<[id := ph']> (n_requests s)))) + (if decide (ph = Inside host) then 1 else 0) =
   size (inside host s) + if decide (ph' = Inside host) then 1 else 0)%nat.
Proof.
  intros Hid. rewrite size_inside_insert, (size_inside_delete host id ph s Hid).
  rewrite (inside_limiter host l (n_limiter s)). lia.
Qed.

Lemma arrive_counted id host s s' : counted s → arrive id host s = Some s' → counted s' ∧ cl_max (n_limiter s') = cl_max (n_limiter s).
Proof.
  unfold arrive. intros Hc. destruct (n_requests s !! id) as [ph|] eqn:Hid; [done|]. intros [= <-]. split; [|done].
  intros Hpos host'. simpl in *. specialize (Hc Hpos host'). unfold unlimited.
  destruct (Z.leb_spec (cl_max (n_limiter s)) 0); [lia|].
  rewrite sem_set_sem, size_inside_insert, (decide_False (P := Waiting host = Inside host')) by done.
  replace (size (inside host' (mkNet _ (delete id (n_requests s))))) with (size (inside host' s)).
  - case_decide; subst; lia.
  - unfold inside. simpl. by rewrite delete_id.
Qed.

Lemma moves_counted s s' : counted s → moves s s' → counted s' ∧ cl_max (n_limiter s') = cl_max (n_limiter s).
Proof.
  intros Hc [id He|id He|id He]; revert He; unfold enter, lose_patience, leave;
    destruct (n_requests s !! id) as [[host|host| |]|] eqn:Hid; try done.
  - destruct (Z.ltb_spec (Z.of_nat (sem host (n_limiter s))) (cl_max (n_limiter s))); [|done]. intros [= <-]. split; [|done].
    intros Hpos host'. simpl in *. specialize (Hc Hpos host'). rewrite sem_set_sem.
    pose proof (size_inside_change host' id _ (Inside host) s (set_sem host (S (sem host (n_limiter s))) (n_limiter s)) Hid) as Hs.
    repeat case_decide; simplify_eq; lia.
  - intros [= <-]. split; [|done]. intros Hpos host'. simpl in *. specialize (Hc Hpos host').
    pose proof (size_inside_change host' id _ Cancelled s (n_limiter s) Hid) as Hs. repeat case_decide; simplify_eq; lia.
  - intros [= <-]. split; [|by destruct (unlimited _)]. intros Hpos host'. unfold unlimited in *. simpl in *.
    destruct (Z.leb_spec (cl_max (n_limiter s)) 0); simpl in *; [lia|]. specialize (Hc Hpos host'). rewrite sem_set_sem.
    pose proof (size_inside_change host' id _ Finished s (set_sem host (pred (sem host (n_limiter s))) (n_limiter s)) Hid) as Hs.
    repeat case_decide; simplify_eq; lia.
Qed.

Lemma reachable_counted m s : reachable m s → counted s ∧ cl_max (n_limiter s) = m.
Proof.
  induction 1 as [|s s' id host _ [IH <-] Ha|s s' _ [IH <-] Hm].
  - split; [|done]. intros Hpos host. unfold sem, inside. simpl. rewrite lookup_empty, map_filter_empty, map_size_empty. simpl in *. lia.
  - by eapply arrive_counted.
  - by apply moves_counted.
Qed.

(** however requests interleave - arriving, waiting, giving up, ending - no
    host ever has more of them in flight than the cap, and its semaphore is
    exactly the number in flight: no slot leaks and none is invented. *)
Theorem concurrency_capped maxPerHost s host :
  (0 < maxPerHost)%Z → reachable maxPerHost s →
  (Z.of_nat (size (inside host s)) ≤ maxPerHost)%Z ∧ sem host (n_limiter s) = size (inside host s).
Proof.
  intros Hpos Hr. destruct (reachable_counted _ _ Hr) as [Hc Hm]. rewrite <- Hm in Hpos.
  destruct (Hc Hpos host) as [<- ?]. by rewrite <- Hm.
Qed.

(** ** Nobody waits for ever *)

(** Work left: two moves for a request that waits, one for one inside. *)
Definition phase_work (ph : Phase) : nat := match ph with Waiting _ => 2 | Inside _ => 1 | _ => 0 end.
Definition work (s : Net) : nat := map_fold (λ _ ph n, phase_work ph + n)%nat 0%nat (n_requests s).

Lemma work_insert id ph (m : gmap nat Phase) l :
  work (mkNet l (<[id := ph]> m)) = (phase_work ph + work (mkNet l (delete id m)))%nat.
Proof.
  unfold work. simpl. rewrite <- insert_delete_eq. rewrite map_fold_insert_L; [done|intros; lia|]. by rewrite lookup_delete_eq.
Qed.

Lemma work_change id ph ph' s l :
  n_requests s !! id = Some ph → (work (mkNet l (<[id := ph']> (n_requests s))) + phase_work ph = work s + phase_work ph')%nat.
Proof.
  intros Hid. rewrite work_insert. assert (work s = work (mkNet l (<[id := ph]> (n_requests s)))) as ->.
  { unfold work. simpl. by rewrite insert_id. }
  rewrite work_insert. lia.
Qed.

Lemma moves_work s s' : moves s s' → (work s' < work s)%nat.
Proof.
  intros [id He|id He|id He]; revert He; unfold enter, lose_patience, leave;
    destruct (n_requests s !! id) as [[host|host| |]|] eqn:Hid; try done.
  - destruct (_ <? _)%Z; [|done]. intros [= <-].
    pose proof (work_change id _ (Inside host) s (set_sem host (S (sem host (n_limiter s))) (n_limiter s)) Hid). simpl in *. lia.
  - intros [= <-]. pose proof (work_change id _ Cancelled s (n_limiter s) Hid). simpl in *. lia.
  - intros [= <-]. set (l := if unlimited _ then _ else _). pose proof (work_change id _ Finished s l Hid). simpl in *. lia.
Qed.

Lemma moves_n_work n s s' : moves_n n s s' → (n + work s' ≤ work s)%nat.
Proof. induction 1 as [|n s s' s'' Hm _ IH]; [lia|]. apply moves_work in Hm. lia. Qed.

(** C31: nothing is stuck: a request that waits for a full host waits for a
    request inside it, which by leaving lets it in; so, the upstream calls
    ending, the requests that have arrived come to an end - no run of their
    steps is longer than the work left, and when no step is possible every
    request has been answered or has given up. *)
Theorem requests_come_to_an_end maxPerHost s :
  (0 < maxPerHost)%Z → reachable maxPerHost s →
  (∀ n s', moves_n n s s' → n ≤ work s)%nat ∧
  ((∀ s', ¬ moves s s') → ∀ id, ¬ live s id) ∧
  (∀ id host, n_requests s !! id = Some (Waiting host) → enter id s = None →
     ∃ id' s1, n_requests s !! id' = Some (Inside host) ∧ leave id' s = Some s1 ∧ is_Some (enter id s1)).
Proof.
  intros Hpos Hr. destruct (reachable_counted _ _ Hr) as [Hc Hm]. rewrite <- Hm in Hpos. split; [|split].
  - intros n s' Hn. apply moves_n_work in Hn. lia.
  - intros Hstuck id (host & [Hid|Hid]).
    + apply (Hstuck (mkNet (n_limiter s) (<[id := Cancelled]> (n_requests s)))), (move_lose_patience _ _ id).
      unfold lose_patience. by rewrite Hid.
    + eapply Hstuck, (move_leave _ _ id). unfold leave. by rewrite Hid.
  - intros id host Hid Hfull. unfold enter in Hfull. rewrite Hid in Hfull. destruct (Hc Hpos host) as [Hs Hle].
    destruct (Z.ltb_spec (Z.of_nat (sem host (n_limiter s))) (cl_max (n_limiter s))); [done|].
    destruct (map_choose (inside host s)) as (id' & ph & Hin).
    { intros E. rewrite E, map_size_empty in Hs. lia. }
    apply map_lookup_filter_Some in Hin as [Hin Hph]. simpl in Hph. subst ph.
    eexists id', _. split; [done|]. unfold leave. rewrite Hin. split; [reflexivity|].
    unfold enter, unlimited. simpl. rewrite lookup_insert_ne by congruence. rewrite Hid.
    destruct (Z.leb_spec (cl_max (n_limiter s)) 0); [lia|]. simpl. rewrite sem_set_sem, decide_True by done.
    destruct (Z.ltb_spec (Z.of_nat (pred (sem host (n_limiter s)))) (cl_max (n_limiter s))); [done|lia].
Qed.

(** ** Witnesses: a cap of one, two requests for the same host *)

Definition ex_net1 : Net := default (initial 1) (arrive 1 "repo.example" (initial 1)).
Definition ex_net2 : Net := default (initial 1) (enter 1 ex_net1).
Definition ex_net : Net := default (initial 1) (arrive 2 "repo.example" ex_net2).

Lemma ex_net_reachable : reachable 1 ex_net.
Proof.
  assert (arrive 1 "repo.example" (initial 1) = Some ex_net1) as H1 by (vm_compute; reflexivity).
  assert (enter 1 ex_net1 = Some ex_net2) as H2 by (vm_compute; reflexivity).
  assert (arrive 2 "repo.example" ex_net2 = Some ex_net) as H3 by (vm_compute; reflexivity).
  pose proof (reach_arrive 1 _ _ _ _ (reach_initial 1) H1) as R1.
  pose proof (reach_move 1 _ _ R1 (move_enter _ _ _ H2)) as R2.
  exact (reach_arrive 1 _ _ _ _ R2 H3).
Qed.

Lemma concurrency_capped_witness :
  (0 < 1)%Z ∧ reachable 1 ex_net ∧ n_requests ex_net !! 2 = Some (Waiting "repo.example") ∧
  (Z.of_nat (size (inside "repo.example" ex_net)) ≤ 1)%Z.
Proof.
  split; [lia|]. split; [exact ex_net_reachable|]. split; [reflexivity|].
  exact (proj1 (concurrency_capped 1 ex_net "repo.example" eq_refl ex_net_reachable)).
Defined.

Lemma requests_come_to_an_end_witness :
  reachable 1 ex_net ∧ enter 2 ex_net = None ∧
  ∃ id' s1, n_requests ex_net !! id' = Some (Inside "repo.example") ∧ leave id' ex_net = Some s1 ∧ is_Some (enter 2 s1).
Proof.
  split; [exact ex_net_reachable|]. split; [vm_compute; reflexivity|].
  exact (proj2 (proj2 (requests_come_to_an_end 1 ex_net eq_refl ex_net_reachable)) 2%nat "repo.example" eq_refl eq_refl).
Defined.
