(* ===== verification/Telemetry.v ===== *)
(** * Package telemetry: tallies and their persistence (aggregate.go, sqlite.go, store.go)

    The three tables as records and finite maps.  Each statement consumes one
    element of a fault schedule and fails if it is [true]; a transaction writes
    at its commit.  encoding/json on events and on the gates' tallies are
    arguments; SQLite's LIKE is defined as its documentation has it. *)
From S2P Require Import Prelude GoStd Gate.
Local Open Scope Z_scope.

(** ** aggregate.go *)

Record GateCounts := mkGateCounts { gc_Pass : Z; gc_Block : Z }.

(** The eight counters an aggregate, a snapshot and a day have. *)
Record Tallies := mkTallies {
  requests : Z;
  cacheHits : Z;
  blocked : Z;
  errors : Z;
  supplyBlocked : Z;
  cveBlocked : Z;
  malwareBlocked : Z;
  denylisted : Z;
}.

Notation Gates := (gmap string GateCounts).

Record aggregate := mkAggregate { ag : Tallies; gates : Gates }.

Definition no_tallies : Tallies := mkTallies 0 0 0 0 0 0 0 0.

Definition empty_gates : Gates :=
  {[GateCache := mkGateCounts 0 0; GateSupply := mkGateCounts 0 0; GateCVE := mkGateCounts 0 0; GateMalware := mkGateCounts 0 0]}.

Definition newAggregate : aggregate := mkAggregate no_tallies empty_gates.

Definition gatePipeline : list string := [GateSupply; GateCVE; GateMalware].

(** The position of a gate in the pipeline, -1 when it is not in it. *)
Fixpoint index_of (g : string) (l : list string) (i : Z) : Z :=
  match l with
  | [] => -1
  | x :: l' => if x =s? g then i else index_of g l' (i + 1)
  end.

Definition pipelineIndex (g : string) : Z := index_of g gatePipeline 0.

(** uint64 additions. *)
Definition plus64 (a b : Z) : Z := wrapu64 (a + b).

Definition add_tallies (a b : Tallies) : Tallies :=
  mkTallies (plus64 (requests a) (requests b)) (plus64 (cacheHits a) (cacheHits b)) (plus64 (blocked a) (blocked b))
    (plus64 (errors a) (errors b)) (plus64 (supplyBlocked a) (supplyBlocked b)) (plus64 (cveBlocked a) (cveBlocked b))
    (plus64 (malwareBlocked a) (malwareBlocked b)) (plus64 (denylisted a) (denylisted b)).

Definition add_gate (a b : GateCounts) : GateCounts :=
  mkGateCounts (plus64 (gc_Pass a) (gc_Pass b)) (plus64 (gc_Block a) (gc_Block b)).

(** a.gates[g].Pass++ and, when the gate is known, Block++; every aggregate
    has the four gates. *)
Definition pass_gate (gs : Gates) (g : string) : Gates := alter (fun c => add_gate c (mkGateCounts 1 0)) g gs.
Definition block_gate (gs : Gates) (g : string) : Gates := alter (fun c => add_gate c (mkGateCounts 0 1)) g gs.

Definition pass_gates (n : Z) (gs : Gates) : Gates := foldl pass_gate gs (take (Z.to_nat n) gatePipeline).

(** record on the counters: what the event adds. *)
Definition event_tallies (ev : Event) : Tallies :=
  match ev_Verdict ev with
  | VerdictCache => mkTallies 1 1 0 0 0 0 0 0
  | VerdictPass => mkTallies 1 0 0 0 0 0 0 0
  | VerdictError => mkTallies 1 0 0 1 0 0 0 0
  | VerdictBlock =>
      if ev_Reason ev =s? ReasonDenylisted then mkTallies 1 0 1 0 0 0 0 1
      else if ev_Gate ev =s? GateSupply then mkTallies 1 0 1 0 1 0 0 0
      else if ev_Gate ev =s? GateCVE then mkTallies 1 0 1 0 0 1 0 0
      else if ev_Gate ev =s? GateMalware then mkTallies 1 0 1 0 0 0 1 0
      else mkTallies 1 0 1 0 0 0 0 0
  end.

(** record on the gates. *)
Definition event_gates (ev : Event) (gs : Gates) : Gates :=
  match ev_Verdict ev with
  | VerdictCache => pass_gate gs GateCache
  | VerdictPass =>
      let idx := pipelineIndex (ev_Gate ev) in
      let idx := if idx <? 0 then Z.of_nat (length gatePipeline) - 1 else idx in
      pass_gates (idx + 1) gs
  | VerdictBlock =>
      let gs := block_gate gs (ev_Gate ev) in
      let idx := pipelineIndex (ev_Gate ev) in
      if 0 <? idx then pass_gates idx gs else gs
  | VerdictError => gs
  end.

Definition record (ev : Event) (a : aggregate) : aggregate :=
  mkAggregate (add_tallies (ag a) (event_tallies ev)) (event_gates ev (gates a)).

(** add: a gate only one side has keeps its tally, added to zero. *)
Definition add_gates (a b : Gates) : Gates :=
  union_with (fun x y => Some (add_gate x y)) a (add_gate (mkGateCounts 0 0) <$> b).

Definition add (o a : aggregate) : aggregate := mkAggregate (add_tallies (ag a) (ag o)) (add_gates (gates a) (gates o)).

Record Snapshot := mkSnapshot { StartedAt : Z; sn_tallies : Tallies; sn_gates : Gates }.
Record DailyMetric := mkDaily { Day : string; dm_tallies : Tallies; dm_gates : Gates }.

Definition snapshot (started : Z) (a : aggregate) : Snapshot := mkSnapshot started (ag a) (gates a).
Definition dailyMetric (day : string) (a : aggregate) : DailyMetric := mkDaily day (ag a) (gates a).

(** The four gates, and those of [src] in their place or besides. *)
Definition gatesToPtr (src : Gates) : Gates := src ∪ empty_gates.

Definition aggregateFromSnapshot (s : Snapshot) : aggregate := mkAggregate (sn_tallies s) (gatesToPtr (sn_gates s)).
Definition aggregateFromDaily (d : DailyMetric) : aggregate := mkAggregate (dm_tallies d) (gatesToPtr (dm_gates d)).

(** ** The calendar *)

(** Year, month and day of an instant in UTC: days are counted from March 1 of
    year 0, in eras of 400 years. *)
Definition civil (t : Z) : Z * Z * Z :=
  let z := t / (24 * Hour) + 306 in
  let era := z / 146097 in
  let doe := z mod 146097 in
  let yoe := (doe - doe / 1460 + doe / 36524 - doe / 146096) / 365 in
  let doy := doe - (365 * yoe + yoe / 4 - yoe / 100) in
  let mp := (5 * doy + 2) / 153 in
  let d := doy - (153 * mp + 2) / 5 + 1 in
  let m := if mp <? 10 then mp + 3 else mp - 9 in
  (yoe + era * 400 + (if m <=? 2 then 1 else 0), m, d).

Fixpoint zero_pad (n : nat) (s : string) : string :=
  match n with
  | O => s
  | S n' => if (String.length s <? n)%nat then String "0" (zero_pad n' s) else s
  end.

(** t.UTC().Format("2006-01-02"), for a year that is not negative. *)
Definition format_day (t : Z) : string :=
  let '(y, m, d) := civil t in
  zero_pad 4 (FormatInt y) +:+ "-" +:+ zero_pad 2 (FormatInt m) +:+ "-" +:+ zero_pad 2 (FormatInt d).

Definition dayKey (now : Z) (ev : Event) : string :=
  format_day (if time_is_zero (ev_Time ev) then now else ev_Time ev).

(** ** sqlite.go: LIKE *)

(** SQLite's LIKE with the escape character backslash: [%] is any sequence,
    [_] any one character, ASCII letters match in either case. *)
Fixpoint like (p : bytes) (s : bytes) : bool :=
  match p with
  | [] => bool_decide (s = [])
  | "%"%char :: p' => (fix any (s : bytes) : bool := like p' s || match s with [] => false | _ :: s' => any s' end) s
  | "\"%char :: c :: p' =>
      match s with d :: s' => Ascii.eqb (lower_byte c) (lower_byte d) && like p' s' | [] => false end
  | "_"%char :: p' => match s with _ :: s' => like p' s' | [] => false end
  | c :: p' => match s with d :: s' => Ascii.eqb (lower_byte c) (lower_byte d) && like p' s' | [] => false end
  end.

(** likeEscaper.Replace *)
Definition like_escape (t : bytes) : bytes :=
  c ← t; if Ascii.eqb c "\" || Ascii.eqb c "%" || Ascii.eqb c "_" then ["\"%char; c] else [c].

Definition like_pattern (text : string) : bytes := "%"%char :: like_escape (to_bytes text) ++ ["%"%char].

(** ** sqlite.go: the tables *)

Definition verdict_string (v : Verdict) : string :=
  match v with VerdictPass => "PASS" | VerdictCache => "CACHE" | VerdictBlock => "BLOCK" | VerdictError => "ERROR" end.

Record EventRow := mkEventRow {
  er_id : Z;
  er_ts : Z;
  er_request_id : string;
  er_ecosystem : string;
  er_package : string;
  er_version : string;
  er_verdict : string;
  er_gate : string;
  er_reason : string;
  er_http_status : Z;
  er_published_at : Z;
  er_block_until : Z;
  er_detail_json : string;
}.

#[export] Instance EventRow_eq_dec : EqDecision EventRow.
Proof. solve_decision. Defined.

(** A row of daily_metrics or counters. *)
Record CountRow := mkCountRow { cr_tallies : Tallies; cr_gates_json : string }.

(** [seq] is the last identifier AUTOINCREMENT gave. *)
Record Repo := mkRepo {
  events : list EventRow;
  seq : Z;
  counters : option CountRow;
  daily : gmap string CountRow;
  repo_faults : list bool;
}.

(** encoding/json on events and gate tallies; marshalling an event can fail. *)
Class TelemetryJSON := {
  marshal_event : Event -> option string;
  unmarshal_event : string -> option Event;
  marshal_gates : Gates -> string;
  unmarshal_gates : string -> option Gates;
}.

(** [event_text]: an event as it reads back, bytes that are not UTF-8 replaced. *)
Class TelemetryJSONLaws `{TelemetryJSON} := {
  event_text : Event -> Event;
  unmarshal_marshal_event ev b : marshal_event ev = Some b → unmarshal_event b = Some (event_text ev);
  unmarshal_marshal_gates g : unmarshal_gates (marshal_gates g) = Some g;
  marshal_gates_some g : marshal_gates g ≠ "";
}.

Definition unixNanoOrZero (t : Z) : Z := if time_is_zero t then 0 else time_unix_nano t.

Definition defaultEventRetentionDays : Z := 30.
Definition defaultDailyRetentionDays : Z := 365.

(** The retention of events and of days: two Durations. *)
Record Retention := mkRetention { eventRetention : Z; dailyRetention : Z }.

Definition NewRetention (eventDays dailyDays : Z) : Retention :=
  let e := if eventDays <=? 0 then defaultEventRetentionDays else eventDays in
  let d := if dailyDays <=? 0 then defaultDailyRetentionDays else dailyDays in
  mkRetention (dur_mul (dur_mul e 24) Hour) (dur_mul (dur_mul d 24) Hour).

Definition repo_fails : St Repo bool := fun s =>
  match repo_faults s with
  | [] => (false, s)
  | b :: fs => (b, mkRepo (events s) (seq s) (counters s) (daily s) fs)
  end.

(** A statement of a transaction: a failure rolls it back. *)
Definition stmt (k : St Repo bool) : St Repo bool :=
  b <- repo_fails;; if b : bool then ret_st false else k.

(** database/sql refuses a uint64 with its high bit set. *)
Definition storable (t : Tallies) : bool :=
  forallb (fun n => n <? 2 ^ 63)
    [requests t; cacheHits t; blocked t; errors t; supplyBlocked t; cveBlocked t; malwareBlocked t; denylisted t].

Section Repo.
Context `{TJ : TelemetryJSON}.

Definition parseGates (blob : string) : Gates :=
  if blob =s? "" then ∅ else default ∅ (unmarshal_gates blob).

Definition readCounters (r : option CountRow) : aggregate :=
  match r with
  | None => newAggregate
  | Some r => aggregateFromSnapshot (mkSnapshot 0 (cr_tallies r) (parseGates (cr_gates_json r)))
  end.

Definition upsertCounters (s : Snapshot) : CountRow := mkCountRow (sn_tallies s) (marshal_gates (sn_gates s)).

Definition readDaily (day : string) (r : option CountRow) : aggregate :=
  match r with
  | None => newAggregate
  | Some r => aggregateFromDaily (mkDaily day (cr_tallies r) (parseGates (cr_gates_json r)))
  end.

Definition upsertDaily (d : DailyMetric) : CountRow := mkCountRow (dm_tallies d) (marshal_gates (dm_gates d)).

Definition event_row (id : Z) (ev : Event) (blob : string) : EventRow :=
  mkEventRow id (unixNanoOrZero (ev_Time ev)) (ev_RequestID ev) (ev_Ecosystem ev) (ev_Package ev) (ev_Version ev)
    (verdict_string (ev_Verdict ev)) (ev_Gate ev) (ev_Reason ev) (ev_HTTPStatus ev)
    (unixNanoOrZero (ev_PublishedAt ev)) (unixNanoOrZero (ev_BlockUntil ev)) blob.

(** [true] when the event and its tallies are committed. *)
Definition RecordEvent (now : Z) (ev : Event) : St Repo bool :=
  let delta := record ev newAggregate in
  stmt
    match marshal_event ev with
    | None => ret_st false
    | Some blob =>
        stmt (stmt (fun s =>
          let total := add delta (readCounters (counters s)) in
          let day := dayKey now ev in
          (if negb (storable (ag total)) then ret_st false
           else
             stmt (stmt (fun s =>
               let today := add delta (readDaily day (daily s !! day)) in
               (if negb (storable (ag today)) then ret_st false
                else
                  stmt (stmt (fun s =>
                    (true, mkRepo (events s ++ [event_row (seq s + 1) ev blob]) (seq s + 1)
                             (Some (upsertCounters (snapshot 0 total)))
                             (<[day := upsertDaily (dailyMetric day today)]> (daily s)) (repo_faults s))))) s))) s))
    end.

(** A read of all its rows: one query and one iteration, each may fail. *)
Definition read {A} (f : Repo -> A) : St Repo (option A) :=
  b <- repo_fails;;
  if b : bool then ret_st None
  else
    b <- repo_fails;;
    if b : bool then ret_st None else s <- get_st;; ret_st (Some (f s)).

(** One row. *)
Definition Repo_Snapshot (started : Z) : St Repo (option Snapshot) :=
  b <- repo_fails;;
  if b : bool then ret_st None else s <- get_st;; ret_st (Some (snapshot started (readCounters (counters s)))).

(** ORDER BY ts DESC, id DESC *)
Definition newer (a b : EventRow) : Prop := er_ts b < er_ts a ∨ (er_ts a = er_ts b ∧ er_id b ≤ er_id a).

#[export] Instance newer_dec : RelDecision newer.
Proof. intros a b. unfold newer. apply _. Defined.

Definition newest_first (l : list EventRow) : list EventRow := merge_sort newer l.

(** LIMIT n, when n is positive. *)
Definition limit {A} (n : Z) (l : list A) : list A := if 0 <? n then take (Z.to_nat n) l else l.

(** The events of the rows that decode. *)
Definition decoded (l : list EventRow) : list Event := omap (fun r => unmarshal_event (er_detail_json r)) l.

Definition Recent (n : Z) : St Repo (option (list Event)) :=
  read (fun s => decoded (limit n (newest_first (events s)))).

(** Cursor: [cu_ID = 0] starts from the newest. *)
Record Cursor := mkCursor { cu_TS : Z; cu_ID : Z }.
Definition no_cursor : Cursor := mkCursor 0 0.
Definition Zero (c : Cursor) : bool := cu_ID c =? 0.

(** The WHERE clause. *)
Definition page_matches (verdict text : string) (cursor : Cursor) (r : EventRow) : bool :=
  ((verdict =s? "") || (er_verdict r =s? verdict)) &&
  ((text =s? "") ||
   (like (like_pattern text) (to_bytes (er_package r +:+ "@" +:+ er_version r)) ||
    like (like_pattern text) (to_bytes (er_request_id r)))) &&
  (Zero cursor ||
   (let ts := time_unix_nano (cu_TS cursor) in
    (er_ts r <? ts) || ((er_ts r =? ts) && (er_id r <? cu_ID cursor)))).

(** for rows.Next(): the events out, the cursor, the rows scanned. *)
Fixpoint page_loop (lim : Z) (scanned : Z) (out : list Event) (next : Cursor) (l : list EventRow)
    : list Event * Cursor * Z :=
  match l with
  | [] => (out, next, scanned)
  | r :: l' =>
      let scanned := scanned + 1 in
      if (0 <? lim) && (lim <? scanned) then (out, next, scanned)
      else
        let next := mkCursor (of_unix 0 (er_ts r)) (er_id r) in
        match unmarshal_event (er_detail_json r) with
        | None => page_loop lim scanned out next l'
        | Some ev => page_loop lim scanned (out ++ [ev]) next l'
        end
  end.

Definition page (verdict text : string) (cursor : Cursor) (lim : Z) (l : list EventRow) : list Event * Cursor :=
  let rows := limit (if 0 <? lim then lim + 1 else 0) (newest_first (filter (page_matches verdict text cursor) l)) in
  let '(out, next, scanned) := page_loop lim 0 [] no_cursor rows in
  (out, if (0 <? lim) && (scanned <=? lim) then no_cursor else next).

Definition Page (verdict text : string) (cursor : Cursor) (lim : Z) : St Repo (option (list Event * Cursor)) :=
  read (fun s => page verdict text cursor lim (events s)).

(** for rows.Next(): the first row of each package decides. *)
Fixpoint quarantine_loop (now : Z) (seen : gset string) (l : list EventRow) : list Event :=
  match l with
  | [] => []
  | r :: l' =>
      match unmarshal_event (er_detail_json r) with
      | None => quarantine_loop now seen l'
      | Some ev =>
          let key := ev_Ecosystem ev +:+ "/" +:+ ev_Package ev +:+ "@" +:+ ev_Version ev in
          if bool_decide (key ∈ seen) then quarantine_loop now seen l'
          else
            let seen := {[key]} ∪ seen in
            if negb (time_after (ev_BlockUntil ev) now) then quarantine_loop now seen l'
            else ev :: quarantine_loop now seen l'
      end
  end.

Definition is_hold (r : EventRow) : bool :=
  (er_verdict r =s? verdict_string VerdictBlock) && (er_gate r =s? GateSupply).

Definition Quarantine (now : Z) : St Repo (option (list Event)) :=
  read (fun s => quarantine_loop now ∅ (newest_first (filter is_hold (events s)))).

(** ORDER BY day DESC *)
Definition later_day (a b : string * CountRow) : Prop := bytes_le (to_bytes b.1) (to_bytes a.1) = true.

#[export] Instance later_day_dec : RelDecision later_day.
Proof. intros a b. unfold later_day. apply _. Defined.

Definition DailyMetrics (days : Z) : St Repo (option (list DailyMetric)) :=
  read (fun s => (fun p => mkDaily p.1 (cr_tallies p.2) (parseGates (cr_gates_json p.2))) <$>
                   limit days (merge_sort later_day (map_to_list (daily s)))).

(** DELETE FROM events, then FROM daily_metrics; [now1] and [now2] are the two
    readings of the clock. *)
Definition Prune (r : Retention) (now1 now2 : Z) : St Repo bool :=
  let eventCutoff := time_unix_nano (time_add now1 (wrap64 (- eventRetention r))) in
  stmt (fun s =>
    stmt (fun s =>
      let dayCutoff := to_bytes (format_day (time_add now2 (wrap64 (- dailyRetention r)))) in
      (true, mkRepo (events s) (seq s) (counters s)
               (filter (fun p => bytes_le dayCutoff (to_bytes p.1) = true) (daily s)) (repo_faults s)))
      (mkRepo (filter (fun e => eventCutoff <= er_ts e) (events s)) (seq s) (counters s) (daily s) (repo_faults s))).
End Repo.

(** ** store.go *)

Section StoreFacade.
Context `{TJ : TelemetryJSON}.

(** A failed write loses the event; a failed read shows nothing. *)
Definition Store_Record (now : Z) (ev : Event) : St Repo unit := _ <- RecordEvent now ev;; ret_st tt.

Definition Store_Snapshot (started : Z) : St Repo Snapshot :=
  s <- Repo_Snapshot started;;
  ret_st (default (mkSnapshot started no_tallies ∅) s).

Definition Store_Recent (n : Z) : St Repo (list Event) := l <- Recent n;; ret_st (default [] l).

Definition Store_Page (verdict text : string) (cursor : Cursor) (lim : Z) : St Repo (list Event * Cursor) :=
  p <- Page verdict text cursor lim;; ret_st (default ([], no_cursor) p).

Definition Store_Quarantine (now : Z) : St Repo (list Event) := l <- Quarantine now;; ret_st (default [] l).
End StoreFacade.
