(* ===== verification/TelemetrySpec.v ===== *)
(** * The promises of the telemetry store

    The counters, the daily rows and the event log agree, whatever fails; a
    text search is a search for a substring; the quarantine is the newest hold
    of each package. *)
From S2P Require Import Prelude GoStd Gate Telemetry.
Local Open Scope Z_scope.

(** ** LIKE is a substring search *)

Definition same_letters (a b : bytes) : Prop := lower_byte <$> a = lower_byte <$> b.

Lemma like_any p s : like ("%"%char :: p) s = true ↔ ∃ a b, s = a ++ b ∧ like p b = true.
Proof.
  split.
  - induction s as [|c s IH]; intros H; cbn in H; apply orb_true_iff in H as [H|H]; try done.
    + by exists [], [].
    + by exists [], (c :: s).
    + destruct (IH H) as (a & b & -> & Hb). by exists (c :: a), b.
  - intros (a & b & -> & Hb). induction a as [|c a IH]; cbn.
    + destruct b; cbn; by rewrite Hb.
    + apply orb_true_iff. right. exact IH.
Qed.

Definition special (c : ascii) : bool := Ascii.eqb c "\" || Ascii.eqb c "%" || Ascii.eqb c "_".

Lemma like_literal c p s :
  like (if special c then "\"%char :: c :: p else c :: p) s =
  match s with d :: s' => Ascii.eqb (lower_byte c) (lower_byte d) && like p s' | [] => false end.
Proof. by destruct c as [[] [] [] [] [] [] [] []]. Qed.

Lemma like_escaped t p s :
  like (like_escape t ++ p) s = true ↔ ∃ u b, s = u ++ b ∧ same_letters u t ∧ like p b = true.
Proof.
  revert s. induction t as [|c t IH]; intros s.
  - split; [intros H; by exists [], s|]. intros (u & b & -> & Hu & Hb). destruct u; [done|discriminate].
  - assert (like_escape (c :: t) ++ p = if special c then "\"%char :: c :: (like_escape t ++ p) else c :: (like_escape t ++ p)) as ->.
    { unfold like_escape. simpl. fold (special c). by destruct (special c). }
    rewrite like_literal. destruct s as [|d s].
    + split; [done|]. intros (u & b & Hs & Hu & _). symmetry in Hs. apply app_nil in Hs as [-> ->]. discriminate.
    + rewrite andb_true_iff, Ascii.eqb_eq, IH. split.
      * intros [Hc (u & b & -> & Hu & Hb)]. exists (d :: u), b. unfold same_letters in *. rewrite !fmap_cons, Hc, Hu. done.
      * intros (u & b & Hs & Hu & Hb). destruct u as [|x u]; [discriminate|]. injection Hs as <- ->.
        unfold same_letters in Hu. rewrite !fmap_cons in Hu. injection Hu as Hx Hu. split; [done|]. by exists u, b.
Qed.

(** The search text matches literally, whatever wildcards it holds. *)
Lemma like_substring text s :
  like (like_pattern text) s = true ↔ ∃ a u b, s = a ++ u ++ b ∧ same_letters u (to_bytes text).
Proof.
  unfold like_pattern. rewrite like_any. split.
  - intros (a & b & -> & Hb). apply like_escaped in Hb as (u & b' & -> & Hu & _). by exists a, u, b'.
  - intros (a & u & b & -> & Hu). exists a, (u ++ b). split; [done|]. apply like_escaped. exists u, b. split; [done|].
    split; [done|]. apply like_any. exists b, []. by rewrite app_nil_r.
Qed.

(** ** Tallies as counts *)

Definition count (p : Event -> bool) (l : list Event) : Z := Z.of_nat (length (List.filter p l)).

Definition is_verdict (v : Verdict) (ev : Event) : bool := bool_decide (ev_Verdict ev = v).

(** A block counted under a gate: not for the denylist. *)
Definition blocked_at (g : string) (ev : Event) : bool :=
  is_verdict VerdictBlock ev && negb (ev_Reason ev =s? ReasonDenylisted) && (ev_Gate ev =s? g).

(** An event is in the pass tally of a gate: it cleared the gate. *)
Definition cleared (g : string) (ev : Event) : bool :=
  match ev_Verdict ev with
  | VerdictCache => g =s? GateCache
  | VerdictPass =>
      (g =s? GateSupply) ||
      ((g =s? GateCVE) && negb (ev_Gate ev =s? GateSupply)) ||
      ((g =s? GateMalware) && negb (ev_Gate ev =s? GateSupply) && negb (ev_Gate ev =s? GateCVE))
  | VerdictBlock =>
      ((g =s? GateSupply) && ((ev_Gate ev =s? GateCVE) || (ev_Gate ev =s? GateMalware))) ||
      ((g =s? GateCVE) && (ev_Gate ev =s? GateMalware))
  | VerdictError => false
  end.

Definition stopped (g : string) (ev : Event) : bool := is_verdict VerdictBlock ev && (ev_Gate ev =s? g).

Definition tallies_of (l : list Event) : Tallies :=
  mkTallies (Z.of_nat (length l)) (count (is_verdict VerdictCache) l) (count (is_verdict VerdictBlock) l)
    (count (is_verdict VerdictError) l) (count (blocked_at GateSupply) l) (count (blocked_at GateCVE) l)
    (count (blocked_at GateMalware) l)
    (count (λ ev, is_verdict VerdictBlock ev && (ev_Reason ev =s? ReasonDenylisted)) l).

Definition gate_of (l : list Event) (g : string) : GateCounts := mkGateCounts (count (cleared g) l) (count (stopped g) l).

Definition gates_of (l : list Event) : Gates :=
  {[GateCache := gate_of l GateCache; GateSupply := gate_of l GateSupply; GateCVE := gate_of l GateCVE;
    GateMalware := gate_of l GateMalware]}.

Definition tally (l : list Event) : aggregate := mkAggregate (tallies_of l) (gates_of l).

Lemma count_snoc p l ev : count p (l ++ [ev]) = count p l + (if p ev then 1 else 0).
Proof.
  unfold count. rewrite List.filter_app, length_app. simpl. destruct (p ev); simpl; lia.
Qed.

Lemma count_bounds p l : 0 ≤ count p l ≤ Z.of_nat (length l).
Proof. unfold count. pose proof (List.filter_length_le p l). lia. Qed.

(** Few enough for no count to wrap. *)
Definition countable (l : list Event) : Prop := Z.of_nat (length l) < 2 ^ 63.

Lemma plus_count p l ev b :
  countable l → (p ev = (b =? 1)) → (b = 0 ∨ b = 1) → plus64 (count p l) b = count p (l ++ [ev]).
Proof.
  unfold countable, plus64. intros Hl Hp Hb. pose proof (count_bounds p l). rewrite count_snoc, Hp.
  rewrite wrapu64_small by lia. destruct Hb as [-> | ->]; done.
Qed.

Lemma tallies_snoc l ev :
  countable l → add_tallies (tallies_of l) (add_tallies no_tallies (event_tallies ev)) = tallies_of (l ++ [ev]).
Proof.
  intros Hl. unfold tallies_of at 2. rewrite length_app. rewrite !count_snoc.
  assert (∀ p, 0 ≤ count p l < 2 ^ 63) as Hb by (intros p; pose proof (count_bounds p l); unfold countable in *; lia).
  unfold countable in Hl.
  assert (∀ a b, 0 ≤ a < 2 ^ 63 → (b = 0 ∨ b = 1) → plus64 a (plus64 0 b) = a + b) as Hp.
  { intros a b Ha Hbb. unfold plus64. rewrite (wrapu64_small (0 + b)), wrapu64_small by lia. lia. }
  unfold event_tallies, blocked_at, is_verdict.
  destruct (ev_Verdict ev) eqn:Hv; destruct (ev_Reason ev =s? ReasonDenylisted) eqn:Hr;
    (destruct (String.eqb_spec (ev_Gate ev) GateSupply) as [E|]; [rewrite ?E|
      destruct (String.eqb_spec (ev_Gate ev) GateCVE) as [E|]; [rewrite ?E|
        destruct (String.eqb_spec (ev_Gate ev) GateMalware) as [E|]; [rewrite ?E|]]]);
    unfold add_tallies, tallies_of, no_tallies; simpl; repeat case_bool_decide; try congruence; simpl; f_equal;
    rewrite ?Hp; auto; lia.
Qed.

(** A value for each of the four gates. *)
Definition each_gate (f : string -> GateCounts) : Gates :=
  {[GateCache := f GateCache; GateSupply := f GateSupply; GateCVE := f GateCVE; GateMalware := f GateMalware]}.

Definition bit (b : bool) : Z := if b then 1 else 0.

Lemma each_gate_None f g :
  g ≠ GateCache → g ≠ GateSupply → g ≠ GateCVE → g ≠ GateMalware → each_gate f !! g = None.
Proof. intros. unfold each_gate. rewrite !lookup_insert_ne by done. by rewrite lookup_singleton_ne. Qed.

Lemma event_gates_each ev :
  event_gates ev empty_gates = each_gate (λ g, mkGateCounts (bit (cleared g ev)) (bit (stopped g ev))).
Proof.
  unfold event_gates, cleared, stopped, is_verdict. destruct (ev_Verdict ev) eqn:Hv; cbn [bool_decide decide].
  - destruct (String.eqb_spec (ev_Gate ev) GateSupply) as [->|H1]; [reflexivity|].
    destruct (String.eqb_spec (ev_Gate ev) GateCVE) as [->|H2]; [reflexivity|].
    destruct (String.eqb_spec (ev_Gate ev) GateMalware) as [->|H3]; [reflexivity|].
    assert (pipelineIndex (ev_Gate ev) = -1) as ->; [|reflexivity]. unfold pipelineIndex, gatePipeline, index_of.
    by rewrite !(proj2 (String.eqb_neq _ _)) by congruence.
  - reflexivity.
  - destruct (String.eqb_spec (ev_Gate ev) GateSupply) as [->|H1]; [reflexivity|].
    destruct (String.eqb_spec (ev_Gate ev) GateCVE) as [->|H2]; [reflexivity|].
    destruct (String.eqb_spec (ev_Gate ev) GateMalware) as [->|H3]; [reflexivity|].
    assert (pipelineIndex (ev_Gate ev) = -1) as ->.
    { unfold pipelineIndex, gatePipeline, index_of. by rewrite !(proj2 (String.eqb_neq _ _)) by congruence. }
    destruct (String.eqb_spec (ev_Gate ev) GateCache) as [->|H4]; [reflexivity|].
    simpl. unfold block_gate. rewrite alter_id.
    + unfold each_gate.
      rewrite (proj2 (String.eqb_neq (ev_Gate ev) GateSupply) H1), (proj2 (String.eqb_neq (ev_Gate ev) GateCVE) H2),
        (proj2 (String.eqb_neq (ev_Gate ev) GateMalware) H3), (proj2 (String.eqb_neq (ev_Gate ev) GateCache) H4).
      reflexivity.
    + intros c. change empty_gates with (each_gate (λ _, mkGateCounts 0 0)). by rewrite each_gate_None.
  - reflexivity.
Qed.

Lemma add_gates_each f f' :
  add_gates (each_gate f) (each_gate f') = each_gate (λ g, add_gate (f g) (add_gate (mkGateCounts 0 0) (f' g))).
Proof. reflexivity. Qed.

Lemma gates_snoc l ev : countable l → add_gates (gates_of l) (event_gates ev empty_gates) = gates_of (l ++ [ev]).
Proof.
  intros Hl. rewrite event_gates_each. change (gates_of l) with (each_gate (gate_of l)). rewrite add_gates_each.
  assert (∀ g, add_gate (gate_of l g) (add_gate (mkGateCounts 0 0) (mkGateCounts (bit (cleared g ev)) (bit (stopped g ev)))) =
    gate_of (l ++ [ev]) g) as E.
  { intros g. unfold gate_of, add_gate, plus64. simpl. rewrite !count_snoc. unfold countable in Hl.
    pose proof (count_bounds (cleared g) l). pose proof (count_bounds (stopped g) l).
    f_equal; [destruct (cleared g ev)|destruct (stopped g ev)]; cbn [bit];
      rewrite (wrapu64_small (0 + _)) by lia; rewrite wrapu64_small by lia; lia. }
  unfold gates_of, each_gate. by rewrite !E.
Qed.

Lemma add_record l ev : countable l → add (record ev newAggregate) (tally l) = tally (l ++ [ev]).
Proof. intros Hl. unfold add, record, tally. simpl. by rewrite tallies_snoc, gates_snoc. Qed.

(** ** The transaction of an event *)

Definition tables (s : Repo) : list EventRow * Z * option CountRow * gmap string CountRow :=
  (events s, seq s, counters s, daily s).

Lemma stmt_run k s : ∃ s1, tables s1 = tables s ∧ (stmt k s = (false, s1) ∨ stmt k s = k s1).
Proof.
  unfold stmt. rewrite bind_st_run. unfold repo_fails. destruct (repo_faults s) as [|[] fs]; simpl.
  - exists s. auto.
  - exists (mkRepo (events s) (seq s) (counters s) (daily s) fs). auto.
  - exists (mkRepo (events s) (seq s) (counters s) (daily s) fs). auto.
Qed.

Lemma repo_fails_tables s : tables (repo_fails s).2 = tables s.
Proof. unfold repo_fails. by destruct (repo_faults s). Qed.

Lemma read_Some {A} (f : Repo -> A) s x s' :
  (∀ s1, tables s1 = tables s → f s1 = f s) → read f s = (Some x, s') → x = f s.
Proof.
  intros Hf. unfold read. rewrite bind_st_run. pose proof (repo_fails_tables s) as H1.
  destruct (repo_fails s) as [[] s1]; cbn [fst snd] in *; [done|]. rewrite bind_st_run.
  pose proof (repo_fails_tables s1) as H2. destruct (repo_fails s1) as [[] s2]; cbn [fst snd] in *; [done|].
  cbn. intros [= <- _]. apply Hf. congruence.
Qed.

Section Tallies.
Context `{TJL : TelemetryJSONLaws}.

(** All or nothing. *)
Lemma RecordEvent_cases now ev s :
  let res := RecordEvent now ev s in
  let total := add (record ev newAggregate) (readCounters (counters s)) in
  let day := dayKey now ev in
  let today := add (record ev newAggregate) (readDaily day (daily s !! day)) in
  (res.1 = false ∧ tables res.2 = tables s) ∨
  (res.1 = true ∧ storable (ag total) = true ∧ ∃ blob, marshal_event ev = Some blob ∧
   tables res.2 = (events s ++ [event_row (seq s + 1) ev blob], seq s + 1, Some (upsertCounters (snapshot 0 total)),
                   <[day := upsertDaily (dailyMetric day today)]> (daily s))).
Proof.
  cbv zeta. unfold RecordEvent. cbv zeta.
  match goal with |- context [stmt ?k s] => destruct (stmt_run k s) as (s1 & H1 & [-> | ->]) end; [by left|].
  destruct (marshal_event ev) as [blob|] eqn:Hb; [|by left].
  match goal with |- context [stmt ?k s1] => destruct (stmt_run k s1) as (s2 & H2 & [-> | ->]) end; [left; split; [done|simpl; congruence]|].
  match goal with |- context [stmt ?k s2] => destruct (stmt_run k s2) as (s3 & H3 & [-> | ->]) end; [left; split; [done|simpl; congruence]|].
  assert (tables s3 = tables s) as E by congruence. clear H1 H2 H3. injection E as E1 E2 E3 E4. rewrite E3.
  destruct (storable (ag (add (record ev newAggregate) (readCounters (counters s))))) eqn:Hst; cbn [negb];
    [|left; split; [done|unfold tables; simpl; congruence]].
  assert (tables s3 = tables s) as E by (unfold tables; congruence).
  match goal with |- context [stmt ?k s3] => destruct (stmt_run k s3) as (s4 & H4 & [-> | ->]) end; [left; split; [done|simpl; congruence]|].
  match goal with |- context [stmt ?k s4] => destruct (stmt_run k s4) as (s5 & H5 & [-> | ->]) end; [left; split; [done|simpl; congruence]|].
  assert (tables s5 = tables s) as E' by congruence. injection E' as F1 F2 F3 F4. rewrite F4.
  destruct (negb (storable _)); [left; split; [done|unfold tables; simpl; congruence]|].
  match goal with |- context [stmt ?k s5] => destruct (stmt_run k s5) as (s6 & H6 & [-> | ->]) end; [left; split; [done|simpl; congruence]|].
  match goal with |- context [stmt ?k s6] => destruct (stmt_run k s6) as (s7 & H7 & [-> | ->]) end; [left; split; [done|simpl; congruence]|].
  right. split; [done|]. split; [done|]. exists blob. split; [done|].
  assert (tables s7 = tables s) as E' by congruence. injection E' as G1 G2 G3 G4. unfold tables. simpl. by rewrite G1, G2, G4.
Qed.

Lemma parse_marshal g : parseGates (marshal_gates g) = g.
Proof.
  unfold parseGates. rewrite (proj2 (String.eqb_neq _ _) (marshal_gates_some g)).
  by rewrite unmarshal_marshal_gates.
Qed.

Lemma gatesToPtr_tally l : gatesToPtr (gates (tally l)) = gates (tally l).
Proof. reflexivity. Qed.

Lemma read_counters_tally l : readCounters (Some (upsertCounters (snapshot 0 (tally l)))) = tally l.
Proof.
  unfold readCounters, upsertCounters, aggregateFromSnapshot. cbn [cr_tallies cr_gates_json sn_tallies sn_gates snapshot].
  by rewrite parse_marshal, gatesToPtr_tally.
Qed.

Lemma read_daily_tally day l : readDaily day (Some (upsertDaily (dailyMetric day (tally l)))) = tally l.
Proof.
  unfold readDaily, upsertDaily, aggregateFromDaily. cbn [cr_tallies cr_gates_json dm_tallies dm_gates dailyMetric].
  by rewrite parse_marshal, gatesToPtr_tally.
Qed.

(** The events recorded on a day, each with the clock it was recorded at. *)
Definition on_day (day : string) (l : list (Z * Event)) : list Event := snd <$> filter (λ p, dayKey p.1 p.2 = day) l.

(** The tables hold exactly the events of [l]. *)
Definition agrees (s : Repo) (l : list (Z * Event)) : Prop :=
  countable l.*2 ∧ decoded (events s) = event_text <$> l.*2 ∧ er_id <$> events s = seqZ 1 (Z.of_nat (length l)) ∧ seq s = Z.of_nat (length l) ∧
  readCounters (counters s) = tally l.*2 ∧
  ∀ day, readDaily day (daily s !! day) = tally (on_day day l) ∧ (is_Some (daily s !! day) ↔ on_day day l ≠ []).

Lemma agrees_tables s s' l : tables s = tables s' → agrees s l → agrees s' l.
Proof. intros [= E1 E2 E3 E4]. unfold agrees. by rewrite E1, E2, E3, E4. Qed.

Lemma on_day_snoc day l now ev :
  on_day day (l ++ [(now, ev)]) = on_day day l ++ (if decide (dayKey now ev = day) then [ev] else []).
Proof. unfold on_day. rewrite filter_app, fmap_app. f_equal. rewrite filter_cons, filter_nil. simpl. by case_decide. Qed.

Lemma countable_on_day day l : countable l.*2 → countable (on_day day l).
Proof.
  unfold countable, on_day. rewrite !length_fmap. pose proof (length_filter (λ p : Z * Event, dayKey p.1 p.2 = day) l). lia.
Qed.

Lemma RecordEvent_agrees now ev s l :
  agrees s l → agrees (RecordEvent now ev s).2 (if (RecordEvent now ev s).1 then l ++ [(now, ev)] else l).
Proof.
  intros Ha. pose proof Ha as (Hc & Hd & Hi & Hs & Ht & Hday).
  destruct (RecordEvent_cases now ev s) as [[-> E]|(-> & Hst & blob & Hb & E)]; [by eapply agrees_tables|].
  injection E as E1 E2 E3 E4. unfold agrees. rewrite E1, E2, E3, E4, Ht, fmap_app. cbn [fmap list_fmap snd].
  rewrite Ht in Hst. rewrite add_record in * by done.
  split_and!.
  - unfold storable in Hst. cbn [ag tally tallies_of requests forallb] in Hst. bool_to_prop.
    rewrite length_app in *. unfold countable. rewrite length_app. simpl in *. lia.
  - unfold decoded in *. rewrite omap_app, Hd, fmap_app. simpl. by rewrite (unmarshal_marshal_event _ _ Hb).
  - rewrite fmap_app, Hi, length_app, Nat2Z.inj_add, seqZ_app by lia. rewrite Hs. f_equal. simpl. by rewrite Z.add_comm.
  - rewrite Hs, length_app. simpl. lia.
  - apply read_counters_tally.
  - intros day. rewrite on_day_snoc. destruct (decide (dayKey now ev = day)) as [<-|Hne].
    + rewrite lookup_insert_eq. destruct (Hday (dayKey now ev)) as [-> _].
      rewrite add_record by by apply countable_on_day. rewrite read_daily_tally. split; [done|]. split; [|by eexists].
      intros _. by destruct (on_day _ l).
    + rewrite lookup_insert_ne by done. rewrite app_nil_r. apply Hday.
Qed.
End Tallies.

(** ** Sequences of events *)

Definition empty_repo (faults : list bool) : Repo := mkRepo [] 0 None ∅ faults.

Section Sequences.
Context `{TJL : TelemetryJSONLaws}.

(** Events recorded one after the other, each with the clock read for it: the
    ones committed, and the tables after. *)
Fixpoint record_all (evs : list (Z * Event)) (s : Repo) : list (Z * Event) * Repo :=
  match evs with
  | [] => ([], s)
  | p :: evs =>
      let '(ok, s) := RecordEvent p.1 p.2 s in
      let '(l, s) := record_all evs s in
      (if ok : bool then p :: l else l, s)
  end.

Lemma agrees_empty faults : agrees (empty_repo faults) [].
Proof. split_and!; [done..|]. intros day. simpl. rewrite lookup_empty. split; [done|]. by split; [intros []|]. Qed.

Lemma record_all_agrees evs s l :
  agrees s l → (record_all evs s).1 `sublist_of` evs ∧ agrees (record_all evs s).2 (l ++ (record_all evs s).1).
Proof.
  revert s l. induction evs as [|[now ev] evs IH]; intros s l Ha; simpl; [by rewrite app_nil_r|].
  pose proof (RecordEvent_agrees now ev s l Ha) as Hr. destruct (RecordEvent now ev s) as [ok s1]; simpl in *.
  specialize (IH s1 _ Hr). destruct (record_all evs s1) as [l1 s2]; simpl in *. destruct IH as [Hsub Hag].
  destruct ok; [rewrite <- app_assoc in Hag|]; split; try done; by constructor.
Qed.

Lemma storable_tally l : countable l → storable (ag (tally l)) = true.
Proof.
  intros Hl. unfold countable in Hl. unfold storable, tally, tallies_of. cbn [ag requests cacheHits blocked errors supplyBlocked
    cveBlocked malwareBlocked denylisted forallb].
  assert (∀ p, (count p l <? 2 ^ 63) = true) as Hc by (intros p; pose proof (count_bounds p l); apply Z.ltb_lt; lia).
  rewrite !Hc, (proj2 (Z.ltb_lt _ _) Hl). done.
Qed.

(** Without failures every event that can be marshalled is recorded. *)
Lemma RecordEvent_done now ev s l :
  repo_faults s = [] → agrees s l → Z.of_nat (length l) + 1 < 2 ^ 63 → is_Some (marshal_event ev) →
  (RecordEvent now ev s).1 = true ∧ repo_faults (RecordEvent now ev s).2 = [].
Proof.
  intros Hf (Hc & Hd & Hi & Hs & Ht & Hday) Hlen [blob Hb]. unfold RecordEvent. cbv zeta. rewrite Hb.
  assert (∀ k, stmt k s = k s) as Hk by (intros k; unfold stmt; rewrite bind_st_run; unfold repo_fails; by rewrite Hf).
  rewrite !Hk. cbn beta. rewrite Ht, add_record by done.
  rewrite storable_tally by (unfold countable in *; rewrite length_app, length_fmap; simpl; lia). cbn [negb]. rewrite !Hk. cbn beta.
  destruct (Hday (dayKey now ev)) as [-> _]. rewrite add_record by by apply countable_on_day.
  rewrite storable_tally.
  2:{ unfold countable, on_day. rewrite length_app, length_fmap. simpl.
      pose proof (length_filter (λ p : Z * Event, dayKey p.1 p.2 = dayKey now ev) l). lia. }
  cbn [negb]. rewrite !Hk. simpl. done.
Qed.

Lemma record_all_done evs s l :
  repo_faults s = [] → agrees s l → Z.of_nat (length l + length evs) < 2 ^ 63 →
  Forall (λ p, is_Some (marshal_event p.2)) evs → (record_all evs s).1 = evs.
Proof.
  revert s l. induction evs as [|[now ev] evs IH]; intros s l Hf Ha Hlen Hm; simpl; [done|].
  apply Forall_cons in Hm as [Hm Hms]. simpl in *.
  destruct (RecordEvent_done now ev s l Hf Ha) as [Hok Hf']; [lia|done|].
  pose proof (RecordEvent_agrees now ev s l Ha) as Hr. destruct (RecordEvent now ev s) as [ok s1]; simpl in *. subst ok.
  specialize (IH s1 _ Hf' Hr). destruct (record_all evs s1) as [l1 s2]; simpl in *. f_equal. apply IH; [|done].
  rewrite length_app. simpl. lia.
Qed.

(** C24: the console's numbers are the log's.  Whatever statements fail while
    events are recorded into an empty store, the events committed are some of
    those recorded, in order; the log holds exactly them, as text; the lifetime counters
    are their counts, by verdict, by the gate that blocked and by the gates
    each cleared; and a day has a row exactly when one of them fell on it,
    with the counts of that day's.  Requests are the passes, the cache hits,
    the blocks and the errors.  Without failures nothing recorded is lost. *)
Theorem tallies_agree evs faults :
  let '(l, s) := record_all evs (empty_repo faults) in
  l `sublist_of` evs ∧ decoded (events s) = event_text <$> l.*2 ∧
  readCounters (counters s) = tally l.*2 ∧
  (∀ day, readDaily day (daily s !! day) = tally (on_day day l) ∧ (is_Some (daily s !! day) ↔ on_day day l ≠ [])) ∧
  (let t := ag (readCounters (counters s)) in
   requests t = count (is_verdict VerdictPass) l.*2 + cacheHits t + blocked t + errors t) ∧
  (faults = [] → Z.of_nat (length evs) < 2 ^ 63 → Forall (λ p, is_Some (marshal_event p.2)) evs → l = evs).
Proof.
  pose proof (record_all_agrees evs (empty_repo faults) [] (agrees_empty faults)) as [Hsub (Hc & Hd & _ & _ & Ht & Hday)].
  pose proof (λ Hf, record_all_done evs (empty_repo faults) [] Hf (agrees_empty faults)) as Hall.
  destruct (record_all evs (empty_repo faults)) as [l s]; simpl in *.
  split_and!; [done..| |auto]. rewrite Ht. cbn [ag tally tallies_of requests cacheHits blocked errors].
  clear. induction l as [|[now ev] l IH] using rev_ind; [done|]. rewrite fmap_app. cbn [fmap list_fmap snd].
  rewrite length_app, !count_snoc. simpl. simpl in IH.
  unfold is_verdict in *. destruct (ev_Verdict ev); simpl; lia.
Qed.
End Sequences.

(** ** The quarantine *)

Section QuarantineSpec.
Context `{TJ : TelemetryJSON}.

Definition package_key (ev : Event) : string := ev_Ecosystem ev +:+ "/" +:+ ev_Package ev +:+ "@" +:+ ev_Version ev.

Lemma quarantine_loop_elem now seen l ev :
  ev ∈ quarantine_loop now seen l ↔
  ∃ l1 l2, decoded l = l1 ++ ev :: l2 ∧ (∀ e, e ∈ l1 → package_key e ≠ package_key ev) ∧
    package_key ev ∉ seen ∧ now < ev_BlockUntil ev.
Proof.
  revert seen. induction l as [|r l IH]; intros seen; cbn [quarantine_loop].
  { split; [set_solver|]. intros (l1 & l2 & H & _). by destruct l1. }
  assert (decoded (r :: l) = match unmarshal_event (er_detail_json r) with Some e => e :: decoded l | None => decoded l end) as ->
    by done.
  destruct (unmarshal_event (er_detail_json r)) as [e|]; [|apply IH]. cbv zeta. fold (package_key e).
  assert ((∃ l1 l2, e :: decoded l = l1 ++ ev :: l2 ∧ (∀ x, x ∈ l1 → package_key x ≠ package_key ev) ∧
      package_key ev ∉ seen ∧ now < ev_BlockUntil ev) ↔
    (ev = e ∧ package_key e ∉ seen ∧ now < ev_BlockUntil e) ∨
    (∃ l1 l2, decoded l = l1 ++ ev :: l2 ∧ (∀ x, x ∈ l1 → package_key x ≠ package_key ev) ∧
      package_key ev ∉ {[package_key e]} ∪ seen ∧ now < ev_BlockUntil ev)) as ->.
  { split.
    - intros (l1 & l2 & Heq & Hl1 & Hs & Hn). destruct l1 as [|x l1]; injection Heq as -> Heq; [by left|right].
      exists l1, l2. split_and!; [done|set_solver| |done]. pose proof (Hl1 x). set_solver.
    - intros [(-> & Hs & Hn)|(l1 & l2 & Heq & Hl1 & Hs & Hn)]; [exists [], (decoded l); set_solver|].
      exists (e :: l1), l2. rewrite Heq. split_and!; [done| |set_solver|done].
      intros x [-> |Hx]%elem_of_cons; [set_solver|by apply Hl1]. }
  case_bool_decide as Hseen.
  - rewrite IH. split; [|intros [(_ & ? & _)|H]; [done|]].
    + intros (l1 & l2 & ? & ? & Hs & ?). right. exists l1, l2. split_and!; [done..| |done].
      intros [Hk%elem_of_singleton|?]%elem_of_union; [by rewrite Hk in Hs|done].
    + destruct H as (l1 & l2 & ? & ? & Hs & ?). exists l1, l2. split_and!; [done..| |done].
      intros ?. apply Hs, elem_of_union. by right.
  - unfold time_after. destruct (Z.ltb_spec now (ev_BlockUntil e)) as [Hn|Hn]; cbn [negb].
    + rewrite elem_of_cons, IH. set_solver.
    + rewrite IH. split; [by right|]. intros [(-> & _ & ?)|H]; [lia|done].
Qed.

(** the quarantine lists exactly the newest hold of each package, when its
    release is still ahead; an expired newest hold hides the older ones, and a
    package is listed once. *)
Theorem Quarantine_exact now s l s' :
  Quarantine now s = (Some l, s') →
  let holds := decoded (newest_first (filter is_hold (events s))) in
  (∀ ev, ev ∈ l ↔ ∃ l1 l2, holds = l1 ++ ev :: l2 ∧ (∀ e, e ∈ l1 → package_key e ≠ package_key ev) ∧ now < ev_BlockUntil ev) ∧
  NoDup (package_key <$> l).
Proof.
  intros H. cbv zeta.
  assert (l = quarantine_loop now ∅ (newest_first (filter is_hold (events s)))) as ->.
  { apply (read_Some (λ s, quarantine_loop now ∅ (newest_first (filter is_hold (events s)))) s l s'); [|exact H].
    by intros s1 [= -> _ _ _]. }
  split; [intros ev; rewrite quarantine_loop_elem; set_solver|]. clear H. generalize (∅ : gset string) as seen.
  induction (newest_first _) as [|r rows IH]; intros seen; cbn [quarantine_loop]; [constructor|].
  destruct (unmarshal_event _) as [e|]; [|apply IH]. cbv zeta. fold (package_key e).
  case_bool_decide; [apply IH|]. destruct (negb _); [apply IH|]. rewrite fmap_cons. constructor; [|apply IH].
  intros (x & Hk & (l1 & l2 & _ & _ & Hx & _)%quarantine_loop_elem)%list_elem_of_fmap. set_solver.
Qed.
End QuarantineSpec.

(** ** Witnesses *)

(** A codec: the binary digits of a countable type's encoding. *)
Fixpoint ex_bits (p : positive) : string :=
  match p with
  | xH => "1"
  | xO p => String "o" (ex_bits p)
  | xI p => String "i" (ex_bits p)
  end.

Fixpoint ex_read (s : string) : option positive :=
  match s with
  | String "o" s => xO <$> ex_read s
  | String "i" s => xI <$> ex_read s
  | String "1" EmptyString => Some xH
  | _ => None
  end%char.

Lemma ex_read_bits p : ex_read (ex_bits p) = Some p.
Proof. induction p as [p IH|p IH|]; simpl; by rewrite ?IH. Qed.

Lemma ex_bits_some p : ex_bits p ≠ "".
Proof. by destruct p. Qed.

#[local] Instance ex_Verdict_countable : Countable Verdict.
Proof.
  refine (inj_countable' (λ v, match v with VerdictPass => 0 | VerdictCache => 1 | VerdictBlock => 2 | VerdictError => 3 end%nat)
    (λ n, match n with 0 => VerdictPass | 1 => VerdictCache | 2 => VerdictBlock | _ => VerdictError end%nat) _). by intros [].
Defined.

#[local] Instance ex_Severity_countable : Countable Severity.
Proof.
  refine (inj_countable' (λ v, match v with SeverityUnknown => 0 | SeverityLow => 1 | SeverityMedium => 2 | SeverityHigh => 3 | SeverityCritical => 4 end%nat)
    (λ n, match n with 0 => SeverityUnknown | 1 => SeverityLow | 2 => SeverityMedium | 3 => SeverityHigh | _ => SeverityCritical end%nat) _). by intros [].
Defined.

#[local] Instance ex_CVE_countable : Countable CVEFinding.
Proof.
  refine (inj_countable' (λ f, (cf_ID f, cf_Aliases f, cf_Severity f, cf_Summary f, cf_Score f))
    (λ '(a, b, c, d, e), mkFinding a b c d e) _). by intros [].
Defined.

#[local] Instance ex_GateCounts_dec : EqDecision GateCounts.
Proof. solve_decision. Defined.
#[local] Instance ex_GateCounts_countable : Countable GateCounts.
Proof. refine (inj_countable' (λ c, (gc_Pass c, gc_Block c)) (λ '(a, b), mkGateCounts a b) _). by intros []. Defined.

#[local] Instance ex_Event_dec : EqDecision Event.
Proof. solve_decision. Defined.
#[local] Instance ex_Event_countable : Countable Event.
Proof.
  refine (inj_countable' (λ e, ((ev_RequestID e, ev_Time e, ev_Ecosystem e, ev_Package e, ev_Version e, ev_Verdict e),
     (ev_Gate e, ev_LatencyMS e, ev_HTTPStatus e, ev_Reason e, ev_BlockedBy e, ev_CVEs e),
     (ev_MalwareEngine e, ev_MalwareSignature e, ev_PublishedAt e, ev_BlockUntil e)))
    (λ '((a, b, c, d, e, f), (g, h, i, j, k, l), (m, n, o, p)), mkEvent a b c d e f g h i j k l m n o p) _). by intros [].
Defined.

Definition ex_telemetry_json : TelemetryJSON := {|
  marshal_event ev := Some (ex_bits (encode ev));
  unmarshal_event s := ex_read s ≫= decode;
  marshal_gates g := ex_bits (encode g);
  unmarshal_gates s := ex_read s ≫= decode;
|}.

Lemma ex_telemetry_json_laws : @TelemetryJSONLaws ex_telemetry_json.
Proof.
  exists id; simpl.
  - intros ev b [= <-]. rewrite ex_read_bits. simpl. apply decode_encode.
  - intros g. rewrite ex_read_bits. simpl. apply decode_encode.
  - intros g. apply ex_bits_some.
Qed.

#[local] Existing Instances ex_telemetry_json ex_telemetry_json_laws.

Definition ex_event (id : string) (t : Z) (v : Verdict) (g reason : string) (until : Z) : Event :=
  mkEvent id t "npm" "left-pad" "1.3.0" v g 12 200 reason [] [] "" "" 0 until.

Definition ex_day : Z := of_unix 1709164800 0.

Definition ex_log : list (Z * Event) :=
  [(ex_day, ex_event "a" ex_day VerdictPass GateMalware "" 0); (ex_day, ex_event "b" ex_day VerdictBlock GateCVE "cve_found" 0);
   (ex_day, ex_event "c" (ex_day + 24 * Hour) VerdictCache GateCache "" 0)].

(** A pass at the last gate counts at all three, a block at the second at the
    first; the third event is of the next day. *)
Example ex_counts :
  ag (tally ex_log.*2) = mkTallies 3 1 1 0 0 1 0 0 ∧
  gates (tally ex_log.*2) = {[GateCache := mkGateCounts 1 0; GateSupply := mkGateCounts 2 0; GateCVE := mkGateCounts 1 1;
                              GateMalware := mkGateCounts 1 0]} ∧
  length (on_day "2024-02-29" ex_log) = 2%nat ∧ length (on_day "2024-03-01" ex_log) = 1%nat.
Proof. vm_compute. done. Qed.

Lemma tallies_agree_witness :
  (record_all ex_log (empty_repo [])).1 = ex_log ∧
  readCounters (counters (record_all ex_log (empty_repo [])).2) = tally ex_log.*2.
Proof.
  pose proof (tallies_agree ex_log []) as H. destruct (record_all ex_log (empty_repo [])) as [l s].
  destruct H as (_ & _ & Hc & _ & _ & Hall).
  assert (l = ex_log) as Hl by (apply Hall; [reflexivity|reflexivity|]; repeat constructor; by eexists).
  cbn [fst snd]. rewrite Hl in Hc. split; [exact Hl|exact Hc].
Defined.

(** The newest hold has expired, so the older one is not listed either. *)
Definition ex_holds : Repo :=
  mkRepo [event_row 1 (ex_event "a" 100 VerdictBlock GateSupply "too_new" 900) (default "" (marshal_event (ex_event "a" 100 VerdictBlock GateSupply "too_new" 900)));
          event_row 2 (ex_event "b" 200 VerdictBlock GateSupply "too_new" 300) (default "" (marshal_event (ex_event "b" 200 VerdictBlock GateSupply "too_new" 300)))]
    2 None ∅ [].

Lemma Quarantine_exact_witness :
  (Quarantine 250 ex_holds).1 = Some [ex_event "b" 200 VerdictBlock GateSupply "too_new" 300] ∧
  ∃ l1 l2, decoded (newest_first (filter is_hold (events ex_holds))) = l1 ++ ex_event "b" 200 VerdictBlock GateSupply "too_new" 300 :: l2.
Proof.
  assert (Quarantine 250 ex_holds = (Some [ex_event "b" 200 VerdictBlock GateSupply "too_new" 300], ex_holds)) as Hq
    by (vm_compute; reflexivity).
  split; [by rewrite Hq|].
  destruct (proj1 (proj1 (Quarantine_exact 250 ex_holds _ _ Hq) (ex_event "b" 200 VerdictBlock GateSupply "too_new" 300)))
    as (l1 & l2 & H & _); [by apply list_elem_of_singleton|]. by exists l1, l2.
Defined.

(** Keeping days for 106752 days or more wraps the retention to a negative
    Duration: the next prune deletes every day, today's too. *)
Example ex_retention_overflow :
  let s := mkRepo [] 0 None {["2024-02-29" := mkCountRow no_tallies ""]} [] in
  daily (Prune (NewRetention 0 106751) ex_day ex_day s).2 = daily s ∧
  daily (Prune (NewRetention 0 106752) ex_day ex_day s).2 = ∅.
Proof. vm_compute. done. Qed.
