(* ===== verification/Broadcaster.v ===== *)
(** * Package telemetry: live subscribers (broadcaster.go)

    Channels are an explicit store: a subscription owns one, the publisher and
    the subscriber share it.  Every operation runs under the mutex; closing a
    closed channel and sending on one are panics, the answer [None]. *)
From S2P Require Import Prelude GoStd Gate Telemetry TelemetrySpec.

Definition subscriberBuffer : nat := 16.

Record Chan := mkChan { buf : list Event; ch_closed : bool }.

(** [chans] is every channel made so far, [next] the one made next. *)
Record Broadcaster := mkBroadcaster {
  subs : gset nat;
  b_closed : bool;
  chans : gmap nat Chan;
  next : nat;
}.

Definition NewBroadcaster : Broadcaster := mkBroadcaster ∅ false ∅ 0.

Definition close_chan (k : nat) (m : gmap nat Chan) : option (gmap nat Chan) :=
  c ← m !! k; if ch_closed c then None else Some (<[k := mkChan (buf c) true]> m).

Definition Subscribe (b : Broadcaster) : nat * Broadcaster :=
  let k := next b in
  if b_closed b then (k, mkBroadcaster (subs b) true (<[k := mkChan [] true]> (chans b)) (S k))
  else (k, mkBroadcaster ({[k]} ∪ subs b) false (<[k := mkChan [] false]> (chans b)) (S k)).

(** The cancel function of subscription [k]. *)
Definition cancel (k : nat) (b : Broadcaster) : option Broadcaster :=
  if bool_decide (k ∈ subs b) then
    m ← close_chan k (chans b); Some (mkBroadcaster (subs b ∖ {[k]}) (b_closed b) m (next b))
  else Some b.

(** for ch := range b.subs *)
Fixpoint over {A} (f : nat -> A -> option A) (ks : list nat) (a : A) : option A :=
  match ks with
  | [] => Some a
  | k :: ks => a ← f k a; over f ks a
  end.

Definition Close (b : Broadcaster) : option Broadcaster :=
  m ← over close_chan (elements (subs b)) (chans b); Some (mkBroadcaster ∅ true m (next b)).

(** select { case ch <- ev: default: } *)
Definition try_send (ev : Event) (k : nat) (m : gmap nat Chan) : option (gmap nat Chan) :=
  c ← m !! k;
  if ch_closed c then None
  else Some (if (length (buf c) <? subscriberBuffer)%nat then <[k := mkChan (buf c ++ [ev]) false]> m else m).

Definition Publish (ev : Event) (b : Broadcaster) : option Broadcaster :=
  m ← over (try_send ev) (elements (subs b)) (chans b); Some (mkBroadcaster (subs b) (b_closed b) m (next b)).

(** A receive by the subscriber, when an event is waiting. *)
Definition receive (k : nat) (b : Broadcaster) : option Event * Broadcaster :=
  match chans b !! k with
  | Some (mkChan (ev :: l) cl) => (Some ev, mkBroadcaster (subs b) (b_closed b) (<[k := mkChan l cl]> (chans b)) (next b))
  | _ => (None, b)
  end.

(** ** Hub *)

(** Record: into the store, then to the subscribers. *)
Definition Hub_Record `{TelemetryJSON} (now : Z) (ev : Event) (h : Repo * Broadcaster) : option (Repo * Broadcaster) :=
  b ← Publish ev h.2; Some ((Store_Record now ev h.1).2, b).

(** * Properties *)

(** ** Loops over the subscribers *)

(** A loop whose step touches only its own channel, on distinct channels. *)
Lemma over_spec (f : nat -> gmap nat Chan -> option (gmap nat Chan)) (g : Chan -> Chan) ks m :
  NoDup ks →
  (∀ k m, k ∈ ks → ∀ c, m !! k = Some c → ch_closed c = false → ∃ m', f k m = Some m' ∧ m' !! k = Some (g c) ∧
     ∀ j, j ≠ k → m' !! j = m !! j) →
  (∀ k, k ∈ ks → ∃ c, m !! k = Some c ∧ ch_closed c = false) →
  ∃ m', over f ks m = Some m' ∧ ∀ j, m' !! j = if decide (j ∈ ks) then g <$> m !! j else m !! j.
Proof.
  revert m. induction ks as [|k ks IH]; intros m Hn Hf Hm.
  - exists m. split; [done|]. intros j. by rewrite decide_False by set_solver.
  - apply NoDup_cons in Hn as [Hk Hn]. destruct (Hm k) as (c & Hc & Hcl); [set_solver|].
    destruct (Hf k m ltac:(set_solver) c Hc Hcl) as (m1 & Hf1 & H1 & Hne).
    destruct (IH m1 Hn) as (m2 & Ho & Hl).
    + intros k' m' Hk'. apply Hf. set_solver.
    + intros k' Hk'. rewrite Hne by set_solver. apply Hm. set_solver.
    + exists m2. cbn [over]. rewrite Hf1. split; [done|]. intros j. rewrite Hl.
      destruct (decide (j = k)) as [->|Hj].
      * rewrite decide_False by done. rewrite decide_True by set_solver. by rewrite H1, Hc.
      * rewrite Hne by done. destruct (decide (j ∈ ks)); [rewrite decide_True by set_solver|rewrite decide_False by set_solver]; done.
Qed.

(** ** Runs *)

(** What happens at a broadcaster, and to it: [got] is what each subscriber has
    received, [sent] what was published while it was subscribed. *)
Inductive BOp := BSubscribe | BCancel (k : nat) | BClose | BPublish (ev : Event) | BReceive (k : nat).

Record BWorld := mkBWorld {
  br : Broadcaster;
  got : gmap nat (list Event);
  sent : gmap nat (list Event);
}.

Definition bstep (op : BOp) (w : BWorld) : option BWorld :=
  let b := br w in
  match op with
  | BSubscribe => let '(k, b) := Subscribe b in Some (mkBWorld b (<[k := []]> (got w)) (<[k := []]> (sent w)))
  | BCancel k => b ← cancel k b; Some (mkBWorld b (got w) (sent w))
  | BClose => b ← Close b; Some (mkBWorld b (got w) (sent w))
  | BPublish ev =>
      b' ← Publish ev b;
      Some (mkBWorld b' (got w) (map_imap (fun k l => Some (if decide (k ∈ subs b) then l ++ [ev] else l)) (sent w)))
  | BReceive k =>
      let '(ev, b) := receive k b in
      Some (mkBWorld b (match ev with Some ev => alter (fun l => l ++ [ev]) k (got w) | None => got w end) (sent w))
  end.

Fixpoint bruns (ops : list BOp) (w : BWorld) : option BWorld :=
  match ops with
  | [] => Some w
  | op :: ops => w ← bstep op w; bruns ops w
  end.

Definition bworld0 : BWorld := mkBWorld NewBroadcaster ∅ ∅.

(** The subscriber of [k] is never more than a buffer behind. *)
Definition keeps_up (k : nat) (w : BWorld) : Prop :=
  ∀ g s, got w !! k = Some g → sent w !! k = Some s → (length s <= length g + subscriberBuffer)%nat.

(** One channel's part of the invariant. *)
Definition chan_ok (c : Chan) (g s : list Event) : Prop :=
  (g ++ buf c) `sublist_of` s ∧ (length (buf c) <= subscriberBuffer)%nat.

Lemma close_chan_step k m c :
  m !! k = Some c → ch_closed c = false →
  ∃ m', close_chan k m = Some m' ∧ m' !! k = Some (mkChan (buf c) true) ∧ ∀ j, j ≠ k → m' !! j = m !! j.
Proof.
  intros Hc Hcl. unfold close_chan. rewrite Hc. simpl. rewrite Hcl. eexists. split; [done|].
  rewrite lookup_insert_eq. split; [done|]. intros. by rewrite lookup_insert_ne.
Qed.

(** What a send leaves in the channel. *)
Definition pushed (ev : Event) (c : Chan) : Chan :=
  if (length (buf c) <? subscriberBuffer)%nat then mkChan (buf c ++ [ev]) false else c.

Lemma try_send_step ev k m c :
  m !! k = Some c → ch_closed c = false →
  ∃ m', try_send ev k m = Some m' ∧ m' !! k = Some (pushed ev c) ∧ ∀ j, j ≠ k → m' !! j = m !! j.
Proof.
  intros Hc Hcl. unfold try_send, pushed. rewrite Hc. simpl. rewrite Hcl. eexists. split; [done|].
  destruct (_ <? _)%nat; [|done]. rewrite lookup_insert_eq. split; [done|]. intros. by rewrite lookup_insert_ne.
Qed.

(** A channel's events and its subscriber's, before and after a step. *)
Definition chan_step (P : Prop) (c : Chan) (g s : list Event) (c' : Chan) (g' s' : list Event) : Prop :=
  (chan_ok c g s → chan_ok c' g' s') ∧ (P → g ++ buf c = s → g' ++ buf c' = s').

Lemma pushed_step ev c g s :
  chan_step (length (s ++ [ev]) <= length g + subscriberBuffer)%nat c g s (pushed ev c) g (s ++ [ev]).
Proof.
  unfold chan_step, chan_ok, pushed. destruct (Nat.ltb_spec (length (buf c)) subscriberBuffer) as [Hl|Hl]; simpl; split.
  - intros [Hs Hb]. rewrite length_app. simpl. split; [|lia]. rewrite app_assoc. by apply sublist_app.
  - intros _ <-. by rewrite app_assoc.
  - intros [Hs Hb]. split; [|done]. by apply sublist_inserts_r.
  - intros H <-. rewrite !length_app in H. simpl in H. lia.
Qed.

Lemma chan_ok_new b : chan_ok (mkChan [] b) [] [].
Proof. split; [done|]. simpl. lia. Qed.

Lemma chan_step_same P c g s : chan_step P c g s c g s.
Proof. by split. Qed.

Lemma chan_step_closed P c g s : chan_step P c g s (mkChan (buf c) true) g s.
Proof. by split. Qed.

(** The shape of a step: each channel is new, or related to what it was. *)
Definition related (w w' : BWorld) : Prop :=
  ∀ k c', chans (br w') !! k = Some c' →
    (buf c' = [] ∧ got w' !! k = Some [] ∧ sent w' !! k = Some []) ∨
    ∃ c g s g' s', chans (br w) !! k = Some c ∧ got w !! k = Some g ∧ sent w !! k = Some s ∧
      got w' !! k = Some g' ∧ sent w' !! k = Some s' ∧
      chan_step (length s' <= length g' + subscriberBuffer)%nat c g s c' g' s'.

(** What the channels and the subscriptions say of each other. *)
Definition subs_ok (b : Broadcaster) : Prop :=
  (∀ k, k ∈ subs b ↔ ∃ c, chans b !! k = Some c ∧ ch_closed c = false) ∧
  (b_closed b = true → subs b = ∅) ∧
  (∀ k, is_Some (chans b !! k) ↔ (k < next b)%nat).

Definition chans_ok (w : BWorld) : Prop :=
  ∀ k c, chans (br w) !! k = Some c → ∃ g s, got w !! k = Some g ∧ sent w !! k = Some s ∧ chan_ok c g s.

Lemma related_chans_ok w w' : chans_ok w → related w w' → chans_ok w'.
Proof.
  intros Hw Hr k c' Hc'. destruct (Hr k c' Hc') as [(Hb & Hg & Hs)|(c & g & s & g' & s' & Hc & Hg & Hs & Hg' & Hs' & Hstep & _)].
  - exists [], []. split_and!; [done..|]. unfold chan_ok. rewrite Hb. simpl. split; [done|lia].
  - exists g', s'. split_and!; [done..|]. apply Hstep. destruct (Hw k c Hc) as (g0 & s0 & ? & ? & ?). by simplify_eq.
Qed.

(** A loop that changes open channels only. *)
Lemma over_subs (f : nat -> gmap nat Chan -> option (gmap nat Chan)) (g : Chan -> Chan) b :
  subs_ok b →
  (∀ k (m : gmap nat Chan) c, m !! k = Some c → ch_closed c = false → ∃ m', f k m = Some m' ∧ m' !! k = Some (g c) ∧ ∀ j, j ≠ k → m' !! j = m !! j) →
  ∃ m', over f (elements (subs b)) (chans b) = Some m' ∧
    ∀ j, m' !! j = if decide (j ∈ subs b) then g <$> chans b !! j else chans b !! j.
Proof.
  intros (Hsub & _) Hf. destruct (over_spec f g (elements (subs b)) (chans b)) as (m' & Ho & Hl).
  - apply NoDup_elements.
  - intros k m _. apply Hf.
  - intros k Hk%elem_of_elements. by apply Hsub.
  - exists m'. split; [done|]. intros j. rewrite Hl.
    destruct (decide (j ∈ subs b)); [rewrite decide_True by by apply elem_of_elements|rewrite decide_False by by rewrite elem_of_elements];
      done.
Qed.

Section Steps.
Context (b : Broadcaster) (g0 s0 : gmap nat (list Event)).
Context (Hb : subs_ok b) (Hw : chans_ok (mkBWorld b g0 s0)).

Lemma Subscribe_step :
  let '(k, b') := Subscribe b in
  subs_ok b' ∧ related (mkBWorld b g0 s0) (mkBWorld b' (<[k := []]> g0) (<[k := []]> s0)).
Proof.
  destruct Hb as (Hsub & Hcl & Hnext).
  assert (chans b !! next b = None) as Hfresh by (apply eq_None_not_Some; rewrite Hnext; lia).
  assert (∀ cl : bool, related (mkBWorld b g0 s0)
    (mkBWorld (mkBroadcaster (if cl then subs b else {[next b]} ∪ subs b) cl (<[next b := mkChan [] cl]> (chans b)) (S (next b)))
      (<[next b := []]> g0) (<[next b := []]> s0))) as Hrel.
  { intros cl k c'. simpl. rewrite !lookup_insert. case_decide as E; [intros [= <-]; by left|]. intros Hc'. right.
    destruct (Hw k c' Hc') as (g & s & ? & ? & _). exists c', g, s, g, s. split_and!; [done..|]. apply chan_step_same. }
  unfold Subscribe. destruct (b_closed b) eqn:Hbc; (split; [|apply Hrel]); split_and!; simpl; try done;
    try (intros k; rewrite lookup_insert_is_Some, Hnext; lia); intros k;
    rewrite ?elem_of_union, ?elem_of_singleton, Hsub, lookup_insert; case_decide as E; try subst k; rewrite ?Hfresh; naive_solver.
Qed.

Lemma cancel_step k :
  ∃ b', cancel k b = Some b' ∧ subs_ok b' ∧ related (mkBWorld b g0 s0) (mkBWorld b' g0 s0).
Proof.
  destruct Hb as (Hsub & Hcl & Hnext). unfold cancel. case_bool_decide as Hk.
  - destruct (proj1 (Hsub k) Hk) as (c & Hc & Hopen). destruct (close_chan_step k (chans b) c Hc Hopen) as (m' & -> & Hk' & Hne).
    simpl. eexists. split; [reflexivity|]. split.
    + split_and!; simpl.
      * intros j. rewrite elem_of_difference, elem_of_singleton, Hsub. destruct (decide (j = k)) as [->|Hj];
          [rewrite Hk'|rewrite Hne by done]; naive_solver.
      * intros H. rewrite Hcl by done. set_solver.
      * intros j. destruct (decide (j = k)) as [->|Hj]; [rewrite Hk', <- Hnext, Hc|rewrite Hne by done; apply Hnext].
        split; by eexists.
    + intros j c' Hc'. simpl in *. right. destruct (decide (j = k)) as [->|Hj].
      * rewrite Hk' in Hc'. injection Hc' as <-. destruct (Hw k c Hc) as (g & s & ? & ? & _). exists c, g, s, g, s.
        split_and!; [done..|]. apply chan_step_closed.
      * rewrite Hne in Hc' by done. destruct (Hw j c' Hc') as (g & s & ? & ? & _). exists c', g, s, g, s.
        split_and!; [done..|]. apply chan_step_same.
  - exists b. split; [done|]. split; [done|]. intros j c' Hc'. right. destruct (Hw j c' Hc') as (g & s & ? & ? & _).
    exists c', g, s, g, s. split_and!; [done..|]. apply chan_step_same.
Qed.

Lemma Close_step : ∃ b', Close b = Some b' ∧ subs_ok b' ∧ related (mkBWorld b g0 s0) (mkBWorld b' g0 s0).
Proof.
  destruct (over_subs close_chan (λ c, mkChan (buf c) true) b Hb) as (m' & Ho & Hl); [intros; by apply close_chan_step|].
  destruct Hb as (Hsub & Hcl & Hnext). unfold Close. rewrite Ho. simpl. eexists. split; [reflexivity|]. split.
  - split_and!; simpl; [|done|].
    + intros j. split; [set_solver|]. rewrite Hl. intros (c & Hc & Hopen). exfalso. case_decide as Hj.
      * destruct (chans b !! j); simplify_eq/=.
      * apply Hj, Hsub. by exists c.
    + intros j. rewrite Hl, <- Hnext. case_decide; [by rewrite fmap_is_Some|done].
  - intros j c' Hc'. simpl in *. rewrite Hl in Hc'. right. case_decide as Hj.
    + destruct (chans b !! j) as [c|] eqn:Hc; [|done]. injection Hc' as <-. destruct (Hw j c Hc) as (g & s & ? & ? & _).
      exists c, g, s, g, s. split_and!; [done..|]. apply chan_step_closed.
    + destruct (Hw j c' Hc') as (g & s & ? & ? & _). exists c', g, s, g, s. split_and!; [done..|]. apply chan_step_same.
Qed.

Lemma Publish_step ev :
  ∃ b', Publish ev b = Some b' ∧ subs_ok b' ∧
    related (mkBWorld b g0 s0) (mkBWorld b' g0 (map_imap (fun k l => Some (if decide (k ∈ subs b) then l ++ [ev] else l)) s0)).
Proof.
  destruct (over_subs (try_send ev) (pushed ev) b Hb) as (m' & Ho & Hl); [intros; by apply try_send_step|].
  destruct Hb as (Hsub & Hcl & Hnext). unfold Publish. rewrite Ho. simpl. eexists. split; [reflexivity|]. split.
  - split_and!; simpl; [|done|].
    + intros j. rewrite Hl, Hsub. case_decide as Hj; [|done]. apply Hsub in Hj as (c & Hc & Hopen). rewrite Hc. simpl.
      split; [intros _; eexists; split; [done|]|by eexists]. unfold pushed. by destruct (_ <? _)%nat.
    + intros j. rewrite Hl, <- Hnext. case_decide; [by rewrite fmap_is_Some|done].
  - intros j c' Hc'. simpl in *. rewrite Hl in Hc'. right. rewrite map_lookup_imap. case_decide as Hj.
    + destruct (chans b !! j) as [c|] eqn:Hc; [|done]. injection Hc' as <-. destruct (Hw j c Hc) as (g & s & Hg & Hs & _).
      simpl in *. rewrite Hs. simpl. exists c, g, s, g, (s ++ [ev]). split_and!; [done..|]. apply pushed_step.
    + destruct (Hw j c' Hc') as (g & s & Hg & Hs & _). simpl in *. rewrite Hs. simpl. exists c', g, s, g, s.
      split_and!; [done..|]. apply chan_step_same.
Qed.

Lemma receive_step k :
  let '(ev, b') := receive k b in
  subs_ok b' ∧
  related (mkBWorld b g0 s0) (mkBWorld b' (match ev with Some ev => alter (fun l => l ++ [ev]) k g0 | None => g0 end) s0).
Proof.
  assert (related (mkBWorld b g0 s0) (mkBWorld b g0 s0)) as Hsame.
  { intros j c' Hc'. right. destruct (Hw j c' Hc') as (g & s & ? & ? & _). exists c', g, s, g, s.
    split_and!; [done..|]. apply chan_step_same. }
  unfold receive. destruct (chans b !! k) as [[[|ev l] cl]|] eqn:Hk; [done| |done]. destruct Hb as (Hsub & Hcl & Hnext). split.
  - split_and!; simpl; [|done|].
    + intros j. rewrite Hsub, lookup_insert. case_decide as E; [subst j; rewrite Hk|done]. naive_solver.
    + intros j. rewrite lookup_insert_is_Some, Hnext. split; [intros [<-|[_ ?]]; [|done]|].
      * apply Hnext. by eexists.
      * intros. destruct (decide (k = j)); auto.
  - intros j c'. simpl. rewrite lookup_insert. right. destruct (decide (k = j)) as [<-|Hj].
    + simplify_eq. destruct (Hw k _ Hk) as (g & s & Hg & Hs & _). simpl in *. exists (mkChan (ev :: l) cl), g, s, (g ++ [ev]), s.
      rewrite lookup_alter_eq, Hg. split_and!; [done..|]. unfold chan_step, chan_ok. simpl. rewrite <- app_assoc. simpl.
      split; [intros []; split; [done|lia]|done].
    + intros. destruct (Hw j c' ltac:(done)) as (g & s & ? & ? & _). exists c', g, s, g, s. rewrite lookup_alter_ne by done.
      split_and!; [done..|]. apply chan_step_same.
Qed.
End Steps.

Lemma bstep_run op w :
  subs_ok (br w) → chans_ok w → ∃ w', bstep op w = Some w' ∧ subs_ok (br w') ∧ related w w'.
Proof.
  intros Hb Hw. destruct w as [b g s]. destruct op as [|k| |ev|k]; simpl in *.
  - pose proof (Subscribe_step b g s Hb Hw) as H. destruct (Subscribe b) as [k b']. eexists. split; [done|]. exact H.
  - destruct (cancel_step b g s Hb Hw k) as (b' & -> & H). eexists. split; [done|]. exact H.
  - destruct (Close_step b g s Hb Hw) as (b' & -> & H). eexists. split; [done|]. exact H.
  - destruct (Publish_step b g s Hb Hw ev) as (b' & -> & H). eexists. split; [done|]. exact H.
  - pose proof (receive_step b g s Hb Hw k) as H. destruct (receive k b) as [ev b']. eexists. split; [done|]. exact H.
Qed.

(** A condition at the start and after every step. *)
Fixpoint throughout (P : BWorld -> Prop) (ops : list BOp) (w : BWorld) : Prop :=
  P w ∧ match ops with [] => True | op :: ops => ∀ w', bstep op w = Some w' → throughout P ops w' end.

Definition in_full (k : nat) (w : BWorld) : Prop :=
  ∀ c g s, chans (br w) !! k = Some c → got w !! k = Some g → sent w !! k = Some s → g ++ buf c = s.

Lemma related_in_full k w w' : related w w' → keeps_up k w' → in_full k w → in_full k w'.
Proof.
  intros Hr Hk Hf c' g' s' Hc' Hg' Hs'.
  destruct (Hr k c' Hc') as [(Hb & Hg & Hs)|(c & g & s & g1 & s1 & Hc & Hg & Hs & Hg1 & Hs1 & _ & Hstep)]; simplify_eq.
  - by rewrite Hb.
  - apply Hstep; [by apply Hk|by eapply Hf].
Qed.

Lemma bruns_run ops w :
  subs_ok (br w) → chans_ok w →
  ∃ w', bruns ops w = Some w' ∧ subs_ok (br w') ∧ chans_ok w' ∧
    ∀ k, throughout (keeps_up k) ops w → in_full k w → in_full k w'.
Proof.
  revert w. induction ops as [|op ops IH]; intros w Hb Hw; [by exists w|].
  destruct (bstep_run op w Hb Hw) as (w1 & Hstep & Hb1 & Hr).
  destruct (IH w1 Hb1 (related_chans_ok _ _ Hw Hr)) as (w2 & Hrun & Hb2 & Hw2 & Hf).
  exists w2. cbn [bruns]. rewrite Hstep. split_and!; [done..|]. intros k [_ Ht] Hk. specialize (Ht w1 Hstep).
  apply Hf; [done|]. eapply related_in_full; [done| |done]. by destruct ops; destruct Ht.
Qed.

(** subscriptions never break and never lie.  Whatever the order of
    subscribing, cancelling, publishing, receiving and closing, no channel is
    closed twice or sent on after it was closed; what a subscriber has
    received, and what waits for it, is in the order published and contains
    nothing else, at most a buffer of it waiting; a subscriber never more than
    a buffer behind misses nothing; and after the shutdown every stream is at
    its end, the later ones too. *)
Theorem subscribers_in_order ops :
  ∃ w, bruns ops bworld0 = Some w ∧
    (∀ k c, chans (br w) !! k = Some c → ∃ g s, got w !! k = Some g ∧ sent w !! k = Some s ∧
       (g ++ buf c) `sublist_of` s ∧ (length (buf c) <= subscriberBuffer)%nat ∧
       (throughout (keeps_up k) ops bworld0 → g ++ buf c = s)) ∧
    (b_closed (br w) = true → ∀ k c, chans (br w) !! k = Some c → ch_closed c = true).
Proof.
  destruct (bruns_run ops bworld0) as (w & Hrun & (Hsub & Hcl & _) & Hw & Hf).
  - split_and!; simpl; [|done|].
    + intros k. rewrite lookup_empty. split; [set_solver|naive_solver].
    + intros k. rewrite lookup_empty. split; [by intros []|lia].
  - intros k c. simpl. by rewrite lookup_empty.
  - exists w. split; [done|]. split.
    + intros k c Hc. destruct (Hw k c Hc) as (g & s & Hg & Hs & Hsl & Hlen). exists g, s. split_and!; [done..|].
      intros Ht. apply (Hf k Ht); [|done..]. intros c0 g0 s0 Hc0. simpl in Hc0. by rewrite lookup_empty in Hc0.
    + intros Hclosed k c Hc. destruct (ch_closed c) eqn:E; [done|].
      assert (k ∈ subs (br w)) as Hk by (apply Hsub; by exists c). rewrite Hcl in Hk by done. set_solver.
Qed.

(** A slow subscriber misses the seventeenth event and gets the next one after
    it has read. *)
Example ex_slow :
  let e n := ex_event (FormatInt n) 0 VerdictPass GateMalware "" 0 in
  let ops := BSubscribe :: (BPublish ∘ e <$> seqZ 1 17) ++ [BReceive 0; BPublish (e 18%Z); BCancel 0; BCancel 0; BClose; BSubscribe] in
  (λ w, (ev_RequestID <$> default [] (got w !! 0%nat), ev_RequestID <$> default [] (buf <$> chans (br w) !! 0%nat),
         ch_closed <$> chans (br w) !! 1%nat)) <$> bruns ops bworld0 =
  Some (["1"], (FormatInt <$> seqZ 2 15) ++ ["18"], Some true).
Proof. vm_compute. reflexivity. Qed.
