(* ===== verification/Console.v ===== *)
(** * Package console: what its handlers share (server.go)

    The role check every route is registered with, request bodies read through
    a limit and a strict JSON decoder, and the form in which the handlers'
    properties are stated: a handler keeps an invariant of its store and sends
    one response. *)
From S2P Require Import Prelude GoStd Upstream HTTP Users Login Token Session SessionSpec.
Local Open Scope Z_scope.

Definition StatusCreated : Z := 201.
Definition StatusConflict : Z := 409.
Definition StatusRequestEntityTooLarge : Z := 413.

(** What a strict JSON decoder makes of a limited body. *)
Inductive Decoded (A : Type) :=
| DOk (v : A)
| DTooLarge
| DInvalid (message : string).
Arguments DOk {A} v.
Arguments DTooLarge {A}.
Arguments DInvalid {A} message.

(** requireRole: the identity in the context has one of the roles. *)
Definition role_allowed (allowed : list Role) (id : option Identity) : bool :=
  match id with
  | Some id => existsb (String.eqb (id_Role id)) allowed
  | None => false
  end.

Section Console.
Context {S : Type}.
Local Notation M A := (St (AuthWorld S) A).

Definition requireRole (h : M unit) (allowed : list Role) (id : option Identity) : M unit :=
  if role_allowed allowed id then h else json_error StatusForbidden "forbidden".

(** The response to a body or a value that is refused. *)
Definition invalid (error field msg : string) : M unit :=
  json_response StatusBadRequest [("error", JString error); ("field", JString field); ("message", JString msg)].

(** MaxBytesReader, then a decoder with DisallowUnknownFields. *)
Definition decodeBody {A} (error : string) (limit : nat) (decode : bytes -> bool -> Decoded A) (r : Request)
    (k : A -> M unit) : M unit :=
  match (let '(b, bad) := limited_request_body limit r in decode b bad) with
  | DOk v => k v
  | DTooLarge =>
      json_response StatusRequestEntityTooLarge
        [("error", JString error); ("field", JString "body"); ("message", JString "request body too large")]
  | DInvalid msg => invalid error "body" msg
  end.

(** * A handler keeps an invariant of its store and answers once *)

Context (I : S -> Prop).

(** A step that keeps [I], sends no response, and whose answer satisfies [Q]. *)
Definition quiet {A} (m : M A) (Q : A -> Prop) : Prop := ∀ w, I (aw_store w) →
  I (aw_store (m w).2) ∧ Q (m w).1 ∧ ∃ l, aw_trace (m w).2 = aw_trace w ++ l ∧ a_responses l = [].

Definition answers (m : M unit) : Prop := ∀ w, I (aw_store w) →
  I (aw_store (m w).2) ∧ ∃ l rs, aw_trace (m w).2 = aw_trace w ++ l ∧ a_responses l = [rs].

Lemma answers_bind {A} (m : M A) (k : A -> M unit) Q :
  quiet m Q → (∀ a, Q a → answers (k a)) → answers (bind_st m k).
Proof.
  intros Hm Hk w Hw. rewrite bind_st_run. destruct (Hm w Hw) as (H1 & HQ & l1 & E1 & R1).
  destruct (Hk _ HQ _ H1) as (H2 & l2 & rs & E2 & R2). split; [done|]. exists (l1 ++ l2), rs.
  rewrite E2, E1, app_assoc. split; [done|]. unfold a_responses in *. by rewrite omap_app, R1, R2.
Qed.

Lemma answers_json status fields : answers (json_response status fields).
Proof. intros w Hw. by split; [|eexists _, _]. Qed.

Lemma answers_respond status b : answers (arespond status b).
Proof. intros w Hw. by split; [|eexists _, _]. Qed.

Lemma quiet_ret {A} (a : A) (Q : A -> Prop) : Q a → quiet (ret_st a) Q.
Proof. intros HQ w Hw. split; [done|]. split; [done|]. exists []. by rewrite app_nil_r. Qed.

Lemma quiet_ask {A} (q : list AuthCall -> A) mk : (∀ a, a_responses [mk a] = []) → quiet (aask q mk) (λ _, True).
Proof. intros Hmk w Hw. split; [done|]. split; [done|]. eexists. split; [done|]. apply Hmk. Qed.

Lemma quiet_store {A} (m : St S A) (Q : A -> Prop) :
  (∀ s, I s → I (m s).2 ∧ Q (m s).1) → quiet (on_store m) Q.
Proof.
  intros Hm w Hw. rewrite on_store_run. simpl. destruct (Hm _ Hw) as [? ?]. split; [done|]. split; [done|].
  exists []. by rewrite app_nil_r.
Qed.

Lemma answers_body {A} error limit (decode : bytes -> bool -> Decoded A) r k :
  (∀ v, answers (k v)) → answers (decodeBody error limit decode r k).
Proof.
  intros Hk. unfold decodeBody. destruct (let '(b, bad) := limited_request_body limit r in decode b bad);
    [apply Hk|apply answers_json..].
Qed.
End Console.

#[export] Hint Resolve answers_json answers_respond answers_body : joei.
