(* ===== verification/ConsoleUsers.v ===== *)
(** * Package console: the account management API (users.go)

    The handlers run behind the session middleware and requireRole, on the
    users table; the acting account is the one in the request's context. *)
From S2P Require Import Prelude GoStd Upstream HTTP Users Login Token Session SessionSpec Console.
Local Open Scope Z_scope.

Definition toUserJSON (u : User) : list (string * JSON) :=
  [("username", JString (Username u)); ("role", JString (u_Role u)); ("disabled", JBool (Disabled u));
   ("must_change_password", JBool (MustChangePassword u)); ("created_at", JTime (of_unix (CreatedAt u) 0));
   ("last_login_at", match LastLoginAt u with Some t => JTime (of_unix t 0) | None => JNull end)].

Section ConsoleUsers.
(** encoding/json with DisallowUnknownFields on a limited body: the new
    account's name, role and password; a role and a status, each optional; a
    password. *)
Context (decode_create : bytes -> bool -> Decoded (string * string * string)).
Context (decode_patch : bytes -> bool -> Decoded (option string * option bool)).
Context (decode_reset : bytes -> bool -> Decoded string).
Context (env : AuthEnv).
(** Whether a user store is configured. *)
Context (configured : bool).

Local Notation M := (St (AuthWorld Store)).

Definition invalidUser (field msg : string) : M unit := invalid "invalid_user" field msg.

Definition decodeUserBody {A} (decode : bytes -> bool -> Decoded A) (r : Request) (k : A -> M unit) : M unit :=
  decodeBody "invalid_user" 4096 decode r k.

Definition userStore (k : M unit) : M unit :=
  if configured then k else json_error StatusServiceUnavailable "users_unavailable".

(** writeUserError's response to an error. *)
Definition user_error (e : UserError) : M unit :=
  match e with
  | ErrInvalid field msg => invalidUser field msg
  | ErrExists => json_error StatusConflict "user_exists"
  | ErrNotFound => json_error StatusNotFound "user_not_found"
  | ErrLastAdmin => json_error StatusConflict "last_admin"
  | ErrStorage => json_error StatusInternalServerError "users_failed"
  end.

(** if s.writeUserError(w, r, err) { return } *)
Definition unless_error (e : option UserError) (k : M unit) : M unit :=
  match e with Some e => user_error e | None => k end.

Definition with_user (name : string) (k : User -> M unit) : M unit :=
  u <- on_store (Get name);;
  match u with
  | Err e => user_error e
  | Ok u => k u
  end.

(** strings.EqualFold; the actor's name is ASCII, as every stored name. *)
Definition isSelf (actor target : string) : bool := negb (actor =s? "") && EqualFold_ascii target actor.

Definition listUsers : M unit :=
  userStore (
    l <- on_store List_users;;
    match l with
    | Err e => user_error e
    | Ok l =>
        _ <- aheader "Content-Type" "application/json";;
        arespond StatusOK (BArray (toUserJSON <$> l))
    end).

Definition createUser (r : Request) : M unit :=
  userStore (decodeUserBody decode_create r (fun '(username, role, password) =>
    unless_error (ValidateUsername username) (
      if negb (Role_Valid role) then invalidUser "role" "must be admin or operator"
      else
        unless_error (ValidatePassword username password) (
          h <- aask (fun tr => ae_HashPassword env tr password) AHashPassword;;
          match h with
          | None => user_error ErrStorage
          | Some h =>
              now <- anow env;;
              e <- on_store (Create (mkUser username h role false true 0 0 None) now);;
              unless_error e (with_user username (fun u => json_response StatusCreated (toUserJSON u)))
          end)))).

(** The change of status, after the change of role. *)
Definition patch_disabled (cur : User) (change : bool) (d : bool) : M unit :=
  e <- (if change then on_store (SetDisabled (Username cur) d) else ret_st None);;
  unless_error e (with_user (Username cur) (fun u => json_response StatusOK (toUserJSON u))).

Definition patchUser (actor : string) (name : string) (r : Request) : M unit :=
  userStore (decodeUserBody decode_patch r (fun '(role, disabled) =>
    match role, disabled with
    | None, None => invalidUser "body" "role or disabled is required"
    | _, _ =>
        if match role with Some role => negb (Role_Valid role) | None => false end
        then invalidUser "role" "must be admin or operator"
        else
          with_user name (fun cur =>
            let newRole := default "" role in
            let roleChange := match role with Some _ => negb (u_Role cur =s? newRole) | None => false end in
            let disableChange := match disabled with Some d => negb (Bool.eqb (Disabled cur) d) | None => false end in
            let demote := roleChange && (newRole =s? RoleOperator) in
            let disable := default false disabled in
            if isSelf actor (Username cur) && (demote || disable) then json_error StatusConflict "self"
            else
              e <- (if roleChange then on_store (SetRole (Username cur) newRole) else ret_st None);;
              unless_error e (patch_disabled cur disableChange (default false disabled)))
    end)).

Definition resetUserPassword (name : string) (r : Request) : M unit :=
  userStore (decodeUserBody decode_reset r (fun password =>
    with_user name (fun cur =>
      unless_error (ValidatePassword (Username cur) password) (
        h <- aask (fun tr => ae_HashPassword env tr password) AHashPassword;;
        match h with
        | None => user_error ErrStorage
        | Some h =>
            e <- on_store (SetPassword (Username cur) h true);;
            unless_error e (arespond StatusNoContent BNone)
        end)))).

Definition deleteUser (actor : string) (name : string) : M unit :=
  userStore (
    if isSelf actor name then json_error StatusConflict "self"
    else
      with_user name (fun cur =>
        e <- on_store (Delete (Username cur));;
        unless_error e (arespond StatusNoContent BNone))).

(** The requests of the API. *)
Inductive AccountRequest :=
| ListUsers
| CreateUser (r : Request)
| PatchUser (name : string) (r : Request)
| ResetUserPassword (name : string) (r : Request)
| DeleteUser (name : string).

Definition account_api (id : option Identity) (q : AccountRequest) : M unit :=
  let actor := match id with Some id => id_Username id | None => "" end in
  requireRole (match q with
    | ListUsers => listUsers
    | CreateUser r => createUser r
    | PatchUser name r => patchUser actor name r
    | ResetUserPassword name r => resetUserPassword name r
    | DeleteUser name => deleteUser actor name
    end) [RoleAdmin] id.
End ConsoleUsers.

(** * Properties *)

(** ** What one statement does to the table *)

Section Statements.
Context (s : Store).
Hypothesis (Hok : table_ok (rows s)).

Lemma SetRole_cases name r :
  rows (SetRole name r s).2 = rows s ∨ rows (SetRole name r s).2 = alter (bump_role r) (nocase name) (rows s).
Proof.
  unfold SetRole. destruct (Role_Valid r); simpl; [|by left].
  match goal with |- context [mutate name ?f s] =>
    destruct (mutate_cases name f s) as [[-> _]|(cur & s1 & up & Hc & _ & Hf & -> & _)]; [|by left|right] end.
  - intros cur s1. destruct (u_Role cur =s? r); [done|apply guarded_rows].
  - destruct (u_Role cur =s? r); [done|]. apply guarded_Ok in Hf as [[= ->] _].
    unfold update_row. by rewrite (row_key s Hok _ _ Hc).
Qed.

Lemma SetDisabled_cases name d :
  rows (SetDisabled name d s).2 = rows s ∨ rows (SetDisabled name d s).2 = alter (bump_disabled d) (nocase name) (rows s).
Proof.
  unfold SetDisabled.
  match goal with |- context [mutate name ?f s] =>
    destruct (mutate_cases name f s) as [[-> _]|(cur & s1 & up & Hc & _ & Hf & -> & _)]; [|by left|right] end.
  - intros cur s1. destruct (Bool.eqb _ d); [done|apply guarded_rows].
  - destruct (Bool.eqb _ d); [done|]. apply guarded_Ok in Hf as [[= ->] _].
    unfold update_row. by rewrite (row_key s Hok _ _ Hc).
Qed.

Lemma SetPassword_cases name h m :
  rows (SetPassword name h m s).2 = rows s ∨
  rows (SetPassword name h m s).2 = alter (bump_password h m) (nocase name) (rows s).
Proof.
  unfold SetPassword.
  match goal with |- context [mutate name ?f s] =>
    destruct (mutate_cases name f s) as [[-> _]|(cur & s1 & up & Hc & _ & [= <-] & -> & _)]; [done|by left|right] end.
  unfold update_row. by rewrite (row_key s Hok _ _ Hc).
Qed.

Lemma Delete_cases name :
  rows (Delete name s).2 = rows s ∨ rows (Delete name s).2 = delete (nocase name) (rows s).
Proof.
  unfold Delete.
  match goal with |- context [mutate name ?f s] =>
    destruct (mutate_cases name f s) as [[-> _]|(cur & s1 & up & Hc & _ & Hf & -> & _)]; [|by left|right] end.
  - intros cur s1. rewrite bind_st_run. apply guardLastAdmin_spec.
  - rewrite bind_st_run in Hf. simpl in Hf. destruct (guardLastAdmin cur s1).1; [done|]. injection Hf as <-.
    by rewrite (row_key s Hok _ _ Hc).
Qed.

Lemma Create_cases u now :
  rows (Create u now s).2 = rows s ∨
  rows s !! nocase (Username u) = None ∧ rows (Create u now s).2 = <[nocase (Username u) := new_row u now]> (rows s).
Proof.
  unfold Create. destruct (validateNew u); [by left|]. unfold insert, insert_row.
  pose proof (rows_fails s) as H. destruct (fails s) as [[] s1]; simpl in *; [by left|]. rewrite H.
  destruct (rows s !! _) eqn:E; simpl; [by left|]. destruct (Role_Valid _); simpl; auto.
Qed.
End Statements.

(** ** Who the actor is *)

Definition ascii_byte (c : ascii) : bool := match c with Ascii _ _ _ _ _ _ _ b => negb b end.

Lemma fold_bytes_ascii l : forallb ascii_byte l = true → fold_bytes l = lower_byte <$> l.
Proof.
  remember (length l) as n eqn:Hn. revert l Hn. induction n as [n IH] using lt_wf_ind. intros [|c [|d l]] Hn Hl; [done..|].
  assert (ascii_byte c = true) as Hc by (simpl in Hl; by bool_to_prop).
  assert (Ascii.eqb c (byte_of 197) = false) as E0 by by destruct c as [[] [] [] [] [] [] [] []].
  assert (Ascii.eqb c (byte_of 226) = false) as E by by destruct c as [[] [] [] [] [] [] [] []].
  assert (fold_bytes (d :: l) = lower_byte <$> (d :: l)) as Hr.
  { apply (IH (length (d :: l))); [simpl in *; lia|done|]. by apply andb_true_iff in Hl as [_ ?]. }
  rewrite fmap_cons, <- Hr. cbn [fold_bytes]. rewrite E0, E. simpl andb. by destruct l.
Qed.

Lemma ascii_byte_lower c : ascii_byte (lower_byte c) = ascii_byte c.
Proof. by destruct c as [[] [] [] [] [] [] [] []]. Qed.

Lemma lower_ascii l l' : lower_byte <$> l = lower_byte <$> l' → forallb ascii_byte l' = true → forallb ascii_byte l = true.
Proof.
  revert l'. induction l as [|c l IH]; intros [|c' l']; try done. rewrite !fmap_cons. intros [= Hc Hl] [H1 H2]%andb_true_iff.
  apply andb_true_iff. split; [|by eapply IH]. by rewrite <- ascii_byte_lower, Hc, ascii_byte_lower.
Qed.

Lemma usernameRe_ascii s : usernameRe s = true → forallb ascii_byte (to_bytes s) = true ∧ s ≠ "".
Proof.
  unfold usernameRe. intros H. bool_to_prop. split; [|by intros ->].
  rewrite forallb_elem in *. intros c Hc. specialize (H0 c Hc).
  destruct c as [[] [] [] [] [] [] [] []]; done.
Qed.

Lemma nocase_bytes s t : nocase s = nocase t → lower_byte <$> to_bytes s = lower_byte <$> to_bytes t.
Proof. unfold nocase. intros H. apply (f_equal to_bytes) in H. by rewrite !to_of_bytes in H. Qed.

(** The account of an actor: a row under its name. *)
Lemma isSelf_of_row t actor u target :
  table_ok t → t !! nocase actor = Some u → isSelf actor target = false → nocase target ≠ nocase actor.
Proof.
  intros Hok Hu Hs Heq. destruct (Hok _ _ Hu) as (Hk & Hn & _).
  apply usernameRe_ascii in Hn as [Ha Hne].
  assert (forallb ascii_byte (to_bytes actor) = true) as Haa by (eapply lower_ascii; [by apply nocase_bytes|done]).
  assert (actor ≠ "") as Hna.
  { intros ->. apply nocase_bytes in Hk. simpl in Hk. destruct (to_bytes (Username u)) eqn:E; [|done].
    apply Hne. rewrite <- (of_to_bytes (Username u)), E. done. }
  unfold isSelf in Hs. destruct (String.eqb_spec actor "") as [|_]; [done|]. simpl in Hs.
  unfold EqualFold_ascii in Hs. bool_to_prop. apply Hs. apply nocase_bytes in Heq.
  rewrite fold_bytes_ascii; [done|]. by eapply lower_ascii.
Qed.

(** The account of the actor is an enabled admin. *)
Definition actor_admin (actor : string) (t : Table) : Prop := ∃ u, t !! nocase actor = Some u ∧ is_admin u.

(** ** A handler keeps an invariant of the table and answers once *)

Section Triples.
Context (I : Table -> Prop).
Local Notation IS := (fun s : Store => I (rows s)).

Lemma quiet_query {A B} (f : Table -> A) (g : option A -> B) :
  quiet IS (on_store (bind_st (query f) (fun r => ret_st (g r)))) (λ _, True).
Proof.
  apply quiet_store. intros s Hs. rewrite bind_st_run. simpl. by rewrite rows_query.
Qed.

Lemma answers_user_error e : answers IS (user_error e).
Proof. destruct e; apply answers_json. Qed.

Lemma answers_unless_error e k : answers IS k → answers IS (unless_error e k).
Proof. intros Hk. destruct e; [apply answers_user_error|done]. Qed.

Lemma answers_with_user name k :
  (∀ t, I t → table_ok t) → (∀ u, nocase (Username u) = nocase name → answers IS (k u)) → answers IS (with_user name k).
Proof.
  intros HI Hk. apply (answers_bind _ _ _ (λ r, ∀ u, r = Ok u → nocase (Username u) = nocase name)).
  - apply quiet_store. intros s Hs. split.
    + unfold Get. rewrite bind_st_run. simpl. by rewrite rows_query.
    + intros u Hu%Get_Ok. exact (row_key s (HI _ Hs) _ _ Hu).
  - intros [u|e] Hu; [by apply Hk, Hu|apply answers_user_error].
Qed.

Lemma answers_userStore configured k : answers IS k → answers IS (userStore configured k).
Proof. intros Hk. unfold userStore. destruct configured; [done|apply answers_json]. Qed.
End Triples.

#[export] Hint Resolve answers_json answers_respond answers_user_error answers_unless_error
  answers_body answers_userStore : joei.

(** ** The handlers *)

Section ApiSpec.
Context (decode_create : bytes -> bool -> Decoded (string * string * string)).
Context (decode_patch : bytes -> bool -> Decoded (option string * option bool)).
Context (decode_reset : bytes -> bool -> Decoded string).
Context (env : AuthEnv) (configured : bool).
(** What is known before the request: whether there is an enabled admin, and
    whether the actor is one. *)
Context (some_admin acts : Prop) (actor : string).

Definition api_inv (t : Table) : Prop :=
  table_ok t ∧ (some_admin → has_admin t) ∧ (acts → actor_admin actor t).
Local Notation inv := (fun s : Store => api_inv (rows s)).

(** An operation keeps the invariant when it does not take the actor's rights. *)
Lemma effect_api_inv now t t' :
  effect now t t' → (acts → actor_admin actor t → actor_admin actor t') → api_inv t → api_inv t'.
Proof.
  intros He Ha (Hok & Hs & Hac). split; [by eapply effect_table_ok|]. split; [|auto].
  intros H. eapply effect_has_admin; eauto.
Qed.

Lemma alter_actor f name t :
  (∀ u, is_admin u → nocase name = nocase actor → is_admin (f u)) →
  actor_admin actor t → actor_admin actor (alter f (nocase name) t).
Proof.
  intros Hf (u & Hu & Ha). destruct (decide (nocase name = nocase actor)) as [E|E].
  - exists (f u). rewrite E, lookup_alter_eq, Hu. split; [done|auto].
  - exists u. by rewrite lookup_alter_ne.
Qed.

Lemma SetRole_inv name r s :
  (acts → nocase name = nocase actor → r = RoleAdmin) → api_inv (rows s) → api_inv (rows (SetRole name r s).2).
Proof.
  intros Hr HI. eapply (effect_api_inv 0); [apply SetRole_effect; apply HI| |done]. intros Hacts.
  destruct (SetRole_cases s (proj1 HI) name r) as [-> | ->]; [done|].
  apply alter_actor. intros u [_ He] E. split; [by apply Hr|done].
Qed.

Lemma SetDisabled_inv name d s :
  (acts → nocase name = nocase actor → d = false) → api_inv (rows s) → api_inv (rows (SetDisabled name d s).2).
Proof.
  intros Hd HI. eapply (effect_api_inv 0); [apply SetDisabled_effect; apply HI| |done]. intros Hacts.
  destruct (SetDisabled_cases s (proj1 HI) name d) as [-> | ->]; [done|].
  apply alter_actor. intros u [Hr _] E. split; [done|by apply Hd].
Qed.

Lemma SetPassword_inv name h m s : api_inv (rows s) → api_inv (rows (SetPassword name h m s).2).
Proof.
  intros HI. eapply (effect_api_inv 0); [apply SetPassword_effect; apply HI| |done]. intros _.
  destruct (SetPassword_cases s (proj1 HI) name h m) as [-> | ->]; [done|by apply alter_actor].
Qed.

Lemma Delete_inv name s :
  (acts → nocase name ≠ nocase actor) → api_inv (rows s) → api_inv (rows (Delete name s).2).
Proof.
  intros Hn HI. eapply (effect_api_inv 0); [apply Delete_effect; apply HI| |done]. intros Hacts (u & Hu & Ha).
  exists u. destruct (Delete_cases s (proj1 HI) name) as [-> | ->]; [done|]. rewrite lookup_delete_ne; auto.
Qed.

Lemma Create_inv u now s : api_inv (rows s) → api_inv (rows (Create u now s).2).
Proof.
  intros HI. eapply (effect_api_inv now); [exact (run_op_effect now s (proj1 HI) (OCreate u))| |done].
  intros _ (u' & Hu & Ha). exists u'.
  destruct (Create_cases s u now) as [-> | [Hn ->]]; [done|]. rewrite lookup_insert_ne; [done|congruence].
Qed.

Lemma api_inv_ok t : api_inv t → table_ok t.
Proof. by intros []. Qed.

Lemma listUsers_answers : answers inv (listUsers configured).
Proof.
  apply answers_userStore. eapply answers_bind; [apply quiet_query|]. intros [l|e] _; [|auto with joei].
  intros w Hw. by split; [|eexists _, _].
Qed.

Lemma createUser_answers r : answers inv (createUser decode_create env configured r).
Proof.
  apply answers_userStore, answers_body. intros [[username role] password]. apply answers_unless_error.
  destruct (negb _); [apply answers_json|]. apply answers_unless_error.
  eapply answers_bind; [by apply quiet_ask|]. intros [h|] _; [|auto with joei].
  eapply answers_bind; [by apply quiet_ask|]. intros now _.
  apply (answers_bind _ _ _ (λ _, True)); [apply quiet_store; intros s Hs; by split; [apply Create_inv|]|]. intros e _.
  apply answers_unless_error, answers_with_user; [apply api_inv_ok|]. intros u _. apply answers_json.
Qed.

Lemma resetUserPassword_answers name r : answers inv (resetUserPassword decode_reset env configured name r).
Proof.
  apply answers_userStore, answers_body. intros password. apply answers_with_user; [apply api_inv_ok|]. intros cur _.
  apply answers_unless_error. eapply answers_bind; [by apply quiet_ask|]. intros [h|] _; [|auto with joei].
  apply (answers_bind _ _ _ (λ _, True)); [apply quiet_store; intros s Hs; by split; [apply SetPassword_inv|]|].
  intros e _. auto with joei.
Qed.

Hypothesis (self : acts → ∀ target, isSelf actor target = false → nocase target ≠ nocase actor).

Lemma deleteUser_answers name : answers inv (deleteUser configured actor name).
Proof.
  apply answers_userStore. destruct (isSelf actor name) eqn:Hs; [apply answers_json|].
  apply answers_with_user; [apply api_inv_ok|]. intros cur Hc.
  apply (answers_bind _ _ _ (λ _, True)).
  - apply quiet_store. intros s Hi. split; [|done]. apply Delete_inv; [|done]. intros Ha. rewrite Hc. by apply self.
  - intros e _. auto with joei.
Qed.

Lemma patch_disabled_answers cur change d :
  (acts → nocase (Username cur) = nocase actor → d = false) → answers inv (patch_disabled cur change d).
Proof.
  intros Hd. apply (answers_bind _ _ _ (λ _, True)).
  - destruct change; [|by apply quiet_ret]. apply quiet_store. intros s Hs. by split; [apply SetDisabled_inv|].
  - intros e _. apply answers_unless_error, answers_with_user; [apply api_inv_ok|]. intros u _. apply answers_json.
Qed.

Lemma patchUser_answers name r : answers inv (patchUser decode_patch configured actor name r).
Proof.
  apply answers_userStore, answers_body. intros [role disabled].
  enough (∀ k, answers inv k → answers inv
    match role, disabled with None, None => invalidUser "body" "role or disabled is required" | _, _ => k end) as Hk.
  2:{ intros k Hk. destruct role, disabled; auto; apply answers_json. }
  apply Hk. clear Hk. destruct (match role with Some role => negb (Role_Valid role) | None => false end) eqn:Hv;
    [apply answers_json|].
  apply answers_with_user; [apply api_inv_ok|]. intros cur Hc. cbv zeta.
  set (roleChange := match role with Some _ => _ | None => false end).
  destruct (isSelf actor (Username cur) && _) eqn:Hself; [apply answers_json|].
  assert (acts → nocase (Username cur) = nocase actor →
    roleChange && (default "" role =s? RoleOperator) = false ∧ default false disabled = false) as Hsafe.
  { intros Ha E. destruct (isSelf actor (Username cur)) eqn:Es; [|by destruct (self Ha _ Es)].
    by apply orb_false_iff in Hself. }
  apply (answers_bind _ _ _ (λ _, True)).
  - destruct roleChange eqn:Hrc; [|by apply quiet_ret]. apply quiet_store. intros s Hs. split; [|done].
    apply SetRole_inv; [|done]. intros Ha E. destruct (Hsafe Ha E) as [Hr _]. unfold roleChange in Hrc.
    destruct role as [role|]; [|done]. simpl in *. unfold Role_Valid in Hv. bool_to_prop.
    destruct (String.eqb_spec role RoleAdmin); [done|]. simpl in Hv. by apply String.eqb_eq in Hv.
  - intros e _. apply answers_unless_error, patch_disabled_answers. intros Ha E. apply (Hsafe Ha E).
Qed.
End ApiSpec.

(** C23: the account API serves admins only - anybody else gets 403 and nothing
    changes - and answers every request once.  Whatever an admin asks for, and
    whichever statements fail, the table stays well formed, an enabled admin
    remains, and the acting admin itself stays enabled and an admin: it can
    neither delete, disable nor demote itself, under any spelling of its name. *)
Theorem account_api_safe decode_create decode_patch decode_reset env configured id q w :
  table_ok (rows (aw_store w)) →
  let w' := (account_api decode_create decode_patch decode_reset env configured id q w).2 in
  let t := rows (aw_store w) in
  let t' := rows (aw_store w') in
  table_ok t' ∧ (has_admin t → has_admin t') ∧
  (∀ i, id = Some i → actor_admin (id_Username i) t → actor_admin (id_Username i) t') ∧
  (∃ l rs, aw_trace w' = aw_trace w ++ l ∧ a_responses l = [rs] ∧
     ((∀ i, id = Some i → id_Role i ≠ RoleAdmin) →
        aw_store w' = aw_store w ∧ rs_Status rs = 403 ∧ rs_Body rs = BJSON [("error", JString "forbidden")])).
Proof.
  intros Hok. cbv zeta. unfold account_api, requireRole.
  assert (role_allowed [RoleAdmin] id = true ↔ ∃ i, id = Some i ∧ id_Role i = RoleAdmin) as Hrole.
  { unfold role_allowed. destruct id as [i|]; simpl; [|naive_solver]. rewrite orb_false_r, String.eqb_eq. naive_solver. }
  destruct (role_allowed [RoleAdmin] id) eqn:Hr.
  2:{ destruct (json_error_run StatusForbidden "forbidden" w) as (rs & Hst & Hb & Ht & Hs & _).
      rewrite Hs. split_and!; [done..|]. exists [ARespond rs], rs. done. }
  destruct (proj1 Hrole eq_refl) as (i & -> & Hi). set (t := rows (aw_store w)).
  set (actor := id_Username i). set (m := match q with ListUsers => _ | _ => _ end).
  enough (answers (λ s, api_inv (has_admin t) (actor_admin actor t) actor (rows s)) m) as Hm.
  { destruct (Hm w) as ((H1 & H2 & H3) & l & rs & Hl & Hrs); [by split_and!|]. split_and!; [done..| |].
    - intros i' [= <-]. done.
    - exists l, rs. split_and!; [done..|]. intros Hn. by destruct (Hn i eq_refl). }
  assert (actor_admin actor t → ∀ target, isSelf actor target = false → nocase target ≠ nocase actor) as Hself.
  { intros (u & Hu & _) target. by eapply isSelf_of_row. }
  subst m. destruct q; auto using listUsers_answers, createUser_answers, resetUserPassword_answers,
    deleteUser_answers, patchUser_answers.
Qed.

(** ** Witness *)

Definition ex_account_env : AuthEnv := mkAuthEnv (fun _ => 7 * Second) (fun _ => Some (to_bytes "0a1b0a1b0a1b0a1b")) (fun _ _ => Some "$2a$10$new") (fun _ _ => true).
Definition ex_account_world : AuthWorld Store := mkAuth ex_users NewLoginLimiter [] ∅.
Definition ex_demote (b : bytes) (bad : bool) : Decoded (option string * option bool) := DOk (Some RoleOperator, None).
Definition ex_account_req : Request :=
  mkRequest "r-1" "" "PATCH" "/api/users/ROOT" "" "" "console" "192.0.2.1:9" false ∅ (Some (Some [])).

Lemma account_api_safe_witness :
  table_ok (rows (aw_store ex_account_world)) ∧
  actor_admin "Root" (rows (aw_store (account_api (fun _ _ => DTooLarge) ex_demote (fun _ _ => DTooLarge)
    ex_account_env true (Some (identityOf ex_admin)) (PatchUser "ROOT" ex_account_req) ex_account_world).2)).
Proof.
  split; [exact ex_users_ok|].
  destruct (account_api_safe (fun _ _ => DTooLarge) ex_demote (fun _ _ => DTooLarge) ex_account_env true
    (Some (identityOf ex_admin)) (PatchUser "ROOT" ex_account_req) ex_account_world ex_users_ok) as (_ & _ & H & _).
  apply (H (identityOf ex_admin) eq_refl). exists ex_admin. split; [reflexivity|split; reflexivity].
Defined.
