(* ===== verification/Settings.v ===== *)
(** * Package settings and its users at start (settings.go, settings_adapters.go,
    authsecret.go)

    One table of key and JSON value, shared by the runtime policy, the
    registries and the signing key of the console.  Each statement consumes one
    element of a fault schedule and fails if it is [true].  The column
    updated_at is never read; the text of an error is kept up to the value of
    the error it wraps.  encoding/json is an argument. *)
From S2P Require Import Prelude GoStd Base64 Supplychain Policy Upstream HTTP Users Login Token Session SessionSpec Console Registries.
Local Open Scope Z_scope.

(** ** settings.go *)

Record Settings := mkSettings {
  settings_rows : gmap string string;
  settings_faults : list bool;
}.

Definition settings_fails : St Settings bool := fun s =>
  match settings_faults s with
  | [] => (false, s)
  | b :: fs => (b, mkSettings (settings_rows s) fs)
  end.

(** (value, found, error) *)
Definition Settings_Get (key : string) : St Settings (result string (option string)) :=
  b <- settings_fails;;
  if b : bool then ret_st (Err ("reading setting " +:+ key))
  else fun s => (Ok (settings_rows s !! key), s).

Definition Settings_Put (key value : string) : St Settings (option string) :=
  b <- settings_fails;;
  if b : bool then ret_st (Some ("writing setting " +:+ key))
  else fun s => (None, mkSettings (<[key := value]> (settings_rows s)) (settings_faults s)).

(** encoding/json on what the settings hold. *)
Class SettingsJSON := {
  policy_Unmarshal : string -> result string (RuntimeParams * list string);
  policy_Marshal : RuntimeParams -> result string string;
  registries_Unmarshal : string -> result string (list RegistryInfo);
  registries_Marshal : list RegistryInfo -> result string string;
  string_Unmarshal : string -> result string string;
  string_Marshal : string -> result string string;
}.

(** What was written reads back, as text; [policy_read] replaces what is not
    UTF-8. *)
Class SettingsJSONLaws `{SettingsJSON} := {
  policy_read : RuntimeParams -> RuntimeParams;
  policy_read_valid p : params_valid p = true → policy_read p = p;
  policy_read_back p b : policy_Marshal p = Ok b → policy_Unmarshal b = Ok (policy_read p, []);
  registries_read_back l b : registries_valid l = true → registries_Marshal l = Ok b → registries_Unmarshal b = Ok l;
  string_read_back s b : ValidString s = true → string_Marshal s = Ok b → string_Unmarshal b = Ok s;
}.

(** ** settings_adapters.go *)

Section Adapters.
Context `{SJ : SettingsJSON}.

Definition policyKey : string := "policy".
Definition registriesKey : string := "registries".

Definition Settings_LoadPolicy : St Settings (result string (option RuntimeParams)) :=
  r <- Settings_Get policyKey;;
  ret_st (match r with
          | Err e => Err e
          | Ok None => Ok None
          | Ok (Some b) =>
              match DecodeStored policy_Unmarshal b with
              | Err e => Err ("decoding stored policy: " +:+ e)
              | Ok p => Ok (Some p)
              end
          end).

Definition Settings_SavePolicy (p : RuntimeParams) : St Settings (option string) :=
  match EncodeStored policy_Marshal p with
  | Err e => ret_st (Some e)
  | Ok b => Settings_Put policyKey b
  end.

Definition Settings_LoadRegistries : St Settings (result string (option (list RegistryInfo))) :=
  r <- Settings_Get registriesKey;;
  ret_st (match r with
          | Err e => Err e
          | Ok None => Ok None
          | Ok (Some b) =>
              match registries_Unmarshal b with
              | Err e => Err ("decoding stored registries: " +:+ e)
              | Ok l => Ok (Some l)
              end
          end).

Definition Settings_SaveRegistries (l : list RegistryInfo) : St Settings (option string) :=
  match registries_Marshal l with
  | Err e => ret_st (Some e)
  | Ok b => Settings_Put registriesKey b
  end.

#[export] Instance policySettingsStore : SettingsStore Settings := {|
  LoadPolicy := Settings_LoadPolicy;
  SavePolicy := Settings_SavePolicy;
|}.

#[export] Instance registrySettingsStore : RegistryStore Settings := {|
  LoadRegistries := Settings_LoadRegistries;
  SaveRegistries := Settings_SaveRegistries;
|}.

(** config.RegistriesConfig: one entry per ecosystem; the fields' order in
    [RegistryConfig] is irrelevant. *)
Record RegistryEntry := mkEntry { re_Enabled : bool; re_Upstreams : option (list string) }.

Record RegistriesConfig := mkRegistries {
  PyPI : RegistryEntry;
  NPM : RegistryEntry;
  Maven : RegistryEntry;
  RubyGems : RegistryEntry;
  Go : RegistryEntry;
  Docker : RegistryEntry;
}.

(** The cases of the overlay; [None] is the default one. *)
Definition set_registry (ri : RegistryInfo) (c : RegistriesConfig) : option RegistriesConfig :=
  let rc := mkEntry (reg_Enabled ri) (reg_Upstreams ri) in
  let eco := reg_Ecosystem ri in
  if eco =s? "pypi" then Some (mkRegistries rc (NPM c) (Maven c) (RubyGems c) (Go c) (Docker c))
  else if eco =s? "npm" then Some (mkRegistries (PyPI c) rc (Maven c) (RubyGems c) (Go c) (Docker c))
  else if eco =s? "maven" then Some (mkRegistries (PyPI c) (NPM c) rc (RubyGems c) (Go c) (Docker c))
  else if eco =s? "rubygems" then Some (mkRegistries (PyPI c) (NPM c) (Maven c) rc (Go c) (Docker c))
  else if eco =s? "go" then Some (mkRegistries (PyPI c) (NPM c) (Maven c) (RubyGems c) rc (Docker c))
  else if eco =s? "docker" then Some (mkRegistries (PyPI c) (NPM c) (Maven c) (RubyGems c) (Go c) rc)
  else None.

Definition registryInfo (c : RegistriesConfig) : list RegistryInfo :=
  let info eco (e : RegistryEntry) := mkRegistry eco (re_Enabled e) (re_Upstreams e) in
  [info "pypi" (PyPI c); info "npm" (NPM c); info "maven" (Maven c); info "rubygems" (RubyGems c); info "go" (Go c);
   info "docker" (Docker c)].

(** The overlay as far as it gets, and its error. *)
Fixpoint overlay (l : list RegistryInfo) (c : RegistriesConfig) : option string * RegistriesConfig :=
  match l with
  | [] => (None, c)
  | ri :: l' =>
      match set_registry ri c with
      | None => (Some ("unknown ecosystem in stored registries: " +:+ reg_Ecosystem ri), c)
      | Some c' => overlay l' c'
      end
  end.

(** The configuration is changed in place: it is part of the answer. *)
Definition applyStoredRegistries (c : RegistriesConfig) : St Settings (option string * RegistriesConfig) :=
  r <- Settings_LoadRegistries;;
  match r with
  | Err e => ret_st (Some e, c)
  | Ok None =>
      match registries_Marshal (registryInfo c) with
      | Err e => ret_st (Some e, c)
      | Ok seed => e <- Settings_Put registriesKey seed;; ret_st (e, c)
      end
  | Ok (Some stored) => ret_st (overlay stored c)
  end.

(** ** authsecret.go *)

Definition jwtSecretSettingKey : string := "auth.jwt_secret".

Definition generateSecret (rand : option bytes) : St Settings (result string bytes) :=
  match rand with
  | None => ret_st (Err "generating a console signing key")
  | Some secret =>
      match string_Marshal (Std_EncodeToString secret) with
      | Err e => ret_st (Err ("encoding the console signing key: " +:+ e))
      | Ok value =>
          e <- Settings_Put jwtSecretSettingKey value;;
          ret_st (match e with
                  | Some e => Err ("storing the console signing key: " +:+ e)
                  | None => Ok secret
                  end)
      end
  end.

(** [env] is the environment variable, [rand] the random bytes read. *)
Definition resolveJWTSecret (env fileValue : string) (rand : option bytes) : St Settings (result string bytes) :=
  if negb (TrimSpace env =s? "") then ret_st (Ok (to_bytes (TrimSpace env)))
  else if negb (TrimSpace fileValue =s? "") then ret_st (Ok (to_bytes (TrimSpace fileValue)))
  else
    raw <- Settings_Get jwtSecretSettingKey;;
    match raw with
    | Err e => ret_st (Err ("reading the stored console signing key: " +:+ e))
    | Ok None => generateSecret rand
    | Ok (Some raw) =>
        match string_Unmarshal raw with
        | Err e => ret_st (Err ("decoding the stored console signing key: " +:+ e))
        | Ok encoded =>
            match Std_DecodeString encoded with
            | None => ret_st (Err "decoding the stored console signing key")
            | Some secret =>
                if (MinSecretLen <=? length secret)%nat then ret_st (Ok secret) else generateSecret rand
            end
        end
    end.
End Adapters.

Definition DefaultAccessTTLMinutes : Z := 15.
Definition DefaultRefreshTTLHours : Z := 168.

(** The lifetimes of access and refresh tokens. *)
Definition authTTLs (minutes hours : Z) : Z * Z :=
  (dur_mul (if minutes <=? 0 then DefaultAccessTTLMinutes else minutes) (60 * Second),
   dur_mul (if hours <=? 0 then DefaultRefreshTTLHours else hours) Hour).

(** * Properties *)

(** ** What the table holds *)

Section Stored.
Context `{SJL : SettingsJSONLaws}.

Definition row_of {A} (key : string) (read : string -> option A) (s : Settings) : option A :=
  settings_rows s !! key ≫= read.

Definition read_policy (b : string) : option RuntimeParams :=
  match DecodeStored policy_Unmarshal b with Ok p => Some p | Err _ => None end.
Definition read_registries (b : string) : option (list RegistryInfo) :=
  match registries_Unmarshal b with Ok l => Some l | Err _ => None end.
Definition read_key (b : string) : option bytes :=
  match string_Unmarshal b with Ok e => Std_DecodeString e | Err _ => None end.

Lemma Settings_Get_run key s :
  settings_rows (Settings_Get key s).2 = settings_rows s ∧
  ((∃ e, (Settings_Get key s).1 = Err e ∧ settings_faults s ≠ []) ∨ (Settings_Get key s).1 = Ok (settings_rows s !! key)).
Proof.
  unfold Settings_Get. rewrite bind_st_run. unfold settings_fails.
  destruct (settings_faults s) as [|[] fs]; simpl; [by auto|split; [done|left; by eexists]|by auto].
Qed.

Lemma Settings_Put_run key value s :
  (∃ e, (Settings_Put key value s).1 = Some e ∧ settings_faults s ≠ [] ∧
     settings_rows (Settings_Put key value s).2 = settings_rows s) ∨
  (Settings_Put key value s).1 = None ∧ settings_rows (Settings_Put key value s).2 = <[key := value]> (settings_rows s).
Proof.
  unfold Settings_Put. rewrite bind_st_run. unfold settings_fails.
  destruct (settings_faults s) as [|[] fs]; simpl; [by right|left; by eexists|by right].
Qed.

(** Loading a JSON row: what it holds, or an error. *)
Lemma load_row {A} key (f : result string (option string) → result string (option A)) (read : string → option A) s :
  (∀ e, ∃ e', f (Err e) = Err e') → f (Ok None) = Ok None →
  (∀ b, (∃ e, f (Ok (Some b)) = Err e ∧ read b = None) ∨ (∃ a, f (Ok (Some b)) = Ok (Some a) ∧ read b = Some a)) →
  let m := r <- Settings_Get key;; ret_st (f r) in
  settings_rows (m s).2 = settings_rows s ∧
  ((∃ e, (m s).1 = Err e ∧ (settings_faults s ≠ [] ∨ ∃ b, settings_rows s !! key = Some b ∧ read b = None)) ∨
   (m s).1 = Ok (row_of key read s)).
Proof.
  intros He Hn Hs m. unfold m, row_of. rewrite bind_st_run. simpl. destruct (Settings_Get_run key s) as [-> [(e & -> & Hf)| ->]].
  - split; [done|]. left. destruct (He e) as [e' ->]. eauto.
  - split; [done|]. destruct (settings_rows s !! key) as [b|] eqn:E; [|by rewrite Hn; right].
    destruct (Hs b) as [(e & -> & Hr)|(a & -> & Hr)]; simpl; [|by rewrite Hr; right]. left. eauto 6.
Qed.

Lemma LoadPolicy_run s :
  settings_rows (Settings_LoadPolicy s).2 = settings_rows s ∧
  ((∃ e, (Settings_LoadPolicy s).1 = Err e ∧
      (settings_faults s ≠ [] ∨ ∃ b, settings_rows s !! policyKey = Some b ∧ read_policy b = None)) ∨
   (Settings_LoadPolicy s).1 = Ok (row_of policyKey read_policy s)).
Proof.
  apply load_row; [by eexists|done|]. intros b. unfold read_policy.
  destruct (DecodeStored policy_Unmarshal b); [right|left]; by eexists.
Qed.

Lemma LoadRegistries_run s :
  settings_rows (Settings_LoadRegistries s).2 = settings_rows s ∧
  ((∃ e, (Settings_LoadRegistries s).1 = Err e ∧
      (settings_faults s ≠ [] ∨ ∃ b, settings_rows s !! registriesKey = Some b ∧ read_registries b = None)) ∨
   (Settings_LoadRegistries s).1 = Ok (row_of registriesKey read_registries s)).
Proof.
  apply load_row; [by eexists|done|]. intros b. unfold read_registries.
  destruct (registries_Unmarshal b); [right|left]; by eexists.
Qed.

(** Saving: the row is written, or nothing changes. *)
Lemma SavePolicy_run p s :
  (∃ e, (Settings_SavePolicy p s).1 = Some e ∧ settings_rows (Settings_SavePolicy p s).2 = settings_rows s ∧
     (settings_faults s ≠ [] ∨ ∃ e', policy_Marshal p = Err e')) ∨
  (Settings_SavePolicy p s).1 = None ∧ ∃ b, policy_Marshal p = Ok b ∧
    settings_rows (Settings_SavePolicy p s).2 = <[policyKey := b]> (settings_rows s).
Proof.
  unfold Settings_SavePolicy, EncodeStored. destruct (policy_Marshal p) as [b|e]; [|left; simpl; eauto 6].
  destruct (Settings_Put_run policyKey b s) as [(e & -> & Hf & ->)|[-> ->]]; [left|right]; eauto 6.
Qed.

Lemma SaveRegistries_run l s :
  (∃ e, (Settings_SaveRegistries l s).1 = Some e ∧ settings_rows (Settings_SaveRegistries l s).2 = settings_rows s ∧
     (settings_faults s ≠ [] ∨ ∃ e', registries_Marshal l = Err e')) ∨
  (Settings_SaveRegistries l s).1 = None ∧ ∃ b, registries_Marshal l = Ok b ∧
    settings_rows (Settings_SaveRegistries l s).2 = <[registriesKey := b]> (settings_rows s).
Proof.
  unfold Settings_SaveRegistries. destruct (registries_Marshal l) as [b|e]; [|left; simpl; eauto 6].
  destruct (Settings_Put_run registriesKey b s) as [(e & -> & Hf & ->)|[-> ->]]; [left|right]; eauto 6.
Qed.

Lemma read_policy_back p b : policy_Marshal p = Ok b → read_policy b = Some (policy_read p).
Proof. intros Hb. unfold read_policy, DecodeStored. by rewrite (policy_read_back _ _ Hb). Qed.

Lemma read_registries_back l b : registries_valid l = true → registries_Marshal l = Ok b → read_registries b = Some l.
Proof. intros Hl Hb. unfold read_registries. by rewrite (registries_read_back _ _ Hl Hb). Qed.

(** The two adapters keep their stores' promises. *)
#[export] Instance policySettingsStoreLaws : SettingsStoreLaws Settings.
Proof.
  exists (row_of policyKey read_policy) policy_read.
  - exact policy_read_valid.
  - intros s. unfold row_of. change (LoadPolicy s) with (Settings_LoadPolicy s). by rewrite (proj1 (LoadPolicy_run s)).
  - intros s x. change (LoadPolicy s) with (Settings_LoadPolicy s). destruct (LoadPolicy_run s) as [_ [(e & -> & _)| ->]]; [done|by intros [= <-]].
  - intros p s Hn. change (SavePolicy p s) with (Settings_SavePolicy p s) in *. destruct (SavePolicy_run p s) as [(e & E & _)|(_ & b & Hb & E)]; [congruence|].
    unfold row_of. rewrite E, lookup_insert_eq. simpl. by apply read_policy_back.
  - intros p s e He. change (SavePolicy p s) with (Settings_SavePolicy p s) in *. destruct (SavePolicy_run p s) as [(e' & _ & E & _)|(E & _)]; [|congruence].
    unfold row_of. by rewrite E.
Defined.

#[export] Instance registrySettingsStoreLaws : RegistryStoreLaws Settings.
Proof.
  exists (row_of registriesKey read_registries).
  - intros s. unfold row_of. change (LoadRegistries s) with (Settings_LoadRegistries s). by rewrite (proj1 (LoadRegistries_run s)).
  - intros s x. change (LoadRegistries s) with (Settings_LoadRegistries s). destruct (LoadRegistries_run s) as [_ [(e & -> & _)| ->]]; [done|by intros [= <-]].
  - intros l s Hl Hn. change (SaveRegistries l s) with (Settings_SaveRegistries l s) in *. destruct (SaveRegistries_run l s) as [(e & E & _)|(_ & b & Hb & E)]; [congruence|].
    unfold row_of. rewrite E, lookup_insert_eq. simpl. by apply read_registries_back.
  - intros l s e He. change (SaveRegistries l s) with (Settings_SaveRegistries l s) in *. destruct (SaveRegistries_run l s) as [(e' & _ & E & _)|(E & _)]; [|congruence].
    unfold row_of. by rewrite E.
Defined.
End Stored.

(** ** Three registers in one table *)

Section Registers.
Context `{SJL : SettingsJSONLaws}.

Lemma generateSecret_run rand s :
  (∃ e, (generateSecret rand s).1 = Err e ∧ settings_rows (generateSecret rand s).2 = settings_rows s) ∨
  (∃ k b, rand = Some k ∧ (generateSecret rand s).1 = Ok k ∧ string_Marshal (Std_EncodeToString k) = Ok b ∧
     settings_rows (generateSecret rand s).2 = <[jwtSecretSettingKey := b]> (settings_rows s)).
Proof.
  unfold generateSecret. destruct rand as [k|]; [|left; simpl; eauto].
  destruct (string_Marshal _) as [b|e] eqn:Hb; [|left; simpl; eauto]. rewrite bind_st_run. simpl.
  destruct (Settings_Put_run jwtSecretSettingKey b s) as [(e & -> & _ & ->)|[-> ->]]; [left; eauto|right]. eauto 10.
Qed.

Lemma read_key_back k b : string_Marshal (Std_EncodeToString k) = Ok b → read_key b = Some k.
Proof.
  intros Hb. unfold read_key. rewrite (string_read_back _ _ (Std_valid k) Hb). apply Std_DecodeString_EncodeToString.
Qed.

(** What the server keeps in the settings. *)
Record View := mkView {
  v_policy : option RuntimeParams;
  v_registries : option (list RegistryInfo);
  v_key : option bytes;
}.

Definition view (s : Settings) : View :=
  mkView (stored_policy s) (saved s) (row_of jwtSecretSettingKey read_key s).

Inductive SettingsOp :=
| OpLoadPolicy
| OpSavePolicy (p : RuntimeParams)
| OpLoadRegistries
| OpSaveRegistries (l : list RegistryInfo)
| OpSigningKey (env file : string) (rand : option bytes).

Inductive SettingsAnswer :=
| AnsPolicy (p : option RuntimeParams)
| AnsRegistries (l : option (list RegistryInfo))
| AnsKey (k : bytes)
| AnsSaved
| AnsFailed.

Definition failed (a : SettingsAnswer) : bool := match a with AnsFailed => true | _ => false end.

Definition settings_op (op : SettingsOp) : St Settings SettingsAnswer :=
  match op with
  | OpLoadPolicy => r <- LoadPolicy;; ret_st (match r with Ok p => AnsPolicy p | Err _ => AnsFailed end)
  | OpSavePolicy p => e <- SavePolicy p;; ret_st (match e with None => AnsSaved | Some _ => AnsFailed end)
  | OpLoadRegistries => r <- LoadRegistries;; ret_st (match r with Ok l => AnsRegistries l | Err _ => AnsFailed end)
  | OpSaveRegistries l => e <- SaveRegistries l;; ret_st (match e with None => AnsSaved | Some _ => AnsFailed end)
  | OpSigningKey env file rand =>
      r <- resolveJWTSecret env file rand;; ret_st (match r with Ok k => AnsKey k | Err _ => AnsFailed end)
  end.

(** The registers: each operation reads or writes its own. *)
Definition register_op (op : SettingsOp) (v : View) : SettingsAnswer * View :=
  match op with
  | OpLoadPolicy => (AnsPolicy (v_policy v), v)
  | OpSavePolicy p => (AnsSaved, mkView (Some (policy_read p)) (v_registries v) (v_key v))
  | OpLoadRegistries => (AnsRegistries (v_registries v), v)
  | OpSaveRegistries l => (AnsSaved, mkView (v_policy v) (Some l) (v_key v))
  | OpSigningKey env file rand =>
      let given := if TrimSpace env =s? "" then TrimSpace file else TrimSpace env in
      if negb (given =s? "") then (AnsKey (to_bytes given), v)
      else
        match v_key v, rand with
        | Some k, Some fresh =>
            if (MinSecretLen <=? length k)%nat then (AnsKey k, v)
            else (AnsKey fresh, mkView (v_policy v) (v_registries v) (Some fresh))
        | Some k, None => (if (MinSecretLen <=? length k)%nat then AnsKey k else AnsFailed, v)
        | None, Some fresh => (AnsKey fresh, mkView (v_policy v) (v_registries v) (Some fresh))
        | None, None => (AnsFailed, v)
        end
  end.

(** The registries a client sends are text. *)
Definition text_op (op : SettingsOp) : bool := match op with OpSaveRegistries l => registries_valid l | _ => true end.

Lemma view_rows s s' : settings_rows s' = settings_rows s → view s' = view s.
Proof. intros E. unfold view, stored_policy, saved. simpl. unfold row_of. by rewrite E. Qed.

Lemma view_key s s' b :
  settings_rows s' = <[jwtSecretSettingKey := b]> (settings_rows s) → view s' = mkView (v_policy (view s)) (v_registries (view s)) (read_key b).
Proof.
  intros E. unfold view, stored_policy, saved. simpl. unfold row_of. rewrite E, lookup_insert_eq, !lookup_insert_ne by done. done.
Qed.

Lemma view_policy s s' b :
  settings_rows s' = <[policyKey := b]> (settings_rows s) → view s' = mkView (read_policy b) (v_registries (view s)) (v_key (view s)).
Proof.
  intros E. unfold view, stored_policy, saved. simpl. unfold row_of. rewrite E, lookup_insert_eq, !lookup_insert_ne by done. done.
Qed.

Lemma view_registries s s' b :
  settings_rows s' = <[registriesKey := b]> (settings_rows s) → view s' = mkView (v_policy (view s)) (read_registries b) (v_key (view s)).
Proof.
  intros E. unfold view, stored_policy, saved. simpl. unfold row_of. rewrite E, lookup_insert_eq, !lookup_insert_ne by done. done.
Qed.

(** A step of the table is one of the registers, or a failure that leaves them. *)
Definition steps_as (m : SettingsAnswer * Settings) (spec : SettingsAnswer * View) (v : View) : Prop :=
  (m.1 = AnsFailed ∧ view m.2 = v) ∨ (m.1, view m.2) = spec.

Lemma resolve_generate rand s v :
  view s = v → match v_key v with Some k => (length k < MinSecretLen)%nat | None => True end →
  let r := generateSecret rand s in
  steps_as (match r.1 with Ok k => AnsKey k | Err _ => AnsFailed end, r.2) (register_op (OpSigningKey "" "" rand) v) v.
Proof.
  intros Hv Hk. cbv zeta. unfold steps_as. destruct (generateSecret_run rand s) as [(e & -> & E)|(k & b & -> & -> & Hb & E)].
  - left. split; [done|]. cbn [snd]. by rewrite (view_rows _ _ E).
  - right. cbn [fst snd]. rewrite (view_key _ _ _ E), (read_key_back _ _ Hb), Hv. unfold register_op.
    change (TrimSpace "") with "". cbn [String.eqb negb].
    destruct (v_key v) as [k'|]; [|done]. by rewrite (proj2 (Nat.leb_gt _ _) Hk).
Qed.

Lemma signing_key_step env file rand s :
  steps_as (settings_op (OpSigningKey env file rand) s) (register_op (OpSigningKey env file rand) (view s)) (view s).
Proof.
  unfold settings_op. rewrite bind_st_run. unfold resolveJWTSecret, register_op.
  destruct (String.eqb_spec (TrimSpace env) "") as [_|He]; cbn [negb].
  2:{ right. apply String.eqb_neq in He. by rewrite He. }
  destruct (String.eqb_spec (TrimSpace file) "") as [_|Hf]; cbn [negb].
  2:{ by right. }
  rewrite bind_st_run. destruct (Settings_Get_run jwtSecretSettingKey s) as [E [(e & -> & _)| ->]].
  { left. split; [done|]. cbn [fst snd ret_st]. by rewrite (view_rows _ _ E). }
  pose proof (view_rows _ _ E) as Hv. revert E Hv. generalize (Settings_Get jwtSecretSettingKey s).2 as s1. intros s1 E Hv.
  assert (v_key (view s) = settings_rows s !! jwtSecretSettingKey ≫= read_key) as Hk by done.
  destruct (settings_rows s !! jwtSecretSettingKey) as [raw|]; cbn [mbind option_bind] in Hk.
  2:{ apply (resolve_generate rand s1 (view s) Hv). by rewrite Hk. }
  unfold read_key in Hk. destruct (string_Unmarshal raw) as [enc|e]; [|left; split; [done|exact Hv]].
  destruct (Std_DecodeString enc) as [k|]; [|left; split; [done|exact Hv]].
  destruct (MinSecretLen <=? length k)%nat eqn:Hlen.
  - right. rewrite Hk, Hlen. simpl. rewrite Hv. by destruct rand.
  - apply (resolve_generate rand s1 (view s) Hv). rewrite Hk. by apply Nat.leb_gt.
Qed.

Lemma settings_step op s : text_op op = true → steps_as (settings_op op s) (register_op op (view s)) (view s).
Proof.
  intros Ht. unfold steps_as. destruct op as [|p| |l|env file rand]; [| | | |apply signing_key_step];
    unfold settings_op; rewrite bind_st_run; cbn [fst snd ret_st].
  - change (LoadPolicy s) with (Settings_LoadPolicy s). destruct (LoadPolicy_run s) as [E [(e & -> & _)| ->]];
      rewrite (view_rows _ _ E); [by left|by right].
  - change (SavePolicy p s) with (Settings_SavePolicy p s). destruct (SavePolicy_run p s) as [(e & -> & E & _)|(-> & b & Hb & E)].
    + rewrite (view_rows _ _ E). by left.
    + right. by rewrite (view_policy _ _ _ E), (read_policy_back _ _ Hb).
  - change (LoadRegistries s) with (Settings_LoadRegistries s). destruct (LoadRegistries_run s) as [E [(e & -> & _)| ->]];
      rewrite (view_rows _ _ E); [by left|by right].
  - change (SaveRegistries l s) with (Settings_SaveRegistries l s).
    destruct (SaveRegistries_run l s) as [(e & -> & E & _)|(-> & b & Hb & E)].
    + rewrite (view_rows _ _ E). by left.
    + right. by rewrite (view_registries _ _ _ E), (read_registries_back _ _ Ht Hb).
Qed.
End Registers.

(** ** Runs of the table *)

Section Runs.
Context `{SJL : SettingsJSONLaws}.

(** Each operation with its answer, and the table after. *)
Fixpoint settings_run (ops : list SettingsOp) (s : Settings) : list (SettingsOp * SettingsAnswer) * Settings :=
  match ops with
  | [] => ([], s)
  | op :: ops =>
      let '(a, s) := settings_op op s in
      let '(log, s) := settings_run ops s in
      ((op, a) :: log, s)
  end.

Fixpoint register_run (ops : list SettingsOp) (v : View) : list SettingsAnswer * View :=
  match ops with
  | [] => ([], v)
  | op :: ops =>
      let '(a, v) := register_op op v in
      let '(l, v) := register_run ops v in
      (a :: l, v)
  end.

(** C37: one table is as good as a register for each of its users.  Whatever
    loads, saves and key resolutions the policy, the registries and the
    console's start make, in any order and whichever statements fail, the
    operations that did not fail answer exactly as on three separate registers
    and leave the table holding what the registers hold: a failed operation
    changes nothing, and nobody's save touches another's value. *)
Theorem settings_refine_registers ops s :
  forallb text_op ops = true →
  let '(log, s') := settings_run ops s in
  let done := List.filter (λ p, negb (failed p.2)) log in
  log.*1 = ops ∧ register_run done.*1 (view s) = (done.*2, view s').
Proof.
  revert s. induction ops as [|op ops IH]; intros s; simpl; [done|]. intros [Ht Hts]%andb_true_iff.
  pose proof (settings_step op s Ht) as Hstep. unfold steps_as in Hstep.
  destruct (settings_op op s) as [a s1]. specialize (IH s1 Hts). destruct (settings_run ops s1) as [log s2]. cbn [fst snd] in *.
  destruct IH as [Hops IH]. rewrite fmap_cons. split; [cbn [fst]; by rewrite Hops|]. cbn [List.filter snd].
  destruct Hstep as [[-> Hv]|Hreg]; [cbn [failed negb]; by rewrite <- Hv|].
  destruct (failed a) eqn:Hf; cbn [negb].
  - destruct a; try done. assert (view s1 = view s) as <-; [|done].
    destruct op as [| | | |env file rand]; try done. unfold register_op in Hreg. repeat case_match; congruence.
  - rewrite !fmap_cons. cbn [register_run fst snd]. rewrite <- Hreg, IH. done.
Qed.

(** The key once stored stays. *)
Lemma key_kept op v k :
  v_key v = Some k → (MinSecretLen ≤ length k)%nat → v_key (register_op op v).2 = Some k.
Proof.
  intros Hk Hl. destruct op as [| | | |env file rand]; try done. unfold register_op. rewrite Hk.
  apply Nat.leb_le in Hl. rewrite Hl. by repeat case_match.
Qed.

Lemma key_kept_run ops s k :
  forallb text_op ops = true → v_key (view s) = Some k → (MinSecretLen ≤ length k)%nat →
  v_key (view (settings_run ops s).2) = Some k.
Proof.
  intros Ht Hk Hl. revert s Hk Ht. induction ops as [|op ops IH]; intros s Hk; simpl; [done|]. intros [Ht Hts]%andb_true_iff.
  pose proof (settings_step op s Ht) as Hstep. unfold steps_as in Hstep.
  destruct (settings_op op s) as [a s1]. cbn [fst snd] in *.
  assert (v_key (view s1) = Some k) as Hk1.
  { destruct Hstep as [[_ ->]|Hreg]; [done|]. by rewrite <- (key_kept op (view s) k Hk Hl), <- Hreg. }
  specialize (IH s1 Hk1 Hts). by destruct (settings_run ops s1).
Qed.

(** A key handed out is the one stored, and long enough. *)
Lemma key_answer rand v v' k :
  register_op (OpSigningKey "" "" rand) v = (AnsKey k, v') → (∀ raw, rand = Some raw → length raw = MinSecretLen) →
  v_key v' = Some k ∧ (MinSecretLen ≤ length k)%nat.
Proof.
  unfold register_op. change (TrimSpace "") with "". cbn [String.eqb negb]. intros Hs Hr.
  destruct (v_key v) as [k'|] eqn:Hk, rand as [raw|]; try (destruct (Nat.leb_spec MinSecretLen (length k')));
    try discriminate Hs; injection Hs; intros <- <-; (split; [done|]); try done; by rewrite (Hr _ eq_refl).
Qed.

(** the sessions survive a restart: a signing key the settings gave out is
    the one every later start is given, whatever was saved in between and
    whatever random bytes it would have drawn, unless it cannot be read. *)
Theorem signing_key_survives s0 rand k s ops rand' :
  settings_op (OpSigningKey "" "" rand) s0 = (AnsKey k, s) → (∀ raw, rand = Some raw → length raw = MinSecretLen) →
  forallb text_op ops = true →
  (settings_op (OpSigningKey "" "" rand') (settings_run ops s).2).1 ∈ [AnsKey k; AnsFailed].
Proof.
  intros H0 Hrand Ht. pose proof (signing_key_step "" "" rand s0) as Hs. rewrite H0 in Hs. destruct Hs as [[? _]|Hs]; [done|].
  assert (v_key (view s) = Some k ∧ (MinSecretLen ≤ length k)%nat) as [Hk Hl].
  { symmetry in Hs. exact (key_answer _ _ _ _ Hs Hrand). }
  pose proof (key_kept_run ops s k Ht Hk Hl) as Hk'. revert Hk'. generalize (settings_run ops s).2. intros s' Hk'.
  pose proof (signing_key_step "" "" rand' s') as E. unfold steps_as in E. destruct E as [[E _]|E]; [rewrite E; set_solver|].
  unfold register_op in E. change (TrimSpace "") with "" in E. cbn [String.eqb negb] in E. rewrite Hk' in E.
  apply Nat.leb_le in Hl. rewrite Hl in E. apply (f_equal fst) in E. cbn [fst] in E. rewrite E. destruct rand'; set_solver.
Qed.
End Runs.

(** ** The registries at the start *)

Section Startup.
Context `{SJL : SettingsJSONLaws}.

Lemma registryInfo_ecosystems c : reg_Ecosystem <$> registryInfo c = knownEcos.
Proof. done. Qed.

Lemma set_registry_known ri c :
  reg_Ecosystem ri ∈ knownEcos →
  ∃ c', set_registry ri c = Some c' ∧ ri ∈ registryInfo c' ∧
    ∀ x, x ∈ registryInfo c → reg_Ecosystem x ≠ reg_Ecosystem ri → x ∈ registryInfo c'.
Proof.
  destruct ri as [eco en us]. unfold knownEcos. simpl. rewrite !elem_of_cons, elem_of_nil.
  intros [->|[->|[->|[->|[->|[->|[]]]]]]]; (eexists; split; [reflexivity|]); unfold registryInfo; simpl;
    (split; [by repeat (first [left; reflexivity|right])|]); intros x;
    rewrite !elem_of_cons, elem_of_nil; intros [->|[->|[->|[->|[->|[->|[]]]]]]] Hne; simpl in Hne; try done; tauto.
Qed.

Lemma overlay_known l c :
  NoDup (reg_Ecosystem <$> l) → (∀ r, r ∈ l → reg_Ecosystem r ∈ knownEcos) →
  ∃ c', overlay l c = (None, c') ∧ (∀ r, r ∈ l → r ∈ registryInfo c') ∧
    ∀ x, x ∈ registryInfo c → reg_Ecosystem x ∉ reg_Ecosystem <$> l → x ∈ registryInfo c'.
Proof.
  revert c. induction l as [|ri l IH]; intros c; simpl; [intros; exists c; set_solver|].
  intros [Hni Hnd]%NoDup_cons Hk.
  destruct (set_registry_known ri c) as (c1 & -> & Hin & Hkeep); [apply Hk; by left|].
  destruct (IH c1 Hnd) as (c' & -> & Hl & Hrest); [intros r ?; apply Hk; by right|].
  exists c'. split; [done|]. split.
  - intros r [->|Hr]%elem_of_cons; [by apply Hrest|by apply Hl].
  - intros x Hx Hnx. apply not_elem_of_cons in Hnx as [H1 H2]. by apply Hrest; [apply Hkeep|].
Qed.

(** A set with every ecosystem once is what the overlay leaves. *)
Lemma overlay_set l c : reg_Ecosystem <$> l ≡ₚ knownEcos → ∃ c', overlay l c = (None, c') ∧ l ≡ₚ registryInfo c'.
Proof.
  intros Hp. assert (NoDup knownEcos) as Hk by (apply (bool_decide_unpack _); vm_compute; done).
  assert (NoDup (reg_Ecosystem <$> l)) as Hnd by by rewrite Hp.
  destruct (overlay_known l c Hnd) as (c' & Ho & Hl & _).
  { intros r Hr. rewrite <- Hp. apply list_elem_of_fmap. by exists r. }
  exists c'. split; [done|]. apply submseteq_length_Permutation.
  - apply NoDup_submseteq; [by eapply NoDup_fmap_1|exact Hl].
  - apply Permutation_length in Hp. by rewrite length_fmap in Hp; rewrite Hp.
Qed.

(** The console of a server running on [c]: the registries running are the
    configured ones. *)
Definition boot_registries (c : RegistriesConfig) (images : bool) : RegistryConfig :=
  NewRegistryConfig (mkRegConfig true (registryInfo c) (Some (registryInfo c)) images).

(** a restart applies what the console saved.  A server started on a
    stored set that names every ecosystem once - which every set the console
    saves does - runs exactly that set, whatever its YAML says; its console
    then reports no restart pending; and the stored set is left alone.  With
    nothing stored it runs the YAML's and stores it, so that the next start
    runs the same.  When the settings cannot be read or written it does not
    start. *)
Theorem restart_applies_registries c s images :
  match applyStoredRegistries c s with
  | ((None, c'), s') =>
      match saved s with
      | Some l =>
          saved s' = Some l ∧ (reg_Ecosystem <$> l ≡ₚ knownEcos →
            l ≡ₚ registryInfo c' ∧ pending_restart (boot_registries c' images) (non_nil <$> l) = false)
      | None => c' = c ∧ (registries_valid (registryInfo c) = true → saved s' = Some (registryInfo c))
      end
  | ((Some _, _), s') =>
      settings_faults s ≠ [] ∨ (∃ b, settings_rows s !! registriesKey = Some b ∧ read_registries b = None) ∨
      (∃ e, registries_Marshal (registryInfo c) = Err e) ∨ (∃ l, saved s = Some l ∧ ¬ reg_Ecosystem <$> l ≡ₚ knownEcos)
  end.
Proof.
  unfold applyStoredRegistries. rewrite bind_st_run. destruct (LoadRegistries_run s) as [E [(e & -> & Hbad)| ->]].
  { simpl. destruct Hbad; auto. }
  assert (saved s = row_of registriesKey read_registries s) as <- by done.
  assert (saved (Settings_LoadRegistries s).2 = saved s) as Hs 
    by (unfold saved; simpl; unfold row_of; by rewrite E).
  destruct (saved s) as [l|] eqn:Hl.
  - cbn [ret_st]. destruct (overlay l c) as [[e|] c'] eqn:Ho.
    + right; right; right. exists l. split; [done|]. intros Hp. destruct (overlay_set l c Hp) as (? & E' & _). congruence.
    + split; [done|]. intros Hp. destruct (overlay_set l c Hp) as (c2 & E' & Hperm). assert (c2 = c') as -> by congruence.
      split; [done|]. unfold pending_restart, boot_registries. simpl.
      assert (NoDup knownEcos) as Hk by (apply (bool_decide_unpack _); vm_compute; done).
      rewrite (proj2 (registriesEqual_spec (non_nil <$> l) (registryInfo c') ltac:(by rewrite <- list_fmap_compose, Hp)
        ltac:(by rewrite registryInfo_ecosystems))); [done|]. rewrite <- list_fmap_compose. by rewrite Hperm.
  - destruct (registries_Marshal (registryInfo c)) as [seed|e] eqn:Hm; [|simpl; eauto 6].
    rewrite bind_st_run. cbn [ret_st].
    destruct (Settings_Put_run registriesKey seed (Settings_LoadRegistries s).2) as [(e & -> & Hf & _)|[-> E']].
    + left. intros Hnf. apply Hf. unfold Settings_LoadRegistries, Settings_Get. rewrite !bind_st_run.
      unfold settings_fails. by rewrite Hnf.
    + split; [done|]. intros Ht. unfold saved. simpl. unfold row_of. rewrite E', lookup_insert_eq. simpl.
      by apply read_registries_back.
Qed.
End Startup.

(** ** Witnesses *)

Definition ex_policy_tuple (p : RuntimeParams) : string * Z * string * list string * list string * list string :=
  (p_Mode p, p_MinAgeHours p, p_CVEBlockOn p, p_AllowlistSupply p, p_AllowlistCVE p, p_Denylist p).

Definition ex_registry_tuple (r : RegistryInfo) : string * bool * option (list string) :=
  (reg_Ecosystem r, reg_Enabled r, reg_Upstreams r).

Definition ex_write {A} `{Countable A} (a : A) : string := of_bytes (bits (encode a)).
Definition ex_parse {A} `{Countable A} (s : string) : option A := decode (unbits (to_bytes s)).

Lemma ex_parse_write {A} `{Countable A} (a : A) : ex_parse (ex_write a) = Some a.
Proof. unfold ex_parse, ex_write. by rewrite to_of_bytes, unbits_bits, decode_encode. Qed.

#[local] Instance ex_settings_json : SettingsJSON := {|
  policy_Unmarshal s :=
    match (ex_parse s : option (string * Z * string * list string * list string * list string)) with
    | Some (m, h, b, x, y, z) => Ok (mkParams m h b x y z, [])
    | None => Err "invalid policy"
    end;
  policy_Marshal p := Ok (ex_write (ex_policy_tuple p));
  registries_Unmarshal s :=
    match (ex_parse s : option (list (string * bool * option (list string)))) with
    | Some l => Ok ((fun r => mkRegistry r.1.1 r.1.2 r.2) <$> l)
    | None => Err "invalid registries"
    end;
  registries_Marshal l := Ok (ex_write (ex_registry_tuple <$> l));
  string_Unmarshal s := Ok s;
  string_Marshal s := Ok s;
|}.

#[local] Instance ex_settings_json_laws : SettingsJSONLaws.
Proof.
  exists id; [done|..]; unfold policy_Marshal, policy_Unmarshal, registries_Marshal, registries_Unmarshal, ex_settings_json.
  - intros p b [= <-]. rewrite ex_parse_write. by destruct p.
  - intros l b _ [= <-]. rewrite ex_parse_write. f_equal. rewrite <- list_fmap_compose.
    induction l as [|[] l IH]; [done|]. rewrite fmap_cons. by f_equal.
  - by intros s b _ [= <-].
Qed.

Definition ex_policy : RuntimeParams := mkParams "enforce" 24 "HIGH" [] ["npm/left-pad"] ["npm/evil"].
Definition ex_key : bytes := to_bytes "0123456789abcdef0123456789abcdef".

(** The third statement fails: the registries' first save. *)
Definition ex_settings : Settings := mkSettings ∅ [false; false; true].
Definition ex_settings_ops : list SettingsOp :=
  [OpSavePolicy ex_policy; OpLoadRegistries; OpSaveRegistries ex_stored; OpSaveRegistries (ex_set ["https://pypi.org"]);
   OpSigningKey "" " " (Some ex_key); OpLoadPolicy; OpSigningKey "" "" None].

Lemma settings_refine_registers_witness :
  forallb text_op ex_settings_ops = true ∧
  (settings_run ex_settings_ops ex_settings).1.*2 =
    [AnsSaved; AnsRegistries None; AnsFailed; AnsSaved; AnsKey ex_key; AnsPolicy (Some ex_policy); AnsKey ex_key] ∧
  ∃ done, register_run done (view ex_settings) =
    ([AnsSaved; AnsRegistries None; AnsSaved; AnsKey ex_key; AnsPolicy (Some ex_policy); AnsKey ex_key],
     view (settings_run ex_settings_ops ex_settings).2).
Proof.
  split; [vm_compute; reflexivity|]. split; [vm_compute; reflexivity|].
  pose proof (settings_refine_registers ex_settings_ops ex_settings eq_refl) as Href.
  exists (List.filter (λ p, negb (failed p.2)) (settings_run ex_settings_ops ex_settings).1).*1.
  assert ((List.filter (λ p, negb (failed p.2)) (settings_run ex_settings_ops ex_settings).1).*2 =
    [AnsSaved; AnsRegistries None; AnsSaved; AnsKey ex_key; AnsPolicy (Some ex_policy); AnsKey ex_key]) as <-
    by (vm_compute; reflexivity).
  destruct (settings_run ex_settings_ops ex_settings) as [log s']. exact (proj2 Href).
Defined.

(** Two starts on a fresh database, the console's save in between. *)
Definition ex_yaml : RegistriesConfig :=
  let off := mkEntry false None in
  mkRegistries (mkEntry true (Some ["https://pypi.org"])) off off off off off.

Definition ex_boot (s : Settings) : (option string * RegistriesConfig) * Settings := applyStoredRegistries ex_yaml s.
Definition ex_edited : Settings := (Settings_SaveRegistries ex_stored (ex_boot (mkSettings ∅ [])).2).2.

Lemma restart_applies_registries_witness :
  (saved (ex_boot (mkSettings ∅ [])).2 = Some (registryInfo ex_yaml)) ∧
  (ex_boot ex_edited).1.1 = None ∧ ex_stored ≡ₚ registryInfo (ex_boot ex_edited).1.2.
Proof.
  split; [|split].
  - pose proof (restart_applies_registries ex_yaml (mkSettings ∅ []) false) as Hfirst. fold (ex_boot (mkSettings ∅ [])) in Hfirst.
    assert ((ex_boot (mkSettings ∅ [])).1 = (None, ex_yaml)) as E by (vm_compute; reflexivity).
    assert (saved (mkSettings ∅ []) = None) as Hn by (vm_compute; reflexivity). rewrite Hn in Hfirst.
    destruct (ex_boot (mkSettings ∅ [])) as [p s']. cbn [fst] in E. rewrite E in Hfirst. apply (proj2 Hfirst).
    vm_compute. reflexivity.
  - vm_compute. reflexivity.
  - pose proof (restart_applies_registries ex_yaml ex_edited false) as Hsecond. fold (ex_boot ex_edited) in Hsecond.
    assert ((ex_boot ex_edited).1.1 = None) as E by (vm_compute; reflexivity).
    assert (saved ex_edited = Some ex_stored) as Hn by (vm_compute; reflexivity). rewrite Hn in Hsecond.
    destruct (ex_boot ex_edited) as [[o c'] s']. cbn [fst snd] in E |- *. rewrite E in Hsecond.
    refine (proj1 (proj2 Hsecond _)). vm_compute. reflexivity.
Defined.

Lemma signing_key_survives_witness :
  settings_op (OpSigningKey "" "" (Some ex_key)) (mkSettings ∅ []) = (AnsKey ex_key, (settings_op (OpSigningKey "" "" (Some ex_key)) (mkSettings ∅ [])).2) ∧
  (settings_op (OpSigningKey "" "" None)
    (settings_run ex_settings_ops (settings_op (OpSigningKey "" "" (Some ex_key)) (mkSettings ∅ [])).2).2).1 ∈ [AnsKey ex_key; AnsFailed].
Proof.
  split; [reflexivity|]. apply (signing_key_survives (mkSettings ∅ []) (Some ex_key)); [reflexivity| |reflexivity].
  intros raw [= <-]. reflexivity.
Defined.
