(* ===== verification/ConsoleEvents.v ===== *)
(** * Package console: the telemetry screens (cursor.go, events.go, server.go)

    The event log page by page, the quarantine and the daily metrics; the
    cursor a client carries from page to page. *)
From S2P Require Import Prelude GoStd Gate Upstream HTTP Users Login Token Session SessionSpec Telemetry TelemetrySpec Console.
Local Open Scope Z_scope.

(** ** cursor.go *)

Definition maxRequestQuery : Z := 256.
Definition maxRequestsLimit : Z := 500.

Definition validVerdict (v : string) : bool :=
  existsb (String.eqb v) (verdict_string <$> [VerdictPass; VerdictCache; VerdictBlock; VerdictError]).

Definition encodeCursor (c : Cursor) : string :=
  if Zero c then "" else FormatInt (time_unix_nano (cu_TS c)) +:+ ":" +:+ FormatInt (cu_ID c).

Definition parseCursor (s : string) : option Cursor :=
  match cut_bytes ":"%char (to_bytes s) with
  | None => None
  | Some (a, b) =>
      match ParseInt (of_bytes a), ParseInt (of_bytes b) with
      | Some tsNano, Some id =>
          if (id <? 1) || (tsNano <? 1) then None else Some (mkCursor (of_unix 0 tsNano) id)
      | _, _ => None
      end
  end.

(** ** events.go *)

Definition cve_json (f : CVEFinding) : list (string * JSON) :=
  [("id", JString (cf_ID f)); ("severity", JString (Severity_String (cf_Severity f))); ("cvss", JFloat (cf_Score f));
   ("summary", JString (cf_Summary f))].

(** omitempty *)
Definition unless (b : bool) (name : string) (v : JSON) : list (string * JSON) := if b then [] else [(name, v)].

Definition supply_json (ev : Event) : list (string * JSON) :=
  ("published_at", JTime (ev_PublishedAt ev)) ::
  unless (time_is_zero (ev_BlockUntil ev)) "block_until" (JTime (ev_BlockUntil ev)).

Definition toEventJSON (ev : Event) : list (string * JSON) :=
  [("request_id", JString (ev_RequestID ev)); ("ts", JTime (ev_Time ev)); ("eco", JString (ev_Ecosystem ev));
   ("pkg", JString (ev_Package ev)); ("ver", JString (ev_Version ev)); ("verdict", JString (verdict_string (ev_Verdict ev)));
   ("gate", JString (ev_Gate ev)); ("lat", JInt (ev_LatencyMS ev))] ++
  unless (ev_HTTPStatus ev =? 0) "http" (JInt (ev_HTTPStatus ev)) ++
  unless (ev_Reason ev =s? "") "reason" (JString (ev_Reason ev)) ++
  unless (bool_decide (ev_BlockedBy ev = [])) "blocked_by" (JStrings (ev_BlockedBy ev)) ++
  unless (bool_decide (ev_CVEs ev = [])) "cves" (JArray (cve_json <$> ev_CVEs ev)) ++
  unless ((ev_MalwareEngine ev =s? "") && (ev_MalwareSignature ev =s? "")) "malware"
    (JObject [("engine", JString (ev_MalwareEngine ev)); ("signature", JString (ev_MalwareSignature ev))]) ++
  unless (time_is_zero (ev_PublishedAt ev)) "supply" (JObject (supply_json ev)).

(** ** server.go: the handlers *)

Section Events.
Context `{TJ : TelemetryJSON}.
(** r.URL.Query().Get; the tallies of a day as JSON. *)
Context (query : Request -> string -> string) (gates_json : Gates -> JSON).
Context (env : AuthEnv).
(** Whether the request's context is done, which a failed read looks at. *)
Context (cancelled : bool).

Local Notation M := (St (AuthWorld Repo)).

Definition bad_request (code : string) : M unit := json_error StatusBadRequest code.

Definition send_page (verdict text : string) (cursor : Cursor) (lim : Z) : M unit :=
  p <- on_store (Store_Page verdict text cursor lim);;
  json_response StatusOK [("requests", JArray (toEventJSON <$> p.1)); ("next_cursor", JString (encodeCursor p.2))].

(** requests after the limit is known. *)
Definition requests_page (r : Request) (lim : Z) : M unit :=
  let verdict := query r "verdict" in
  if negb (verdict =s? "") && negb (validVerdict verdict) then bad_request "invalid_verdict"
  else
    let text := TrimSpace (query r "q") in
    if maxRequestQuery <? str_len text then bad_request "invalid_query"
    else
      let q := query r "cursor" in
      if q =s? "" then send_page verdict text no_cursor lim
      else
        match parseCursor q with
        | None => bad_request "invalid_cursor"
        | Some c => send_page verdict text c lim
        end.

Definition requests (r : Request) : M unit :=
  let q := query r "limit" in
  if q =s? "" then requests_page r 100
  else
    match ParseInt q with
    | None => bad_request "invalid_limit"
    | Some n => if n <? 1 then bad_request "invalid_limit" else requests_page r (Z.min n maxRequestsLimit)
    end.

Definition quarantine_json (ev : Event) : list (string * JSON) :=
  [("eco", JString (ev_Ecosystem ev)); ("pkg", JString (ev_Package ev)); ("ver", JString (ev_Version ev));
   ("published_at", JTime (ev_PublishedAt ev)); ("block_until", JTime (ev_BlockUntil ev));
   ("request_id", JString (ev_RequestID ev))].

Definition quarantine : M unit :=
  now <- anow env;;
  l <- on_store (Store_Quarantine now);;
  json_response StatusOK [("quarantine", JArray (quarantine_json <$> l))].

Definition daily_json (d : DailyMetric) : list (string * JSON) :=
  let t := dm_tallies d in
  [("day", JString (Day d)); ("requests", JInt (Telemetry.requests t)); ("cache_hits", JInt (cacheHits t));
   ("blocked", JInt (blocked t)); ("errors", JInt (errors t)); ("supply_blocked", JInt (supplyBlocked t));
   ("cve_blocked", JInt (cveBlocked t)); ("malware_blocked", JInt (malwareBlocked t));
   ("denylisted", JInt (denylisted t)); ("gates", gates_json (dm_gates d))].

Definition send_days (days : Z) : M unit :=
  d <- on_store (DailyMetrics days);;
  match d with
  | None => if cancelled then ret_st tt else json_error StatusInternalServerError "metrics_unavailable"
  | Some l => json_response StatusOK [("daily", JArray (daily_json <$> l))]
  end.

Definition dailyMetrics (r : Request) : M unit :=
  let q := query r "days" in
  if q =s? "" then send_days 30
  else
    match ParseInt q with
    | None => bad_request "invalid_days"
    | Some n => if n <? 1 then bad_request "invalid_days" else send_days (Z.min n 365)
    end.
End Events.

(** * Properties *)

(** ** Cursors *)

(** A row a cursor can point at: its time and identifier are positive. *)
Definition cursor_row (r : EventRow) : Prop := 1 ≤ er_ts r ≤ max_int64 ∧ 1 ≤ er_id r ≤ max_int64.

Definition at_row (r : EventRow) : Cursor := mkCursor (of_unix 0 (er_ts r)) (er_id r).

Lemma unix_nano_of_unix n : in_int64 n → time_unix_nano (of_unix 0 n) = n.
Proof. intros Hn. unfold time_unix_nano, of_unix. rewrite wrap64_id; [lia|]. by replace (_ - _) with n by lia. Qed.

Lemma parse_encode_row r : cursor_row r → encodeCursor (at_row r) ≠ "" ∧ parseCursor (encodeCursor (at_row r)) = Some (at_row r).
Proof.
  intros [Ht Hi]. unfold encodeCursor, at_row, Zero. cbn [cu_ID cu_TS].
  assert (in_int64 (er_ts r) ∧ in_int64 (er_id r)) as [Ht' Hi'] by (unfold in_int64, min_int64; lia).
  rewrite (proj2 (Z.eqb_neq _ _)) by lia. rewrite unix_nano_of_unix by done. split.
  { intros H. apply (f_equal to_bytes) in H. rewrite !to_bytes_app in H. by apply app_nil in H as [_ ?]. }
  unfold parseCursor. rewrite !to_bytes_app.
  rewrite (proj2 (cut_bytes_Some _ _ (to_bytes (FormatInt (er_ts r))) (to_bytes (FormatInt (er_id r))))).
  - rewrite !of_to_bytes, !ParseInt_FormatInt by done.
    rewrite (proj2 (Z.ltb_ge _ _)), (proj2 (Z.ltb_ge _ _)) by lia. done.
  - split; [done|apply FormatInt_no_colon].
Qed.

(** ** One page *)

Lemma newer_trans a b c : newer a b → newer b c → newer a c.
Proof. unfold newer. lia. Qed.

#[export] Instance newer_transitive : Transitive newer.
Proof. intros a b c. apply newer_trans. Qed.

#[export] Instance newer_total : Total newer.
Proof. intros a b. unfold newer. lia. Qed.

(** The same place in the order, hence the same row where identifiers are
    unique. *)
Definition unique_ids (l : list EventRow) : Prop := NoDup (er_id <$> l).

Lemma unique_id l a b : unique_ids l → a ∈ l → b ∈ l → er_id a = er_id b → a = b.
Proof.
  unfold unique_ids. induction l as [|x l IH]; intros Hn Ha Hb He; [by apply elem_of_nil in Ha|].
  rewrite fmap_cons in Hn. apply NoDup_cons in Hn as [Hx Hn].
  assert (∀ y, y ∈ l → er_id y ≠ er_id x) as Hne.
  { intros y Hy E. apply Hx. rewrite <- E. apply list_elem_of_fmap. by exists y. }
  apply elem_of_cons in Ha as [-> |Ha]; apply elem_of_cons in Hb as [-> |Hb]; [done| | |auto].
  - by destruct (Hne b Hb).
  - by destruct (Hne a Ha).
Qed.

Lemma newest_first_sorted l : StronglySorted newer (newest_first l).
Proof. apply StronglySorted_merge_sort; apply _. Qed.

Lemma newest_first_perm l : newest_first l ≡ₚ l.
Proof. apply merge_sort_Permutation. Qed.

(** A sorted permutation is the sort. *)
Lemma newest_first_unique l k : unique_ids l → l ≡ₚ k → StronglySorted newer k → newest_first l = k.
Proof.
  intros Hn Hp Hk. apply (StronglySorted_unique_strong newer); [|apply newest_first_sorted|done|by rewrite newest_first_perm].
  intros a b Ha Hb H1 H2. rewrite newest_first_perm in Ha. rewrite <- Hp in Hb.
  apply (unique_id l); [done..|]. unfold newer in *. lia.
Qed.

Lemma filter_sorted (P : EventRow -> bool) l : StronglySorted newer l → StronglySorted newer (filter P l).
Proof.
  induction 1 as [|x l Hs IH Hx]; [constructor|]. rewrite filter_cons. case_decide; [|done]. constructor; [done|].
  apply Forall_forall. intros y [_ Hy]%list_elem_of_filter. rewrite Forall_forall in Hx. auto.
Qed.

(** The cursor of the last row, if any. *)
Definition last_cursor (next : Cursor) (l : list EventRow) : Cursor :=
  match last l with Some r => at_row r | None => next end.

Section Pages.
Context `{TJ : TelemetryJSON}.

Lemma decoded_cons r l :
  decoded (r :: l) = match unmarshal_event (er_detail_json r) with Some e => e :: decoded l | None => decoded l end.
Proof. done. Qed.

Lemma decoded_length l : (length (decoded l) ≤ length l)%nat.
Proof.
  induction l as [|r l IH]; [done|]. rewrite decoded_cons. destruct (unmarshal_event _); simpl; lia.
Qed.

Lemma page_loop_run lim k out next l :
  0 ≤ k ≤ lim → 0 < lim →
  page_loop lim k out next l =
    (out ++ decoded (take (Z.to_nat (lim - k)) l), last_cursor next (take (Z.to_nat (lim - k)) l),
     if Z.of_nat (length l) <=? lim - k then k + Z.of_nat (length l) else lim + 1).
Proof.
  revert k out next. induction l as [|r l IH]; intros k out next Hk Hlim.
  - cbn [page_loop length]. rewrite take_nil. simpl. rewrite app_nil_r. rewrite (proj2 (Z.leb_le _ _)) by lia. by rewrite Z.add_0_r.
  - cbn [page_loop]. rewrite (proj2 (Z.ltb_lt 0 lim)) by done. cbn [andb length].
    destruct (Z.ltb_spec lim (k + 1)) as [H|H].
    + assert (k = lim) as -> by lia. rewrite Z.sub_diag. change (Z.to_nat 0) with 0%nat. rewrite take_0. change (decoded []) with (@nil Event). rewrite app_nil_r.
      rewrite (proj2 (Z.leb_gt _ _)) by lia. done.
    + replace (Z.to_nat (lim - k)) with (S (Z.to_nat (lim - (k + 1)))) by lia. cbn [take].
      assert (last_cursor next (r :: take (Z.to_nat (lim - (k + 1))) l) =
        last_cursor (at_row r) (take (Z.to_nat (lim - (k + 1))) l)) as ->.
      { unfold last_cursor. rewrite last_cons. by destruct (last _). }
      assert ((if Z.of_nat (S (length l)) <=? lim - k then k + Z.of_nat (S (length l)) else lim + 1) =
        (if Z.of_nat (length l) <=? lim - (k + 1) then k + 1 + Z.of_nat (length l) else lim + 1)) as ->.
      { destruct (Z.leb_spec (Z.of_nat (S (length l))) (lim - k)), (Z.leb_spec (Z.of_nat (length l)) (lim - (k + 1))); lia. }
      rewrite decoded_cons.
      fold (at_row r). destruct (unmarshal_event (er_detail_json r)); rewrite IH by lia; [|done].
      by rewrite <- app_assoc.
Qed.

(** The matching rows in order, cut at the limit; the cursor when there are
    more. *)
Lemma page_run verdict text cursor lim l q :
  1 ≤ lim → newest_first (filter (page_matches verdict text cursor) l) = q →
  page verdict text cursor lim l =
    (decoded (take (Z.to_nat lim) q),
     if Z.of_nat (length q) <=? lim then no_cursor else last_cursor no_cursor (take (Z.to_nat lim) q)).
Proof.
  intros Hlim Hq. unfold page. rewrite Hq. rewrite (proj2 (Z.ltb_lt 0 lim)) by lia. unfold limit.
  rewrite (proj2 (Z.ltb_lt 0 (lim + 1))) by lia. rewrite page_loop_run by lia. rewrite Z.sub_0_r, take_take.
  replace (Z.to_nat lim `min` Z.to_nat (lim + 1))%nat with (Z.to_nat lim) by lia. rewrite length_take. cbn [app andb].
  f_equal. destruct (Z.leb_spec (Z.of_nat (Z.to_nat (lim + 1) `min` length q)) lim);
  repeat match goal with |- context [Z.leb ?a ?b] => destruct (Z.leb_spec a b) end; done || (exfalso; lia).
Qed.
End Pages.

(** ** Walking the log *)

(** The rows asked for: of the verdict, and with the text in the name and
    version or in the request's identifier, letter case aside. *)
Definition holds_text (text field : string) : Prop :=
  ∃ a u b, to_bytes field = a ++ u ++ b ∧ same_letters u (to_bytes text).

Definition wanted (verdict text : string) (r : EventRow) : Prop :=
  (verdict = "" ∨ er_verdict r = verdict) ∧
  (text = "" ∨ holds_text text (er_package r +:+ "@" +:+ er_version r) ∨ holds_text text (er_request_id r)).

Lemma page_matches_wanted verdict text r : page_matches verdict text no_cursor r = true ↔ wanted verdict text r.
Proof.
  unfold page_matches, wanted, holds_text. cbn [Zero cu_ID no_cursor Z.eqb orb]. rewrite andb_true_r, andb_true_iff, !orb_true_iff.
  by rewrite !String.eqb_eq, !like_substring.
Qed.

(** What a page's answer holds for a client. *)
Definition page_of (rs : Response) : option (list (list (string * JSON)) * string) :=
  match rs_Body rs with
  | BJSON [(requests, JArray evs); (next_cursor, JString next)] =>
      if (rs_Status rs =? 200) && (requests =s? "requests") && (next_cursor =s? "next_cursor") then Some (evs, next) else None
  | _ => None
  end.

(** Events recorded in a store, each with the clock read for it. *)
Definition record_events `{TJ : TelemetryJSON} (evs : list (Z * Event)) (s : Repo) : Repo :=
  foldl (fun s p => (Store_Record p.1 p.2 s).2) s evs.

Section Client.
Context `{TJ : TelemetryJSON} (query : Request -> string -> string).

(** A client that sends the console [ask cursor], reads the one answer, and
    follows its next_cursor to the end, while the events of [grow] are recorded
    between one page and the next: [None] when an answer is no page or the fuel
    runs out. *)
Fixpoint client (fuel : nat) (ask : string -> Request) (cursor : string) (grow : list (list (Z * Event)))
    (w : AuthWorld Repo) : option (list (list (list (string * JSON)))) :=
  match fuel with
  | O => None
  | S fuel =>
      let w1 := (requests query (ask cursor) w).2 in
      match a_responses (drop (length (aw_trace w)) (aw_trace w1)) with
      | [rs] =>
          match page_of rs with
          | None => None
          | Some (evs, next) =>
              if next =s? "" then Some [evs]
              else
                cons evs <$> client fuel ask next (tail grow)
                  (mkAuth (record_events (default [] (head grow)) (aw_store w1)) (aw_limiter w1) (aw_trace w1) ∅)
          end
      | _ => None
      end
  end.

(** The requests of one client: the same filters each time, and the cursor. *)
Record asks (verdict text limit : string) (ask : string -> Request) : Prop := {
  asks_verdict c : query (ask c) "verdict" = verdict;
  asks_text c : query (ask c) "q" = text;
  asks_limit c : query (ask c) "limit" = limit;
  asks_cursor c : query (ask c) "cursor" = c;
}.

(** The size of a page: 100, or the number asked for, up to 500. *)
Definition page_limit (limit : string) (lim : Z) : Prop :=
  limit = "" ∧ lim = 100 ∨ ∃ n, limit ≠ "" ∧ ParseInt limit = Some n ∧ 1 ≤ n ∧ lim = Z.min n 500.

Definition verdict_asked (verdict : string) : Prop := verdict ∈ [""; "PASS"; "CACHE"; "BLOCK"; "ERROR"].

(** A request with acceptable filters is answered with the page its cursor
    asks for. *)
Lemma requests_run verdict text limit lim ask cursor c w :
  asks verdict text limit ask → verdict_asked verdict → str_len (TrimSpace text) ≤ 256 → page_limit limit lim →
  repo_faults (aw_store w) = [] → (if cursor =s? "" then Some no_cursor else parseCursor cursor) = Some c →
  let p := page verdict (TrimSpace text) c lim (events (aw_store w)) in
  ∃ rs h, (requests query (ask cursor) w).2 = mkAuth (aw_store w) (aw_limiter w) (aw_trace w ++ [ARespond rs]) h ∧
    page_of rs = Some (toEventJSON <$> p.1, encodeCursor p.2).
Proof.
  intros [Hv Ht Hl Hc] Hva Htx Hlim Hf Hcur. cbv zeta.
  assert (∀ c, (send_page verdict (TrimSpace text) c lim w).2 =
    let p := page verdict (TrimSpace text) c lim (events (aw_store w)) in
    let h := Header_Set "Content-Type" "application/json" (aw_header w) in
    mkAuth (aw_store w) (aw_limiter w)
      (aw_trace w ++ [ARespond (mkResp 200 h (BJSON [("requests", JArray (toEventJSON <$> p.1)); ("next_cursor", JString (encodeCursor p.2))]))]) h) as Hsend.
  { intros c'. destruct w as [[? ? ? ? faults] ? ? ?]. cbn in Hf. by subst faults. }
  assert (requests_page query (ask cursor) lim w = send_page verdict (TrimSpace text) c lim w) as Hpage.
  { unfold requests_page. rewrite Hv, Ht, Hc.
    assert (negb (verdict =s? "") && negb (validVerdict verdict) = false) as ->.
    { unfold verdict_asked in Hva. rewrite !elem_of_cons, elem_of_nil in Hva. by repeat destruct Hva as [->|Hva]. }
    unfold maxRequestQuery. rewrite (proj2 (Z.ltb_ge _ _)) by done.
    destruct (cursor =s? ""); [by injection Hcur as <-|]. by rewrite Hcur. }
  assert (requests query (ask cursor) w = send_page verdict (TrimSpace text) c lim w) as ->.
  { unfold requests. rewrite Hl. destruct Hlim as [[-> ->]|(n & Hne & Hn & H1 & ->)]; [exact Hpage|].
    rewrite (proj2 (String.eqb_neq _ _) Hne), Hn, (proj2 (Z.ltb_ge _ _)) by done. exact Hpage. }
  rewrite Hsend. cbv zeta. by eexists _, _.
Qed.
End Client.

Section Walk.
Context `{TJ : TelemetryJSON} (verdict text : string) (rows : list EventRow).

Local Notation base := (page_matches verdict text no_cursor).

Definition older (r e : EventRow) : bool := (er_ts e <? er_ts r) || ((er_ts e =? er_ts r) && (er_id e <? er_id r)).

Lemma matches_at_row r e : cursor_row r → page_matches verdict text (at_row r) e = base e && older r e.
Proof.
  intros [Ht Hi]. unfold page_matches, at_row, Zero, older. cbn [cu_ID cu_TS no_cursor].
  rewrite unix_nano_of_unix by (unfold in_int64, min_int64; lia).
  rewrite (proj2 (Z.eqb_neq (er_id r) 0)) by lia. cbn [orb Z.eqb]. by rewrite andb_true_r.
Qed.

(** Rows recorded later: at a time no earlier, under higher identifiers. *)
Definition later_than (l extra : list EventRow) : Prop :=
  ∀ r g, r ∈ l → g ∈ extra → er_ts r ≤ er_ts g ∧ er_id r < er_id g.

Context (Hids : unique_ids rows) (Hrows : Forall cursor_row rows).

Lemma matching_sorted : StronglySorted newer (newest_first (filter base rows)).
Proof. apply newest_first_sorted. Qed.

Lemma filter_unique_ids (P : EventRow -> bool) l : unique_ids l → unique_ids (filter P l).
Proof.
  unfold unique_ids. induction l as [|x l IH]; intros Hn; [done|]. rewrite fmap_cons in Hn. apply NoDup_cons in Hn as [Hx Hn].
  rewrite filter_cons. case_decide; [|auto]. rewrite fmap_cons. constructor; [|auto].
  intros (y & E & [_ Hy]%list_elem_of_filter)%list_elem_of_fmap. apply Hx. rewrite E. apply list_elem_of_fmap. by exists y.
Qed.

(** The rows after a cursor are the rest of the matching rows. *)
Lemma rows_after pre r suf extra :
  newest_first (filter base rows) = pre ++ r :: suf → later_than rows extra →
  newest_first (filter (page_matches verdict text (at_row r)) (rows ++ extra)) = suf.
Proof.
  intros HR Hx.
  assert (∀ e, e ∈ pre ++ r :: suf → e ∈ rows) as Hin.
  { intros e He. rewrite <- HR, newest_first_perm in He. by apply list_elem_of_filter in He as [_ ?]. }
  assert (r ∈ rows) as Hr by (apply Hin; set_solver).
  assert (cursor_row r) as Hcr by (rewrite Forall_forall in Hrows; auto).
  pose proof matching_sorted as Hsort. rewrite HR in Hsort. apply StronglySorted_app in Hsort as (Hcross & _ & Hsuf).
  inversion Hsuf as [|? ? Hsorted Hbelow]; subst. rewrite Forall_forall in Hbelow.
  assert (filter (page_matches verdict text (at_row r)) extra = []) as Hextra.
  { apply filter_none. intros g Hg. rewrite matches_at_row by done. destruct (Hx r g Hr Hg). unfold older.
    rewrite (proj2 (Z.ltb_ge (er_ts g) _)) by lia. rewrite (proj2 (Z.ltb_ge (er_id g) _)) by lia. by rewrite !andb_false_r. }
  rewrite filter_app, Hextra, app_nil_r. apply newest_first_unique; [by apply filter_unique_ids| |done].
  assert (filter (page_matches verdict text (at_row r)) rows = filter (older r) (filter base rows)) as ->.
  { rewrite list_filter_filter. apply list_filter_iff. intros e. rewrite matches_at_row by done.
    rewrite !Is_true_true, andb_true_iff. tauto. }
  rewrite <- (newest_first_perm (filter base rows)), HR, filter_app.
  assert (NoDup (pre ++ r :: suf)) as Hnd.
  { rewrite <- HR, newest_first_perm. apply (NoDup_fmap_1 er_id). by apply filter_unique_ids. }
  assert (filter (older r) pre = []) as ->.
  { apply filter_none. intros e He. pose proof (Hcross e r He ltac:(set_solver)) as Hn. unfold older, newer in *.
    apply orb_false_iff. rewrite andb_false_iff, !Z.ltb_ge, Z.eqb_neq. lia. }
  rewrite filter_cons_False.
  2:{ rewrite Is_true_true. unfold older. rewrite Z.ltb_irrefl, Z.ltb_irrefl, andb_false_r. done. }
  simpl. rewrite filter_all; [done|]. intros e He. unfold older.
  pose proof (Hbelow e He) as Hn. apply orb_true_iff. rewrite andb_true_iff, !Z.ltb_lt, Z.eqb_eq.
  assert (er_id e ≠ er_id r) as Hne.
  { intros E. assert (e = r) as -> by (apply (unique_id rows); [done|apply Hin; set_solver|done|done]).
    apply NoDup_app in Hnd as (_ & _ & Hnd). by apply NoDup_cons in Hnd as [? _]. }
  unfold newer in Hn. lia.
Qed.
End Walk.

Section WalkAll.
Context `{TJ : TelemetryJSON} (query : Request -> string -> string).
Context (verdict text limit : string) (lim : Z) (ask : string -> Request) (rows : list EventRow).
Context (Hask : asks query verdict text limit ask) (Hverdict : verdict_asked verdict).
Context (Htext : str_len (TrimSpace text) ≤ 256) (Hlimit : page_limit limit lim).
Context (Hids : unique_ids rows) (Hrows : Forall cursor_row rows).

Local Notation matching := (newest_first (filter (page_matches verdict (TrimSpace text) no_cursor) rows)).

Lemma page_limit_pos : 1 ≤ lim.
Proof using Hlimit. destruct Hlimit as [[_ ->]|(n & _ & _ & ? & ->)]; lia. Qed.

(** An event recorded later than the rows: its time is no earlier. *)
Definition later_event (p : Z * Event) : Prop := ∀ r, r ∈ rows → er_ts r ≤ unixNanoOrZero (ev_Time p.2).

(** The store between pages: the rows there were, and later ones. *)
Definition grown (s : Repo) : Prop :=
  repo_faults s = [] ∧ (∀ r, r ∈ rows → er_id r ≤ seq s) ∧ ∃ extra, events s = rows ++ extra ∧ later_than rows extra.

Lemma record_grown p s : later_event p → grown s → grown (Store_Record p.1 p.2 s).2.
Proof.
  destruct p as [now ev]. intros Hp (Hf & Hseq & extra & He & Hx). unfold Store_Record. rewrite bind_st_run. cbn [fst snd ret_st].
  assert (repo_faults (RecordEvent now ev s).2 = []) as Hf'.
  { assert (∀ k, stmt k s = k s) as Hk by (intros k; unfold stmt; rewrite bind_st_run; unfold repo_fails; by rewrite Hf).
    unfold RecordEvent. cbv zeta. rewrite Hk. destruct (marshal_event ev); [|done]. rewrite !Hk. cbn beta.
    destruct (negb _); [done|]. rewrite !Hk. cbn beta. destruct (negb _); [done|]. rewrite !Hk. done. }
  split; [done|]. pose proof (RecordEvent_cases now ev s) as Hc. cbv zeta in Hc.
  destruct (RecordEvent now ev s) as [ok s']. cbn [fst snd] in *. unfold tables in Hc.
  destruct Hc as [[_ E]|(_ & _ & blob & _ & E)]; injection E as E1 E2 _ _; rewrite E1, E2.
  - split; [done|]. by exists extra.
  - split; [intros r Hr; specialize (Hseq r Hr); lia|]. exists (extra ++ [event_row (seq s + 1) ev blob]).
    split; [by rewrite He, <- app_assoc|]. intros r g Hr [Hg|Hg]%elem_of_app; [by apply Hx|].
    apply list_elem_of_singleton in Hg as ->. cbn. specialize (Hseq r Hr). split; [by apply Hp|lia].
Qed.

Lemma record_all_grown evs s : Forall later_event evs → grown s → grown (record_events evs s).
Proof.
  unfold record_events. revert s. induction evs as [|p evs IH]; intros s Hl Hg; [done|].
  apply Forall_cons in Hl as [Hp Hl]. cbn [foldl]. by apply IH, record_grown.
Qed.

(** From a cursor whose rows are [q], the last part of the matching ones. *)
Lemma client_run pre q fuel cursor c grow w :
  matching = pre ++ q → (length q < fuel)%nat →
  (if cursor =s? "" then Some no_cursor else parseCursor cursor) = Some c →
  newest_first (filter (page_matches verdict (TrimSpace text) c) (events (aw_store w))) = q →
  grown (aw_store w) → Forall (Forall later_event) grow →
  ∃ pages, client query fuel ask cursor grow w = Some pages ∧
    concat pages = toEventJSON <$> decoded q ∧ Forall (λ p, Z.of_nat (length p) ≤ lim) pages.
Proof using Hask Hverdict Htext Hlimit Hids Hrows.
  pose proof page_limit_pos as Hlim.
  revert pre q cursor c grow w. induction fuel as [|fuel IH]; intros pre q cursor c grow w HR Hf Hc Hq Hw Hg; [lia|].
  cbn [client]. destruct (requests_run query verdict text limit lim ask cursor c w Hask Hverdict Htext Hlimit (proj1 Hw) Hc)
    as (rs & h & Hrun & Hrs). rewrite Hrun. cbn [aw_trace aw_store aw_limiter]. rewrite drop_app_length. cbn [a_responses omap list_omap].
  rewrite Hrs. rewrite (page_run verdict (TrimSpace text) c lim _ q) by done. cbn [fst snd].
  assert (∀ l : list EventRow, Z.of_nat (length (toEventJSON <$> decoded (take (Z.to_nat lim) l))) ≤ lim) as Hlen.
  { intros l. rewrite length_fmap. pose proof (decoded_length (take (Z.to_nat lim) l)). rewrite length_take in *. lia. }
  destruct (Z.leb_spec (Z.of_nat (length q)) lim) as [Hle|Hgt].
  - exists [toEventJSON <$> decoded (take (Z.to_nat lim) q)]. split; [done|]. rewrite take_ge by lia. simpl. rewrite app_nil_r.
    split; [done|]. apply Forall_singleton. rewrite <- (take_ge q (Z.to_nat lim)) by lia. apply Hlen.
  - unfold last_cursor. assert (∃ q1 r, take (Z.to_nat lim) q = q1 ++ [r]) as (q1 & r & Ht).
    { destruct (exists_last (l := take (Z.to_nat lim) q)) as (q1 & r & ?); [|by exists q1, r].
      intros E. apply (f_equal length) in E. rewrite length_take in E. simpl in E. lia. }
    rewrite Ht, last_snoc.
    assert (q = q1 ++ r :: drop (Z.to_nat lim) q) as Hq'.
    { rewrite <- (take_drop (Z.to_nat lim) q) at 1. by rewrite Ht, <- app_assoc. }
    assert (cursor_row r) as Hr.
    { rewrite Forall_forall in Hrows. apply Hrows. assert (r ∈ matching) as Hin by (rewrite HR, Hq'; set_solver).
      rewrite newest_first_perm in Hin. by apply list_elem_of_filter in Hin as [_ ?]. }
    destruct (parse_encode_row r Hr) as [Hne Hparse].
    rewrite (proj2 (String.eqb_neq _ _) Hne).
    assert (grown (record_events (default [] (head grow)) (aw_store w))) as Hw'.
    { apply record_all_grown; [|done]. destruct grow as [|g0 grow]; [done|]. by apply Forall_cons in Hg as [? _]. }
    pose proof Hw' as (_ & _ & extra & He & Hx).
    destruct (IH (pre ++ q1 ++ [r]) (drop (Z.to_nat lim) q) (encodeCursor (at_row r)) (at_row r) (tail grow)
      (mkAuth (record_events (default [] (head grow)) (aw_store w)) (aw_limiter w) (aw_trace w ++ [ARespond rs]) ∅))
      as (pages & -> & Hcat & Hpl).
    + rewrite HR, Hq' at 1. by rewrite <- !app_assoc.
    + rewrite length_drop. lia.
    + by rewrite (proj2 (String.eqb_neq _ _) Hne).
    + cbn [aw_store]. rewrite He. apply (rows_after verdict (TrimSpace text) rows Hids Hrows (pre ++ q1) r); [|done].
      rewrite HR, Hq' at 1. by rewrite <- app_assoc.
    + done.
    + destruct grow as [|g0 grow]; [done|]. by apply Forall_cons in Hg as [_ ?].
    + exists ((toEventJSON <$> decoded (q1 ++ [r])) :: pages). split; [done|]. split.
      * simpl. rewrite Hcat, <- fmap_app. unfold decoded. rewrite <- omap_app, <- app_assoc. simpl. by rewrite <- Hq'.
      * constructor; [|done]. rewrite <- Ht. apply Hlen.
Qed.
End WalkAll.

(** A log as it is kept: each row under an identifier of its own, given out by
    the sequence, and at a time after 1970 that a cursor can name. *)
Definition well_kept (s : Repo) : Prop :=
  unique_ids (events s) ∧ Forall cursor_row (events s) ∧ ∀ r, r ∈ events s → er_id r ≤ seq s.

(** C25: following the cursors shows the whole log.  A client asks the console
    for the first page of the events of a verdict and with a text, either of
    them left out or not, and then sends the same request with each
    next_cursor it is answered, until there is none.  While no statement of
    the store fails and nothing is pruned, it comes to an end; the pages hold
    at most the limit each, and together the JSON of every event the log had
    at the first page that was asked for, once, newest first (an event whose
    stored text does not decode is passed over).  Events recorded between the
    pages change nothing, when their times are no earlier than those in the
    log. *)
Theorem pages_show_everything `{TJ : TelemetryJSON} query verdict text limit lim ask grow w :
  asks query verdict text limit ask → verdict_asked verdict → str_len (TrimSpace text) ≤ 256 → page_limit limit lim →
  repo_faults (aw_store w) = [] → well_kept (aw_store w) →
  Forall (Forall (later_event (events (aw_store w)))) grow →
  ∃ pages k, client query (S (length (events (aw_store w)))) ask "" grow w = Some pages ∧
    Forall (λ p, Z.of_nat (length p) ≤ lim) pages ∧ concat pages = toEventJSON <$> decoded k ∧
    StronglySorted newer k ∧ NoDup k ∧
    ∀ r, r ∈ k ↔ r ∈ events (aw_store w) ∧ wanted verdict (TrimSpace text) r.
Proof.
  intros Hask Hv Ht Hl Hf (Hids & Hrows & Hseq) Hg.
  set (k := newest_first (filter (page_matches verdict (TrimSpace text) no_cursor) (events (aw_store w)))).
  destruct (client_run query verdict text limit lim ask (events (aw_store w)) Hask Hv Ht Hl Hids Hrows [] k
    (S (length (events (aw_store w)))) "" no_cursor grow w) as (pages & H1 & H2 & H3); [done| |done|done| |done|].
  - unfold k. rewrite newest_first_perm. eapply Nat.le_lt_trans; [apply length_filter|lia].
  - split; [done|]. split; [done|]. exists []. rewrite app_nil_r. split; [done|]. intros r g _ Hin. by apply elem_of_nil in Hin.
  - exists pages, k. split_and!; [done..|apply newest_first_sorted| |].
    + unfold k. rewrite newest_first_perm. by apply (NoDup_fmap_1 er_id), filter_unique_ids.
    + intros r. unfold k. rewrite newest_first_perm, list_elem_of_filter, Is_true_true, page_matches_wanted. tauto.
Qed.

(** ** Witness *)

#[local] Existing Instance ex_telemetry_json.

Definition ex_row (id t : Z) : EventRow :=
  event_row id (ex_event "r" (of_unix 0 t) VerdictPass GateMalware "" 0)
    (default "" (marshal_event (ex_event "r" (of_unix 0 t) VerdictPass GateMalware "" 0))).

(** A request whose path is its cursor, for a page of one event. *)
Definition ex_query (r : Request) (key : string) : string :=
  if key =s? "cursor" then rq_Path r else if key =s? "q" then "LEFT" else if key =s? "limit" then "1" else "".

Definition ex_ask (cursor : string) : Request := mkRequest "id" "" "GET" cursor "" "" "" "" false ∅ None.

Definition ex_console : AuthWorld Repo :=
  mkAuth (mkRepo [ex_row 1 30; ex_row 2 20; ex_row 3 30] 3 None ∅ []) NewLoginLimiter [] ∅.

Lemma pages_show_everything_witness :
  ∃ pages, client ex_query 4 ex_ask "" [[(50, ex_event "new" (of_unix 0 40) VerdictPass GateMalware "" 0)]] ex_console = Some pages ∧
    concat pages = toEventJSON <$> decoded [ex_row 3 30; ex_row 1 30; ex_row 2 20].
Proof.
  destruct (pages_show_everything ex_query "" "LEFT" "1" 1 ex_ask
    [[(50, ex_event "new" (of_unix 0 40) VerdictPass GateMalware "" 0)]] ex_console)
    as (pages & k & H1 & _ & H2 & Hs & Hn & Hk).
  - by constructor.
  - by left.
  - vm_compute. discriminate.
  - right. exists 1. split; [discriminate|]. split; [reflexivity|]. split; [discriminate|reflexivity].
  - reflexivity.
  - split; [apply (bool_decide_unpack _); vm_compute; exact I|]. split.
    + repeat constructor; vm_compute; discriminate.
    + intros r Hr. cbn [events aw_store ex_console] in Hr.
      repeat (apply elem_of_cons in Hr as [-> |Hr]; [vm_compute; discriminate|]). by apply elem_of_nil in Hr.
  - repeat constructor. intros r Hr. cbn [events aw_store ex_console] in Hr.
    repeat (apply elem_of_cons in Hr as [-> |Hr]; [vm_compute; discriminate|]). by apply elem_of_nil in Hr.
  - exists pages. split; [exact H1|]. vm_compute in H1. injection H1 as <-. vm_compute. reflexivity.
Defined.
