(* ===== verification/ConsolePolicy.v ===== *)
(** * Package console: the policy screen (server.go)

    The handlers over the runtime policy, whose edits are Policy.v's. *)
From S2P Require Import Prelude GoStd Gate Supplychain Policy Upstream HTTP Users Login Token Session SessionSpec Console.
Local Open Scope Z_scope.

(** The fields of a PUT body, each absent or present. *)
Record PolicyEdit := mkPolicyEdit {
  pe_Mode : option string;
  pe_MinAgeHours : option Z;
  pe_CVEBlockOn : option string;
  pe_AllowlistSupply : option (list string);
  pe_AllowlistCVE : option (list string);
  pe_Denylist : option (list string);
}.

(** The closure handed to Update. *)
Definition edit_params (e : PolicyEdit) (p : RuntimeParams) : RuntimeParams :=
  mkParams (default (p_Mode p) (pe_Mode e)) (default (p_MinAgeHours p) (pe_MinAgeHours e))
    (default (p_CVEBlockOn p) (pe_CVEBlockOn e)) (default (p_AllowlistSupply p) (pe_AllowlistSupply e))
    (default (p_AllowlistCVE p) (pe_AllowlistCVE e)) (default (p_Denylist p) (pe_Denylist e)).

Section ConsolePolicy.
Context {S : Type} `{!SettingsStore S}.
(** encoding/json on the bodies, and the text of a validation message. *)
Context (decode_policy : bytes -> bool -> Decoded PolicyEdit) (decode_entry : bytes -> bool -> Decoded string).
Context (render : message -> string).

Local Notation M := (St (AuthWorld (Runtime S))).

Definition policy_json (r : Runtime S) : list (string * JSON) :=
  let p := Current r in
  [("mode", JString (p_Mode p)); ("min_age_hours", JInt (p_MinAgeHours p)); ("cve_block_on", JString (p_CVEBlockOn p));
   ("allowlist_supply", JStrings (p_AllowlistSupply p)); ("allowlist_cve", JStrings (p_AllowlistCVE p));
   ("denylist", JStrings (p_Denylist p));
   ("persistence", JString (if Persistent r then "database" else "runtime"))].

Definition writePolicy (status : Z) : M unit := fun w => json_response status (policy_json (aw_store w)) w.

Definition getPolicy : M unit := writePolicy StatusOK.

(** writePolicyError's response. *)
Definition policy_failed (e : policy_error) : M unit :=
  match e with
  | ValidationError field msg => invalid "invalid_policy" field (render msg)
  | PersistError _ => json_error StatusInternalServerError "persist_failed"
  end.

Definition putPolicy (r : Request) : M unit :=
  decodeBody "invalid_policy" 65536 decode_policy r (fun e =>
    err <- on_store (Update (edit_params e));;
    match err with
    | Some err => policy_failed err
    | None => writePolicy StatusOK
    end).

(** [list] is the path's value. *)
Definition editList (add : bool) (lst : string) (r : Request) : M unit :=
  decodeBody "invalid_policy" 4096 decode_entry r (fun entry =>
    res <- on_store (EditList lst entry add);;
    match res with
    | Err err => policy_failed err
    | Ok _ => writePolicy StatusOK
    end).
End ConsolePolicy.

(** ** The routes: which roles reach which handler *)

Definition admin : list Role := [RoleAdmin].
Definition operator : list Role := [RoleAdmin; RoleOperator].

Definition routes : list (string * list Role) :=
  [("GET /api/overview", operator); ("GET /api/requests", operator); ("GET /api/events", operator);
   ("GET /api/quarantine", operator); ("GET /api/policy", operator); ("PUT /api/policy", admin);
   ("POST /api/policy/lists/{list}", operator); ("DELETE /api/policy/lists/{list}", operator);
   ("GET /api/registries", operator); ("PUT /api/registries", admin); ("POST /api/cache/cleanup", admin);
   ("GET /api/metrics/daily", operator); ("GET /api/users", admin); ("POST /api/users", admin);
   ("PATCH /api/users/{name}", admin); ("POST /api/users/{name}/password", admin); ("DELETE /api/users/{name}", admin)].

(** * Properties *)

Section PolicyProps.
Context {S : Type} `{!SettingsStore S}.
Context (decode_policy : bytes -> bool -> Decoded PolicyEdit) (decode_entry : bytes -> bool -> Decoded string).
Context (render : message -> string).

Lemma edit_params_id p : edit_params (mkPolicyEdit None None None None None None) p = p.
Proof. by destruct p. Qed.

(** a PUT of the policy answers once.  Either the answer is 200, shows the
    policy in force, and that policy is the one before with exactly the fields
    of the body replaced, lists trimmed, all of it valid and already what the
    engine and the filter decide by; or the answer is not 200 and the policy
    in force is the one before. *)
Theorem putPolicy_spec r w :
  let res := (putPolicy (S := S) decode_policy render r w).2 in
  ∃ rs, aw_trace res = aw_trace w ++ [ARespond rs] ∧
    ((rs_Status rs = StatusOK ∧ rs_Body rs = BJSON (policy_json (aw_store res)) ∧
      ∃ e b bad, decode_policy b bad = DOk e ∧
        Current (aw_store res) = trim_params (edit_params e (Current (aw_store w))) ∧
        validateParams (Current (aw_store res)) = None ∧ coherent (aw_store res)) ∨
     (rs_Status rs ≠ StatusOK ∧ cur (aw_store res) = cur (aw_store w))).
Proof.
  cbv zeta. unfold putPolicy, decodeBody. destruct (limited_request_body 65536 r) as [b bad].
  destruct (decode_policy b bad) as [e| |msg] eqn:Hd; [|eexists; split; [reflexivity|by right]..].
  rewrite bind_st_run, on_store_run. cbn [fst snd]. unfold Update.
  destruct (updateLocked (edit_params e (Current (aw_store w))) (aw_store w)) as [[err|] r'] eqn:Hu; cbn [fst snd].
  - apply updateLocked_err in Hu as (Hc & _). destruct err; (eexists; split; [reflexivity|right]); (split; [done|exact Hc]).
  - apply updateLocked_ok in Hu as (Hc & Hv & Hco & _). eexists. split; [reflexivity|]. left. split; [done|]. split; [done|].
    exists e, b, bad. cbn. rewrite Hc. by split_and!.
Qed.
End PolicyProps.

(** An operator edits lists and reads; it changes neither accounts, nor
    registries, nor the policy's settings. *)
Example ex_operator_routes :
  List.filter (λ p, existsb (String.eqb RoleOperator) p.2 && negb (HasPrefix p.1 "GET ")) routes =
    [("POST /api/policy/lists/{list}", operator); ("DELETE /api/policy/lists/{list}", operator)].
Proof. vm_compute. reflexivity. Qed.
