(* ===== verification/DockerPath.v ===== *)
(** * Package dockerproxy: paths, keys and memories (path.go, tagindex.go,
    blobcache.go, attestation.go)

    How a Docker Registry V2 path is classified, the keys under which blobs and
    image verdicts share the cache, which manifests carry no image content, and
    the two bounded first-in first-out memories: the tags images were pulled
    by, and the blobs of attestation manifests.  The readers of JSON documents
    are parameters, one for each Go struct the sources decode into. *)
From S2P Require Import Prelude GoStd Gate Upstream.
Local Open Scope Z_scope.

(** ** Paths *)

Inductive RequestKind := KindUnknown | KindPing | KindManifest | KindBlob | KindTagList.

#[export] Instance RequestKind_eq_dec : EqDecision RequestKind.
Proof. solve_decision. Defined.

Record ParsedPath := mkPath {
  pp_Kind : RequestKind;
  pp_Repo : string;
  pp_Reference : string;
}.

Definition splitRepoVerb (path : bytes) (verb : string) : option (bytes * bytes) :=
  match cut_last_sub (to_bytes ("/" +:+ verb +:+ "/")) path with
  | None => None
  | Some (repo, ref) =>
      if bool_decide (repo = []) || bool_decide (ref = []) || bool_decide ("/"%char ∈ ref) then None
      else Some (repo, ref)
  end.

Definition ParsePath (p : string) : ParsedPath :=
  let trimmed := to_bytes (Trim p ["/"%char]) in
  if bool_decide (trimmed = []) then mkPath KindPing "" ""
  else
    match splitRepoVerb trimmed "manifests" with
    | Some (repo, ref) => mkPath KindManifest (of_bytes repo) (of_bytes ref)
    | None =>
        match splitRepoVerb trimmed "blobs" with
        | Some (repo, ref) => mkPath KindBlob (of_bytes repo) (of_bytes ref)
        | None =>
            match strip_suffix (to_bytes "/tags/list") trimmed with
            | Some repo => mkPath KindTagList (of_bytes repo) ""
            | None => mkPath KindUnknown "" ""
            end
        end
    end.

(** ** References and media types *)

(** Registry tags cannot contain a colon. *)
Definition isDigestRef (ref : string) : bool := contains_byte ref ":"%char.

Definition mediaTypeSchema2Manifest : string := "application/vnd.docker.distribution.manifest.v2+json".
Definition mediaTypeSchema2List : string := "application/vnd.docker.distribution.manifest.list.v2+json".
Definition mediaTypeOCIManifest : string := "application/vnd.oci.image.manifest.v1+json".
Definition mediaTypeOCIIndex : string := "application/vnd.oci.image.index.v1+json".

Definition manifestAccept : string :=
  join_strings ", " [mediaTypeSchema2Manifest; mediaTypeSchema2List; mediaTypeOCIManifest; mediaTypeOCIIndex].

Definition isIndexMediaType (ct : string) : bool :=
  (ct =s? mediaTypeOCIIndex) || (ct =s? mediaTypeSchema2List).

Definition inTotoMediaType : string := "application/vnd.in-toto+json".

Definition isInTotoLayer (mediaType : string) : bool :=
  let '(mt, _, _) := Cut mediaType ";"%char in
  let mt := ToLower (TrimSpace mt) in
  (mt =s? inTotoMediaType) || HasPrefix mt "application/vnd.in-toto.".

Definition maxAttestationLayers : nat := 64.
Definition maxAttestationBlobBytes : Z := Z.shiftl 4 20.

(** ** Cache keys *)

Definition blobRef (digest : string) : PackageRef := mkRef "docker" "blobs" digest "".
Definition imageRefKey (repo digest : string) : PackageRef := mkRef "docker" repo digest "".

(** ** Verdict reasons *)

Definition reasonIndexPassthrough : string := "index_passthrough".
Definition reasonAttestationPassthrough : string := "attestation_passthrough".

Definition isPassthroughReason (reason : string) : bool :=
  (reason =s? reasonIndexPassthrough) || (reason =s? reasonAttestationPassthrough).

Definition blockedByForReason (reason : string) : string :=
  if reason =s? "malware_found" then "malware"
  else if reason =s? ReasonDenylisted then "denylist"
  else if reason =s? "cve_found" then "cve"
  else "supply_chain".

Definition isStaleSupplyBlock (clean : bool) (reason : string) : bool :=
  negb clean && (blockedByForReason reason =s? "supply_chain").

Definition gateForBlockedBy (by_ : string) : string :=
  if (by_ =s? "malware") || (by_ =s? ReasonScanIncomplete) then GateMalware
  else if by_ =s? "supply_chain" then GateSupply
  else GateImageScan.

(** ** The upstream host *)

Definition hostFromUpstream (upstreams : list string) : string :=
  match upstreams with
  | [] => ""
  | h :: _ =>
      let h := TrimPrefix h "https://" in
      let h := TrimPrefix h "http://" in
      let h := TrimRight h ["/"%char] in
      if (h =s? "registry-1.docker.io") || (h =s? "index.docker.io") then "docker.io" else h
  end.

(** NewAdapter keeps the upstreams without trailing slashes. *)
Definition NewAdapter (upstreams : list string) : list string :=
  map (fun u => TrimRight u ["/"%char]) upstreams.

(** ** Decoded documents *)

(** What json.Unmarshal and json.Decoder make of a document for each struct of
    the sources; a decoder also sees whether its stream ends in an error. *)
Class DockerJSON := {
  json_layer_types : bytes -> result error (list string);
  json_image : bytes -> result error (string * list string);
  json_attestation : bytes -> result error (string * list (string * string));
  json_children : bytes -> result error (list string);
  json_mediaType : bytes -> result error string;
  decode_created : bytes -> bool -> result error string;
  decode_token : bytes -> bool -> result error (string * string);
}.

Definition isAttestationManifest `{DockerJSON} (manifestBody : bytes) : bool :=
  match json_layer_types manifestBody with
  | Err _ => false
  | Ok layers =>
      if (length layers =? 0)%nat || (maxAttestationLayers <? length layers)%nat then false
      else forallb isInTotoLayer layers
  end.

(** ** The tag index *)

Record tagIndex := mkTagIndex {
  ti_max : Z;
  ti_entries : gmap string string;
  ti_order : list string;
}.

Definition defaultTagIndexMax : Z := 4096.

Definition newTagIndex (max : Z) : tagIndex :=
  mkTagIndex (if max <=? 0 then defaultTagIndexMax else max) ∅ [].

Definition tagIndexKey (repo digest : string) : string := repo +:+ "@" +:+ digest.

Definition ti_put (key tag : string) (ti : tagIndex) : tagIndex :=
  match ti_entries ti !! key with
  | Some _ => mkTagIndex (ti_max ti) (<[ key := tag ]> (ti_entries ti)) (ti_order ti)
  | None =>
      let '(entries, order) :=
        match ti_order ti with
        | oldest :: order =>
            if (0 <? ti_max ti) && (ti_max ti <=? Z.of_nat (length (ti_order ti)))
            then (delete oldest (ti_entries ti), order) else (ti_entries ti, ti_order ti)
        | [] => (ti_entries ti, [])
        end in
      mkTagIndex (ti_max ti) (<[ key := tag ]> entries) (order ++ [key])
  end.

Definition rememberChildren `{DockerJSON} (repo tag : string) (indexBody : bytes) (ti : tagIndex) : tagIndex :=
  match json_children indexBody with
  | Err _ => ti
  | Ok digests =>
      foldl (fun ti dg => if negb (dg =s? "") then ti_put (tagIndexKey repo dg) tag ti else ti) ti digests
  end.

Definition ti_tag (repo digest : string) (ti : tagIndex) : option string :=
  ti_entries ti !! tagIndexKey repo digest.

(** ** The attestation blobs *)

Record attestationBlobs := mkAttestationBlobs {
  ab_max : Z;
  ab_entries : gset string;
  ab_order : list string;
}.

Definition defaultAttestationBlobsMax : Z := 4096.

Definition newAttestationBlobs (max : Z) : attestationBlobs :=
  mkAttestationBlobs (if max <=? 0 then defaultAttestationBlobsMax else max) ∅ [].

Definition ab_add (repo digest : string) (a : attestationBlobs) : attestationBlobs :=
  let key := repo +:+ "@" +:+ digest in
  if bool_decide (key ∈ ab_entries a) then a
  else
    let '(entries, order) :=
      match ab_order a with
      | oldest :: order =>
          if ab_max a <=? Z.of_nat (length (ab_order a)) then (ab_entries a ∖ {[ oldest ]}, order)
          else (ab_entries a, ab_order a)
      | [] => (ab_entries a, [])
      end in
    mkAttestationBlobs (ab_max a) ({[ key ]} ∪ entries) (order ++ [key]).

Definition ab_has (repo digest : string) (a : attestationBlobs) : bool :=
  bool_decide (repo +:+ "@" +:+ digest ∈ ab_entries a).

Definition remember `{DockerJSON} (repo : string) (manifestBody : bytes) (a : attestationBlobs) : attestationBlobs :=
  if negb (isAttestationManifest manifestBody) then a
  else
    match json_attestation manifestBody with
    | Err _ => a
    | Ok (config, layers) =>
        let a := if negb (config =s? "") then ab_add repo config a else a in
        foldl (fun a l => if negb (l.2 =s? "") && isInTotoLayer l.1 then ab_add repo l.2 a else a) a layers
    end.

Example ParsePath_ex :
  map ParsePath ["/"; "/library/nginx/manifests/latest"; "/a/manifests/b/blobs/sha256:1"; "/a/tags/list"; "/manifests/x"] =
  [mkPath KindPing "" ""; mkPath KindManifest "library/nginx" "latest"; mkPath KindBlob "a/manifests/b" "sha256:1";
   mkPath KindTagList "a" ""; mkPath KindUnknown "" ""].
Proof. vm_compute. reflexivity. Qed.

(** * Properties *)

(** ** The path of a request *)

Lemma app_suffix_of_length {A} (a b a' b' : list A) :
  a ++ b = a' ++ b' → (length b ≤ length b')%nat → b `suffix_of` b'.
Proof.
  intros Heq Hl. exists (drop (length a') a).
  apply (f_equal (drop (length a'))) in Heq as Hd. rewrite drop_app_length in Hd.
  rewrite <- Hd, drop_app. f_equal.
  assert (length a + length b = length a' + length b')%nat by (by rewrite <- !length_app, Heq).
  replace (length a' - length a)%nat with 0%nat by lia. by rewrite drop_0.
Qed.

(** A separator that ends in a byte the rest does not have is the last one. *)
Lemma cut_last_verb pre c a b :
  c ∉ b → cut_last_sub (pre ++ [c]) (a ++ (pre ++ [c]) ++ b) = Some (a, b).
Proof.
  intros Hb. destruct (cut_last_sub (pre ++ [c]) (a ++ (pre ++ [c]) ++ b)) as [[a' b']|] eqn:Hc.
  2:{ exfalso. by eapply cut_last_sub_None. }
  pose proof (cut_last_sub_least _ _ _ _ a b Hc eq_refl) as Hl. apply cut_last_sub_Some in Hc.
  assert (b' `suffix_of` b) as [k ->].
  { eapply (app_suffix_of_length (a' ++ pre ++ [c]) b' (a ++ pre ++ [c]) b); [|done].
    by rewrite <- !app_assoc in *. }
  assert (c ∉ b') as Hb' by set_solver.
  assert ((a ++ pre) ++ c :: (k ++ b') = (a' ++ pre) ++ c :: b') as Heq
    by (rewrite <- !app_assoc in *; exact Hc).
  apply app_last_sep_inj in Heq as [H1 H2]; [|done..].
  rewrite H2. by apply app_inv_tail in H1 as ->.
Qed.

(** The separator of a verb. *)
Definition verb_sep (verb : string) : bytes := to_bytes ("/" +:+ verb +:+ "/").

Lemma verb_sep_eq verb : verb_sep verb = ("/"%char :: to_bytes verb) ++ ["/"%char].
Proof. unfold verb_sep. by rewrite !to_bytes_app. Qed.

Lemma splitRepoVerb_Some path verb repo ref :
  splitRepoVerb path verb = Some (repo, ref) ↔
  path = repo ++ verb_sep verb ++ ref ∧ repo ≠ [] ∧ ref ≠ [] ∧ "/"%char ∉ ref.
Proof.
  unfold splitRepoVerb. fold (verb_sep verb). split.
  - destruct (cut_last_sub _ _) as [[a b]|] eqn:Hc; [|done]. apply cut_last_sub_Some in Hc.
    destruct (_ || _) eqn:Hb; [done|]. intros [= <- <-]. bool_to_prop. done.
  - intros (-> & Hrepo & Href & Hs). rewrite verb_sep_eq, cut_last_verb by done.
    rewrite !bool_decide_eq_false_2 by done. done.
Qed.

(** Two decompositions after one slash-free reference agree. *)
Lemma verb_sep_inj v v' (a b a' b' : bytes) :
  a ++ verb_sep v ++ b = a' ++ verb_sep v' ++ b' → "/"%char ∉ b → "/"%char ∉ b' →
  a ++ "/"%char :: to_bytes v = a' ++ "/"%char :: to_bytes v' ∧ b = b'.
Proof.
  rewrite !verb_sep_eq, <- !app_assoc. cbn [app]. intros Heq Hb Hb'.
  rewrite (app_comm_cons (to_bytes v)), (app_comm_cons (to_bytes v')), !app_assoc in Heq.
  by apply app_last_sep_inj in Heq.
Qed.

(** No path is a manifest's and a blob's at once. *)
Lemma verb_clash x y (a a' : bytes) :
  a ++ "/"%char :: to_bytes x = a' ++ "/"%char :: to_bytes y →
  "/"%char ∉ to_bytes x → "/"%char ∉ to_bytes y → x = y.
Proof. intros Heq Hx Hy. apply app_last_sep_inj in Heq as [_ Heq]; [|done..]. by apply to_bytes_inj. Qed.



Lemma Trim_no_lead s c l : to_bytes (Trim s [c]) = c :: l → False.
Proof.
  unfold Trim. intros Heq. destruct (TrimRight_spec (of_bytes (drop_set [c] (to_bytes s))) [c]) as [[q Hq] _].
  rewrite to_of_bytes, Heq in Hq. apply drop_set_head in Hq. apply Hq. by left.
Qed.

Lemma of_bytes_eq b s : of_bytes b = s ↔ b = to_bytes s.
Proof. split; [intros <-; by rewrite to_of_bytes|intros ->; apply of_to_bytes]. Qed.

(** A slash-free verb whose reading is excluded by another one. *)
Lemma verbs_differ x y (a b a' b' : bytes) :
  a ++ verb_sep x ++ b = a' ++ verb_sep y ++ b' → "/"%char ∉ b → "/"%char ∉ b' →
  "/"%char ∉ to_bytes x → "/"%char ∉ to_bytes y → x = y ∧ a = a' ∧ b = b'.
Proof.
  intros Heq Hb Hb' Hx Hy. apply verb_sep_inj in Heq as [H1 H2]; [|done..].
  pose proof (verb_clash _ _ _ _ H1 Hx Hy) as ->. by apply app_inv_tail in H1.
Qed.

Lemma tags_list_sep : to_bytes "/tags/list" = verb_sep "tags" ++ to_bytes "list".
Proof. reflexivity. Qed.

Ltac no_slash := first [assumption | apply (bool_decide_unpack _); vm_compute; done].

Lemma splitRepoVerb_eq path verb repo ref :
  splitRepoVerb path verb = Some (to_bytes repo, to_bytes ref) ↔
  path = to_bytes repo ++ verb_sep verb ++ to_bytes ref ∧
  to_bytes repo ≠ [] ∧ to_bytes ref ≠ [] ∧ "/"%char ∉ to_bytes ref.
Proof. apply splitRepoVerb_Some. Qed.

(** the classification of a path is exact: with slashes trimmed at both ends
    it is a manifest or blob request exactly for a non-empty repository, of any
    number of segments, the verb, and a non-empty reference without a slash;
    a tag listing exactly when it ends in /tags/list; the ping exactly when
    nothing is left.  In particular no path has two readings. *)
Theorem ParsePath_exact p repo ref :
  let t := Trim p ["/"%char] in
  (ParsePath p = mkPath KindManifest repo ref ↔
     t = repo +:+ "/manifests/" +:+ ref ∧ repo ≠ "" ∧ ref ≠ "" ∧ "/"%char ∉ to_bytes ref) ∧
  (ParsePath p = mkPath KindBlob repo ref ↔
     t = repo +:+ "/blobs/" +:+ ref ∧ repo ≠ "" ∧ ref ≠ "" ∧ "/"%char ∉ to_bytes ref) ∧
  (ParsePath p = mkPath KindTagList repo "" ↔ t = repo +:+ "/tags/list") ∧
  (ParsePath p = mkPath KindPing "" "" ↔ t = "").
Proof.
  cbv zeta. unfold ParsePath. set (t := Trim p _).
  assert (∀ s, s = "" ↔ to_bytes s = []) as Hnil by (intros []; done).
  assert (∀ a v, t = a +:+ ("/" +:+ v +:+ "/") +:+ ref ↔
            to_bytes t = to_bytes a ++ verb_sep v ++ to_bytes ref) as Hverb.
  { intros a v. unfold verb_sep. rewrite <- !to_bytes_app. split; [by intros ->|apply to_bytes_inj]. }
  change ("/manifests/" +:+ ref) with (("/" +:+ "manifests" +:+ "/") +:+ ref).
  change ("/blobs/" +:+ ref) with (("/" +:+ "blobs" +:+ "/") +:+ ref).
  rewrite !Hverb, !Hnil.
  assert (t = repo +:+ "/tags/list" ↔ to_bytes t = to_bytes repo ++ to_bytes "/tags/list") as ->.
  { rewrite <- to_bytes_app. split; [by intros ->|apply to_bytes_inj]. }
  rewrite <- (splitRepoVerb_eq _ "manifests"), <- (splitRepoVerb_eq _ "blobs").
  destruct (bool_decide_reflect (to_bytes t = [])) as [Hl|Hl].
  { rewrite Hl. unfold splitRepoVerb, verb_sep. simpl. split_and!; (split; [done|]); [done..| |done].
    by destruct (to_bytes repo). }
  destruct (splitRepoVerb (to_bytes t) "manifests") as [[a b]|] eqn:Hm;
    [|destruct (splitRepoVerb (to_bytes t) "blobs") as [[a b]|] eqn:Hb];
    [| |destruct (strip_suffix (to_bytes "/tags/list") (to_bytes t)) as [a|] eqn:Hs].
  - apply splitRepoVerb_Some in Hm as (Heq & _ & _ & Hs).
    split_and!; [by split; [intros [= <- <-]; rewrite !to_of_bytes|intros [= -> ->]; by rewrite !of_to_bytes]| | |done];
      split; try done.
    + rewrite splitRepoVerb_Some, Heq. intros (H & _ & _ & ?). apply verbs_differ in H as [? _]; [done|no_slash..].
    + rewrite Heq, tags_list_sep. intros H. apply verbs_differ in H as [? _]; [done|no_slash..].
  - apply splitRepoVerb_Some in Hb as (Heq & _ & _ & Hs).
    split_and!; [done|by split; [intros [= <- <-]; rewrite !to_of_bytes|intros [= -> ->]; by rewrite !of_to_bytes]| |done].
    split; [done|]. rewrite Heq, tags_list_sep. intros H. apply verbs_differ in H as [? _]; [done|no_slash..].
  - apply strip_suffix_Some in Hs. split_and!; [done..| |done]. rewrite Hs. split.
    + intros [= <-]. by rewrite to_of_bytes.
    + intros H%app_inv_tail. f_equal. by apply of_bytes_eq.
  - split_and!; [done..| |done]. split; [done|]. rewrite <- strip_suffix_Some. congruence.
Qed.

(** ** Cache keys *)

(** A repository name the image keys keep apart from every other key: without
    an at sign, and not the name the blobs are kept under. *)
Definition repo_ok (repo : string) : Prop := "@"%char ∉ to_bytes repo ∧ repo ≠ "blobs".

#[export] Instance repo_ok_dec repo : Decision (repo_ok repo).
Proof. unfold repo_ok. apply _. Defined.

Lemma docker_key_inj n v n' v' :
  "@"%char ∉ to_bytes n → "@"%char ∉ to_bytes n' →
  Key (mkRef "docker" n v "") = Key (mkRef "docker" n' v' "") → n = n' ∧ v = v'.
Proof.
  intros Hn Hn' Heq. apply (f_equal to_bytes) in Heq. rewrite !Key_bytes in Heq.
  unfold key_tail in Heq. cbn [Ecosystem Name Version Classifier] in Heq.
  rewrite (String.eqb_refl "") in Heq. rewrite !app_nil_r in Heq.
  apply app_inv_head in Heq. injection Heq as Heq. apply app_sep_inj in Heq as [H1 H2]; [|done..].
  split; by apply to_bytes_inj.
Qed.

(** image verdicts and blobs never share a cache key, nor do two images, so
    long as repository names have no at sign and none is called "blobs". *)
Lemma image_blob_keys repo digest b :
  repo_ok repo → Key (imageRefKey repo digest) ≠ Key (blobRef b).
Proof.
  intros [Hat Hne] Heq. apply docker_key_inj in Heq as [H1 _]; [done|done|].
  apply (bool_decide_unpack _). vm_compute. done.
Qed.

Lemma image_keys repo digest repo' digest' :
  repo_ok repo → repo_ok repo' → Key (imageRefKey repo digest) = Key (imageRefKey repo' digest') →
  repo = repo' ∧ digest = digest'.
Proof. intros [? _] [? _]. by apply docker_key_inj. Qed.

Lemma blob_keys b b' : Key (blobRef b) = Key (blobRef b') → b = b'.
Proof.
  intros Heq. by apply docker_key_inj in Heq as [_ ?]; [|apply (bool_decide_unpack _); vm_compute; done..].
Qed.

(** A repository called "blobs" shares its keys with the blobs. *)
Lemma blobs_repo_collides digest : imageRefKey "blobs" digest = blobRef digest.
Proof. done. Qed.

(** ** The memories *)

(** The keys of a bounded first-in first-out memory after one more: a key
    known keeps its place, a new one goes last and the first goes when the
    memory is full. *)
Definition fifo (max : Z) (key : string) (order : list string) : list string :=
  if bool_decide (key ∈ order) then order
  else (if max <=? Z.of_nat (length order) then tail order else order) ++ [key].

Definition fifo_ok (max : Z) (order : list string) : Prop :=
  0 < max ∧ NoDup order ∧ Z.of_nat (length order) ≤ max.

Lemma fifo_ok_step max key order : fifo_ok max order → fifo_ok max (fifo max key order).
Proof.
  intros (Hm & Hnd & Hl). unfold fifo. case_bool_decide as Hin; [done|].
  assert (NoDup (tail order)) as Ht by (destruct order; [done|by apply NoDup_cons in Hnd as [_ ?]]).
  assert (key ∉ tail order) as Hk by (destruct order; set_solver).
  split_and!; [done| |].
  - apply NoDup_app. split_and!; [by case_match| |apply NoDup_singleton].
    intros x Hx ->%list_elem_of_singleton. by case_match.
  - rewrite length_app. simpl. destruct (Z.leb_spec max (Z.of_nat (length order))); [|lia].
    destruct order; simpl in *; lia.
Qed.

(** A memory with room for every key forgets none. *)
Lemma fifo_room max keys order :
  fifo_ok max order → Z.of_nat (size (list_to_set (keys ++ order) : gset string)) ≤ max →
  ∀ k, k ∈ foldl (fun o k => fifo max k o) order keys ↔ k ∈ keys ∨ k ∈ order.
Proof.
  revert order. induction keys as [|x keys IH]; intros order Hok Hsz k; simpl; [set_solver|].
  assert (∀ y, y ∈ fifo max x order ↔ y = x ∨ y ∈ order) as Hf.
  { intros y. unfold fifo. case_bool_decide as Hin; [set_solver|].
    destruct (Z.leb_spec max (Z.of_nat (length order))) as [Hfull|]; [|set_solver].
    exfalso. destruct Hok as (_ & Hnd & _).
    assert (size (list_to_set (x :: order) : gset string) = S (length order)) as Hs
      by (rewrite size_list_to_set by (by apply NoDup_cons); done).
    assert (size (list_to_set (x :: order) : gset string) ≤ size (list_to_set ((x :: keys) ++ order) : gset string))%nat.
    { apply subseteq_size. set_solver. }
    lia. }
  rewrite IH; [rewrite Hf; set_solver|by apply fifo_ok_step|].
  replace (list_to_set (keys ++ fifo max x order) : gset string)
    with (list_to_set ((x :: keys) ++ order) : gset string); [done|].
  apply leibniz_equiv. intros y. rewrite !elem_of_list_to_set, !elem_of_app, Hf. set_solver.
Qed.

Section TagIndex.
Context `{J : DockerJSON}.

Definition ti_ok (ti : tagIndex) : Prop :=
  fifo_ok (ti_max ti) (ti_order ti) ∧ dom (ti_entries ti) = list_to_set (ti_order ti).

Lemma ti_ok_new max : ti_ok (newTagIndex max).
Proof.
  split; [|simpl; set_solver]. split_and!; simpl; [|apply NoDup_nil_2|]; destruct (Z.leb_spec max 0); unfold defaultTagIndexMax; lia.
Qed.

Lemma ti_put_ok key tag ti :
  ti_ok ti →
  ti_ok (ti_put key tag ti) ∧ ti_max (ti_put key tag ti) = ti_max ti ∧
  ti_order (ti_put key tag ti) = fifo (ti_max ti) key (ti_order ti) ∧
  ti_entries (ti_put key tag ti) !! key = Some tag ∧
  (∀ k, k ≠ key → is_Some (ti_entries (ti_put key tag ti) !! k) →
     ti_entries (ti_put key tag ti) !! k = ti_entries ti !! k).
Proof.
  intros [Hok Hdom]. assert (∀ k, k ∈ ti_order ti ↔ is_Some (ti_entries ti !! k)) as Hk.
  { intros k. rewrite <- elem_of_dom, Hdom. by rewrite elem_of_list_to_set. }
  pose proof (fifo_ok_step _ key _ Hok) as Hok'. pose proof Hok as (Hmax & Hnd & _).
  unfold ti_put. unfold fifo in *. destruct (ti_entries ti !! key) as [t|] eqn:He.
  - rewrite bool_decide_eq_true_2 in * by (apply Hk; eauto). unfold ti_ok. cbn [ti_max ti_order ti_entries].
    split_and!; [done| |done..|by rewrite lookup_insert_eq|by intros; rewrite lookup_insert_ne].
    rewrite dom_insert_L, Hdom. assert (key ∈ ti_order ti) by (apply Hk; eauto). set_solver.
  - rewrite bool_decide_eq_false_2 in * by (rewrite Hk, He; by intros []).
    destruct (ti_order ti) as [|oldest order] eqn:Ho.
    + assert (fifo_ok (ti_max ti) [key]) by (by case_match). unfold ti_ok. cbn [ti_max ti_order ti_entries app].
      split_and!; [done| |done|by case_match|by rewrite lookup_insert_eq|by intros; rewrite lookup_insert_ne].
      rewrite dom_insert_L, Hdom. set_solver.
    + rewrite (proj2 (Z.ltb_lt 0 (ti_max ti))) by done. cbn [andb].
      assert (key ∉ oldest :: order) as Hn by (rewrite Hk, He; by intros []).
      destruct (ti_max ti <=? _); unfold ti_ok; cbn [ti_max ti_order ti_entries tail] in *;
        split_and!; try done; try by rewrite lookup_insert_eq.
      * apply NoDup_cons in Hnd as [? _]. rewrite dom_insert_L, dom_delete_L, Hdom. set_solver.
      * intros k Hne. rewrite lookup_insert_ne by done. intros [? Hs].
        apply lookup_delete_Some in Hs as [? Hs]. rewrite Hs. by apply lookup_delete_Some.
      * rewrite dom_insert_L, Hdom. set_solver.
      * intros k Hne. by rewrite lookup_insert_ne.
Qed.

(** The entries a call puts: the index's children with a digest. *)
Definition child_puts (c : string * string * bytes) : list (string * string) :=
  let '(repo, tag, body) := c in
  match json_children body with
  | Err _ => []
  | Ok digests => (fun dg => (tagIndexKey repo dg, tag)) <$> filter (fun dg => dg ≠ "") digests
  end.

Definition puts (ps : list (string * string)) (ti : tagIndex) : tagIndex :=
  foldl (fun ti p => ti_put p.1 p.2 ti) ti ps.

Lemma rememberChildren_puts repo tag body ti :
  rememberChildren repo tag body ti = puts (child_puts (repo, tag, body)) ti.
Proof.
  unfold rememberChildren, child_puts. destruct (json_children body) as [digests|]; [|done].
  revert ti. induction digests as [|dg digests IH]; intros ti; [done|]. cbn [foldl].
  rewrite IH, filter_cons. destruct (dg =s? "") eqn:Hd; bool_to_prop; case_decide; done.
Qed.

(** The tag put last under a key. *)
Definition last_tag (k : string) (ps : list (string * string)) : option string :=
  snd <$> last (filter (fun p => p.1 = k) ps).

Lemma last_tag_snoc k ps p :
  last_tag k (ps ++ [p]) = if decide (p.1 = k) then Some p.2 else last_tag k ps.
Proof.
  unfold last_tag. rewrite filter_app, filter_cons. case_decide as Hk.
  - rewrite filter_nil. by rewrite last_snoc.
  - by rewrite filter_nil, app_nil_r.
Qed.

Lemma puts_spec ps max :
  let ti := puts ps (newTagIndex max) in
  ti_ok ti ∧ ti_max ti = ti_max (newTagIndex max) ∧
  ti_order ti = foldl (fun o k => fifo (ti_max (newTagIndex max)) k o) [] ps.*1 ∧
  ∀ k t, ti_entries ti !! k = Some t → last_tag k ps = Some t.
Proof.
  induction ps as [|p ps IH] using rev_ind; cbv zeta in *.
  { split_and!; [apply ti_ok_new|done..|]. intros k t. simpl. by rewrite lookup_empty. }
  unfold puts in *. rewrite foldl_app, fmap_app, foldl_app. cbn [foldl fmap list_fmap].
  destruct IH as (Hok & Hmax & Hord & Hl). destruct (ti_put_ok p.1 p.2 _ Hok) as (Hok' & Hmax' & Hord' & Hk & Hne).
  split_and!; [done|congruence|by rewrite Hord', Hord, Hmax|]. intros k t Ht. rewrite last_tag_snoc.
  case_decide as Hd; [subst; congruence|]. apply Hl. rewrite <- Hne; [done|naive_solver|eauto].
Qed.

Definition all_children (calls : list (string * string * bytes)) : list (string * string) :=
  calls ≫= child_puts.

Definition remember_all (calls : list (string * string * bytes)) (ti : tagIndex) : tagIndex :=
  foldl (fun ti c => rememberChildren c.1.1 c.1.2 c.2 ti) ti calls.

Lemma remember_all_puts calls ti : remember_all calls ti = puts (all_children calls) ti.
Proof.
  revert ti. induction calls as [|[[repo tag] body] calls IH]; intros ti; [done|].
  unfold all_children, remember_all in *. cbn [foldl mbind list_bind fst snd].
  rewrite rememberChildren_puts, IH. unfold puts. by rewrite foldl_app.
Qed.

(** the memory of tags: whatever indexes were seen before, it never holds
    more than its maximum, and the tag it answers for a child is the one the
    latest index listing that child was pulled by - never an older or another
    image's; and as long as the children seen fit the maximum, it answers for
    every one of them. *)
Theorem tag_index_answers calls max repo digest :
  let ti := remember_all calls (newTagIndex max) in
  let latest := last_tag (tagIndexKey repo digest) (all_children calls) in
  Z.of_nat (size (ti_entries ti)) ≤ (if max <=? 0 then defaultTagIndexMax else max) ∧
  (∀ tag, ti_tag repo digest ti = Some tag → latest = Some tag) ∧
  (Z.of_nat (size (list_to_set (all_children calls).*1 : gset string)) ≤ (if max <=? 0 then defaultTagIndexMax else max) →
   ti_tag repo digest ti = latest).
Proof.
  cbv zeta. rewrite remember_all_puts. unfold ti_tag.
  destruct (puts_spec (all_children calls) max) as (Hok & Hmax & Hord & Hl).
  set (ti := puts _ _) in *. change (ti_max (newTagIndex max)) with (if max <=? 0 then defaultTagIndexMax else max) in *.
  destruct Hok as [(_ & Hnd & Hlen) Hdom]. split_and!.
  - rewrite <- size_dom, Hdom, size_list_to_set by done. by rewrite <- Hmax.
  - intros tag. apply Hl.
  - intros Hroom. set (k := tagIndexKey repo digest).
    destruct (ti_entries ti !! k) as [t|] eqn:Ht; [by rewrite (Hl _ _ Ht)|].
    destruct (last_tag k (all_children calls)) as [t|] eqn:Hlast; [|done]. exfalso.
    assert (k ∈ ti_order ti) as Hin.
    { rewrite Hord. apply fifo_room.
      - destruct (ti_ok_new max) as [Hf _]. exact Hf.
      - by rewrite app_nil_r.
      - left. unfold last_tag in Hlast. apply fmap_Some in Hlast as ([k' t'] & Hp & _).
        apply last_Some in Hp as [ps Hp]. assert ((k', t') ∈ filter (fun p => p.1 = k) (all_children calls)) as Hf.
        { rewrite Hp. set_solver. }
        apply list_elem_of_filter in Hf as [<- Hf]. apply list_elem_of_fmap. by exists (k', t'). }
    assert (k ∈ dom (ti_entries ti)) as [? ?]%elem_of_dom by (rewrite Hdom; by apply elem_of_list_to_set).
    congruence.
Qed.
End TagIndex.

Section Attestations.
Context `{J : DockerJSON}.

Definition ab_ok (a : attestationBlobs) : Prop :=
  fifo_ok (ab_max a) (ab_order a) ∧ ab_entries a = list_to_set (ab_order a).

Lemma ab_ok_new max : ab_ok (newAttestationBlobs max).
Proof.
  split; [|done]. split_and!; simpl; [|apply NoDup_nil_2|];
    destruct (Z.leb_spec max 0); unfold defaultAttestationBlobsMax; lia.
Qed.

Lemma ab_add_ok repo digest a :
  ab_ok a → ab_ok (ab_add repo digest a) ∧ ab_max (ab_add repo digest a) = ab_max a ∧
  ab_entries (ab_add repo digest a) ⊆ {[ repo +:+ "@" +:+ digest ]} ∪ ab_entries a.
Proof.
  intros [Hok Hset]. pose proof (fifo_ok_step _ (repo +:+ "@" +:+ digest) _ Hok) as Hok'.
  unfold ab_add. unfold fifo in Hok'. set (key := repo +:+ "@" +:+ digest) in *. rewrite Hset.
  destruct (bool_decide_reflect (key ∈ ab_order a)) as [Hin|Hin].
  { rewrite bool_decide_eq_true_2 by set_solver. split_and!; [by split|done|set_solver]. }
  rewrite bool_decide_eq_false_2 by set_solver. destruct Hok as (Hmax & Hnd & _).
  destruct (ab_order a) as [|oldest order] eqn:Ho.
  - unfold ab_ok. simpl in *. split_and!; [by case_match|set_solver|done|set_solver].
  - apply NoDup_cons in Hnd as [? _].
    destruct (_ <=? _); unfold ab_ok; cbn [ab_max ab_order ab_entries tail list_to_set] in *;
      (split_and!; [done|set_solver|done|set_solver]).
Qed.

(** A digest an attestation manifest lists: its config or an in-toto layer. *)
Definition attested (body : bytes) (digest : string) : Prop :=
  isAttestationManifest body = true ∧ digest ≠ "" ∧
  ∃ config layers, json_attestation body = Ok (config, layers) ∧
    (digest = config ∨ ∃ mt, (mt, digest) ∈ layers ∧ isInTotoLayer mt = true).

Lemma remember_ok repo body a :
  ab_ok a → ab_ok (remember repo body a) ∧ ab_max (remember repo body a) = ab_max a ∧
  ∀ k, k ∈ ab_entries (remember repo body a) →
    k ∈ ab_entries a ∨ ∃ digest, k = repo +:+ "@" +:+ digest ∧ attested body digest.
Proof.
  intros Hok. unfold remember. destruct (isAttestationManifest body) eqn:Hat; simpl; [|by eauto].
  destruct (json_attestation body) as [[config layers]|] eqn:Hj; [|by eauto].
  set (P := fun (ls : list (string * string)) a' => ab_ok a' ∧ ab_max a' = ab_max a ∧
    ∀ k, k ∈ ab_entries a' → k ∈ ab_entries a ∨ ∃ digest, k = repo +:+ "@" +:+ digest ∧ digest ≠ "" ∧
      (digest = config ∨ ∃ mt, (mt, digest) ∈ ls ∧ isInTotoLayer mt = true)).
  assert (∀ ls a', P [] a' → P ls (foldl (fun a l => if negb (l.2 =s? "") && isInTotoLayer l.1
            then ab_add repo l.2 a else a) a' ls)) as Hfold.
  { intros ls a' Ha'. assert (∀ done_, P done_ a' → P (done_ ++ ls) (foldl (fun a l =>
      if negb (l.2 =s? "") && isInTotoLayer l.1 then ab_add repo l.2 a else a) a' ls)) as H; [|by apply (H [])].
    clear Ha'. revert a'. induction ls as [|[mt dg] ls IH]; intros a' done_ H; [by rewrite app_nil_r|].
    cbn [foldl fst snd]. rewrite (app_assoc done_ [_] ls : done_ ++ (mt, dg) :: ls = _). apply IH.
    destruct H as (H1 & H2 & H3). destruct (negb (dg =s? "") && isInTotoLayer mt) eqn:Hb.
    - bool_to_prop. destruct (ab_add_ok repo dg a' H1) as (? & ? & Hsub).
      split_and!; [done|congruence|]. intros k Hk. apply Hsub, elem_of_union in Hk as [->%elem_of_singleton|Hk].
      + right. exists dg. split_and!; [done..|]. right. exists mt. split; [set_solver|done].
      + destruct (H3 k Hk) as [?|(d & ? & ? & [?|(m & ? & ?)])]; [by left|right; by eauto 7|].
        right. exists d. split_and!; [done..|]. right. exists m. split; [set_solver|done].
    - split_and!; [done..|]. intros k Hk.
      destruct (H3 k Hk) as [?|(d & ? & ? & [?|(m & ? & ?)])]; [by left|right; by eauto 7|].
      right. exists d. split_and!; [done..|]. right. exists m. split; [set_solver|done]. }
  assert (P layers (foldl (fun a l => if negb (l.2 =s? "") && isInTotoLayer l.1 then ab_add repo l.2 a else a)
            (if negb (config =s? "") then ab_add repo config a else a) layers)) as (? & ? & H).
  { apply Hfold. destruct (config =s? "") eqn:Hc; simpl; bool_to_prop; [split_and!; by eauto|].
    destruct (ab_add_ok repo config a Hok) as (? & ? & Hsub). split_and!; [done..|].
    intros k Hk. apply Hsub, elem_of_union in Hk as [->%elem_of_singleton|Hk]; [right|by left].
    exists config. by eauto. }
  split_and!; [done..|]. intros k Hk. destruct (H k Hk) as [?|(d & -> & ? & ?)]; [by left|right].
  exists d. split; [done|]. split_and!; eauto.
Qed.

Definition remember_manifests (ms : list (string * bytes)) (a : attestationBlobs) : attestationBlobs :=
  foldl (fun a m => remember m.1 m.2 a) a ms.

(** the memory of attestation blobs: whatever manifests were served, it is
    bounded, and a blob is let through un-gated only when a manifest served
    before under the same key passed the attestation test - from one to
    sixty-four layers, every one of them in-toto - and lists that blob as its
    config or as an in-toto layer. *)
Theorem attestation_memory_sound ms max repo digest :
  let a := remember_manifests ms (newAttestationBlobs max) in
  Z.of_nat (size (ab_entries a)) ≤ (if max <=? 0 then defaultAttestationBlobsMax else max) ∧
  (ab_has repo digest a = true →
     ∃ repo' body digest', (repo', body) ∈ ms ∧ repo' +:+ "@" +:+ digest' = repo +:+ "@" +:+ digest ∧
       attested body digest').
Proof.
  cbv zeta. assert (let a := remember_manifests ms (newAttestationBlobs max) in
    ab_ok a ∧ ab_max a = ab_max (newAttestationBlobs max) ∧
    ∀ k, k ∈ ab_entries a → ∃ repo' body digest', (repo', body) ∈ ms ∧ k = repo' +:+ "@" +:+ digest' ∧
      attested body digest') as (Hok & Hmax & H).
  { induction ms as [|[r b] ms IH] using rev_ind; cbv zeta in *.
    { split_and!; [apply ab_ok_new|done|]. intros k Hk. simpl in Hk. set_solver. }
    unfold remember_manifests in *. rewrite foldl_app. cbn [foldl fst snd].
    destruct IH as (Hok & Hmax & H). destruct (remember_ok r b _ Hok) as (? & ? & H').
    split_and!; [done|congruence|]. intros k Hk. destruct (H' k Hk) as [Hk'|(d & -> & Ha)].
    - destruct (H k Hk') as (r' & b' & d' & ? & ? & ?). exists r', b', d'. split; [set_solver|done].
    - exists r, b, d. split; [set_solver|done]. }
  split.
  - destruct Hok as [(_ & Hnd & Hl) ->]. rewrite size_list_to_set by done.
    change (if max <=? 0 then defaultAttestationBlobsMax else max) with (ab_max (newAttestationBlobs max)).
    by rewrite <- Hmax.
  - unfold ab_has. intros Hb%bool_decide_eq_true. destruct (H _ Hb) as (r & b & d & ? & ? & ?).
    by exists r, b, d.
Qed.
End Attestations.
