(* ===== verification/Docker.v ===== *)
(** * Package dockerproxy: the pull-through registry (adapter.go, gate.go,
    handler.go)

    One Docker request at a time, from its path to its response.  As for the
    package handler the state holds the cache, the response header under
    construction, the temporary files alive and the trace of everything done;
    here also the two memories of [DockerPath].  What collaborators answer is
    drawn from a [DEnv] whose functions see the whole trace.  A request that
    joins a flight another one leads waits for that flight's pipeline, run for
    the leader's reference and manifest; its steps then stand here, before what
    follows, and its outcome is shared.  A request whose scan outlasts ClientWait is answered first and evaluated
    then: one of the interleavings of the two, and the answer touches nothing
    the evaluation reads. *)
From S2P Require Import Prelude GoStd Gate Cache Upstream CircuitBreaker HTTP Handler DockerPath.
Local Open Scope Z_scope.

(** ** The cache *)

(** cache.Cache as the Docker proxy uses it: an [ArtifactCache] whose Get
    shows the whole entry, ScanJSON included. *)
Class ImageCache (C : Type) `{!ArtifactCache C} := {
  cache_Entry (now : Z) (ref : PackageRef) : St C (option CacheEntry);
}.

(** ** Verdicts *)

Record GateVerdict := mkVerdict {
  gv_Allowed : bool;
  gv_Reason : string;
  gv_BlockedBy : string;
  gv_Findings : list CVEFinding;
  gv_ManifestPath : string;
  gv_ContentType : string;
  gv_PublishedAt : Z;
  gv_BlockUntil : Z;
  gv_Passthrough : bool;
  gv_FromCache : bool;
}.

Definition with_manifest (path ct : string) (v : GateVerdict) : GateVerdict :=
  mkVerdict (gv_Allowed v) (gv_Reason v) (gv_BlockedBy v) (gv_Findings v) path ct (gv_PublishedAt v)
    (gv_BlockUntil v) (gv_Passthrough v) (gv_FromCache v).

Inductive layerOutcome := layerClean | layerInfected | layerIncomplete.

#[export] Instance layerOutcome_eq_dec : EqDecision layerOutcome.
Proof. solve_decision. Defined.

(** ** What the proxy is configured with *)

(** The AV engine, the policy and the recorder are flags: set, they answer
    through [DEnv].  [d_Attest] is whether attestation blobs are remembered. *)
Record DockerConfig := mkDockerConfig {
  d_upstreams : list string;
  d_AV : bool;
  d_Policy : bool;
  d_maxLayerBytes : Z;
  d_recheckTTL : Z;
  d_ClientWait : Z;
  d_Tags : bool;
  d_Attest : bool;
  d_Recorder : bool;
}.

(** New's wiring of the parts that are optional only in tests. *)
Definition NewDocker (upstreams : list string) (av policy : bool) (maxLayerBytes recheckTTL clientWait : Z)
    (recorder : bool) : DockerConfig :=
  mkDockerConfig (NewAdapter upstreams) av policy maxLayerBytes recheckTTL clientWait true true recorder.

(** ** What happens *)

(** The request leading the flight under a key: what it calls the pipeline for
    besides the repository and digest the key names. *)
Record Leader := mkLeader {
  fl_ref : string;
  fl_body : bytes;
  fl_ct : string;
  fl_cascade : bool;
}.

Inductive DCall :=
| DClock (t : Z)
| DUUID (id : string)
| DGet (ref : PackageRef) (e : option CacheEntry)
| DPut (ref : PackageRef) (data : bytes) (clean : bool) (reason : string) (ok : bool)
| DInvalidate (ref : PackageRef) (ok : bool)
| DOpen (path : string) (d : option bytes)
| DFilter (ref : PackageRef) (meta : PackageMetadata) (r : FilterResult)
| DImageScan (imageRef : string) (r : result error (list CVEFinding))
| DPolicy (ref : PackageRef) (sr : ScanResult) (d : PolicyDecision)
| DDo (out : OutRequest) (r : DoResult)
| DCreateTemp (e : option error)
| DWriteTemp (data : bytes) (e : option error)
| DRemoveTemp
| DThrottles
| DAVScan (data : bytes) (r : result error AVResult)
| DStat (ok : bool)
| DCopied (n : nat) (ok : bool)
| DFlight (key : string) (led : option Leader)
| DBlobFlight (key : string) (led : option (string * string))
| DLate (late : bool)
| DOutcome (ev : Event)
| DRecord (ev : Event)
| DRespond (resp : Response).

Record DEnv := mkDEnv {
  denv_Now : list DCall -> Z;
  denv_NewUUID : list DCall -> string;
  denv_Filter : list DCall -> PackageRef -> PackageMetadata -> FilterResult;
  denv_ImageScan : list DCall -> string -> result error (list CVEFinding);
  denv_Policy : list DCall -> PackageRef -> ScanResult -> PolicyDecision;
  denv_AVScan : list DCall -> bytes -> result error AVResult;
  denv_Do : list DCall -> OutRequest -> DoResult;
  denv_CreateTemp : list DCall -> option error;
  denv_WriteTemp : list DCall -> bytes -> option error;
  denv_StatOk : list DCall -> bool;
  denv_Copied : list DCall -> bytes -> nat * bool;
  denv_Flight : list DCall -> string -> option Leader;
  denv_BlobFlight : list DCall -> string -> option (string * string);
  denv_Late : list DCall -> bool;
  denv_Throttles : list DCall -> option ThrottleLookup;
}.

Record DWorld (C : Type) := mkDWorld {
  dw_cache : C;
  dw_tags : tagIndex;
  dw_attest : attestationBlobs;
  dw_trace : list DCall;
  dw_header : Header;
  dw_temps : Z;
}.
Arguments mkDWorld {C}.
Arguments dw_cache {C}.
Arguments dw_tags {C}.
Arguments dw_attest {C}.
Arguments dw_trace {C}.
Arguments dw_header {C}.
Arguments dw_temps {C}.

(** What the sources use of net/url, strconv, crypto/sha256 and time. *)
Record DockerStd := mkDockerStd {
  url_Parse : string -> option url;
  url_String : url -> string;
  Quote : string -> string;
  sha256_Sum : bytes -> bytes;
  parse_RFC3339 : string -> result error Z;
}.

Section Docker.
Context {C : Type} {AC : ArtifactCache C} {IC : ImageCache C} {J : DockerJSON}.
Context (std : DockerStd) (env : DEnv) (cfg : DockerConfig).

Local Notation M := (St (DWorld C)).
Implicit Types (w : DWorld C) (repo digest : string).

(** ** Primitive steps *)

Definition dlog (c : DCall) : M unit := fun w =>
  (tt, mkDWorld (dw_cache w) (dw_tags w) (dw_attest w) (dw_trace w ++ [c]) (dw_header w) (dw_temps w)).

Definition dask {A} (q : list DCall -> A) (mk : A -> DCall) : M A := fun w =>
  let a := q (dw_trace w) in
  (a, mkDWorld (dw_cache w) (dw_tags w) (dw_attest w) (dw_trace w ++ [mk a]) (dw_header w) (dw_temps w)).

Definition d_on_cache {A} (m : St C A) (mk : A -> DCall) : M A := fun w =>
  let (a, c') := m (dw_cache w) in
  (a, mkDWorld c' (dw_tags w) (dw_attest w) (dw_trace w ++ [mk a]) (dw_header w) (dw_temps w)).

Definition d_header_map (f : Header -> Header) : M unit := fun w =>
  (tt, mkDWorld (dw_cache w) (dw_tags w) (dw_attest w) (dw_trace w) (f (dw_header w)) (dw_temps w)).
Definition d_header_set (k v : string) : M unit := d_header_map (Header_Set k v).
Definition d_add_temp (d : Z) : M unit := fun w =>
  (tt, mkDWorld (dw_cache w) (dw_tags w) (dw_attest w) (dw_trace w) (dw_header w) (dw_temps w + d)).
Definition on_tags (f : tagIndex -> tagIndex) : M unit := fun w =>
  (tt, mkDWorld (dw_cache w) (f (dw_tags w)) (dw_attest w) (dw_trace w) (dw_header w) (dw_temps w)).
Definition on_attest (f : attestationBlobs -> attestationBlobs) : M unit := fun w =>
  (tt, mkDWorld (dw_cache w) (dw_tags w) (f (dw_attest w)) (dw_trace w) (dw_header w) (dw_temps w)).
Definition the_tags : M tagIndex := fun w => (dw_tags w, w).
Definition the_attest : M attestationBlobs := fun w => (dw_attest w, w).

Definition d_Now : M Z := dask (denv_Now env) DClock.

Definition d_respond (status : Z) (body : Body) : M unit := fun w =>
  dlog (DRespond (mkResp status (dw_header w) body)) w.

Definition d_SetRetryAfter (d : Z) : M unit :=
  match SetRetryAfter d with
  | Some v => d_header_set "Retry-After" v
  | None => ret_st tt
  end.

Definition d_Do (out : OutRequest) : M DoResult := dask (fun tr => denv_Do env tr out) (DDo out).

(** os.Open or os.ReadFile of a path the cache returned; there is no file at
    the empty path. *)
Definition d_open (path : string) : M (option bytes) :=
  if path =s? "" then dask (fun _ => None) (DOpen path)
  else d_on_cache (cache_Open path) (DOpen path).

Definition d_Get (ref : PackageRef) : M (option CacheEntry) :=
  now <- d_Now;;
  d_on_cache (cache_Entry now ref) (DGet ref).

Definition d_Put (ref : PackageRef) (data : bytes) (clean : bool) (reason : string) : M bool :=
  now <- d_Now;;
  d_on_cache (cache_Put now ref data clean reason) (DPut ref data clean reason).

(** ** The verdict store (blobcache.go) *)

Definition GetBlob digest : M (option (string * bool)) :=
  e <- d_Get (blobRef digest);;
  ret_st ((fun e => (ArtifactPath e, ScanClean e)) <$> e).

Definition PutBlob digest (data : bytes) (clean : bool) : M bool := d_Put (blobRef digest) data clean "".

(** (clean, reason, checkedAt). *)
Definition GetImageVerdict repo digest : M (option (bool * string * Z)) :=
  e <- d_Get (imageRefKey repo digest);;
  ret_st ((fun e =>
    let checkedAt :=
      if time_before (LastMalwareCheck e) (LastCVECheck e) then LastMalwareCheck e else LastCVECheck e in
    (ScanClean e, ce_ScanJSON e, checkedAt)) <$> e).

Definition PutImageVerdict repo digest (manifest : bytes) (clean : bool) (reason : string) : M bool :=
  d_Put (imageRefKey repo digest) manifest clean reason.

Definition InvalidateBlob digest : M bool :=
  d_on_cache (cache_Invalidate (blobRef digest)) (DInvalidate (blobRef digest)).

Definition GetManifestBody repo digest : M (option string) :=
  e <- d_Get (imageRefKey repo digest);;
  ret_st (ArtifactPath <$> e).

(** ** The adapter (adapter.go) *)

(** The parameters of a Bearer challenge. *)
Definition challenge_params (rest : string) : gmap string string :=
  foldl (fun params part =>
           let '(k, v, found) := Cut (TrimSpace part) "="%char in
           if found : bool then <[ k := Trim v [byte_of 34] ]> params else params)
        ∅ (Split rest ","%char).

Definition param (k : string) (params : gmap string string) : string := default "" (params !! k).

Definition fetchToken (challenge : string) : M (result error string) :=
  if negb (HasPrefix challenge "Bearer ") then
    ret_st (Err (ENew ("unsupported auth challenge " +:+ Quote std challenge)))
  else
    let params := challenge_params (TrimPrefix challenge "Bearer ") in
    let realm := param "realm" params in
    if realm =s? "" then ret_st (Err (ENew "auth challenge missing realm"))
    else
      let u := realm +:+ "?service=" +:+ param "service" params +:+ "&scope=" +:+ param "scope" params in
      res <- d_Do (mkOut "GET" u ∅ []);;
      match res with
      | ReqErr e | DoErr e => ret_st (Err e)
      | DoResp status _ _ body bodyErr =>
          if negb (status =? StatusOK) then
            ret_st (Err (ENew ("token endpoint returned HTTP " +:+ FormatInt status)))
          else
            match decode_token body bodyErr with
            | Err e => ret_st (Err e)
            | Ok (token, access) => ret_st (Ok (if negb (token =s? "") then token else access))
            end
      end.

Record upstreamResponse := mkUpstreamResponse {
  up_Status : Z;
  up_Header : Header;
  up_Length : Z;
  up_Body : bytes;
  up_BodyErr : bool;
}.

Definition StatusUnauthorized : Z := 401.

(** One request to a mirror, with a token when there is one. *)
Definition build (method base path accept token : string) : M (result error upstreamResponse) :=
  let h := if negb (accept =s? "") then Header_Set "Accept" accept ∅ else ∅ in
  let h := if negb (token =s? "") then Header_Set "Authorization" ("Bearer " +:+ token) h else h in
  res <- d_Do (mkOut method (base +:+ path) h []);;
  match res with
  | ReqErr e | DoErr e => ret_st (Err e)
  | DoResp status header len body bodyErr => ret_st (Ok (mkUpstreamResponse status header len body bodyErr))
  end.

Definition adapter_do (method base path accept : string) : M (result error upstreamResponse) :=
  resp <- build method base path accept "";;
  match resp with
  | Err e => ret_st (Err e)
  | Ok resp =>
      if negb (up_Status resp =? StatusUnauthorized) then ret_st (Ok resp)
      else
        token <- fetchToken (Header_Get (up_Header resp) "Www-Authenticate");;
        match token with
        | Err e => ret_st (Err e)
        | Ok token => build method base path accept token
        end
  end.

Definition d_attempt (u : string) (status : Z) (e : error) (d : Z) (atts : Attempts) : Attempts :=
  Add (url_Parse std) (url_String std) u status (Some e) d atts.

Fixpoint resolve_loop (repo ref path : string) (bases : list string) (atts : Attempts)
    : M (result error string) :=
  match bases with
  | [] => ret_st (Err (EAttempts atts))
  | base :: bases' =>
      start <- d_Now;;
      resp <- adapter_do "HEAD" base path manifestAccept;;
      match resp with
      | Err e =>
          now <- d_Now;;
          resolve_loop repo ref path bases' (d_attempt (base +:+ path) 0 e (time_sub now start) atts)
      | Ok resp =>
          if up_Status resp =? StatusOK then
            let dg := Header_Get (up_Header resp) "Docker-Content-Digest" in
            if negb (dg =s? "") then ret_st (Ok dg)
            else
              now <- d_Now;;
              resolve_loop repo ref path bases'
                (d_attempt (base +:+ path) (up_Status resp)
                   (ENew ("upstream omitted Docker-Content-Digest for " +:+ repo +:+ "/" +:+ ref))
                   (time_sub now start) atts)
          else
            now <- d_Now;;
            resolve_loop repo ref path bases'
              (d_attempt (base +:+ path) (up_Status resp)
                 (ENew ("HEAD manifest " +:+ repo +:+ "/" +:+ ref +:+ ": HTTP " +:+ FormatInt (up_Status resp)))
                 (time_sub now start) atts)
      end
  end.

Definition manifest_path repo (ref : string) : string := "/v2/" +:+ repo +:+ "/manifests/" +:+ ref.
Definition blob_path repo digest : string := "/v2/" +:+ repo +:+ "/blobs/" +:+ digest.

Definition ResolveDigest repo (ref : string) : M (result error string) :=
  resolve_loop repo ref (manifest_path repo ref) (d_upstreams cfg) [].

(** (body, content type, digest) of the first mirror that has the manifest. *)
Fixpoint manifest_loop (repo ref path : string) (bases : list string) (atts : Attempts)
    : M (result error (bytes * string * string)) :=
  match bases with
  | [] => ret_st (Err (EAttempts atts))
  | base :: bases' =>
      start <- d_Now;;
      resp <- adapter_do "GET" base path manifestAccept;;
      match resp with
      | Err e =>
          now <- d_Now;;
          manifest_loop repo ref path bases' (d_attempt (base +:+ path) 0 e (time_sub now start) atts)
      | Ok resp =>
          if negb (up_Status resp =? StatusOK) then
            now <- d_Now;;
            manifest_loop repo ref path bases'
              (d_attempt (base +:+ path) (up_Status resp)
                 (ENew ("GET manifest " +:+ repo +:+ "/" +:+ ref +:+ ": HTTP " +:+ FormatInt (up_Status resp)))
                 (time_sub now start) atts)
          else
            let dg := Header_Get (up_Header resp) "Docker-Content-Digest" in
            let ct := Header_Get (up_Header resp) "Content-Type" in
            if up_BodyErr resp then
              now <- d_Now;;
              manifest_loop repo ref path bases'
                (d_attempt (base +:+ path) (up_Status resp) (ENew "read") (time_sub now start) atts)
            else ret_st (Ok (up_Body resp, ct, if dg =s? "" then ref else dg))
      end
  end.

Definition getManifest repo (ref : string) : M (result error (bytes * string * string)) :=
  manifest_loop repo ref (manifest_path repo ref) (d_upstreams cfg) [].

Definition FetchManifest repo (ref : string) : M (result error (bytes * string * string)) := getManifest repo ref.

(** The response whose body is the blob's stream. *)
Fixpoint blob_loop (repo digest path : string) (bases : list string) (atts : Attempts)
    : M (result error upstreamResponse) :=
  match bases with
  | [] => ret_st (Err (EAttempts atts))
  | base :: bases' =>
      start <- d_Now;;
      resp <- adapter_do "GET" base path "";;
      match resp with
      | Err e =>
          now <- d_Now;;
          blob_loop repo digest path bases' (d_attempt (base +:+ path) 0 e (time_sub now start) atts)
      | Ok resp =>
          if negb (up_Status resp =? StatusOK) then
            now <- d_Now;;
            blob_loop repo digest path bases'
              (d_attempt (base +:+ path) (up_Status resp)
                 (ENew ("GET blob " +:+ repo +:+ "/" +:+ digest +:+ ": HTTP " +:+ FormatInt (up_Status resp)))
                 (time_sub now start) atts)
          else ret_st (Ok resp)
      end
  end.

Definition FetchBlob repo digest : M (result error upstreamResponse) :=
  blob_loop repo digest (blob_path repo digest) (d_upstreams cfg) [].

Record imageConfig := mkImageConfig {
  ic_created : Z;
  ic_config : string;
  ic_layers : list string;
}.

Definition ImageConfig repo (manifestBody : bytes) : M (result error imageConfig) :=
  match json_image manifestBody with
  | Err e => ret_st (Err (EWrap "decoding manifest: " e ""))
  | Ok (configDigest, layers) =>
      if configDigest =s? "" then ret_st (Ok (mkImageConfig 0 configDigest layers))
      else
        rc <- FetchBlob repo configDigest;;
        match rc with
        | Err e => ret_st (Err (EWrap "fetching config blob: " e ""))
        | Ok rc =>
            match decode_created (up_Body rc) (up_BodyErr rc) with
            | Err e => ret_st (Err (EWrap "decoding config blob: " e ""))
            | Ok created =>
                if created =s? "" then ret_st (Ok (mkImageConfig 0 configDigest layers))
                else
                  match parse_RFC3339 std created with
                  | Err e => ret_st (Err (EWrap ("parsing config.created " +:+ Quote std created +:+ ": ") e ""))
                  | Ok t => ret_st (Ok (mkImageConfig t configDigest layers))
                  end
            end
        end
  end.

(** ** Attestation blobs (attestation.go) *)

(** io.Copy through an io.LimitReader of [limit] bytes. *)
Definition limited_read (limit : Z) (body : bytes) (bodyErr : bool) : bytes * bool :=
  if limit <=? 0 then ([], false)
  else if limit <=? Z.of_nat (length body) then (take (Z.to_nat limit) body, false)
  else (body, bodyErr).

Definition rejected (text : string) : error := EWrap "" (ESentinel SErrAttestationBlobRejected) text.

Definition fetchAttestationBlob repo digest : M (result error bytes) :=
  match strip_prefix (to_bytes "sha256:") (to_bytes digest) with
  | None => ret_st (Err (rejected (": unsupported digest " +:+ Quote std digest)))
  | Some want =>
      rc <- FetchBlob repo digest;;
      match rc with
      | Err e => ret_st (Err e)
      | Ok rc =>
          if maxAttestationBlobBytes <? up_Length rc then
            ret_st (Err (rejected (": " +:+ FormatInt (up_Length rc) +:+ " bytes")))
          else
            let '(buf, readErr) := limited_read (maxAttestationBlobBytes + 1) (up_Body rc) (up_BodyErr rc) in
            if readErr then ret_st (Err (ENew "read"))
            else if maxAttestationBlobBytes <? Z.of_nat (length buf) then
              ret_st (Err (rejected (": over " +:+ FormatInt maxAttestationBlobBytes +:+ " bytes")))
            else if negb (hex_EncodeToString (sha256_Sum std buf) =s? of_bytes want) then
              ret_st (Err (rejected ": digest mismatch"))
            else ret_st (Ok buf)
      end
  end.

(** ** The manifest gate (gate.go) *)

Definition d_remove_temp : M unit :=
  _ <- dlog DRemoveTemp;;
  d_add_temp (-1).

(** A temporary file: [Some e] when it cannot be created. *)
Definition d_create_temp : M (option error) :=
  e <- dask (denv_CreateTemp env) DCreateTemp;;
  match e with
  | Some e => ret_st (Some e)
  | None => _ <- d_add_temp 1;; ret_st None
  end.

Definition d_write_temp (data : bytes) : M (option error) :=
  dask (fun tr => denv_WriteTemp env tr data) (DWriteTemp data).

(** The layer in its temporary file: what reading it or scanning it gives. *)
Definition scan_buffered digest (data : bytes) : M (result error layerOutcome) :=
  res <- dask (fun tr => denv_AVScan env tr data) (DAVScan data);;
  match res with
  | Err e => ret_st (Err (EWrap ("AV scanning layer " +:+ digest +:+ ": ") e ""))
  | Ok res =>
      if av_Incomplete res then ret_st (Ok layerIncomplete)
      else
        put <- PutBlob digest data (av_Clean res);;
        if negb put then ret_st (Err (EWrap ("caching layer " +:+ digest +:+ ": ") (ENew "put") ""))
        else ret_st (Ok (if av_Clean res then layerClean else layerInfected))
  end.

Definition buffer_layer digest (rc : upstreamResponse) : M (result error layerOutcome) :=
  let limit := d_maxLayerBytes cfg in
  let '(data, readErr) :=
    if 0 <? limit then limited_read (wrap64 (limit + 1)) (up_Body rc) (up_BodyErr rc)
    else (up_Body rc, up_BodyErr rc) in
  wrote <- d_write_temp data;;
  match wrote with
  | Some e => ret_st (Err (EWrap ("buffering layer " +:+ digest +:+ ": ") e ""))
  | None =>
      if readErr then ret_st (Err (EWrap ("buffering layer " +:+ digest +:+ ": ") (ENew "read") ""))
      else if (0 <? limit) && (limit <? Z.of_nat (length data)) then
        _ <- PutBlob digest [] false;;
        ret_st (Ok layerInfected)
      else scan_buffered digest data
  end.

Definition scanLayer repo digest : M (result error layerOutcome) :=
  found <- GetBlob digest;;
  match found with
  | Some (_, clean) => ret_st (Ok (if clean : bool then layerClean else layerInfected))
  | None =>
      rc <- FetchBlob repo digest;;
      match rc with
      | Err e => ret_st (Err (EWrap ("fetching layer " +:+ digest +:+ ": ") e ""))
      | Ok rc =>
          if (0 <? d_maxLayerBytes cfg) && (d_maxLayerBytes cfg <? up_Length rc) then
            _ <- PutBlob digest [] false;;
            ret_st (Ok layerInfected)
          else
            tmp <- d_create_temp;;
            match tmp with
            | Some e => ret_st (Err (EWrap "creating temp layer file: " e ""))
            | None =>
                out <- buffer_layer digest rc;;
                _ <- d_remove_temp;;
                ret_st out
            end
      end
  end.

(** [Some e] when the verdict could not be stored. *)
Definition cacheVerdict repo digest (manifestBody : bytes) (v : GateVerdict) : M (option error) :=
  tmp <- d_create_temp;;
  match tmp with
  | Some e => ret_st (Some e)
  | None =>
      wrote <- d_write_temp manifestBody;;
      match wrote with
      | Some e => _ <- d_remove_temp;; ret_st (Some e)
      | None =>
          put <- PutImageVerdict repo digest manifestBody (gv_Allowed v) (gv_Reason v);;
          _ <- d_remove_temp;;
          ret_st (if put : bool then None else Some (ENew "put"))
      end
  end.

Definition imageRef repo digest : string :=
  hostFromUpstream (d_upstreams cfg) +:+ "/" +:+ repo +:+ "@" +:+ digest.

Fixpoint invalidate_all (digests : list string) : M unit :=
  match digests with
  | [] => ret_st tt
  | d :: digests' => _ <- InvalidateBlob d;; invalidate_all digests'
  end.

(** The config and layer digests evictBlobs lists. *)
Definition manifest_digests (configDigest : string) (layers : list string) : list string :=
  (if negb (configDigest =s? "") then [configDigest] else []) ++
  List.filter (fun d => negb (d =s? "")) layers.

Definition evictBlobs (manifestBody : bytes) : M unit :=
  match json_image manifestBody with
  | Err _ => ret_st tt
  | Ok (configDigest, layers) => invalidate_all (manifest_digests configDigest layers)
  end.

Definition manifestMediaType (path : string) : M string :=
  body <- d_open path;;
  match body with
  | None => ret_st ""
  | Some body => ret_st (match json_mediaType body with Ok mt => mt | Err _ => "" end)
  end.

(** A definitive block: stored, and the blobs of a stale image evicted. *)
Definition block_image repo digest (manifestBody : bytes) (cascadeOnBlock : bool) (v : GateVerdict)
    : M (result error GateVerdict) :=
  _ <- cacheVerdict repo digest manifestBody v;;
  _ <- (if cascadeOnBlock then evictBlobs manifestBody else ret_st tt);;
  ret_st (Ok v).

Definition blocked (reason by_ : string) (fs : list CVEFinding) : GateVerdict :=
  mkVerdict false reason by_ fs "" "" 0 0 false false.

(** The AV stage over the blobs: the first that is not clean decides. *)
Fixpoint scan_layers repo (blobs : list string) : M (result error layerOutcome) :=
  match blobs with
  | [] => ret_st (Ok layerClean)
  | b :: blobs' =>
      outcome <- scanLayer repo b;;
      match outcome with
      | Ok layerClean => scan_layers repo blobs'
      | _ => ret_st outcome
      end
  end.

Definition image_blobs (ic : imageConfig) : list string :=
  if negb (ic_config ic =s? "") then ic_config ic :: ic_layers ic else ic_layers ic.

(** The verdict once every gate passed, stored and with its body's path. *)
Definition approve repo digest (manifestBody : bytes) (v : GateVerdict) : M (result error GateVerdict) :=
  e <- cacheVerdict repo digest manifestBody v;;
  match e with
  | Some e => ret_st (Err e)
  | None =>
      path <- GetManifestBody repo digest;;
      ret_st (Ok (match path with Some path => with_manifest path (gv_ContentType v) v | None => v end))
  end.

Definition av_image repo digest (manifestBody : bytes) (contentType : string) (cascadeOnBlock : bool)
    (ic : imageConfig) : M (result error GateVerdict) :=
  outcome <- (if d_AV cfg then scan_layers repo (image_blobs ic) else ret_st (Ok layerClean));;
  match outcome with
  | Err e => ret_st (Err e)
  | Ok layerIncomplete => ret_st (Ok (blocked ReasonScanIncomplete ReasonScanIncomplete []))
  | Ok layerInfected => block_image repo digest manifestBody cascadeOnBlock (blocked "malware_found" "malware" [])
  | Ok layerClean =>
      approve repo digest manifestBody (mkVerdict true "ok" "" [] "" contentType (ic_created ic) 0 false false)
  end.

Definition cve_image repo (ref : string) digest (manifestBody : bytes) (contentType : string)
    (cascadeOnBlock : bool) (ic : imageConfig) : M (result error GateVerdict) :=
  let pkgRef := mkRef "docker" repo ref "" in
  scan <- dask (fun tr => denv_ImageScan env tr (imageRef repo digest)) (DImageScan (imageRef repo digest));;
  match scan with
  | Err e => ret_st (Err e)
  | Ok findings =>
      if d_Policy cfg then
        let sr := mkScan (bool_decide (findings = [])) findings "" in
        decision <- dask (fun tr => denv_Policy env tr pkgRef sr) (DPolicy pkgRef sr);;
        if negb (pd_Allowed decision) then
          block_image repo digest manifestBody cascadeOnBlock
            (blocked (pd_Reason decision) (blockedBy decision) (pd_Findings decision))
        else av_image repo digest manifestBody contentType cascadeOnBlock ic
      else av_image repo digest manifestBody contentType cascadeOnBlock ic
  end.

Definition runPipeline repo (ref : string) digest (manifestBody : bytes) (contentType : string)
    (cascadeOnBlock : bool) : M (result error GateVerdict) :=
  let pkgRef := mkRef "docker" repo ref "" in
  ic <- ImageConfig repo manifestBody;;
  match ic with
  | Err e => ret_st (Err e)
  | Ok ic =>
      let meta := mkMeta (ic_created ic) "" "" in
      fr <- dask (fun tr => denv_Filter env tr pkgRef meta) (DFilter pkgRef meta);;
      if negb (fr_Allowed fr) then
        ret_st (Ok (mkVerdict false (fr_Reason fr) "supply_chain" [] "" "" (fr_PublishedAt fr)
                      (fr_BlockUntil fr) false false))
      else cve_image repo ref digest manifestBody contentType cascadeOnBlock ic
  end.

Definition passthrough repo digest (manifestBody : bytes) (contentType reason : string)
    : M (string * result error GateVerdict) :=
  v <- approve repo digest manifestBody (mkVerdict true reason "" [] "" contentType 0 0 true false);;
  ret_st (match v with Ok v => (digest, Ok v) | Err e => ("", Err e) end).

Definition staleOr digest (stale : option GateVerdict) (err : error) : string * result error GateVerdict :=
  match stale with
  | Some v => (digest, Ok v)
  | None => ("", Err err)
  end.

(** A verdict restored from the store, its body not yet looked for. *)
Definition restored (clean : bool) (reason : string) : GateVerdict :=
  mkVerdict clean reason (if clean then "" else blockedByForReason reason) [] "" "" 0 0
    (isPassthroughReason reason) true.

Definition is_fresh (checkedAt : Z) : M bool :=
  if d_recheckTTL cfg <=? 0 then ret_st true
  else
    now <- d_Now;;
    ret_st (time_sub now checkedAt <=? d_recheckTTL cfg).

(** The by-digest fast path: a verdict to answer with, or the one to fall
    back on when no upstream can be reached. *)
Definition by_digest repo (ref : string) : M (GateVerdict + option GateVerdict) :=
  if negb (isDigestRef ref) then ret_st (inr None)
  else
    found <- GetImageVerdict repo ref;;
    match found with
    | None => ret_st (inr None)
    | Some (clean, reason, checkedAt) =>
        if isStaleSupplyBlock clean reason then ret_st (inr None)
        else
          let v := restored clean reason in
          v <- (if negb clean then ret_st v
                else
                  path <- GetManifestBody repo ref;;
                  match path with
                  | None => ret_st v
                  | Some path =>
                      ct <- manifestMediaType path;;
                      ret_st (if negb (ct =s? "") then with_manifest path ct v else v)
                  end);;
          fresh <- is_fresh checkedAt;;
          let servable := negb (gv_Allowed v) || negb (gv_ManifestPath v =s? "") in
          ret_st (if fresh && servable then inl v
                  else if negb fresh && servable then inr (Some v)
                  else inr None)
    end.

(** The cached verdict of the digest just resolved: fresh, or expired. *)
Definition by_resolved repo digest (contentType : string) : M (GateVerdict + option GateVerdict) :=
  found <- GetImageVerdict repo digest;;
  match found with
  | None => ret_st (inr None)
  | Some (clean, reason, checkedAt) =>
      if isStaleSupplyBlock clean reason then ret_st (inr None)
      else
        let v := restored clean reason in
        v <- (if negb clean then ret_st v
              else
                path <- GetManifestBody repo digest;;
                ret_st (match path with Some path => with_manifest path contentType v | None => v end));;
        fresh <- is_fresh checkedAt;;
        ret_st (if fresh then inl v else inr (Some v))
  end.

(** The pipeline, or the one already running under the key. *)
Definition flight repo (ref : string) digest (manifestBody : bytes) (contentType : string)
    (cascadeOnBlock : bool) : M (result error GateVerdict) :=
  let key := repo +:+ "@" +:+ digest in
  led <- dask (fun tr => denv_Flight env tr key) (DFlight key);;
  match led with
  | Some ld => runPipeline repo (fl_ref ld) digest (fl_body ld) (fl_ct ld) (fl_cascade ld)
  | None => runPipeline repo ref digest manifestBody contentType cascadeOnBlock
  end.

(** What follows a manifest fetched. *)
Definition evaluate_fetched repo (ref : string) (manifestBody : bytes) (contentType digest : string)
    : M (string * result error GateVerdict) :=
  _ <- (if d_Tags cfg && isIndexMediaType contentType && negb (isDigestRef ref)
        then on_tags (rememberChildren repo ref manifestBody) else ret_st tt);;
  cached <- by_resolved repo digest contentType;;
  match cached with
  | inl v => ret_st (digest, Ok v)
  | inr stale =>
      if isIndexMediaType contentType then passthrough repo digest manifestBody contentType reasonIndexPassthrough
      else if isAttestationManifest manifestBody then
        passthrough repo digest manifestBody contentType reasonAttestationPassthrough
      else
        res <- flight repo ref digest manifestBody contentType (bool_decide (is_Some stale));;
        ret_st (match res with
                | Err e => staleOr digest stale e
                | Ok v => (digest, Ok v)
                end)
  end.

Definition fetch_failed repo (ref : string) (err : error) : error :=
  let text := "resolving manifest " +:+ repo +:+ ":" +:+ ref +:+ ": " in
  match AttemptsFrom err with
  | Some atts =>
      if AllNotFound atts then EWrap2 text (ESentinel SErrManifestNotFound) ": " err ""
      else EWrap text err ""
  | None => EWrap text err ""
  end.

(** The canonical digest and the verdict of repo:ref. *)
Definition gate_Evaluate repo (ref : string) : M (string * result error GateVerdict) :=
  first <- by_digest repo ref;;
  match first with
  | inl v => ret_st (ref, Ok v)
  | inr offlineStale =>
      fetched <- FetchManifest repo ref;;
      match fetched with
      | Err err =>
          match offlineStale with
          | Some v => ret_st (ref, Ok v)
          | None => ret_st ("", Err (fetch_failed repo ref err))
          end
      | Ok (manifestBody, contentType, digest) => evaluate_fetched repo ref manifestBody contentType digest
      end
  end.

(** ** The handler (handler.go) *)

Definition scanInProgressRetryAfter : Z := 30 * Second.

Definition StatusTooManyRequests : Z := 429.

Definition d_writeError (status : Z) (code msg : string) : M unit :=
  _ <- d_header_set "Content-Type" "application/json";;
  d_respond status (BJSON [("errors", JArray [[("code", JString code); ("message", JString msg)]])]).

Definition with_version (v : string) (ev : Event) : Event :=
  mkEvent (ev_RequestID ev) (ev_Time ev) (ev_Ecosystem ev) (ev_Package ev) v
    (ev_Verdict ev) (ev_Gate ev) (ev_LatencyMS ev) (ev_HTTPStatus ev) (ev_Reason ev) (ev_BlockedBy ev)
    (ev_CVEs ev) (ev_MalwareEngine ev) (ev_MalwareSignature ev) (ev_PublishedAt ev) (ev_BlockUntil ev).

Definition d_record (requestID : string) (pp : ParsedPath) (start : Z) (verdict : Verdict)
    (gateName reason : string) (status : Z) (mod_ : Event -> Event) : M unit :=
  now <- d_Now;;
  now' <- d_Now;;
  let ev := mod_ (mkEvent requestID now "docker" (pp_Repo pp) (pp_Reference pp) verdict gateName
                    (Z.quot (time_sub now' start) Millisecond) status reason [] [] "" "" 0 0) in
  _ <- dlog (DOutcome ev);;
  if d_Recorder cfg then dlog (DRecord ev) else ret_st tt.

Record gateOutcome := mkGateOutcome {
  go_status : Z;
  go_reason : string;
  go_code : string;
  go_msg : string;
  go_retry : Z;
}.

Definition gateFailure (err : error) : M gateOutcome :=
  if errors_Is err SErrManifestNotFound then
    ret_st (mkGateOutcome StatusNotFound "manifest_not_found" "MANIFEST_UNKNOWN" "manifest unknown" 0)
  else
    lookup <- dask (denv_Throttles env) (fun _ => DThrottles);;
    match Throttled (url_Parse std) (default [] (AttemptsFrom err)) lookup, AttemptsFrom err with
    | Some (status, retry), Some _ =>
        ret_st (mkGateOutcome status "upstream_throttled"
                  (if status =? StatusTooManyRequests then "TOOMANYREQUESTS" else "UNAVAILABLE")
                  "upstream registry throttled" retry)
    | _, _ =>
        ret_st (mkGateOutcome StatusBadGateway "gate_error" "UNAVAILABLE" "upstream or scan failure" 0)
    end.

Definition recordBlock (requestID : string) (pp : ParsedPath) (start : Z) (displayVer : string)
    (v : GateVerdict) : M unit :=
  d_record requestID pp start VerdictBlock (gateForBlockedBy (gv_BlockedBy v)) (gv_Reason v) StatusForbidden
    (fun ev => with_dates (gv_PublishedAt v) (gv_BlockUntil v)
                 (with_version displayVer (with_cves (gv_Findings v) (with_blocked_by [gv_BlockedBy v] ev)))).

Definition displayVersion (pp : ParsedPath) digest : M string :=
  if negb (isDigestRef (pp_Reference pp)) then ret_st (pp_Reference pp)
  else if d_Tags cfg then
    ti <- the_tags;;
    ret_st (default digest (ti_tag (pp_Repo pp) digest ti))
  else ret_st digest.

Definition recordWhenDone (requestID : string) (pp : ParsedPath) (start : Z)
    (res : string * result error GateVerdict) : M unit :=
  let '(digest, out) := res in
  match out with
  | Err err =>
      f <- gateFailure err;;
      d_record requestID pp start VerdictError GateImageScan (go_reason f) (go_status f) no_mod
  | Ok v =>
      displayVer <- displayVersion pp digest;;
      if negb (gv_Allowed v) then recordBlock requestID pp start displayVer v
      else if negb (gv_Passthrough v) then
        d_record requestID pp start VerdictPass GateImageScan (gv_Reason v) StatusOK (with_version displayVer)
      else ret_st tt
  end.

Definition d_copy (data : bytes) : M (nat * bool) :=
  dask (fun tr => let '(n, ok) := denv_Copied env tr data in
                  if ok : bool then (length data, true) else (Nat.min n (length data), false))
       (fun r => DCopied r.1 r.2).

(** The verdict, gate and reason an allowed image is recorded with. *)
Definition pass_label (v : GateVerdict) : Verdict * string * string :=
  if gv_FromCache v then (VerdictCache, GateCache, "cache_hit")
  else (VerdictPass, GateImageScan, gv_Reason v).

Definition record_pass (requestID : string) (pp : ParsedPath) (start : Z) (displayVer : string)
    (v : GateVerdict) : M unit :=
  if gv_Passthrough v then ret_st tt
  else
    let '(verdict, gateName, reason) := pass_label v in
    d_record requestID pp start verdict gateName reason StatusOK (with_version displayVer).

Definition remember_attestation (pp : ParsedPath) (v : GateVerdict) : M unit :=
  if (gv_Reason v =s? reasonAttestationPassthrough) && d_Attest cfg then
    body <- d_open (gv_ManifestPath v);;
    match body with
    | None => ret_st tt
    | Some body => on_attest (remember (pp_Repo pp) body)
    end
  else ret_st tt.

Definition serve_allowed (requestID : string) (r : Request) (pp : ParsedPath) (start : Z) digest
    (displayVer : string) (v : GateVerdict) : M unit :=
  _ <- d_header_set "Docker-Content-Digest" digest;;
  _ <- (if negb (gv_ContentType v =s? "") then d_header_set "Content-Type" (gv_ContentType v) else ret_st tt);;
  _ <- remember_attestation pp v;;
  if rq_Method r =s? "HEAD" then
    _ <- d_respond StatusOK BNone;;
    record_pass requestID pp start displayVer v
  else
    f <- d_open (gv_ManifestPath v);;
    match f with
    | None =>
        _ <- d_record requestID pp start VerdictError GateImageScan "cache_read_error"
               StatusInternalServerError (with_version displayVer);;
        d_writeError StatusInternalServerError "UNAVAILABLE" "cache read error"
    | Some data =>
        copied <- d_copy data;;
        _ <- d_respond StatusOK (BStream data copied.1);;
        if copied.2 then record_pass requestID pp start displayVer v else ret_st tt
    end.

Definition answer_manifest (requestID : string) (r : Request) (pp : ParsedPath) (start : Z)
    (res : string * result error GateVerdict) : M unit :=
  let '(digest, out) := res in
  match out with
  | Err err =>
      f <- gateFailure err;;
      _ <- d_record requestID pp start VerdictError GateImageScan (go_reason f) (go_status f) no_mod;;
      _ <- (if 0 <? go_retry f then d_SetRetryAfter (go_retry f) else ret_st tt);;
      d_writeError (go_status f) (go_code f) (go_msg f)
  | Ok v =>
      displayVer <- displayVersion pp digest;;
      if negb (gv_Allowed v) then
        _ <- recordBlock requestID pp start displayVer v;;
        d_writeError StatusForbidden "DENIED" ("image blocked by policy: " +:+ gv_Reason v)
      else serve_allowed requestID r pp start digest displayVer v
  end.

Definition answer_pending (requestID : string) (pp : ParsedPath) (start : Z) : M unit :=
  _ <- d_record requestID pp start VerdictError GateImageScan "scan_in_progress" StatusServiceUnavailable no_mod;;
  _ <- d_SetRetryAfter scanInProgressRetryAfter;;
  d_writeError StatusServiceUnavailable "UNAVAILABLE" "image scan in progress; retry shortly".

(** Whether the gate outlasts ClientWait. *)
Definition d_pending : M bool :=
  if d_ClientWait cfg <=? 0 then ret_st false else dask (denv_Late env) DLate.

Definition d_Ensure (r : Request) : M (Request * string) :=
  if negb (rq_ID r =s? "") then ret_st (r, rq_ID r)
  else
    id <- dask (denv_NewUUID env) DUUID;;
    ret_st (with_id id r, id).

Definition serveManifest (r : Request) (pp : ParsedPath) : M unit :=
  rid <- d_Ensure r;;
  let '(r, requestID) := rid in
  start <- d_Now;;
  pending <- d_pending;;
  if pending : bool then
    _ <- answer_pending requestID pp start;;
    res <- gate_Evaluate (pp_Repo pp) (pp_Reference pp);;
    recordWhenDone requestID pp start res
  else
    res <- gate_Evaluate (pp_Repo pp) (pp_Reference pp);;
    answer_manifest requestID r pp start res.

(** Whose fetch is waited for: the leader's when it has this key - another
    repository and digest can make the same one - or the request's own. *)
Definition flight_blob (key : string) (led : option (string * string)) (own : string * string) : string * string :=
  match led with
  | Some l => if l.1 +:+ "@" +:+ l.2 =s? key then l else own
  | None => own
  end.

Definition serveAttestationBlob (r : Request) (pp : ParsedPath) : M unit :=
  let key := pp_Repo pp +:+ "@" +:+ pp_Reference pp in
  led <- dask (fun tr => denv_BlobFlight env tr key) (DBlobFlight key);;
  res <- (let '(repo, digest) := flight_blob key led (pp_Repo pp, pp_Reference pp) in fetchAttestationBlob repo digest);;
  match res with
  | Err err =>
      if errors_Is err SErrAttestationBlobRejected then
        d_writeError StatusNotFound "BLOB_UNKNOWN" "blob not available"
      else d_writeError StatusBadGateway "UNAVAILABLE" "upstream failure"
  | Ok body =>
      _ <- d_header_set "Docker-Content-Digest" (pp_Reference pp);;
      _ <- d_header_set "Content-Type" "application/octet-stream";;
      _ <- d_header_set "Content-Length" (FormatInt (Z.of_nat (length body)));;
      if rq_Method r =s? "HEAD" then d_respond StatusOK BNone
      else
        copied <- d_copy body;;
        d_respond StatusOK (BStream body copied.1)
  end.

Definition serve_cached_blob (path digest : string) : M unit :=
  f <- d_open path;;
  match f with
  | None => d_writeError StatusInternalServerError "UNAVAILABLE" "cache read error"
  | Some data =>
      _ <- d_header_set "Docker-Content-Digest" digest;;
      _ <- d_header_set "Content-Type" "application/octet-stream";;
      st <- dask (denv_StatOk env) DStat;;
      _ <- (if st : bool then d_header_set "Content-Length" (FormatInt (Z.of_nat (length data))) else ret_st tt);;
      copied <- d_copy data;;
      d_respond StatusOK (BStream data copied.1)
  end.

Definition serveBlob (r : Request) (pp : ParsedPath) : M unit :=
  found <- GetBlob (pp_Reference pp);;
  attest <- the_attest;;
  match found with
  | None =>
      if d_Attest cfg && ab_has (pp_Repo pp) (pp_Reference pp) attest then serveAttestationBlob r pp
      else d_writeError StatusNotFound "BLOB_UNKNOWN" "blob not available"
  | Some (path, clean) =>
      if negb clean then d_writeError StatusNotFound "BLOB_UNKNOWN" "blob not available"
      else serve_cached_blob path (pp_Reference pp)
  end.

Definition docker_ServeHTTP (r : Request) : M unit :=
  let pp := ParsePath (rq_Path r) in
  match pp_Kind pp with
  | KindPing =>
      _ <- d_header_set "Docker-Distribution-API-Version" "registry/2.0";;
      d_respond StatusOK BNone
  | KindManifest => serveManifest r pp
  | KindBlob => serveBlob r pp
  | KindTagList | KindUnknown => d_writeError StatusNotFound "NOT_FOUND" "unsupported registry path"
  end.
End Docker.
