(* ===== verification/DockerCache.v ===== *)
(** * What the Docker proxy relies on of its cache (internal/cache)

    The laws of an [ImageCache]: they show a whole record - the scan verdict,
    the stored reason and the bytes - and how the files behind the paths
    change, a failed Put included; and the local cache keeping them, whatever
    calls and statements fail. *)
From S2P Require Import Prelude GoStd Gate Cache DockerPath Docker.
Local Open Scope Z_scope.

(** [image_record] is what is held for a reference: its verdict, its reason
    and its bytes.  A failed Put may have replaced the file of its reference
    without replacing the row. *)
Class ImageCacheLaws (C : Type) `{!ArtifactCache C} `{!ImageCache C} := {
  image_ok : C -> Prop;
  image_record : C -> PackageRef -> option (bool * string * bytes);
  image_file : C -> string -> option bytes;
  image_path : PackageRef -> string;
  image_path_inj ref ref' : image_path ref = image_path ref' -> Key ref = Key ref';
  entry_ok now ref c : image_ok c -> image_ok (cache_Entry now ref c).2;
  entry_record now ref c ref' x :
    image_ok c -> image_record (cache_Entry now ref c).2 ref' = Some x -> image_record c ref' = Some x;
  entry_file now ref c p d :
    image_file (cache_Entry now ref c).2 p = Some d -> image_file c p = Some d;
  entry_hit now ref c e :
    image_ok c -> (cache_Entry now ref c).1 = Some e ->
    ArtifactPath e = image_path ref ∧
    ∃ d, image_record (cache_Entry now ref c).2 ref = Some (ScanClean e, ce_ScanJSON e, d) ∧
         image_file (cache_Entry now ref c).2 (ArtifactPath e) = Some d;
  iput_ok now ref d b j c : image_ok c -> image_ok (cache_Put now ref d b j c).2;
  iput_record now ref d b j c ref' b' j' d' :
    image_ok c -> image_record (cache_Put now ref d b j c).2 ref' = Some (b', j', d') ->
    image_record c ref' = Some (b', j', d') ∨
    (Key ref' = Key ref ∧ d' = d ∧
     ((ref' = ref ∧ b' = b ∧ j' = j) ∨
      (cache_Put now ref d b j c).1 = false ∨ ref' ≠ ref));
  iput_file now ref d b j c p x :
    image_file (cache_Put now ref d b j c).2 p = Some x ->
    image_file c p = Some x ∨ (p = image_path ref ∧ x = d);
  iput_hit now ref d b j c :
    image_ok c -> (cache_Put now ref d b j c).1 = true ->
    image_record (cache_Put now ref d b j c).2 ref = Some (b, j, d);
  iinvalidate_ok ref c : image_ok c -> image_ok (cache_Invalidate ref c).2;
  iinvalidate_record ref c ref' x :
    image_ok c -> image_record (cache_Invalidate ref c).2 ref' = Some x -> image_record c ref' = Some x;
  iinvalidate_file ref c p d :
    image_file (cache_Invalidate ref c).2 p = Some d -> image_file c p = Some d;
  iopen_ok p c : image_ok c -> image_ok (cache_Open p c).2;
  iopen_record p c ref : image_record (cache_Open p c).2 ref = image_record c ref;
  iopen_file p c p' : image_file (cache_Open p c).2 p' = image_file c p';
  iopen_data p c d : (cache_Open p c).1 = Some d -> image_file c p = Some d;
}.

(** ** The local cache *)

Section Instance.
Context (cfg : LocalCacheConfig) (sha256_hex : string -> string).

#[export] Instance localImageCache : @ImageCache LocalCache (artifactCacheAdapter cfg sha256_hex) := {
  cache_Entry := LocalCache_Get;
}.

Definition row_record (c : LocalCache) (ref : PackageRef) : option (bool * string * bytes) :=
  r ← index c !! ref; d ← disk c !! file_path r; Some (scan_clean r, scan_json r, d).

Lemma row_record_Some c ref b j d :
  row_record c ref = Some (b, j, d) ↔
  ∃ r, index c !! ref = Some r ∧ disk c !! file_path r = Some d ∧ scan_clean r = b ∧ scan_json r = j.
Proof. unfold row_record. rewrite bind_Some. setoid_rewrite bind_Some. naive_solver. Qed.

Lemma forgets_record c c' ref x : forgets c c' → row_record c' ref = Some x → row_record c ref = Some x.
Proof.
  destruct x as [[b j] d]. rewrite !row_record_Some. intros [Hi Hd] (r' & Hr' & Hd' & <- & <-).
  destruct (Hi ref r' Hr') as (r & Hr & E). unfold row_core in E. simplify_eq.
  exists r. split_and!; [done| |done..]. apply Hd. congruence.
Qed.

(** A hit shows the row it found, its file there. *)
Lemma get_hit_record now ref c e :
  (LocalCache_Get now ref c).1 = Some e →
  ∃ r d, index c !! ref = Some r ∧ e = row_entry r ∧
    row_record (LocalCache_Get now ref c).2 ref = Some (ScanClean e, ce_ScanJSON e, d) ∧
    disk (LocalCache_Get now ref c).2 !! ArtifactPath e = Some d.
Proof.
  intros He. destruct (get_hit_held now ref c e He) as (d & Hh & Hd).
  apply held_Some in Hh as (r' & Hr' & Hd' & Hc).
  destruct (forgets_get now ref c) as [Hi _]. destruct (Hi ref r' Hr') as (r & Hr & E).
  unfold LocalCache_Get in He. rewrite bind_st_run in He.
  pose proof (Index_query_frame (Index_Get ref) c) as (Hi' & _ & _ & Hq).
  destruct (Index_query (Index_Get ref) c) as [q c1]. simpl in *.
  destruct Hq as [->| ->]; [done|]. unfold Index_Get in He. rewrite Hr in He. simpl in He.
  assert (e = row_entry r) as ->.
  { rewrite bind_st_run in He. destruct (os_Stat _ c1) as [[] c2]; simpl in He; rewrite bind_st_run in He; by simplify_eq/=. }
  exists r, d. split_and!; [done..| |done]. apply row_record_Some. exists r'.
  unfold row_core in E. simplify_eq. simpl in *. split_and!; [done| |congruence..]. congruence.
Qed.

Context (Hsha : sha_ok sha256_hex).

Lemma put_record now ref d b j c ref' b' j' d' :
  paths_ok cfg sha256_hex c →
  row_record (LocalCache_Put cfg sha256_hex now ref d b j c).2 ref' = Some (b', j', d') →
  row_record c ref' = Some (b', j', d') ∨
  (Key ref' = Key ref ∧ d' = d ∧
   ((ref' = ref ∧ b' = b ∧ j' = j) ∨
    (LocalCache_Put cfg sha256_hex now ref d b j c).1 = false ∨ ref' ≠ ref)).
Proof.
  intros Hok. rewrite row_record_Some. set (path := artifactPath cfg sha256_hex ref).
  assert (∀ r, index c !! ref' = Some r → <[path:=d]> (disk c) !! file_path r = Some d' →
            row_record c ref' = Some (scan_clean r, scan_json r, d') ∨ (Key ref' = Key ref ∧ d' = d)) as Hcase.
  { intros r Hr. rewrite lookup_insert_Some. intros [[Hp ->]|[_ Hf]].
    - right. split; [|done]. apply (artifactPath_inj cfg _ _ _ Hsha). rewrite <- (Hok _ _ Hr). done.
    - left. apply row_record_Some. by exists r. }
  destruct (Put_outcome cfg sha256_hex now ref d b j c) as [c' Hi Hd|c' Hi Hd|c' Hi Hd _];
    intros (r & Hr & Hf & <- & <-); rewrite Hi in Hr.
  - left. apply row_record_Some. exists r. by rewrite <- Hd.
  - destruct (Hcase r Hr) as [?|[? ?]]; [|by left|right; by auto].
    destruct Hd as [Hd|Hd]; rewrite Hd in Hf; [done|]. by apply lookup_delete_Some in Hf as [_ ?].
  - rewrite Hd in Hf. unfold Index_Insert in Hr. apply lookup_insert_Some in Hr as [[<- <-]|[Hne Hr]].
    + simpl in Hf. rewrite lookup_insert_eq in Hf. simplify_eq. right. split_and!; [done..|by left].
    + destruct (Hcase r Hr) as [?|[? ?]]; [done|by left|]. right. split_and!; [done..|]. right. by right.
Qed.

Lemma put_file_cases now ref d b j c p x :
  disk (LocalCache_Put cfg sha256_hex now ref d b j c).2 !! p = Some x →
  disk c !! p = Some x ∨ (p = artifactPath cfg sha256_hex ref ∧ x = d).
Proof.
  destruct (Put_outcome cfg sha256_hex now ref d b j c) as [c' _ Hd|c' _ Hd|c' _ Hd _];
    [by rewrite Hd; left| |]; rewrite ?Hd.
  - destruct Hd as [-> | ->]; rewrite ?lookup_delete_Some, lookup_insert_Some; naive_solver.
  - rewrite lookup_insert_Some. naive_solver.
Qed.

Lemma put_done_record now ref d b j c :
  (LocalCache_Put cfg sha256_hex now ref d b j c).1 = true →
  row_record (LocalCache_Put cfg sha256_hex now ref d b j c).2 ref = Some (b, j, d).
Proof.
  destruct (Put_outcome cfg sha256_hex now ref d b j c) as [| |c' Hi Hd _]; [done..|].
  intros _. apply row_record_Some. rewrite Hi, Hd. unfold Index_Insert. rewrite lookup_insert_eq.
  eexists. split; [done|]. simpl. by rewrite lookup_insert_eq.
Qed.

#[export] Instance localImageCache_laws :
  @ImageCacheLaws LocalCache (artifactCacheAdapter cfg sha256_hex) localImageCache.
Proof using Hsha.
  refine {|
    image_ok := paths_ok cfg sha256_hex;
    image_record := row_record;
    image_file c p := disk c !! p;
    image_path := artifactPath cfg sha256_hex;
  |}; intros *.
  - by apply artifactPath_inj.
  - apply paths_ok_forgets, forgets_get.
  - intros _. apply forgets_record, forgets_get.
  - apply forgets_get.
  - intros Hok He. destruct (get_hit_record now ref c e He) as (r & d & Hr & -> & Hrec & Hd).
    split; [by apply Hok|]. by exists d.
  - by apply put_paths_ok.
  - apply put_record.
  - apply put_file_cases.
  - intros _. apply put_done_record.
  - apply paths_ok_forgets, forgets_invalidate.
  - intros _. apply forgets_record, forgets_invalidate.
  - apply forgets_invalidate.
  - intros Hok. destruct (open_run cfg sha256_hex p c) as (_ & Hi & _). intros ref' r. rewrite Hi. apply Hok.
  - destruct (open_run cfg sha256_hex p c) as (_ & Hi & Hd). unfold row_record. by rewrite Hi, Hd.
  - destruct (open_run cfg sha256_hex p c) as (_ & _ & ->). done.
  - destruct (open_run cfg sha256_hex p c) as ([->| ->] & _ & _); done.
Defined.
End Instance.
