(* ===== verification/DockerProps.v ===== *)
(** * How the Docker proxy runs

    A rule for each primitive step of [Docker], then a lemma for each operation
    of the adapter and of the manifest gate: what it adds to the trace, that it
    answers no client, and that it keeps the invariant - whatever the cache
    holds clean was vouched for in the trace. *)
From S2P Require Import Prelude GoStd Gate Cache Upstream CircuitBreaker HTTP Handler DockerPath Docker DockerCache.
Local Open Scope Z_scope.

(** ** Reading a trace *)

Definition d_outcome_of (c : DCall) : option Event := match c with DOutcome ev => Some ev | _ => None end.
Definition d_record_of (c : DCall) : option Event := match c with DRecord ev => Some ev | _ => None end.
Definition d_response_of (c : DCall) : option Response := match c with DRespond r => Some r | _ => None end.
Definition d_put_of (c : DCall) : option (PackageRef * bytes * bool * string * bool) :=
  match c with DPut ref d b j ok => Some (ref, d, b, j, ok) | _ => None end.

Definition d_outcomes (l : list DCall) : list Event := omap d_outcome_of l.
Definition d_records (l : list DCall) : list Event := omap d_record_of l.
Definition d_responses (l : list DCall) : list Response := omap d_response_of l.
Definition d_puts (l : list DCall) := omap d_put_of l.

(** Neither an outcome nor a response. *)
Definition d_quiet (l : list DCall) : Prop := d_outcomes l = [] ∧ d_records l = [] ∧ d_responses l = [].

Lemma d_quiet_app l1 l2 : d_quiet l1 → d_quiet l2 → d_quiet (l1 ++ l2).
Proof.
  unfold d_quiet, d_outcomes, d_records, d_responses. rewrite !omap_app.
  intros (-> & -> & ->) (-> & -> & ->). done.
Qed.

Lemma d_puts_app l1 l2 : d_puts (l1 ++ l2) = d_puts l1 ++ d_puts l2.
Proof. apply omap_app. Qed.

Lemma elem_of_d_puts l ref d b j ok : (ref, d, b, j, ok) ∈ d_puts l ↔ DPut ref d b j ok ∈ l.
Proof.
  unfold d_puts. rewrite list_elem_of_omap. split.
  - intros ([] & Hin & Hc); simplify_eq/=; done.
  - intros Hin. by eexists.
Qed.

(** ** What vouches for the cache's content *)

Section Vouched.
Context {J : DockerJSON} (std : DockerStd) (cfg : DockerConfig).
Implicit Types (tr l : list DCall) (repo digest reason path url : string) (d body : bytes) (resp : upstreamResponse).

(** A request for this URL got this response. *)
Definition answered url resp tr : Prop :=
  ∃ out, out_URL out = url ∧
    DDo out (DoResp (up_Status resp) (up_Header resp) (up_Length resp) (up_Body resp) (up_BodyErr resp)) ∈ tr.

(** One of the mirrors has it. *)
Definition got path resp tr : Prop :=
  ∃ base, base ∈ d_upstreams cfg ∧ answered (base +:+ path) resp tr ∧ up_Status resp = StatusOK.

(** None of the mirrors has it: each gave an answer that is not [good]. *)
Definition none_has (good : DoResult → bool) path tr : Prop :=
  ∀ base, base ∈ d_upstreams cfg → ∃ out r, out_URL out = base +:+ path ∧ DDo out r ∈ tr ∧ good r = false.

Definition ok_200 (r : DoResult) : bool := match r with DoResp status _ _ _ _ => status =? StatusOK | _ => false end.
Definition read_200 (r : DoResult) : bool :=
  match r with DoResp status _ _ _ bodyErr => (status =? StatusOK) && negb bodyErr | _ => false end.

(** The blob's bytes came whole from a mirror, for this very digest, and the
    AV engine scanned them, in full, with this verdict. *)
Definition blob_scanned repo digest d (clean : bool) tr : Prop :=
  ∃ resp av, got (blob_path repo digest) resp tr ∧ up_Body resp = d ∧ up_BodyErr resp = false ∧
    DAVScan d (Ok av) ∈ tr ∧ av_Incomplete av = false ∧ av_Clean av = clean.

(** A Put of these bytes under the reference failed: it may have replaced the
    file and left an older verdict. *)
Definition put_failed (ref : PackageRef) d tr : Prop := ∃ b j, DPut ref d b j false ∈ tr.

(** What is ever stored for a blob: its bytes once scanned, or nothing, for one
    over the limit. *)
Definition blob_stored digest d tr : Prop := d = [] ∨ ∃ repo clean, blob_scanned repo digest d clean tr.

Definition blob_vouched digest d tr : Prop :=
  (∃ repo, blob_scanned repo digest d true tr) ∨ (put_failed (blobRef digest) d tr ∧ blob_stored digest d tr).

(** A mirror has this manifest under that name: its body, its content type and
    the digest it goes by. *)
Definition fetched_as repo (ref : string) digest body (ct : string) tr : Prop :=
  ∃ resp, got (manifest_path repo ref) resp tr ∧ up_BodyErr resp = false ∧ body = up_Body resp ∧
    ct = Header_Get (up_Header resp) "Content-Type" ∧
    digest = (let dg := Header_Get (up_Header resp) "Docker-Content-Digest" in if dg =s? "" then ref else dg).

(** The publication time of an image: none without a config blob or without
    a created field, otherwise the one its config blob, from a mirror, states. *)
Definition created_as repo (config : string) (created : Z) tr : Prop :=
  (config = "" ∧ created = 0) ∨
  ∃ resp s, got (blob_path repo config) resp tr ∧ decode_created (up_Body resp) (up_BodyErr resp) = Ok s ∧
    ((s = "" ∧ created = 0) ∨ (s ≠ "" ∧ parse_RFC3339 std s = Ok created)).

(** A blob of the image: clean in the cache, or fetched, scanned clean and
    stored so. *)
Definition blob_checked repo b tr : Prop :=
  (∃ e, DGet (blobRef b) (Some e) ∈ tr ∧ ScanClean e = true) ∨
  (∃ d, blob_scanned repo b d true tr ∧ DPut (blobRef b) d true "" true ∈ tr).

(** Every configured gate passed for the image: the age filter on its
    publication time, the image scanner, the policy on its findings, and the
    AV engine on its config and every layer. *)
Definition image_gated repo digest body tr : Prop :=
  ∃ (ref config : string) layers created fr findings,
    json_image body = Ok (config, layers) ∧
    created_as repo config created tr ∧
    DFilter (mkRef "docker" repo ref "") (mkMeta created "" "") fr ∈ tr ∧ fr_Allowed fr = true ∧
    DImageScan (imageRef cfg repo digest) (Ok findings) ∈ tr ∧
    (d_Policy cfg = true → ∃ dec,
       DPolicy (mkRef "docker" repo ref "") (mkScan (bool_decide (findings = [])) findings "") dec ∈ tr ∧
       pd_Allowed dec = true) ∧
    (d_AV cfg = true → ∀ b, b ∈ image_blobs (mkImageConfig created config layers) → blob_checked repo b tr).

(** An index and an attestation manifest are what a mirror has under this
    digest. *)
Definition image_vouched repo digest reason body tr : Prop :=
  (reason = reasonIndexPassthrough ∧ ∃ ref ct, fetched_as repo ref digest body ct tr ∧ isIndexMediaType ct = true) ∨
  (reason = reasonAttestationPassthrough ∧ isAttestationManifest body = true ∧ ∃ ref ct, fetched_as repo ref digest body ct tr) ∨
  (reason = "ok" ∧ image_gated repo digest body tr) ∨
  put_failed (imageRefKey repo digest) body tr.

(** Evidence stays. *)
Lemma answered_mono url resp tr tr' : tr ⊆ tr' → answered url resp tr → answered url resp tr'.
Proof. intros Hs (o & ? & ?). exists o. split; [done|by apply Hs]. Qed.

Lemma got_mono path resp tr tr' : tr ⊆ tr' → got path resp tr → got path resp tr'.
Proof. intros Hs (b & ? & ? & ?). exists b. split_and!; [done|by eapply answered_mono|done]. Qed.

Lemma none_has_mono good path tr tr' : tr ⊆ tr' → none_has good path tr → none_has good path tr'.
Proof. intros Hs H b Hb. destruct (H b Hb) as (o & r & ? & ? & ?). exists o, r. split_and!; [done|by apply Hs|done]. Qed.

Lemma blob_scanned_mono repo digest d clean tr tr' :
  tr ⊆ tr' → blob_scanned repo digest d clean tr → blob_scanned repo digest d clean tr'.
Proof.
  intros Hs (r & av & ? & ? & ? & ? & ? & ?). exists r, av. split_and!; [by eapply got_mono|done|done|by apply Hs|done..].
Qed.

Lemma put_failed_mono ref d tr tr' : tr ⊆ tr' → put_failed ref d tr → put_failed ref d tr'.
Proof. intros Hs (b & j & ?). exists b, j. by apply Hs. Qed.

Lemma blob_stored_mono digest d tr tr' : tr ⊆ tr' → blob_stored digest d tr → blob_stored digest d tr'.
Proof. intros Hs [->|(r & c & ?)]; [by left|right]. exists r, c. by eapply blob_scanned_mono. Qed.

Lemma blob_vouched_mono digest d tr tr' : tr ⊆ tr' → blob_vouched digest d tr → blob_vouched digest d tr'.
Proof.
  intros Hs [[r ?]|[? ?]]; [left; exists r; by eapply blob_scanned_mono|right].
  split; [by eapply put_failed_mono|by eapply blob_stored_mono].
Qed.

Lemma fetched_as_mono repo ref digest body ct tr tr' :
  tr ⊆ tr' → fetched_as repo ref digest body ct tr → fetched_as repo ref digest body ct tr'.
Proof. intros Hs (r & ? & ?). exists r. split; [by eapply got_mono|done]. Qed.

Lemma created_as_mono repo config created tr tr' :
  tr ⊆ tr' → created_as repo config created tr → created_as repo config created tr'.
Proof.
  intros Hs [?|(r & s & ? & ?)]; [by left|right]. exists r, s. split; [by eapply got_mono|done].
Qed.

Lemma blob_checked_mono repo b tr tr' : tr ⊆ tr' → blob_checked repo b tr → blob_checked repo b tr'.
Proof.
  intros Hs [(e & ? & ?)|(d & ? & ?)]; [left; exists e; split; [by apply Hs|done]|right; exists d].
  split; [by eapply blob_scanned_mono|by apply Hs].
Qed.

Lemma image_gated_mono repo digest body tr tr' :
  tr ⊆ tr' → image_gated repo digest body tr → image_gated repo digest body tr'.
Proof.
  intros Hs (ref & config & layers & created & fr & fs & ? & ? & ? & ? & ? & Hp & Ha).
  exists ref, config, layers, created, fr, fs.
  split_and!; [done|by eapply created_as_mono|by apply Hs|done|by apply Hs| |].
  - intros HP. destruct (Hp HP) as (dec & ? & ?). exists dec. split; [by apply Hs|done].
  - intros HA b Hb. eapply blob_checked_mono; [done|by apply Ha].
Qed.

Lemma image_vouched_mono repo digest reason body tr tr' :
  tr ⊆ tr' → image_vouched repo digest reason body tr → image_vouched repo digest reason body tr'.
Proof.
  intros Hs [(? & ref & ct & ? & ?)|[(? & ? & ref & ct & ?)|[[? ?]|?]]].
  - left. split; [done|]. exists ref, ct. split; [by eapply fetched_as_mono|done].
  - right. left. split_and!; [done..|]. exists ref, ct. by eapply fetched_as_mono.
  - right. right. left. split; [done|by eapply image_gated_mono].
  - right. right. right. by eapply put_failed_mono.
Qed.
End Vouched.

#[export] Hint Resolve answered_mono got_mono none_has_mono blob_scanned_mono put_failed_mono blob_stored_mono blob_vouched_mono
  fetched_as_mono created_as_mono blob_checked_mono image_gated_mono image_vouched_mono : joei.

Section Steps.
Context {C : Type} {AC : ArtifactCache C} {IC : ImageCache C} {L : ImageCacheLaws C} {J : DockerJSON}.
Context (std : DockerStd) (env : DEnv) (cfg : DockerConfig).

Notation W := (DWorld C).
Notation M := (St (DWorld C)).
Implicit Types (w : W) (l : list DCall) (repo digest : string).
Notation got := (got cfg).
Notation none_has := (none_has cfg).
Notation fetched_as := (fetched_as cfg).
Notation created_as := (created_as std cfg).
Notation blob_scanned := (blob_scanned cfg).
Notation blob_stored := (blob_stored cfg).
Notation blob_vouched := (blob_vouched cfg).
Notation blob_checked := (blob_checked cfg).

(** One more byte than the limit is still an int64. *)
Definition limit_ok : Prop := d_maxLayerBytes cfg < max_int64.

(** Every blob let through un-gated is listed by an attestation manifest. *)
Definition attests (a : attestationBlobs) : Prop :=
  ∀ k, k ∈ ab_entries a → ∃ repo body digest, k = repo +:+ "@" +:+ digest ∧ attested body digest.

(** The invariant: what the cache holds clean was vouched for. *)
Definition Inv w : Prop :=
  image_ok (dw_cache w) ∧
  (∀ digest j d, image_record (dw_cache w) (blobRef digest) = Some (true, j, d) →
     blob_vouched digest d (dw_trace w)) ∧
  (∀ repo digest r d, repo_ok repo → image_record (dw_cache w) (imageRefKey repo digest) = Some (true, r, d) →
     image_vouched std cfg repo digest r d (dw_trace w)) ∧
  ab_ok (dw_attest w) ∧ attests (dw_attest w).

(** Files change only as Puts say. *)
Definition files_from w l w' : Prop :=
  ∀ p x, image_file (dw_cache w') p = Some x →
    image_file (dw_cache w) p = Some x ∨
    ∃ ref b j ok, (ref, x, b, j, ok) ∈ d_puts l ∧ p = image_path ref.

(** No scan by the AV engine and no Put of a blob. *)
Definition av_free (c : DCall) : Prop :=
  match c with
  | DAVScan _ _ => False
  | DPut ref _ _ _ _ => Name ref ≠ "blobs"
  | _ => True
  end.

(** A stretch of the run that answers no client, and without an AV engine
    scans and stores no blob. *)
Record qseg w l w' : Prop := mkQseg {
  q_quiet : d_quiet l;
  q_header : dw_header w' = dw_header w;
  q_files : files_from w l w';
  q_av : d_AV cfg = false → Forall av_free l;
  q_inv : Inv w → Inv w';
}.

Lemma qseg_nil w : qseg w [] w.
Proof. split; [done..|by left|by intros _; apply Forall_nil|done]. Qed.

Lemma qseg_app w l w' l' w'' : qseg w l w' → qseg w' l' w'' → qseg w (l ++ l') w''.
Proof.
  intros [Hq Hh Hf Ha Hi] [Hq' Hh' Hf' Ha' Hi'].
  split; [by apply d_quiet_app|congruence| |by intros; apply Forall_app; auto|auto].
  intros p x Hx. destruct (Hf' p x Hx) as [Hx'|(r & b & j & ok & ? & ?)].
  - destruct (Hf p x Hx') as [?|(r & b & j & ok & ? & ?)]; [by left|right].
    exists r, b, j, ok. rewrite d_puts_app. set_solver.
  - right. exists r, b, j, ok. rewrite d_puts_app. set_solver.
Qed.

(** [m], run from [w], extends the trace by some [l], with [Q]. *)
Definition dsteps {A} (m : M A) w (Q : A → list DCall → W → Prop) : Prop :=
  ∃ l, dw_trace (m w).2 = dw_trace w ++ l ∧ Q (m w).1 l (m w).2.

Lemma dsteps_mono {A} (m : M A) w (Q Q' : A → list DCall → W → Prop) :
  dsteps m w Q → (∀ a l w', dw_trace w' = dw_trace w ++ l → Q a l w' → Q' a l w') → dsteps m w Q'.
Proof. intros (l & Hl & HQ) H. exists l. auto. Qed.

Lemma dsteps_bind {A B} (m : M A) (f : A → M B) w Q :
  dsteps m w (λ a l w', dsteps (f a) w' (λ b l' w'', Q b (l ++ l') w'')) → dsteps (bind_st m f) w Q.
Proof.
  intros (l & Hl & l' & Hl' & H). unfold dsteps. rewrite bind_st_run. exists (l ++ l').
  split; [by rewrite Hl', Hl, app_assoc|done].
Qed.

(** A known stage first, the rest after it. *)
Lemma dsteps_seq {A B} (m : M A) (f : A → M B) w Q Q' :
  dsteps m w Q →
  (∀ a l w', dw_trace w' = dw_trace w ++ l → Q a l w' → dsteps (f a) w' (λ b l' w'', Q' b (l ++ l') w'')) →
  dsteps (bind_st m f) w Q'.
Proof. intros Hm Hf. apply dsteps_bind. by eapply dsteps_mono. Qed.

Lemma dsteps_ret {A} (a : A) w Q : Q a [] w → dsteps (ret_st a) w Q.
Proof. intros H. exists []. by rewrite app_nil_r. Qed.

(** Quiet stretches with a fact about them. *)
Definition qsteps {A} (m : M A) w (F : A → list DCall → W → Prop) : Prop :=
  dsteps m w (λ a l w', qseg w l w' ∧ F a l w').

Lemma qsteps_mono {A} (m : M A) w (F F' : A → list DCall → W → Prop) :
  qsteps m w F → (∀ a l w', dw_trace w' = dw_trace w ++ l → qseg w l w' → F a l w' → F' a l w') → qsteps m w F'.
Proof. intros Hm H. eapply dsteps_mono; [exact Hm|]. intros a l w' Hl [Hq HF]. split; [done|auto]. Qed.

Lemma qsteps_seq {A B} (m : M A) (f : A → M B) w F G :
  qsteps m w F →
  (∀ a l w', dw_trace w' = dw_trace w ++ l → qseg w l w' → F a l w' →
     qsteps (f a) w' (λ b l' w'', G b (l ++ l') w'')) →
  qsteps (bind_st m f) w G.
Proof.
  intros Hm Hf. eapply dsteps_seq; [exact Hm|]. intros a l w' Hl [Hq HF].
  eapply dsteps_mono; [by apply Hf|]. intros b l' w'' _ [Hq' HG]. split; [by eapply qseg_app|done].
Qed.

Lemma qsteps_ret {A} (a : A) w (F : A → list DCall → W → Prop) : F a [] w → qsteps (ret_st a) w F.
Proof. intros H. apply dsteps_ret. split; [apply qseg_nil|done]. Qed.

(** The cache and the temporary files, untouched. *)
Definition same_store w w' : Prop := dw_cache w' = dw_cache w ∧ dw_temps w' = dw_temps w.

Lemma same_store_refl w : same_store w w.
Proof. done. Qed.

Lemma same_store_trans w1 w2 w3 : same_store w1 w2 → same_store w2 w3 → same_store w1 w3.
Proof. unfold same_store. naive_solver congruence. Qed.

(** The invariant over a longer trace, the cache as it was. *)
Lemma Inv_ext w w' l :
  dw_trace w' = dw_trace w ++ l → dw_cache w' = dw_cache w → dw_attest w' = dw_attest w → Inv w → Inv w'.
Proof.
  intros Ht Hc Hat (Hok & Hb & Hi & Hab & Hats). unfold Inv. rewrite Hc, Ht, Hat. split_and!; [done| | |done..].
  - intros dg j d H. eapply blob_vouched_mono; [|by eapply Hb]. set_solver.
  - intros repo dg r d Hr H. eapply image_vouched_mono; [|by apply Hi]. set_solver.
Qed.

Lemma qseg_ext w w' l :
  dw_trace w' = dw_trace w ++ l → dw_cache w' = dw_cache w → dw_attest w' = dw_attest w →
  dw_header w' = dw_header w → d_quiet l →
  (d_AV cfg = false → Forall av_free l) → qseg w l w'.
Proof.
  intros Ht Hc Hat Hh Hq Ha. split; [done..| |done|by eapply Inv_ext]. intros p x Hx. left. by rewrite <- Hc.
Qed.

(** A call that is neither an outcome, nor a response, nor a Put, nor a scan. *)
Definition plain (c : DCall) : bool :=
  match c with DOutcome _ | DRecord _ | DRespond _ | DPut _ _ _ _ _ | DAVScan _ _ => false | _ => true end.

Lemma plain_quiet c : plain c = true → d_quiet [c] ∧ d_puts [c] = [] ∧ Forall av_free [c].
Proof. intros Hc. destruct c; try done; (split_and!; [done..|by apply Forall_singleton]). Qed.

Lemma dask_steps {A} (q : list DCall → A) (mk : A → DCall) w :
  (∀ a, plain (mk a) = true) →
  qsteps (dask q mk) w (λ a l w', a = q (dw_trace w) ∧ l = [mk a] ∧ d_puts l = [] ∧ same_store w w').
Proof.
  intros Hp. eexists. split; [reflexivity|]. destruct (plain_quiet _ (Hp (q (dw_trace w)))) as (? & ? & ?).
  split; [by apply qseg_ext|done].
Qed.

Lemma dlog_plain_steps c w :
  plain c = true → qsteps (dlog c) w (λ _ l w', l = [c] ∧ d_puts l = [] ∧ same_store w w').
Proof.
  intros Hp. eexists. split; [reflexivity|]. destruct (plain_quiet _ Hp) as (? & ? & ?).
  split; [by apply qseg_ext|done].
Qed.

(** Stretches that leave the store alone. *)
Definition idle w l w' : Prop := d_puts l = [] ∧ same_store w w'.

Definition isteps {A} (m : M A) w (F : A → list DCall → Prop) : Prop :=
  qsteps m w (λ a l w', idle w l w' ∧ F a l).

Lemma isteps_mono {A} (m : M A) w (F F' : A → list DCall → Prop) :
  isteps m w F → (∀ a l, F a l → F' a l) → isteps m w F'.
Proof. intros Hm H. eapply qsteps_mono; [exact Hm|]. intros a l w' _ _ [Hi HF]. auto. Qed.

Lemma isteps_seq {A B} (m : M A) (f : A → M B) w F G :
  isteps m w F →
  (∀ a l w', dw_trace w' = dw_trace w ++ l → F a l → isteps (f a) w' (λ b l', G b (l ++ l'))) →
  isteps (bind_st m f) w G.
Proof.
  intros Hm Hf. eapply qsteps_seq; [exact Hm|]. intros a l w' Hl _ [[Hp Hs] HF].
  eapply qsteps_mono; [by apply Hf|]. intros b l' w'' _ _ [[Hp' Hs'] HG]. split; [|done].
  split; [by rewrite d_puts_app, Hp, Hp'|by eapply same_store_trans].
Qed.

Lemma isteps_ret {A} (a : A) w (F : A → list DCall → Prop) : F a [] → isteps (ret_st a) w F.
Proof. intros H. apply qsteps_ret. split; [by split|done]. Qed.

Lemma dask_isteps {A} (q : list DCall → A) (mk : A → DCall) w (F : A → list DCall → Prop) :
  (∀ a, plain (mk a) = true) → F (q (dw_trace w)) [mk (q (dw_trace w))] → isteps (dask q mk) w F.
Proof.
  intros Hp HF. eapply qsteps_mono; [by apply dask_steps|]. intros a l w' _ _ (-> & -> & ? & ?). by split.
Qed.

Lemma d_Now_isteps w : isteps (d_Now env) w (λ _ _, True).
Proof. by apply dask_isteps. Qed.

Lemma d_Do_isteps out w : isteps (d_Do env out) w (λ r l, DDo out r ∈ l).
Proof. apply dask_isteps; [done|]. by left. Qed.

Ltac iseq H := eapply isteps_seq; [apply H|intros ? ? ? ?].
Ltac ibreak := repeat (case_match; simplify_eq/=); try (by apply isteps_ret).

(** *** The adapter *)

Lemma fetchToken_isteps challenge w : isteps (fetchToken std env challenge) w (λ _ _, True).
Proof.
  unfold fetchToken. case_match; [by apply isteps_ret|]. cbv zeta. case_match; [by apply isteps_ret|].
  iseq d_Do_isteps. intros _. ibreak.
Qed.

Lemma answered_app_r url resp l l' : answered url resp l' → answered url resp (l ++ l').
Proof. apply answered_mono. set_solver. Qed.

(** What a request for a URL shows: its response, or an answer that is no 200. *)
Definition ask_fact (url : string) (r : result error upstreamResponse) l : Prop :=
  match r with
  | Ok resp => answered url resp l
  | Err _ => ∃ out a, out_URL out = url ∧ DDo out a ∈ l ∧ ok_200 a = false
  end.

Lemma ask_fact_app_r url r l l' : ask_fact url r l' → ask_fact url r (l ++ l').
Proof.
  destruct r as [resp|e]; [apply answered_app_r|]. intros (o & x & ? & ? & ?). exists o, x. split_and!; [done|set_solver|done].
Qed.

Lemma build_isteps method base path accept token w :
  isteps (build env method base path accept token) w (λ r l, ask_fact (base +:+ path) r l).
Proof.
  unfold build. cbv zeta. iseq d_Do_isteps. intros Hin.
  destruct a as [e|e|st h n b err]; apply isteps_ret; rewrite app_nil_r; (eexists _, _ || eexists); (split; [|eauto]); done.
Qed.

Lemma adapter_do_isteps method base path accept w :
  isteps (adapter_do std env method base path accept) w (λ r l, ask_fact (base +:+ path) r l).
Proof.
  unfold adapter_do. iseq build_isteps. intros Ha. destruct a as [resp|e].
  2:{ apply isteps_ret. by rewrite app_nil_r. }
  destruct (up_Status resp =? StatusUnauthorized) eqn:H401; cbn [negb]; [|apply isteps_ret; by rewrite app_nil_r].
  iseq fetchToken_isteps. intros _. destruct a as [token|e].
  - eapply isteps_mono; [apply build_isteps|]. intros r l2 Hr. by apply ask_fact_app_r, ask_fact_app_r.
  - apply isteps_ret. destruct Ha as (o & Ho & Hin). eexists o, _. split_and!; [done| |].
    + apply elem_of_app. left. exact Hin.
    + cbn. bool_to_prop. by rewrite H401.
Qed.

(** One answer more that is not good, and the mirrors left. *)
Definition none_of (good : DoResult → bool) path (bases : list string) l : Prop :=
  ∀ base, base ∈ bases → ∃ out r, out_URL out = base +:+ path ∧ DDo out r ∈ l ∧ good r = false.

Lemma none_of_cons good path base bases l out r :
  out_URL out = base +:+ path → DDo out r ∈ l → good r = false → none_of good path bases l → none_of good path (base :: bases) l.
Proof. intros ? ? ? H b [->|Hb]%elem_of_cons; [by exists out, r|by apply H]. Qed.

Lemma none_of_app_r good path bases l l' : none_of good path bases l' → none_of good path bases (l ++ l').
Proof. intros H b Hb. destruct (H b Hb) as (o & r & ? & ? & ?). exists o, r. split_and!; [done|set_solver|done]. Qed.

(** What going through the mirrors shows: the response of one of them, or what
    each of them answered instead. *)
Definition mirrors_fact (good : DoResult → bool) path (bases : list string) (r : option upstreamResponse) l : Prop :=
  match r with
  | Some resp => ∃ base, base ∈ bases ∧ answered (base +:+ path) resp l ∧ up_Status resp = StatusOK
  | None => none_of good path bases l
  end.

Lemma mirrors_next good path base bases r l l' :
  (∃ out a, out_URL out = base +:+ path ∧ DDo out a ∈ l ∧ good a = false) →
  mirrors_fact good path bases r l' → mirrors_fact good path (base :: bases) r (l ++ l').
Proof.
  intros (o & x & Ho & Hin & Hg). destruct r as [resp|].
  - intros (b & Hb & ? & ?). exists b. split_and!; [by right|by apply answered_app_r|done].
  - intros H. eapply none_of_cons; [exact Ho| |exact Hg|by apply none_of_app_r]. set_solver.
Qed.

Lemma ask_failed good url r l :
  (∀ a, ok_200 a = false → good a = false) → ask_fact url r l →
  match r with Ok resp => good (DoResp (up_Status resp) (up_Header resp) (up_Length resp) (up_Body resp) (up_BodyErr resp)) = false | Err _ => True end →
  ∃ out a, out_URL out = url ∧ DDo out a ∈ l ∧ good a = false.
Proof.
  intros Hg Ha Hr. destruct r as [resp|e].
  - destruct Ha as (o & ? & ?). by eexists o, _.
  - destruct Ha as (o & a & ? & ? & ?). exists o, a. auto.
Qed.

Definition to_option {E A} (r : result E A) : option A := match r with Ok a => Some a | Err _ => None end.

Lemma blob_loop_isteps repo digest path bases atts w :
  isteps (blob_loop std env repo digest path bases atts) w (λ r l, mirrors_fact ok_200 path bases (to_option r) l).
Proof.
  revert atts w. induction bases as [|base bases IH]; intros atts w; cbn [blob_loop].
  { apply isteps_ret. intros b Hb. set_solver. }
  assert (∀ l u st e d w', (∃ out a, out_URL out = base +:+ path ∧ DDo out a ∈ l ∧ ok_200 a = false) →
      isteps (now <- d_Now env;;
      blob_loop std env repo digest path bases (d_attempt std u st e (d now) atts)) w'
      (λ r l', mirrors_fact ok_200 path (base :: bases) (to_option r) (l ++ l'))) as Hnext.
  { intros l u st e d w' Hbad. iseq d_Now_isteps. intros _. eapply isteps_mono; [apply IH|].
    intros r l' Hr. rewrite app_assoc. apply mirrors_next; [|done].
    destruct Hbad as (o & a0 & ? & ? & ?). exists o, a0. split_and!; [done|set_solver|done]. }
  iseq d_Now_isteps. intros _. iseq adapter_do_isteps. intros Ha.
  assert (Ha' := ask_fact_app_r _ _ l _ Ha). destruct a0 as [resp|e].
  - destruct (up_Status resp =? StatusOK) eqn:Hs; cbn [negb].
    + apply isteps_ret. rewrite app_nil_r. bool_to_prop. exists base. split_and!; [by left|done|done].
    + eapply isteps_mono; [apply (Hnext (l ++ l0))|intros r l' Hr; by rewrite app_assoc].
      eapply ask_failed; [|exact Ha'|]; [done|]. by cbn.
  - eapply isteps_mono; [apply (Hnext (l ++ l0))|intros r l' Hr; by rewrite app_assoc].
    by eapply ask_failed; [|exact Ha'|].
Qed.

Lemma FetchBlob_isteps repo digest w :
  isteps (FetchBlob std env cfg repo digest) w
    (λ r l, match r with Ok resp => got (blob_path repo digest) resp l | Err _ => none_has ok_200 (blob_path repo digest) l end).
Proof. eapply isteps_mono; [apply blob_loop_isteps|]. intros [resp|e] l H; exact H. Qed.

Lemma fetched_as_app_r repo ref digest body ct l l' : fetched_as repo ref digest body ct l' → fetched_as repo ref digest body ct (l ++ l').
Proof. apply fetched_as_mono. set_solver. Qed.

Definition manifest_fact repo (ref : string) path bases (r : result error (bytes * string * string)) l : Prop :=
  match r with
  | Ok (body, ct, digest) => ∃ resp, mirrors_fact read_200 path bases (Some resp) l ∧ up_BodyErr resp = false ∧ body = up_Body resp ∧
      ct = Header_Get (up_Header resp) "Content-Type" ∧
      digest = (let dg := Header_Get (up_Header resp) "Docker-Content-Digest" in if dg =s? "" then ref else dg)
  | Err _ => mirrors_fact read_200 path bases None l
  end.

Lemma manifest_loop_isteps repo ref path bases atts w :
  isteps (manifest_loop std env repo ref path bases atts) w (λ r l, manifest_fact repo ref path bases r l).
Proof.
  revert atts w. induction bases as [|base bases IH]; intros atts w; cbn [manifest_loop].
  { apply isteps_ret. intros b Hb. set_solver. }
  assert (∀ l u st e d w', (∃ out a, out_URL out = base +:+ path ∧ DDo out a ∈ l ∧ read_200 a = false) →
      isteps (now <- d_Now env;;
      manifest_loop std env repo ref path bases (d_attempt std u st e (d now) atts)) w'
      (λ r l', manifest_fact repo ref path (base :: bases) r (l ++ l'))) as Hnext.
  { intros l u st e d w' Hbad. iseq d_Now_isteps. intros _. eapply isteps_mono; [apply IH|].
    intros r l' Hr. rewrite app_assoc. assert (Hbad' : ∃ out a0, out_URL out = base +:+ path ∧ DDo out a0 ∈ l ++ l0 ∧ read_200 a0 = false)
      by (destruct Hbad as (o & a0 & ? & ? & ?); exists o, a0; split_and!; [done|set_solver|done]).
    destruct r as [[[body ct] dg]|e']; [|by apply mirrors_next].
    destruct Hr as (resp & Hm & ?). exists resp. split; [by apply mirrors_next|done]. }
  assert (∀ l l0 u st e d w', (∃ out a, out_URL out = base +:+ path ∧ DDo out a ∈ l ++ l0 ∧ read_200 a = false) →
      isteps (now <- d_Now env;;
      manifest_loop std env repo ref path bases (d_attempt std u st e (d now) atts)) w'
      (λ r l', manifest_fact repo ref path (base :: bases) r (l ++ l0 ++ l'))) as Hnext'.
  { intros l l0 u st e d w' Hbad. eapply isteps_mono; [apply (Hnext (l ++ l0)); done|]. intros r l' Hr. by rewrite app_assoc. }
  assert (∀ a, ok_200 a = false → read_200 a = false) as Hg by (intros [| |st ? ? ? ?]; cbn; [done..|]; by intros ->).
  iseq d_Now_isteps. intros _. iseq adapter_do_isteps. intros Ha.
  assert (Ha' := ask_fact_app_r _ _ l _ Ha). destruct a0 as [resp|e]; [|apply Hnext'; by eapply ask_failed; [|exact Ha'|]].
  destruct (up_Status resp =? StatusOK) eqn:Hs; cbn [negb].
  2:{ apply Hnext'. eapply ask_failed; [exact Hg|exact Ha'|]. cbn. by rewrite Hs. }
  cbv zeta. destruct (up_BodyErr resp) eqn:He.
  { apply Hnext'. eapply ask_failed; [exact Hg|exact Ha'|]. cbn. by rewrite He, andb_false_r. }
  apply isteps_ret. rewrite app_nil_r. bool_to_prop. exists resp. split_and!; [|done..].
  exists base. split_and!; [by left|done|done].
Qed.

Lemma FetchManifest_isteps repo ref w :
  isteps (FetchManifest std env cfg repo ref) w
    (λ r l, match r with Ok (body, ct, dg) => fetched_as repo ref dg body ct l | Err _ => none_has read_200 (manifest_path repo ref) l end).
Proof. eapply isteps_mono; [apply manifest_loop_isteps|]. intros [[[body ct] dg]|e] l H; exact H. Qed.

(** The image's parts could not be told: the manifest does not decode, no
    mirror has its config blob, or that does not decode. *)
Definition config_failed repo (body : bytes) l : Prop :=
  (∃ e, json_image body = Err e) ∨
  ∃ config layers, json_image body = Ok (config, layers) ∧ config ≠ "" ∧
    (none_has ok_200 (blob_path repo config) l ∨
     ∃ resp, got (blob_path repo config) resp l ∧
       ((∃ e, decode_created (up_Body resp) (up_BodyErr resp) = Err e) ∨
        ∃ s e, decode_created (up_Body resp) (up_BodyErr resp) = Ok s ∧ s ≠ "" ∧ parse_RFC3339 std s = Err e)).

Lemma ImageConfig_isteps repo body w :
  isteps (ImageConfig std env cfg repo body) w
    (λ r l, match r with
            | Ok ic => json_image body = Ok (ic_config ic, ic_layers ic) ∧ created_as repo (ic_config ic) (ic_created ic) l
            | Err _ => config_failed repo body l
            end).
Proof.
  unfold ImageConfig. destruct (json_image body) as [[config layers]|e] eqn:Hj; [|apply isteps_ret; left; by exists e].
  destruct (config =? "")%string eqn:Hc; bool_to_prop.
  { apply isteps_ret. split; [by subst|by left]. }
  iseq FetchBlob_isteps. intros Ha. destruct a as [rc|e].
  2:{ apply isteps_ret. rewrite app_nil_r. right. exists config, layers. auto. }
  assert (Hfail : ∀ l', (∃ e, decode_created (up_Body rc) (up_BodyErr rc) = Err e) ∨
        (∃ s e, decode_created (up_Body rc) (up_BodyErr rc) = Ok s ∧ s ≠ "" ∧ parse_RFC3339 std s = Err e) →
        config_failed repo body (l ++ l')).
  { intros l' Hor. right. exists config, layers. split_and!; [done..|]. right. exists rc.
    split; [|done]. eapply got_mono; [|done]. set_solver. }
  destruct (decode_created (up_Body rc) (up_BodyErr rc)) as [s|e] eqn:Hd; [|apply isteps_ret, Hfail; eauto].
  assert (∀ t, ((s = "" ∧ t = 0) ∨ (s ≠ "" ∧ parse_RFC3339 std s = Ok t)) → created_as repo config t (l ++ [])) as Hcr.
  { intros t Ht. right. exists rc, s. rewrite app_nil_r. auto. }
  destruct (s =? "")%string eqn:Hs'; bool_to_prop.
  { apply isteps_ret. split; [done|by apply Hcr; left]. }
  destruct (parse_RFC3339 std s) as [t|e] eqn:Ht; apply isteps_ret; [|apply Hfail; right; by exists s, e].
  split; [done|apply Hcr; by right].
Qed.

(** *** The cache and the temporary files *)

(** Nothing new in the cache. *)
Definition store_shrinks w w' : Prop :=
  (image_ok (dw_cache w) → image_ok (dw_cache w')) ∧
  (image_ok (dw_cache w) → ∀ ref x, image_record (dw_cache w') ref = Some x → image_record (dw_cache w) ref = Some x) ∧
  (∀ p x, image_file (dw_cache w') p = Some x → image_file (dw_cache w) p = Some x).

Lemma store_shrinks_refl w : store_shrinks w w.
Proof. done. Qed.

Lemma store_shrinks_trans w1 w2 w3 : store_shrinks w1 w2 → store_shrinks w2 w3 → store_shrinks w1 w3.
Proof. unfold store_shrinks. naive_solver. Qed.

Lemma store_shrinks_same w w' : same_store w w' → store_shrinks w w'.
Proof. intros [Hc _]. unfold store_shrinks. by rewrite Hc. Qed.

Lemma qseg_shrinks w w' l :
  dw_trace w' = dw_trace w ++ l → dw_header w' = dw_header w → dw_attest w' = dw_attest w → d_quiet l →
  Forall av_free l → store_shrinks w w' → qseg w l w'.
Proof.
  intros Ht Hh Hat Hq Ha (Hok & Hr & Hf). split; [done..| |done|].
  - intros p x Hx. left. by apply Hf.
  - intros (Hi & Hb & Him & Hab & Hats). unfold Inv. rewrite Ht, Hat. split_and!; [by apply Hok| | |done..].
    + intros dg j d H. eapply blob_vouched_mono; [|by eapply Hb, Hr]. set_solver.
    + intros repo dg r d Hrepo H. eapply image_vouched_mono; [|apply Him, Hr; [done..|exact H]]. set_solver.
Qed.

(** Without Puts, the cache only store_shrinks and the temporary files are as they were. *)
Definition reads w l w' : Prop := d_puts l = [] ∧ dw_temps w' = dw_temps w ∧ store_shrinks w w'.

Lemma reads_app w l w' l' w'' : reads w l w' → reads w' l' w'' → reads w (l ++ l') w''.
Proof.
  intros (Hp & Ht & Hs) (Hp' & Ht' & Hs'). split_and!; [by rewrite d_puts_app, Hp, Hp'|congruence|].
  by eapply store_shrinks_trans.
Qed.

Lemma idle_reads w l w' : idle w l w' → reads w l w'.
Proof. intros [Hp Hs]. split_and!; [done|by apply Hs|by apply store_shrinks_same]. Qed.

(** An entry of the cache, as a Get shows it. *)
Definition hit (ref : PackageRef) (e : CacheEntry) w : Prop :=
  ArtifactPath e = image_path ref ∧
  ∃ d, image_record (dw_cache w) ref = Some (ScanClean e, ce_ScanJSON e, d) ∧
       image_file (dw_cache w) (ArtifactPath e) = Some d.

Lemma d_Get_steps ref w :
  qsteps (d_Get env ref) w (λ e l w', reads w l w' ∧ DGet ref e ∈ l ∧
    (image_ok (dw_cache w) → ∀ e', e = Some e' → hit ref e' w')).
Proof.
  unfold d_Get. eapply qsteps_seq; [apply d_Now_isteps|]. intros now l1 w1 Ht1 _ [Hi1 _].
  unfold d_on_cache, qsteps, dsteps. destruct (cache_Entry now ref (dw_cache w1)) as [e c'] eqn:He.
  exists [DGet ref e]. cbn [fst snd dw_trace]. split; [done|].
  assert (store_shrinks w1 (mkDWorld c' (dw_tags w1) (dw_attest w1) (dw_trace w1 ++ [DGet ref e]) (dw_header w1) (dw_temps w1))) as Hs.
  { unfold store_shrinks; cbn [dw_cache]. replace c' with (cache_Entry now ref (dw_cache w1)).2 by (by rewrite He).
    split_and!; [apply entry_ok|intros Hok ref' x; by apply entry_record|apply entry_file]. }
  split; [by apply qseg_shrinks; [..|by apply Forall_singleton|]|]. split_and!; [|by apply elem_of_app; right; left|].
  - eapply reads_app; [by apply idle_reads|]. done.
  - intros Hok e' ->. destruct Hi1 as [_ [Hc _]]. rewrite <- Hc in Hok.
    pose proof (entry_hit now ref (dw_cache w1) e' Hok) as Hh. rewrite He in Hh. by apply Hh.
Qed.

Lemma d_open_steps path w :
  qsteps (d_open path) w (λ d l w', reads w l w' ∧
    (∀ ref, image_record (dw_cache w') ref = image_record (dw_cache w) ref) ∧
    (∀ p, image_file (dw_cache w') p = image_file (dw_cache w) p) ∧
    (∀ d', d = Some d' → path ≠ "" ∧ image_file (dw_cache w) path = Some d') ∧ DOpen path d ∈ l).
Proof.
  unfold d_open. destruct (path =? "")%string eqn:Hp; bool_to_prop.
  { eapply qsteps_mono; [by apply dask_steps|]. intros d l w' _ _ (-> & -> & _ & Hs).
    pose proof Hs as [Hc Ht]. split_and!; [|by rewrite Hc..|done|by left].
    apply idle_reads. by split. }
  unfold d_on_cache, qsteps, dsteps. destruct (cache_Open path (dw_cache w)) as [d c'] eqn:He.
  exists [DOpen path d]. cbn [fst snd dw_trace]. split; [done|].
  assert (store_shrinks w (mkDWorld c' (dw_tags w) (dw_attest w) (dw_trace w ++ [DOpen path d]) (dw_header w) (dw_temps w))) as Hs.
  { unfold store_shrinks; cbn [dw_cache]. replace c' with (cache_Open path (dw_cache w)).2 by (by rewrite He).
    split_and!; [apply iopen_ok|intros _ ref' x; by rewrite iopen_record|intros p x; by rewrite iopen_file]. }
  split; [by apply qseg_shrinks; [..|by apply Forall_singleton|]|]. split_and!; [by split|..]; cbn [dw_cache].
  - intros ref. replace c' with (cache_Open path (dw_cache w)).2 by (by rewrite He). apply iopen_record.
  - intros p. replace c' with (cache_Open path (dw_cache w)).2 by (by rewrite He). apply iopen_file.
  - intros d' ->. split; [done|]. apply iopen_data. by rewrite He.
  - by left.
Qed.

Lemma InvalidateBlob_steps digest w :
  qsteps (InvalidateBlob digest) w (λ ok l w', reads w l w' ∧ l = [DInvalidate (blobRef digest) ok]).
Proof.
  unfold InvalidateBlob, d_on_cache, qsteps, dsteps.
  destruct (cache_Invalidate (blobRef digest) (dw_cache w)) as [ok c'] eqn:He.
  eexists. cbn [fst snd dw_trace]. split; [done|].
  assert (store_shrinks w (mkDWorld c' (dw_tags w) (dw_attest w) (dw_trace w ++ [DInvalidate (blobRef digest) ok]) (dw_header w) (dw_temps w))) as Hs.
  { unfold store_shrinks; cbn [dw_cache]. replace c' with (cache_Invalidate (blobRef digest) (dw_cache w)).2 by (by rewrite He).
    split_and!; [apply iinvalidate_ok|intros Hok ref' x; by apply iinvalidate_record|apply iinvalidate_file]. }
  split; [by apply qseg_shrinks; [..|by apply Forall_singleton|]|done].
Qed.

(** What makes a Put keep the invariant. *)
Definition put_safe (ref : PackageRef) (d : bytes) (b : bool) (j : string) (tr : list DCall) : Prop :=
  (∃ digest, d_AV cfg = true ∧ ref = blobRef digest ∧ blob_stored digest d tr ∧ (b = true → blob_vouched digest d tr)) ∨
  (∃ repo digest, repo_ok repo ∧ ref = imageRefKey repo digest ∧
     (b = true → image_vouched std cfg repo digest j d tr)).

Lemma put_keeps_Inv now ref d b j w ok c' w' :
  put_safe ref d b j (dw_trace w) → cache_Put now ref d b j (dw_cache w) = (ok, c') →
  dw_cache w' = c' → dw_attest w' = dw_attest w → dw_trace w' = dw_trace w ++ [DPut ref d b j ok] → Inv w → Inv w'.
Proof.
  intros Hsafe Hput Hc Hat Ht (Hok & Hb & Hi & Hab & Hats). unfold Inv. rewrite Hc, Ht, Hat.
  pose proof (iput_ok now ref d b j (dw_cache w) Hok) as Hok'.
  pose proof (iput_record now ref d b j (dw_cache w)) as Hrec. rewrite Hput in *. cbn [fst snd] in *.
  assert (∀ x, x ∈ dw_trace w → x ∈ dw_trace w ++ [DPut ref d b j ok]) as Hsub by set_solver.
  assert (ok = false → put_failed ref d (dw_trace w ++ [DPut ref d b j ok])) as Hfail.
  { intros ->. exists b, j. set_solver. }
  split_and!; [done| | |done..].
  - intros dg j' d' Hr. destruct (Hrec _ _ _ _ Hok Hr) as [Hr'|(HK & -> & Hor)]; [by eapply blob_vouched_mono, Hb|].
    destruct Hsafe as [(dg' & _ & -> & Hst & Hv)|(repo & dg' & Hrepo & -> & _)].
    + apply blob_keys in HK as ->. destruct Hor as [(_ & <- & _)|[?|?]]; [| |done].
      * eapply blob_vouched_mono; [|by apply Hv]. done.
      * right. split; [by apply Hfail|by eapply blob_stored_mono].
    + symmetry in HK. by apply image_blob_keys in HK.
  - intros repo dg r d' Hrepo Hr. destruct (Hrec _ _ _ _ Hok Hr) as [Hr'|(HK & -> & Hor)];
      [by eapply image_vouched_mono, Hi|].
    destruct Hsafe as [(dg' & _ & -> & _ & _)|(repo' & dg' & Hrepo' & -> & Hv)].
    + by apply image_blob_keys in HK.
    + apply image_keys in HK as [-> ->]; [|done..].
      destruct Hor as [(_ & <- & ->)|[?|?]]; [|by right; right; right; apply Hfail|done].
      eapply image_vouched_mono; [|by apply Hv]. done.
Qed.

Lemma d_Put_steps ref d b j w :
  put_safe ref d b j (dw_trace w) →
  qsteps (d_Put env ref d b j) w (λ ok l w', (d_puts l = [(ref, d, b, j, ok)] ∧ DPut ref d b j ok ∈ l) ∧ dw_temps w' = dw_temps w ∧
    (image_ok (dw_cache w) → ok = true → image_record (dw_cache w') ref = Some (b, j, d))).
Proof.
  intros Hsafe. unfold d_Put. eapply qsteps_seq; [apply d_Now_isteps|]. intros now l1 w1 Ht1 _ [[Hp1 [Hc1 Htm1]] _].
  unfold d_on_cache, qsteps, dsteps. destruct (cache_Put now ref d b j (dw_cache w1)) as [ok c'] eqn:He.
  exists [DPut ref d b j ok]. cbn [fst snd dw_trace dw_temps dw_cache]. split; [done|]. split; [split|].
  - done.
  - done.
  - intros p x Hx. cbn [dw_cache] in Hx.
    destruct (iput_file now ref d b j (dw_cache w1) p x) as [?|[-> ->]]; [by rewrite He|by left|right].
    exists ref, b, j, ok. split; [by left|done].
  - intros HA. apply Forall_singleton.
    destruct Hsafe as [(? & ? & _)|(repo & ? & [_ ?] & -> & _)]; [congruence|done].
  - eapply put_keeps_Inv; [|exact He|done..]. rewrite Ht1.
    destruct Hsafe as [(dg & HA & -> & Hst & Hv)|(repo & dg & ? & -> & Hv)]; [left|right].
    + exists dg. split_and!; [done..|eapply blob_stored_mono; [|exact Hst]; set_solver|].
      intros Hb. eapply blob_vouched_mono; [|by apply Hv]. set_solver.
    + exists repo, dg. split_and!; [done..|]. intros Hb. eapply image_vouched_mono; [|by apply Hv]. set_solver.
  - split_and!; [by rewrite d_puts_app, Hp1|set_solver|done|]. intros Hok ->.
    pose proof (iput_hit now ref d b j (dw_cache w1)) as Hh. rewrite He in Hh. apply Hh; [by rewrite Hc1|done].
Qed.

(** *** Layers *)

Lemma d_remove_temp_steps w :
  qsteps d_remove_temp w (λ _ l w', d_puts l = [] ∧ dw_cache w' = dw_cache w ∧ dw_temps w' = dw_temps w - 1).
Proof.
  eexists. split; [reflexivity|]. cbn [fst snd dw_cache dw_temps d_add_temp d_remove_temp bind_st dlog].
  split; [by apply qseg_ext; [..|intros _; by apply Forall_singleton]|]. done.
Qed.

Lemma d_create_temp_steps w :
  qsteps (d_create_temp env) w (λ e l w', d_puts l = [] ∧ dw_cache w' = dw_cache w ∧
    dw_temps w' = dw_temps w + match e with Some _ => 0 | None => 1 end ∧ DCreateTemp e ∈ l).
Proof.
  unfold d_create_temp. eapply qsteps_seq; [by apply dask_steps|].
  intros e l1 w1 _ _ (_ & -> & Hp & Hc & Ht). destruct e as [e|].
  - apply qsteps_ret. split_and!; [done..| |by left]. rewrite Ht. lia.
  - eapply qsteps_seq.
    + exists []. split; [by rewrite app_nil_r|]. split; [by apply qseg_ext; rewrite ?app_nil_r; [..|intros _; apply Forall_nil]|].
      instantiate (1 := λ _ l w', d_puts l = [] ∧ dw_cache w' = dw_cache w1 ∧ dw_temps w' = dw_temps w1 + 1).
      done.
    + intros _ l2 w2 _ _ (Hp2 & Hc2 & Ht2). apply qsteps_ret.
      rewrite !d_puts_app, Hp2. split_and!; [done|congruence|lia|by left].
Qed.

Lemma d_write_temp_isteps data w : isteps (d_write_temp env data) w (λ _ _, True).
Proof. by apply dask_isteps. Qed.

(** Only blobs are stored. *)
Definition blob_puts l : Prop := ∀ ref d b j ok, (ref, d, b, j, ok) ∈ d_puts l → ∃ digest, ref = blobRef digest.

Lemma blob_puts_nil l : d_puts l = [] → blob_puts l.
Proof. unfold blob_puts. intros ->. set_solver. Qed.

Lemma blob_puts_app l l' : blob_puts l → blob_puts l' → blob_puts (l ++ l').
Proof. intros H H' ref d b j ok. rewrite d_puts_app, elem_of_app. intros [?|?]; [by eapply H|by eapply H']. Qed.

Lemma blob_puts_one digest d b j ok l : d_puts l = [(blobRef digest, d, b, j, ok)] → blob_puts l.
Proof. unfold blob_puts. intros -> ref d' b' j' ok' Hin. set_solver. Qed.

#[local] Hint Resolve blob_puts_nil blob_puts_app blob_puts_one : core.

(** Why a layer blocks its image: known bad, scanned bad, or over the limit. *)
Definition oversized (resp : upstreamResponse) : Prop :=
  0 < d_maxLayerBytes cfg ∧ (d_maxLayerBytes cfg < up_Length resp ∨ d_maxLayerBytes cfg < Z.of_nat (length (up_Body resp))).

Definition blob_bad repo digest l : Prop :=
  (∃ e, DGet (blobRef digest) (Some e) ∈ l ∧ ScanClean e = false) ∨
  (∃ d, blob_scanned repo digest d false l ∧ DPut (blobRef digest) d false "" true ∈ l) ∨
  (∃ resp ok, got (blob_path repo digest) resp l ∧ oversized resp ∧ DPut (blobRef digest) [] false "" ok ∈ l).

(** A scan that was not complete: of this blob's bytes. *)
Definition blob_incomplete repo digest l : Prop :=
  ∃ resp av, got (blob_path repo digest) resp l ∧ DAVScan (up_Body resp) (Ok av) ∈ l ∧ av_Incomplete av = true.

(** Why a layer could not be checked: no mirror has it, it could not be
    buffered, the engine failed, or the result could not be stored. *)
Definition blob_failed repo digest l : Prop :=
  none_has ok_200 (blob_path repo digest) l ∨ (∃ e, DCreateTemp (Some e) ∈ l) ∨ (∃ d e, DWriteTemp d (Some e) ∈ l) ∨
  (∃ resp, got (blob_path repo digest) resp l ∧ up_BodyErr resp = true) ∨
  (∃ resp e, got (blob_path repo digest) resp l ∧ DAVScan (up_Body resp) (Err e) ∈ l) ∨
  (∃ d c, DPut (blobRef digest) d c "" false ∈ l).

Definition layer_fact repo digest (r : result error layerOutcome) l : Prop :=
  match r with
  | Ok layerClean => blob_checked repo digest l
  | Ok layerInfected => blob_bad repo digest l
  | Ok layerIncomplete => blob_incomplete repo digest l
  | Err _ => blob_failed repo digest l
  end.

Lemma blob_bad_mono repo b l l' : l ⊆ l' → blob_bad repo b l → blob_bad repo b l'.
Proof.
  intros Hs [(e & ? & ?)|[(d & ? & ?)|(r & ok & ? & ? & ?)]].
  - left. exists e. split; [by apply Hs|done].
  - right. left. exists d. split; [by eapply blob_scanned_mono|by apply Hs].
  - right. right. exists r, ok. split_and!; [by eapply got_mono|done|by apply Hs].
Qed.

Lemma blob_incomplete_mono repo b l l' : l ⊆ l' → blob_incomplete repo b l → blob_incomplete repo b l'.
Proof. intros Hs (r & av & ? & ? & ?). exists r, av. split_and!; [by eapply got_mono|by apply Hs|done]. Qed.

Lemma blob_failed_mono repo b l l' : l ⊆ l' → blob_failed repo b l → blob_failed repo b l'.
Proof.
  intros Hs [?|[(e & ?)|[(d & e & ?)|[(r & ? & ?)|[(r & e & ? & ?)|(d & c & ?)]]]]].
  - left. by eapply none_has_mono.
  - right. left. exists e. by apply Hs.
  - do 2 right. left. exists d, e. by apply Hs.
  - do 3 right. left. exists r. split; [by eapply got_mono|done].
  - do 4 right. left. exists r, e. split; [by eapply got_mono|by apply Hs].
  - do 5 right. exists d, c. by apply Hs.
Qed.

Lemma layer_fact_mono repo digest r l l' : l ⊆ l' → layer_fact repo digest r l → layer_fact repo digest r l'.
Proof.
  destruct r as [[]|]; simpl; [apply blob_checked_mono|apply blob_bad_mono|apply blob_incomplete_mono|apply blob_failed_mono].
Qed.

(** A stretch of the scan of a layer, the blob's response known from [l0]. *)
Definition layer_steps (m : M (result error layerOutcome)) repo digest (δ : Z) l0 w : Prop :=
  qsteps m w (λ r l w', blob_puts l ∧ dw_temps w' = dw_temps w + δ ∧ layer_fact repo digest r (l0 ++ l)).

Lemma PutBlob_steps digest d b w :
  d_AV cfg = true → blob_stored digest d (dw_trace w) → (b = true → blob_vouched digest d (dw_trace w)) →
  qsteps (PutBlob env digest d b) w (λ ok l w', (d_puts l = [(blobRef digest, d, b, "", ok)] ∧ DPut (blobRef digest) d b "" ok ∈ l) ∧
    dw_temps w' = dw_temps w).
Proof.
  intros HA Hst Hv. eapply qsteps_mono; [apply d_Put_steps; left; by exists digest|].
  intros ok l w' _ _ (? & ? & _). done.
Qed.

Lemma av_scan_steps data w :
  d_AV cfg = true →
  qsteps (dask (fun tr => denv_AVScan env tr data) (DAVScan data)) w (λ r l w', l = [DAVScan data r] ∧ same_store w w').
Proof.
  intros HA. eexists. split; [reflexivity|]. split; [apply qseg_ext; try done; by rewrite HA|done].
Qed.

Lemma scan_buffered_steps repo digest resp l0 w :
  d_AV cfg = true → got (blob_path repo digest) resp l0 → l0 ⊆ dw_trace w → up_BodyErr resp = false →
  layer_steps (scan_buffered env digest (up_Body resp)) repo digest 0 l0 w.
Proof.
  intros HA Hgot Hl0 He. set (data := up_Body resp). unfold layer_steps, scan_buffered. eapply qsteps_seq; [by apply av_scan_steps|].
  intros res l1 w1 Ht1 _ (-> & [_ Htm1]). destruct res as [av|e].
  2:{ apply qsteps_ret. split_and!; [auto|lia|]. do 4 right. left. exists resp, e. split; [|set_solver].
      eapply got_mono; [|exact Hgot]. set_solver. }
  destruct (av_Incomplete av) eqn:Hinc.
  { apply qsteps_ret. split_and!; [auto|lia|]. exists resp, av. split_and!; [|set_solver|done].
    eapply got_mono; [|exact Hgot]. set_solver. }
  assert (Hsc : ∀ l, l0 ⊆ l → DAVScan data (Ok av) ∈ l → blob_scanned repo digest data (av_Clean av) l).
  { intros l Hs Hin. exists resp, av. split_and!; [by eapply got_mono|done..]. }
  eapply qsteps_seq.
  { apply PutBlob_steps; [done| |].
    - right. exists repo, (av_Clean av). apply Hsc; rewrite Ht1; set_solver.
    - intros Hcl. left. exists repo. rewrite <- Hcl. apply Hsc; rewrite Ht1; set_solver. }
  intros ok l2 w2 _ _ ((Hp2 & Hin2) & Htm2).
  assert (blob_puts ([DAVScan data (Ok av)] ++ l2 ++ [])) as Hbp by (apply blob_puts_app; [auto|rewrite app_nil_r; eauto]).
  destruct ok; cbn [negb]; apply qsteps_ret; (split_and!; [exact Hbp|lia|]).
  - destruct (av_Clean av) eqn:Hcl.
    + right. exists data. split; [apply Hsc; set_solver|set_solver].
    + right. left. exists data. split; [apply Hsc; set_solver|set_solver].
  - do 5 right. exists data, (av_Clean av). set_solver.
Qed.

Lemma oversized_steps repo digest resp l0 w :
  d_AV cfg = true → got (blob_path repo digest) resp l0 → oversized resp →
  layer_steps (_ <- PutBlob env digest [] false;; ret_st (Ok layerInfected)) repo digest 0 l0 w.
Proof.
  intros HA Hgot Hov. unfold layer_steps. eapply qsteps_seq; [apply PutBlob_steps; [done|by left|done]|].
  intros ok l w' _ _ ((Hp & Hin) & Ht).
  apply qsteps_ret. rewrite app_nil_r. split_and!; [eauto|lia|]. right. right. exists resp, ok.
  split_and!; [|done|set_solver]. eapply got_mono; [|exact Hgot]. set_solver.
Qed.

(** A stage of a layer's scan that leaves the store alone, then the rest. *)
Lemma layer_steps_after {A} (m : M A) (f : A → M (result error layerOutcome)) repo digest l0 w F :
  isteps m w F → (∀ a l w', dw_trace w' = dw_trace w ++ l → F a l → layer_steps (f a) repo digest 0 (l0 ++ l) w') →
  layer_steps (bind_st m f) repo digest 0 l0 w.
Proof.
  intros Hm Hf. unfold layer_steps. eapply qsteps_seq; [exact Hm|]. intros a l w' Ht _ [[Hp [_ Htm]] HF].
  eapply qsteps_mono; [by eapply Hf|]. intros r l' w'' _ _ (? & ? & Hr). rewrite <- app_assoc in Hr.
  split_and!; [auto|lia|done].
Qed.

Lemma layer_steps_ret repo digest e l0 w : blob_failed repo digest l0 → layer_steps (ret_st (Err e)) repo digest 0 l0 w.
Proof. intros H. apply qsteps_ret. rewrite app_nil_r. split_and!; [auto|lia|done]. Qed.

(** What is read of a layer within the limit is all of it. *)
Lemma layer_data resp : limit_ok →
  let dl := if 0 <? d_maxLayerBytes cfg
            then limited_read (wrap64 (d_maxLayerBytes cfg + 1)) (up_Body resp) (up_BodyErr resp)
            else (up_Body resp, up_BodyErr resp) in
  dl.2 = true ∧ up_BodyErr resp = true ∨
  dl.2 = false ∧ (0 <? d_maxLayerBytes cfg) && (d_maxLayerBytes cfg <? Z.of_nat (length dl.1)) = true ∧ oversized resp ∨
  dl.2 = false ∧ (0 <? d_maxLayerBytes cfg) && (d_maxLayerBytes cfg <? Z.of_nat (length dl.1)) = false ∧
    dl.1 = up_Body resp ∧ up_BodyErr resp = false.
Proof.
  intros Hl. unfold limit_ok in Hl. cbv zeta. destruct (0 <? d_maxLayerBytes cfg) eqn:H0; bool_to_prop.
  2:{ cbn. destruct (up_BodyErr resp); auto. right. right. auto. }
  unfold limited_read. rewrite wrap64_id by (unfold in_int64, min_int64, max_int64 in *; lia).
  destruct (d_maxLayerBytes cfg + 1 <=? 0) eqn:H1; bool_to_prop; [lia|].
  destruct (d_maxLayerBytes cfg + 1 <=? Z.of_nat (length (up_Body resp))) eqn:H2; bool_to_prop; cbn [fst snd].
  - right. left. rewrite length_take. split_and!; [done| |split; [done|right; lia]].
    apply andb_true_iff. split; [done|]. apply Z.ltb_lt. lia.
  - destruct (up_BodyErr resp) eqn:He; [by left|]. right. right. split_and!; [done| |done..].
    cbn. apply Z.ltb_ge. lia.
Qed.

Lemma buffer_layer_steps repo digest resp l0 w :
  limit_ok → d_AV cfg = true → got (blob_path repo digest) resp l0 → l0 ⊆ dw_trace w →
  layer_steps (buffer_layer env cfg digest resp) repo digest 0 l0 w.
Proof.
  intros Hlim HA Hgot Hl0. unfold buffer_layer. cbv zeta. pose proof (layer_data resp Hlim) as Hd. cbv zeta in Hd.
  destruct (if 0 <? d_maxLayerBytes cfg then _ else _) as [data readErr]. cbn [fst snd] in Hd.
  eapply layer_steps_after; [apply dask_isteps with (F := λ a l, l = [DWriteTemp data a]); done|].
  intros a l w1 Ht1 ->. assert (Hgot' : got (blob_path repo digest) resp (l0 ++ [DWriteTemp data a]))
    by (eapply got_mono; [|exact Hgot]; set_solver).
  destruct a as [e|]; [apply layer_steps_ret; do 2 right; left; exists data, e; set_solver|].
  destruct Hd as [(-> & He)|[(-> & -> & Hov)|(-> & -> & -> & He)]].
  - apply layer_steps_ret. do 3 right. left. by exists resp.
  - by eapply oversized_steps.
  - apply scan_buffered_steps; [done..| |done]. rewrite Ht1. set_solver.
Qed.

Lemma GetBlob_steps digest w :
  qsteps (GetBlob env digest) w (λ r l w', reads w l w' ∧ ∃ e, r = (fun e => (ArtifactPath e, ScanClean e)) <$> e ∧
    DGet (blobRef digest) e ∈ l ∧ (image_ok (dw_cache w) → ∀ e', e = Some e' → hit (blobRef digest) e' w')).
Proof.
  unfold GetBlob. eapply qsteps_seq; [apply d_Get_steps|]. intros e l w' _ _ (Hr & Hin & Hh).
  apply qsteps_ret. rewrite app_nil_r. split; [done|]. by exists e.
Qed.

Lemma scanLayer_steps repo digest w :
  limit_ok → d_AV cfg = true → layer_steps (scanLayer std env cfg repo digest) repo digest 0 [] w.
Proof.
  intros Hlim HA. unfold layer_steps, scanLayer. eapply qsteps_seq; [apply GetBlob_steps|].
  intros r l w1 Ht1 _ ((Hp1 & Htm1 & _) & e & -> & Hin & _). destruct e as [e|]; cbn [fmap option_fmap option_map].
  { apply qsteps_ret. rewrite app_nil_r. split_and!; [auto|lia|].
    destruct (ScanClean e) eqn:Hcl; left; by exists e. }
  eapply qsteps_mono; [eapply (layer_steps_after _ _ repo digest [] w1); [apply FetchBlob_isteps|]|].
  2:{ intros r l' w2 _ _ (? & ? & Hf). split_and!; [auto|lia|]. eapply layer_fact_mono; [|exact Hf]. set_solver. }
  intros [resp|e'] l2 w2 Ht2 Hgot; [|by apply layer_steps_ret; left]. cbn [app].
  destruct ((0 <? d_maxLayerBytes cfg) && (d_maxLayerBytes cfg <? up_Length resp)) eqn:Hov.
  { eapply oversized_steps; [done|exact Hgot|]. bool_to_prop. split; [done|by left]. }
  unfold layer_steps. eapply qsteps_seq; [apply d_create_temp_steps|].
  intros [e'|] l3 w3 Ht3 _ (Hp3 & _ & Htm3 & Hin3).
  { apply qsteps_ret. rewrite app_nil_r. split_and!; [auto|lia|]. right. left. exists e'. set_solver. }
  assert (got (blob_path repo digest) resp (l2 ++ l3)) as Hgot' by (eapply got_mono; [|exact Hgot]; set_solver).
  eapply qsteps_seq; [eapply (buffer_layer_steps repo digest resp (l2 ++ l3)); [done..|]|].
  { rewrite Ht3, Ht2. set_solver. }
  intros out l4 w4 _ _ (Hbp4 & Htm4 & Hf4).
  eapply qsteps_seq; [apply d_remove_temp_steps|]. intros _ l5 w5 _ _ (Hp5 & _ & Htm5).
  apply qsteps_ret. rewrite app_nil_r. split_and!; [auto 7|lia|]. eapply layer_fact_mono; [|exact Hf4]. set_solver.
Qed.

(** *** Verdicts *)

(** Every Put stores this verdict with this body. *)
Definition verdict_puts repo digest (body : bytes) (v : GateVerdict) l : Prop :=
  ∀ x, x ∈ d_puts l → ∃ ok, x = (imageRefKey repo digest, body, gv_Allowed v, gv_Reason v, ok).

Lemma verdict_puts_nil repo digest body v l : d_puts l = [] → verdict_puts repo digest body v l.
Proof. unfold verdict_puts. intros ->. set_solver. Qed.

Lemma verdict_puts_app repo digest body v l l' :
  verdict_puts repo digest body v l → verdict_puts repo digest body v l' → verdict_puts repo digest body v (l ++ l').
Proof. intros H H' x. rewrite d_puts_app, elem_of_app. intros [?|?]; auto. Qed.

#[local] Hint Resolve verdict_puts_nil verdict_puts_app : core.

Definition verdict_vouched repo digest (body : bytes) (v : GateVerdict) (tr : list DCall) : Prop :=
  gv_Allowed v = true → image_vouched std cfg repo digest (gv_Reason v) body tr.

(** The verdict with its body, stored; and storing it, failed at one of its
    three calls. *)
Definition stored repo digest (body : bytes) (v : GateVerdict) l : Prop :=
  DPut (imageRefKey repo digest) body (gv_Allowed v) (gv_Reason v) true ∈ l.
Definition store_failed repo digest (body : bytes) (v : GateVerdict) l : Prop :=
  (∃ e, DCreateTemp (Some e) ∈ l) ∨ (∃ e, DWriteTemp body (Some e) ∈ l) ∨
  DPut (imageRefKey repo digest) body (gv_Allowed v) (gv_Reason v) false ∈ l.

Lemma stored_mono repo digest body v l l' : l ⊆ l' → stored repo digest body v l → stored repo digest body v l'.
Proof. intros Hs H. by apply Hs. Qed.

Lemma store_failed_mono repo digest body v l l' : l ⊆ l' → store_failed repo digest body v l → store_failed repo digest body v l'.
Proof.
  intros Hs [(e & ?)|[(e & ?)|?]]; [left; exists e; by apply Hs|right; left; exists e; by apply Hs|].
  do 2 right. by apply Hs.
Qed.

Lemma cacheVerdict_steps repo digest body v w :
  repo_ok repo → verdict_vouched repo digest body v (dw_trace w) → Inv w →
  qsteps (cacheVerdict env repo digest body v) w (λ e l w', dw_temps w' = dw_temps w ∧
    verdict_puts repo digest body v l ∧
    match e with
    | None => stored repo digest body v l ∧
        image_record (dw_cache w') (imageRefKey repo digest) = Some (gv_Allowed v, gv_Reason v, body)
    | Some _ => store_failed repo digest body v l
    end).
Proof.
  intros Hrepo Hv Hinv. unfold cacheVerdict. eapply qsteps_seq; [apply d_create_temp_steps|].
  intros [e|] l1 w1 Ht1 Hq1 (Hp1 & _ & Htm1 & Hin1).
  { apply qsteps_ret. rewrite app_nil_r. split_and!; [lia|auto|]. left. by exists e. }
  eapply qsteps_seq; [apply dask_isteps with (F := λ a l, l = [DWriteTemp body a]); done|].
  intros [e|] l2 w2 Ht2 Hq2 [[Hp2 [_ Htm2]] ->].
  { eapply qsteps_seq; [apply d_remove_temp_steps|]. intros _ l3 w3 _ _ (Hp3 & _ & Htm3).
    apply qsteps_ret. rewrite app_nil_r. split_and!; [lia|auto|]. right. left. exists e. set_solver. }
  assert (Inv w2) as Hinv2 by (eapply q_inv; [exact Hq2|]; eapply q_inv; [exact Hq1|]; done).
  eapply qsteps_seq.
  { apply d_Put_steps. right. exists repo, digest. split_and!; [done..|]. intros Ha.
    eapply image_vouched_mono; [|by apply Hv]. rewrite Ht2, Ht1. set_solver. }
  intros ok l3 w3 _ _ ((Hp3 & Hin3) & Htm3 & Hrec). eapply qsteps_seq; [apply d_remove_temp_steps|].
  intros _ l4 w4 _ _ (Hp4 & Hc4 & Htm4). apply qsteps_ret. rewrite app_nil_r. split_and!; [lia| |].
  - apply verdict_puts_app; [auto|]. apply verdict_puts_app; [auto|]. apply verdict_puts_app; [|auto].
    intros x. rewrite Hp3. intros ->%list_elem_of_singleton. by exists ok.
  - destruct ok.
    + split; [unfold stored; set_solver|]. rewrite Hc4. apply Hrec; [apply Hinv2|done].
    + do 2 right. set_solver.
Qed.

(** The verdict is [v] with a manifest's path at most, and a file under that
    path holds the body. *)
Definition with_body (body : bytes) (v v' : GateVerdict) w : Prop :=
  v' = with_manifest (gv_ManifestPath v') (gv_ContentType v) v ∧
  ∀ x, gv_ManifestPath v' ≠ "" → image_file (dw_cache w) (gv_ManifestPath v') = Some x → x = body.

Lemma approve_steps repo digest body v w :
  repo_ok repo → verdict_vouched repo digest body v (dw_trace w) → gv_ManifestPath v = "" → Inv w →
  qsteps (approve env repo digest body v) w (λ r l w', dw_temps w' = dw_temps w ∧
    verdict_puts repo digest body v l ∧
    match r with
    | Ok v' => stored repo digest body v l ∧ with_body body v v' w'
    | Err _ => store_failed repo digest body v l
    end).
Proof.
  intros Hrepo Hv Hpath Hinv. unfold approve. eapply qsteps_seq; [by apply cacheVerdict_steps|].
  intros [e|] l1 w1 _ Hq1 (Htm1 & Hvp1 & Hrec).
  { apply qsteps_ret. rewrite app_nil_r. split_and!; [lia|auto|done]. }
  destruct Hrec as [Hst Hrec]. assert (image_ok (dw_cache w1)) as Hok by (by apply (q_inv _ _ _ Hq1)).
  unfold GetManifestBody. eapply qsteps_seq.
  { eapply qsteps_seq; [apply d_Get_steps|]. intros e l w' _ _ H. apply qsteps_ret. rewrite app_nil_r.
    instantiate (1 := λ p l w', ∃ e, p = ArtifactPath <$> e ∧ reads w1 l w' ∧
      (image_ok (dw_cache w1) → ∀ e', e = Some e' → hit (imageRefKey repo digest) e' w')).
    exists e. destruct H as (? & ? & ?). done. }
  intros p l2 w2 _ _ (e & -> & (Hp2 & Htm2 & _ & Hsub & _) & Hh).
  apply qsteps_ret. rewrite app_nil_r. split_and!; [lia|auto|eapply stored_mono; [|exact Hst]; set_solver|].
  destruct e as [e|]; cbn [fmap option_fmap option_map].
  - split; [done|]. intros x _. cbn [gv_ManifestPath with_manifest]. intros Hx.
    destruct (Hh Hok e eq_refl) as (Hpe & d & Hr & Hf). apply (Hsub Hok) in Hr. congruence.
  - split; [by destruct v; simpl in *; subst|]. intros x Hne. congruence.
Qed.

(** The stage over the blobs: those before the one that decides are clean. *)
Definition layers_fact repo (blobs : list string) (r : result error layerOutcome) l : Prop :=
  match r with
  | Ok layerClean => ∀ b, b ∈ blobs → blob_checked repo b l
  | r => ∃ pre b post, blobs = pre ++ b :: post ∧ (∀ x, x ∈ pre → blob_checked repo x l) ∧ layer_fact repo b r l
  end.

Lemma layers_fact_cons repo b blobs r l l' :
  blob_checked repo b l → layers_fact repo blobs r l' → layers_fact repo (b :: blobs) r (l ++ l').
Proof.
  intros Hb Hf. assert (Hb' : blob_checked repo b (l ++ l')) by (eapply blob_checked_mono; [|exact Hb]; set_solver).
  assert (Hl : ∀ x, blob_checked repo x l' → blob_checked repo x (l ++ l')) by (intros x; apply blob_checked_mono; set_solver).
  assert (Hdec : ∀ r, (∃ pre b post, blobs = pre ++ b :: post ∧ (∀ x, x ∈ pre → blob_checked repo x l') ∧ layer_fact repo b r l') →
    ∃ pre b0 post, b :: blobs = pre ++ b0 :: post ∧ (∀ x, x ∈ pre → blob_checked repo x (l ++ l')) ∧ layer_fact repo b0 r (l ++ l')).
  { intros r0 (pre & x & post & -> & Hpre & Hx). exists (b :: pre), x, post. split_and!; [done| |].
    - intros y [->|Hy]%elem_of_cons; auto.
    - eapply layer_fact_mono; [|exact Hx]. set_solver. }
  destruct r as [[]|e]; [|exact (Hdec _ Hf)..]. intros x [->|Hx]%elem_of_cons; auto.
Qed.

Lemma scan_layers_steps repo blobs w :
  limit_ok → d_AV cfg = true →
  qsteps (scan_layers std env cfg repo blobs) w (λ r l w', blob_puts l ∧ dw_temps w' = dw_temps w ∧ layers_fact repo blobs r l).
Proof.
  intros Hlim HA. revert w. induction blobs as [|b blobs IH]; intros w; cbn [scan_layers].
  { apply qsteps_ret. split_and!; [auto|done|]. simpl. set_solver. }
  eapply qsteps_seq; [by apply scanLayer_steps|]. intros r l w1 _ _ (Hbp & Htm & Hf). cbn [app] in Hf.
  destruct r as [[]|e].
  1:{ eapply qsteps_mono; [apply IH|]. intros r l' w2 _ _ (Hbp' & Htm' & Hf'). split_and!; [auto|lia|].
      by apply layers_fact_cons. }
  all: apply qsteps_ret; rewrite app_nil_r; split_and!; [done|lia|]; exists [], b, blobs; split_and!; [done|set_solver|exact Hf].
Qed.

(** *** Evictions and blocks *)

Definition evicted_in (body : bytes) l : Prop :=
  ∀ config layers, json_image body = Ok (config, layers) →
    ∀ digest, digest ∈ manifest_digests config layers → ∃ ok, DInvalidate (blobRef digest) ok ∈ l.

Lemma invalidate_all_steps digests w :
  qsteps (invalidate_all digests) w (λ _ l w', reads w l w' ∧
    ∀ digest, digest ∈ digests → ∃ ok, DInvalidate (blobRef digest) ok ∈ l).
Proof.
  revert w. induction digests as [|d digests IH]; intros w; cbn [invalidate_all].
  { apply qsteps_ret. split; [by split|set_solver]. }
  eapply qsteps_seq; [apply InvalidateBlob_steps|]. intros ok l w1 _ _ (Hr & ->).
  eapply qsteps_mono; [apply IH|]. intros _ l' w2 _ _ (Hr' & Hin). split; [by eapply reads_app|].
  intros digest [->|Hd]%elem_of_cons; [exists ok; set_solver|].
  destruct (Hin digest Hd) as [ok' ?]. exists ok'. set_solver.
Qed.

Lemma evictBlobs_steps body w :
  qsteps (evictBlobs body) w (λ _ l w', reads w l w' ∧ evicted_in body l).
Proof.
  unfold evictBlobs, evicted_in. destruct (json_image body) as [[config layers]|e].
  - eapply qsteps_mono; [apply invalidate_all_steps|]. intros _ l w' _ _ (Hr & Hin).
    split; [done|]. intros config' layers' [= <- <-]. exact Hin.
  - apply qsteps_ret. split; [by split|done].
Qed.

(** What blocking for good does: the verdict is stored, or storing it failed,
    and the blobs of an image served before are evicted. *)
Definition block_done repo digest (body : bytes) (cascade : bool) (v : GateVerdict) l : Prop :=
  (stored repo digest body v l ∨ store_failed repo digest body v l) ∧ verdict_puts repo digest body v l ∧
  (cascade = true → evicted_in body l).

Lemma block_image_steps repo digest body cascade v w :
  repo_ok repo → gv_Allowed v = false → Inv w →
  qsteps (block_image env repo digest body cascade v) w (λ r l w', dw_temps w' = dw_temps w ∧ r = Ok v ∧
    block_done repo digest body cascade v l).
Proof.
  intros Hrepo Hv Hinv. unfold block_image.
  eapply qsteps_seq; [apply cacheVerdict_steps; [done| |done]; intros ?; congruence|].
  intros e l1 w1 _ _ (Htm1 & Hvp1 & He). eapply qsteps_seq.
  { instantiate (1 := λ _ l w', reads w1 l w' ∧ (cascade = true → evicted_in body l)).
    destruct cascade.
    - eapply qsteps_mono; [apply evictBlobs_steps|]. intros ? l w' _ _ [? ?]. auto.
    - apply qsteps_ret. split; [by split|done]. }
  intros _ l2 w2 _ _ ((Hp2 & Htm2 & _) & Hev). apply qsteps_ret. rewrite app_nil_r.
  split_and!; [lia|done|]. split_and!; [|auto|].
  - destruct e; [right; eapply store_failed_mono; [|exact He]|left; eapply stored_mono; [|exact (proj1 He)]]; set_solver.
  - intros Hc config layers Hj dg Hdg. destruct (Hev Hc config layers Hj dg Hdg) as [ok ?]. exists ok. set_solver.
Qed.

(** *** The pipeline *)

(** The calls before the AV stage, and their answers: the image's parts, the
    age filter letting it pass, the image scanner's findings, and the policy
    letting them pass. *)
Definition filter_passed repo (ref : string) (body : bytes) (ic : imageConfig) l : Prop :=
  json_image body = Ok (ic_config ic, ic_layers ic) ∧ created_as repo (ic_config ic) (ic_created ic) l ∧
  ∃ fr, DFilter (mkRef "docker" repo ref "") (mkMeta (ic_created ic) "" "") fr ∈ l ∧ fr_Allowed fr = true.

Definition gated_so_far repo (ref : string) digest (body : bytes) (ic : imageConfig) l : Prop :=
  filter_passed repo ref body ic l ∧
  ∃ findings, DImageScan (imageRef cfg repo digest) (Ok findings) ∈ l ∧
    (d_Policy cfg = true → ∃ dec,
       DPolicy (mkRef "docker" repo ref "") (mkScan (bool_decide (findings = [])) findings "") dec ∈ l ∧
       pd_Allowed dec = true).

(** What the pipeline decides, [l] being its calls: the first stage that does
    not pass makes the answer, with what it gives as reason and findings, and
    what it leaves in the store; an image that passes them all is allowed and
    stored; and it fails only where one of its calls did. *)
Inductive pipeline_fact repo (ref : string) digest (body : bytes) (ct : string) (cascade : bool) l w'
    : result error GateVerdict → Prop :=
| pf_config e :
    config_failed repo body l → d_puts l = [] →
    pipeline_fact repo ref digest body ct cascade l w' (Err e)
| pf_hold ic fr :
    json_image body = Ok (ic_config ic, ic_layers ic) → created_as repo (ic_config ic) (ic_created ic) l →
    DFilter (mkRef "docker" repo ref "") (mkMeta (ic_created ic) "" "") fr ∈ l → fr_Allowed fr = false → d_puts l = [] →
    pipeline_fact repo ref digest body ct cascade l w'
      (Ok (mkVerdict false (fr_Reason fr) "supply_chain" [] "" "" (fr_PublishedAt fr) (fr_BlockUntil fr) false false))
| pf_scan_error ic e :
    filter_passed repo ref body ic l → DImageScan (imageRef cfg repo digest) (Err e) ∈ l → d_puts l = [] →
    pipeline_fact repo ref digest body ct cascade l w' (Err e)
| pf_policy ic findings dec l1 l2 :
    l = l1 ++ l2 → filter_passed repo ref body ic l1 → DImageScan (imageRef cfg repo digest) (Ok findings) ∈ l1 →
    d_Policy cfg = true →
    DPolicy (mkRef "docker" repo ref "") (mkScan (bool_decide (findings = [])) findings "") dec ∈ l1 →
    pd_Allowed dec = false → d_puts l1 = [] →
    block_done repo digest body cascade (blocked (pd_Reason dec) (blockedBy dec) (pd_Findings dec)) l2 →
    pipeline_fact repo ref digest body ct cascade l w' (Ok (blocked (pd_Reason dec) (blockedBy dec) (pd_Findings dec)))
| pf_layer_failed ic l1 l2 e :
    l = l1 ++ l2 → gated_so_far repo ref digest body ic l1 → d_puts l1 = [] → d_AV cfg = true →
    layers_fact repo (image_blobs ic) (Err e) l2 → blob_puts l2 →
    pipeline_fact repo ref digest body ct cascade l w' (Err e)
| pf_incomplete ic l1 l2 :
    l = l1 ++ l2 → gated_so_far repo ref digest body ic l1 → d_puts l1 = [] → d_AV cfg = true →
    layers_fact repo (image_blobs ic) (Ok layerIncomplete) l2 → blob_puts l2 →
    pipeline_fact repo ref digest body ct cascade l w' (Ok (blocked ReasonScanIncomplete ReasonScanIncomplete []))
| pf_malware ic l1 l2 l3 :
    l = l1 ++ l2 ++ l3 → gated_so_far repo ref digest body ic l1 → d_puts l1 = [] → d_AV cfg = true →
    layers_fact repo (image_blobs ic) (Ok layerInfected) l2 → blob_puts l2 →
    block_done repo digest body cascade (blocked "malware_found" "malware" []) l3 →
    pipeline_fact repo ref digest body ct cascade l w' (Ok (blocked "malware_found" "malware" []))
| pf_store_failed ic l1 l2 l3 e :
    let v := mkVerdict true "ok" "" [] "" ct (ic_created ic) 0 false false in
    l = l1 ++ l2 ++ l3 → gated_so_far repo ref digest body ic l1 → d_puts l1 = [] →
    (d_AV cfg = true → layers_fact repo (image_blobs ic) (Ok layerClean) l2) → blob_puts l2 →
    store_failed repo digest body v l3 → verdict_puts repo digest body v l3 →
    pipeline_fact repo ref digest body ct cascade l w' (Err e)
| pf_allowed ic l1 l2 l3 v' :
    let v := mkVerdict true "ok" "" [] "" ct (ic_created ic) 0 false false in
    l = l1 ++ l2 ++ l3 → gated_so_far repo ref digest body ic l1 → d_puts l1 = [] →
    (d_AV cfg = true → layers_fact repo (image_blobs ic) (Ok layerClean) l2) → blob_puts l2 →
    stored repo digest body v l3 → verdict_puts repo digest body v l3 → with_body body v v' w' →
    pipeline_fact repo ref digest body ct cascade l w' (Ok v').

Lemma gated_so_far_gated repo ref digest body ic l l' tr :
  gated_so_far repo ref digest body ic l → (d_AV cfg = true → layers_fact repo (image_blobs ic) (Ok layerClean) l') →
  l ⊆ tr → l' ⊆ tr → image_gated std cfg repo digest body tr.
Proof.
  intros ((Hj & Hc & fr & Hf & Hfa) & fs & Hs & Hp) Hb Hsub Hsub'.
  exists ref, (ic_config ic), (ic_layers ic), (ic_created ic), fr, fs.
  split_and!; [done|by eapply created_as_mono; [exact Hsub|]|by apply Hsub|done|by apply Hsub| |].
  - intros HP. destruct (Hp HP) as (dec & ? & ?). exists dec. split; [by apply Hsub|done].
  - intros HA b Hin. destruct ic. eapply blob_checked_mono; [exact Hsub'|]. by apply Hb.
Qed.

(** Puts of the pipeline: of blobs, and of the verdict, which is an approval
    only of an image that passed every gate - and always one when the pipeline
    fails. *)
Definition image_puts_ok repo digest (body : bytes) (failing : Prop) l : Prop :=
  ∀ ref d b j ok, (ref, d, b, j, ok) ∈ d_puts l →
    (∃ b', ref = blobRef b') ∨
    (ref = imageRefKey repo digest ∧ d = body ∧ (b = true → j = "ok" ∧ image_gated std cfg repo digest body l) ∧
     (failing → b = true)).

Lemma pipeline_puts repo ref digest body ct cascade l w' r :
  pipeline_fact repo ref digest body ct cascade l w' r → image_puts_ok repo digest body (∃ e, r = Err e) l.
Proof.
  assert (Hv : ∀ v la lb (F : Prop), (gv_Allowed v = true → gv_Reason v = "ok" ∧ image_gated std cfg repo digest body (la ++ lb)) →
    (F → gv_Allowed v = true) → blob_puts la → verdict_puts repo digest body v lb → image_puts_ok repo digest body F (la ++ lb)).
  { intros v la lb F Ha HF Hb Hvp rf d b j ok. rewrite d_puts_app, elem_of_app. intros [Hin|Hin]; [left; by eapply Hb|right].
    destruct (Hvp _ Hin) as [ok' ?]. simplify_eq. auto. }
  assert (Hblock : ∀ v v' la lb, gv_Allowed v = false → blob_puts la → block_done repo digest body cascade v lb →
    image_puts_ok repo digest body (∃ e, @Ok error GateVerdict v' = Err e) (la ++ lb))
    by (intros v v' la lb Hna Hla (_ & Hlb & _); apply (Hv v); [congruence|by intros [? ?]|done..]).
  assert (Hnil : ∀ la F, d_puts la = [] → image_puts_ok repo digest body F la) by (intros la F Hla ? ? ? ? ?; rewrite Hla; set_solver).
  assert (Hbl : ∀ la F, blob_puts la → image_puts_ok repo digest body F la) by (intros la F Hla ? ? ? ? ? ?; left; by eapply Hla).
  destruct 1; subst; auto.
  - apply (Hblock (blocked (pd_Reason dec) (blockedBy dec) (pd_Findings dec))); auto.
  - rewrite app_assoc. apply (Hblock (blocked "malware_found" "malware" [])); auto.
  - rewrite app_assoc. apply (Hv v); [|done|auto|done]. intros _. split; [done|]. eapply gated_so_far_gated; [done..| |]; set_solver.
  - rewrite app_assoc. apply (Hv v); [|done|auto|done]. intros _. split; [done|]. eapply gated_so_far_gated; [done..| |]; set_solver.
Qed.

Lemma pipeline_allowed repo ref digest body ct cascade l w' v :
  pipeline_fact repo ref digest body ct cascade l w' (Ok v) → gv_Allowed v = true →
  image_gated std cfg repo digest body l ∧ ∃ v0, with_body body v0 v w'.
Proof.
  intros H Ha. remember (Ok v) as r eqn:Hr. destruct H; simplify_eq; try done. split; [|by eexists].
  eapply gated_so_far_gated; [done..| |]; set_solver.
Qed.

(** The AV stage and what follows it, [l1] being the evidence so far. *)
Lemma av_image_steps repo ref digest body ct cascade ic l1 w w0 :
  limit_ok → repo_ok repo → Inv w → dw_trace w = dw_trace w0 ++ l1 → d_puts l1 = [] →
  gated_so_far repo ref digest body ic l1 →
  qsteps (av_image std env cfg repo digest body ct cascade ic) w (λ r l w', dw_temps w' = dw_temps w ∧
    pipeline_fact repo ref digest body ct cascade (l1 ++ l) w' r).
Proof.
  intros Hlim Hrepo Hinv Ht Hp1 Hso. unfold av_image. eapply qsteps_seq.
  { instantiate (1 := λ r l w', blob_puts l ∧ dw_temps w' = dw_temps w ∧
      match r with Ok layerClean => d_AV cfg = true → layers_fact repo (image_blobs ic) r l
                 | _ => d_AV cfg = true ∧ layers_fact repo (image_blobs ic) r l end).
    destruct (d_AV cfg) eqn:HA.
    - eapply qsteps_mono; [by apply scan_layers_steps|]. intros r l w' _ _ (? & ? & Hf).
      split_and!; [done..|]. destruct r as [[]|]; auto.
    - apply qsteps_ret. split_and!; [auto|done|done]. }
  intros r l2 w2 Ht2 Hq2 (Hbp2 & Htm2 & Hf). assert (Inv w2) as Hinv2 by by apply (q_inv _ _ _ Hq2).
  destruct r as [[]|e].
  - eapply qsteps_mono; [apply approve_steps; [done| |done..]|].
    { intros _. right. right. left. split; [done|]. eapply gated_so_far_gated; [done|done|..]; rewrite Ht2, Ht; set_solver. }
    intros r l3 w3 _ _ (Htm3 & Hvp3 & Hv). split; [lia|].
    destruct r as [v'|e]; [destruct Hv; by eapply (pf_allowed _ _ _ _ _ _ _ _ ic l1 l2 l3)|].
    by eapply (pf_store_failed _ _ _ _ _ _ _ _ ic l1 l2 l3).
  - destruct Hf as [HA Hf]. eapply qsteps_mono; [by apply block_image_steps|]. intros r l3 w3 _ _ (Htm3 & -> & Hb).
    split; [lia|]. by eapply (pf_malware _ _ _ _ _ _ _ _ ic l1 l2 l3).
  - destruct Hf as [HA Hf]. apply qsteps_ret. rewrite app_nil_r. split; [lia|]. by eapply (pf_incomplete _ _ _ _ _ _ _ _ ic l1 l2).
  - destruct Hf as [HA Hf]. apply qsteps_ret. rewrite app_nil_r. split; [lia|]. by eapply (pf_layer_failed _ _ _ _ _ _ _ _ ic l1 l2).
Qed.

Lemma runPipeline_steps repo ref digest body ct cascade w :
  limit_ok → repo_ok repo → Inv w →
  qsteps (runPipeline std env cfg repo ref digest body ct cascade) w (λ r l w', dw_temps w' = dw_temps w ∧
    pipeline_fact repo ref digest body ct cascade l w' r).
Proof.
  intros Hlim Hrepo Hinv. unfold runPipeline. cbv zeta. eapply qsteps_seq; [apply ImageConfig_isteps|].
  intros r l1 w1 Ht1 Hq1 [[Hp1 [Hc1 Htm1]] Hic]. destruct r as [ic|e].
  2:{ apply qsteps_ret. rewrite app_nil_r. split; [done|]. by apply pf_config. }
  destruct Hic as [Hj Hcr]. eapply qsteps_seq; [by apply dask_steps|].
  intros fr l2 w2 Ht2 Hq2 (_ & -> & Hp2 & [Hc2 Htm2]).
  set (lf := l1 ++ [DFilter (mkRef "docker" repo ref "") (mkMeta (ic_created ic) "" "") fr]).
  assert (d_puts lf = []) as Hpf by (unfold lf; by rewrite d_puts_app, Hp1).
  assert (Hcrf : ∀ l, l1 ⊆ l → created_as repo (ic_config ic) (ic_created ic) l) by (intros l Hl; by eapply created_as_mono).
  destruct (fr_Allowed fr) eqn:Hfa; cbn [negb].
  2:{ apply qsteps_ret. rewrite app_nil_r. split; [congruence|]. fold lf. apply (pf_hold _ _ _ _ _ _ _ _ ic); [done| | |done|done].
      - apply Hcrf. set_solver.
      - set_solver. }
  assert (Inv w2) as Hinv2 by (eapply q_inv; [exact Hq2|]; by apply (q_inv _ _ _ Hq1)).
  assert (Hfp : ∀ l, lf ⊆ l → filter_passed repo ref body ic l).
  { intros l Hl. split_and!; [done|apply Hcrf; set_solver|]. exists fr. split; [set_solver|done]. }
  unfold cve_image. cbv zeta. eapply qsteps_seq; [by apply dask_steps|].
  intros sc l3 w3 Ht3 Hq3 (_ & -> & Hp3 & [Hc3 Htm3]). destruct sc as [findings|e].
  2:{ apply qsteps_ret. rewrite app_nil_r. split; [congruence|]. rewrite (app_assoc l1). fold lf.
      apply (pf_scan_error _ _ _ _ _ _ _ _ ic); [apply Hfp; set_solver|set_solver|by rewrite d_puts_app, Hpf]. }
  assert (Inv w3) as Hinv3 by by apply (q_inv _ _ _ Hq3).
  set (l0 := lf ++ [DImageScan (imageRef cfg repo digest) (Ok findings)]).
  assert (d_puts l0 = []) as Hp0 by (unfold l0; by rewrite d_puts_app, Hpf).
  assert (dw_trace w3 = dw_trace w ++ l0) as Ht0 by (unfold l0, lf; by rewrite Ht3, Ht2, Ht1, <- !app_assoc).
  assert (dw_temps w3 = dw_temps w) as Htm0 by congruence.
  destruct (d_Policy cfg) eqn:HP.
  - eapply qsteps_seq; [by apply dask_steps|]. intros dec l4 w4 Ht4 Hq4 (_ & -> & Hp4 & [Hc4 Htm4]).
    assert (Inv w4) as Hinv4 by by apply (q_inv _ _ _ Hq4). destruct (pd_Allowed dec) eqn:Hda; cbn [negb].
    + eapply qsteps_mono.
      * eapply (av_image_steps repo ref digest body ct cascade ic (l0 ++ [_]) w4 w); [done..| | |].
        -- by rewrite Ht4, Ht0, app_assoc.
        -- by rewrite d_puts_app, Hp0, Hp4.
        -- split; [apply Hfp; set_solver|]. exists findings. split; [set_solver|].
           intros _. exists dec. split; [set_solver|done].
      * intros r l5 w5 _ _ [? Hf]. split; [congruence|]. unfold l0, lf in Hf. rewrite <- !app_assoc in Hf. exact Hf.
    + eapply qsteps_mono; [by apply block_image_steps|]. intros r l5 w5 _ _ (Htm5 & -> & Hb).
      split; [congruence|].
      eapply (pf_policy _ _ _ _ _ _ _ _ ic findings dec
        (l0 ++ [DPolicy (mkRef "docker" repo ref "") (mkScan (bool_decide (findings = [])) findings "") dec]) l5); try done.
      * unfold l0, lf. by rewrite <- !app_assoc.
      * apply Hfp. set_solver.
      * set_solver.
      * set_solver.
      * by rewrite d_puts_app, Hp0.
  - eapply qsteps_mono.
    + eapply (av_image_steps repo ref digest body ct cascade ic l0 w3 w); [done..|].
      split; [apply Hfp; set_solver|]. exists findings. split; [set_solver|by rewrite HP].
    + intros r l5 w5 _ _ [? Hf]. split; [congruence|]. unfold l0, lf in Hf. rewrite <- !app_assoc in Hf. exact Hf.
Qed.

(** *** Cached verdicts *)

Definition checked_at (e : CacheEntry) : Z :=
  if time_before (LastMalwareCheck e) (LastCVECheck e) then LastMalwareCheck e else LastCVECheck e.

(** Whether a verdict confirmed at [t] was within its time to live. *)
Definition fresh_fact (fresh : bool) (t : Z) l : Prop :=
  if fresh then d_recheckTTL cfg ≤ 0 ∨ ∃ now, DClock now ∈ l ∧ time_sub now t ≤ d_recheckTTL cfg
  else 0 < d_recheckTTL cfg ∧ ∃ now, DClock now ∈ l ∧ d_recheckTTL cfg < time_sub now t.

Lemma fresh_fact_mono fresh t l l' : l ⊆ l' → fresh_fact fresh t l → fresh_fact fresh t l'.
Proof.
  intros Hs. destruct fresh; simpl.
  - intros [?|(now & ? & ?)]; [by left|right]. exists now. split; [by apply Hs|done].
  - intros [? (now & ? & ?)]. split; [done|]. exists now. split; [by apply Hs|done].
Qed.

Lemma is_fresh_isteps t w : isteps (is_fresh env cfg t) w (λ b l, fresh_fact b t l).
Proof.
  unfold is_fresh. destruct (d_recheckTTL cfg <=? 0) eqn:Ht; bool_to_prop.
  { apply isteps_ret. by left. }
  eapply isteps_seq; [apply dask_isteps with (F := λ now l, DClock now ∈ l); [done|by left]|].
  intros now l w' _ Hin. apply isteps_ret. rewrite app_nil_r.
  destruct (time_sub now t <=? d_recheckTTL cfg) eqn:Hf; bool_to_prop; simpl.
  - right. by exists now.
  - split; [done|]. exists now. split; [done|lia].
Qed.

(** A verdict restored from the entry of repo@digest; when it allows and
    names a file, the file is the one of the record held clean. *)
Definition cached_fact repo digest (fresh : bool) (v : GateVerdict) l w' : Prop :=
  ∃ e, DGet (imageRefKey repo digest) (Some e) ∈ l ∧
    isStaleSupplyBlock (ScanClean e) (ce_ScanJSON e) = false ∧
    gv_Allowed v = ScanClean e ∧ gv_Reason v = ce_ScanJSON e ∧
    gv_BlockedBy v = (if ScanClean e then "" else blockedByForReason (ce_ScanJSON e)) ∧
    gv_Passthrough v = isPassthroughReason (ce_ScanJSON e) ∧ gv_FromCache v = true ∧
    fresh_fact fresh (checked_at e) l ∧
    (gv_Allowed v = true → gv_ManifestPath v ≠ "" → gv_ManifestPath v = image_path (imageRefKey repo digest) ∧
       ∃ d, image_record (dw_cache w') (imageRefKey repo digest) = Some (true, gv_Reason v, d) ∧
            image_file (dw_cache w') (gv_ManifestPath v) = Some d).

Lemma GetImageVerdict_steps repo digest w :
  qsteps (GetImageVerdict env repo digest) w (λ r l w', reads w l w' ∧
    ∃ e, r = (fun e => (ScanClean e, ce_ScanJSON e, checked_at e)) <$> e ∧ DGet (imageRefKey repo digest) e ∈ l ∧
      (image_ok (dw_cache w) → ∀ e', e = Some e' → hit (imageRefKey repo digest) e' w')).
Proof.
  unfold GetImageVerdict. eapply qsteps_seq; [apply d_Get_steps|]. intros e l w' _ _ (Hr & Hin & Hh).
  apply qsteps_ret. rewrite app_nil_r. split; [done|]. by exists e.
Qed.

Lemma GetManifestBody_steps repo digest w :
  qsteps (GetManifestBody env repo digest) w (λ p l w', reads w l w' ∧
    (p = None → DGet (imageRefKey repo digest) None ∈ l) ∧
    (image_ok (dw_cache w) → ∀ p', p = Some p' →
       ∃ e, p' = ArtifactPath e ∧ hit (imageRefKey repo digest) e w')).
Proof.
  unfold GetManifestBody. eapply qsteps_seq; [apply d_Get_steps|]. intros e l w' _ _ (Hr & Hin & Hh).
  apply qsteps_ret. rewrite app_nil_r. split; [done|]. split; [by destruct e|]. intros Hok p' Hp.
  apply fmap_Some in Hp as (e' & -> & ->). exists e'. split; [done|by apply Hh].
Qed.

(** The media type a manifest body names itself, "" when it cannot be told. *)
Definition media_of (b : option bytes) : string :=
  match b with Some b => match json_mediaType b with Ok mt => mt | Err _ => "" end | None => "" end.

Lemma manifestMediaType_steps path w :
  qsteps (manifestMediaType path) w (λ mt l w', reads w l w' ∧
    (∀ ref, image_record (dw_cache w') ref = image_record (dw_cache w) ref) ∧
    (∀ p, image_file (dw_cache w') p = image_file (dw_cache w) p) ∧
    ∃ b, DOpen path b ∈ l ∧ mt = media_of b ∧ (path = "" → b = None)).
Proof.
  unfold manifestMediaType. eapply qsteps_seq; [apply d_open_steps|]. intros d l w' _ _ (Hr & Hrec & Hf & Hd & Hin).
  destruct d as [b|]; apply qsteps_ret; rewrite app_nil_r; (split_and!; [done..|]);
    [exists (Some b)|exists None]; (split_and!; [done..|]); intros ->; [by destruct (Hd b eq_refl)|done].
Qed.

(** Two hits of one reference in a row show the same record. *)
Definition restored_file repo digest (clean : bool) (reason : string) (path : string) w : Prop :=
  path = image_path (imageRefKey repo digest) ∧
  ∃ d, image_record (dw_cache w) (imageRefKey repo digest) = Some (clean, reason, d) ∧
       image_file (dw_cache w) path = Some d.

Lemma hit_again repo digest e e' w1 w2 :
  image_ok (dw_cache w1) → hit (imageRefKey repo digest) e w1 → store_shrinks w1 w2 → hit (imageRefKey repo digest) e' w2 →
  restored_file repo digest (ScanClean e) (ce_ScanJSON e) (ArtifactPath e') w2.
Proof.
  intros Hok (_ & d & Hr & _) (_ & Hsub & _) (Hp & d' & Hr' & Hf'). split; [done|].
  pose proof (Hsub Hok _ _ Hr') as Heq. rewrite Hr in Heq. injection Heq as -> -> _. by exists d'.
Qed.

Lemma restored_file_same repo digest clean reason path w w' :
  (∀ ref, image_record (dw_cache w') ref = image_record (dw_cache w) ref) →
  (∀ p, image_file (dw_cache w') p = image_file (dw_cache w) p) →
  restored_file repo digest clean reason path w → restored_file repo digest clean reason path w'.
Proof. intros Hr Hf (Hp & d & ? & ?). split; [done|]. exists d. by rewrite Hr, Hf. Qed.

(** The body looked up for a clean entry, under a content type or the one the
    body itself names. *)
Definition body_lookup repo digest (clean : bool) (reason : string) (v : GateVerdict) w : Prop :=
  ∃ path ct, v = with_manifest path ct (restored clean reason) ∧
    (path ≠ "" → clean = true ∧ restored_file repo digest clean reason path w).

Lemma body_lookup_none repo digest clean reason w : body_lookup repo digest clean reason (restored clean reason) w.
Proof. by exists "", "". Qed.

Lemma cached_fact_lookup repo digest fresh e v l w :
  DGet (imageRefKey repo digest) (Some e) ∈ l → isStaleSupplyBlock (ScanClean e) (ce_ScanJSON e) = false →
  body_lookup repo digest (ScanClean e) (ce_ScanJSON e) v w → fresh_fact fresh (checked_at e) l →
  cached_fact repo digest fresh v l w.
Proof.
  intros Hin Hst (path & ct & -> & Hfile) Hf. exists e.
  split_and!; [done..|]. intros _ Hne. destruct (Hfile Hne) as [Hc (Hp & d & Hr & Hd)].
  split; [done|]. exists d. rewrite Hc in Hr. done.
Qed.

(** No verdict that can be used: none, or a hold that may have passed. *)
Definition lookup_miss repo digest l : Prop :=
  DGet (imageRefKey repo digest) None ∈ l ∨
  ∃ e, DGet (imageRefKey repo digest) (Some e) ∈ l ∧ isStaleSupplyBlock (ScanClean e) (ce_ScanJSON e) = true.

(** What looking up the verdict of repo@digest shows: a fresh one, an expired
    one, or none. *)
Definition resolved_lookup repo digest (r : GateVerdict + option GateVerdict) l w' : Prop :=
  match r with
  | inl v => cached_fact repo digest true v l w'
  | inr (Some v) => cached_fact repo digest false v l w'
  | inr None => lookup_miss repo digest l
  end.

(** A fast-path verdict can be answered with: a block, or a body and its type. *)
Definition servable (v : GateVerdict) : Prop := gv_Allowed v = true → gv_ManifestPath v ≠ "".

(** An approval whose body is gone, or names no media type. *)
Definition unservable repo digest l : Prop :=
  (∃ e, DGet (imageRefKey repo digest) (Some e) ∈ l ∧ ScanClean e = true) ∧
  (DGet (imageRefKey repo digest) None ∈ l ∨ ∃ path b, DOpen path b ∈ l ∧ media_of b = "").

(** What the lookup by the digest asked for shows before any upstream is asked. *)
Definition digest_lookup repo (ref : string) (r : GateVerdict + option GateVerdict) l w' : Prop :=
  match r with
  | inl v => isDigestRef ref = true ∧ cached_fact repo ref true v l w' ∧ servable v
  | inr (Some v) => isDigestRef ref = true ∧ cached_fact repo ref false v l w' ∧ servable v
  | inr None => isDigestRef ref = false ∨ lookup_miss repo ref l ∨ unservable repo ref l
  end.

Lemma by_resolved_steps repo digest ct w :
  Inv w → qsteps (by_resolved env cfg repo digest ct) w (λ r l w', reads w l w' ∧ resolved_lookup repo digest r l w').
Proof.
  intros [Hok _]. unfold by_resolved. eapply qsteps_seq; [apply GetImageVerdict_steps|].
  intros r l1 w1 _ _ (Hr1 & e & -> & Hin & Hh1). destruct e as [e|]; cbn [fmap option_fmap option_map].
  2:{ apply qsteps_ret. rewrite app_nil_r. split; [done|by left]. }
  destruct (isStaleSupplyBlock _ _) eqn:Hst; [apply qsteps_ret; rewrite app_nil_r; split; [done|right; by exists e]|]. cbv zeta.
  pose proof Hr1 as (_ & _ & Hs1). assert (image_ok (dw_cache w1)) as Hok1 by by apply Hs1.
  eapply qsteps_seq.
  { instantiate (1 := λ v l w', reads w1 l w' ∧ body_lookup repo digest (ScanClean e) (ce_ScanJSON e) v w').
    destruct (ScanClean e) eqn:Hc; cbn [negb].
    - eapply qsteps_seq; [apply GetManifestBody_steps|]. intros p l2 w2 _ _ (Hr2 & _ & Hp).
      apply qsteps_ret. rewrite app_nil_r. split; [done|]. destruct p as [p|]; [|apply body_lookup_none].
      exists p, ct. split; [done|]. intros _. split; [done|]. destruct (Hp Hok1 p eq_refl) as (e' & -> & He').
      rewrite <- Hc. eapply hit_again; [exact Hok1|by apply Hh1|apply Hr2|done].
    - apply qsteps_ret. split; [by split|apply body_lookup_none]. }
  intros v l2 w2 _ _ (Hr2 & Hb). eapply qsteps_seq; [apply is_fresh_isteps|].
  intros fresh l3 w3 _ _ [Hi3 Hf]. apply qsteps_ret. rewrite app_nil_r.
  split; [eapply reads_app; [done|]; eapply reads_app; [done|by apply idle_reads]|].
  assert (cached_fact repo digest fresh v (l1 ++ l2 ++ l3) w3) as Hcf.
  { eapply (cached_fact_lookup _ _ _ e); [set_solver|done| |eapply fresh_fact_mono; [|exact Hf]; set_solver].
    destruct Hi3 as [_ [Hc _]]. unfold body_lookup, restored_file in *. by rewrite Hc. }
  by destruct fresh.
Qed.

Lemma by_digest_steps repo ref w :
  Inv w → qsteps (by_digest env cfg repo ref) w (λ r l w', reads w l w' ∧ digest_lookup repo ref r l w').
Proof.
  intros [Hok _]. unfold by_digest. destruct (isDigestRef ref) eqn:Hdr; cbn [negb].
  2:{ apply qsteps_ret. split; [by split|by left]. }
  eapply qsteps_seq; [apply GetImageVerdict_steps|].
  intros r l1 w1 _ _ (Hr1 & e & -> & Hin & Hh1). destruct e as [e|]; cbn [fmap option_fmap option_map].
  2:{ apply qsteps_ret. rewrite app_nil_r. split; [done|]. right. left. by left. }
  destruct (isStaleSupplyBlock _ _) eqn:Hst.
  { apply qsteps_ret. rewrite app_nil_r. split; [done|]. right. left. right. by exists e. }
  cbv zeta. pose proof Hr1 as (_ & _ & Hs1). assert (image_ok (dw_cache w1)) as Hok1 by by apply Hs1.
  eapply qsteps_seq.
  { instantiate (1 := λ v l w', reads w1 l w' ∧ body_lookup repo ref (ScanClean e) (ce_ScanJSON e) v w' ∧
      (servable v ∨ ScanClean e = true ∧ (DGet (imageRefKey repo ref) None ∈ l ∨ ∃ path b, DOpen path b ∈ l ∧ media_of b = ""))).
    destruct (ScanClean e) eqn:Hc; cbn [negb].
    - eapply qsteps_seq; [apply GetManifestBody_steps|]. intros p l2 w2 _ _ (Hr2 & Hnone & Hp).
      destruct p as [p|]; [|apply qsteps_ret; rewrite app_nil_r; split_and!; [done|apply body_lookup_none|auto]].
      eapply qsteps_seq; [apply manifestMediaType_steps|]. intros mt l3 w3 _ _ (Hr3 & Hrec3 & Hf3 & b & Hopen & Hmt & Hempty).
      apply qsteps_ret. rewrite app_nil_r. split; [by eapply reads_app|].
      destruct (mt =? "")%string eqn:Hmte; cbn [negb]; bool_to_prop.
      { split; [apply body_lookup_none|]. right. split; [done|]. right. exists p, b. split; [set_solver|congruence]. }
      split.
      + exists p, mt. split; [done|]. intros _. split; [done|]. destruct (Hp Hok1 p eq_refl) as (e' & -> & He').
        eapply restored_file_same; [done..|]. rewrite <- Hc. eapply hit_again; [exact Hok1|by apply Hh1|apply Hr2|done].
      + left. intros _. cbn [gv_ManifestPath with_manifest]. intros ->. rewrite Hempty in Hmt by done. done.
    - apply qsteps_ret. split_and!; [by split|apply body_lookup_none|]. left. done. }
  intros v l2 w2 _ _ (Hr2 & Hb & Hserv). eapply qsteps_seq; [apply is_fresh_isteps|].
  intros fresh l3 w3 _ _ [Hi3 Hf]. apply qsteps_ret. rewrite app_nil_r.
  split; [eapply reads_app; [done|]; eapply reads_app; [done|by apply idle_reads]|].
  assert (cached_fact repo ref fresh v (l1 ++ l2 ++ l3) w3) as Hcf.
  { eapply (cached_fact_lookup _ _ _ e); [set_solver|done| |eapply fresh_fact_mono; [|exact Hf]; set_solver].
    destruct Hi3 as [_ [Hc _]]. unfold body_lookup, restored_file in *. by rewrite Hc. }
  destruct (negb (gv_Allowed v) || negb (gv_ManifestPath v =? "")%string) eqn:Hsv.
  - assert (servable v) by (unfold servable; intros Ha; rewrite Ha in Hsv; simpl in Hsv; by bool_to_prop).
    destruct fresh; simpl; auto.
  - rewrite !andb_false_r. right. right. bool_to_prop.
    assert (gv_Allowed v = true ∧ gv_ManifestPath v = "") as [Ha Hp] by (split; [by destruct (gv_Allowed v)|by destruct (gv_ManifestPath v)]).
    destruct Hserv as [Hserv|[Hcl Hor]]; [by destruct (Hserv Ha)|]. split; [exists e; split; [set_solver|done]|].
    destruct Hor as [?|(path & b & ? & ?)]; [left; set_solver|right; exists path, b; split; [set_solver|done]].
Qed.

(** *** The whole evaluation *)

Definition passthrough_reason (body : bytes) (ct reason : string) : Prop :=
  (isIndexMediaType ct = true ∧ reason = reasonIndexPassthrough) ∨
  (isIndexMediaType ct = false ∧ isAttestationManifest body = true ∧ reason = reasonAttestationPassthrough).

Definition passing (reason ct : string) : GateVerdict := mkVerdict true reason "" [] "" ct 0 0 true false.

(** The pipeline of the flight: run for the request's own reference and
    manifest, or for those of the one leading it. *)
Definition flown repo digest (own : Leader) l w' (r : result error GateVerdict) : Prop :=
  ∃ led l', l = DFlight (repo +:+ "@" +:+ digest) led :: l' ∧
    let ld := default own led in pipeline_fact repo (fl_ref ld) digest (fl_body ld) (fl_ct ld) (fl_cascade ld) l' w' r.

(** What the gate promises once a mirror has given the manifest: a fresh
    verdict of the store is the answer; otherwise an index or an attestation
    manifest passes through, stored; and otherwise the pipeline decides, its
    failure falling back on an expired verdict when there is one. *)
Inductive decided repo (ref : string) digest (body : bytes) (ct : string) l w' : string * result error GateVerdict → Prop :=
| dc_fresh v :
    resolved_lookup repo digest (inl v) l w' → decided repo ref digest body ct l w' (digest, Ok v)
| dc_passthrough stale l1 l2 w1 reason v :
    l = l1 ++ l2 → resolved_lookup repo digest (inr stale) l1 w1 → passthrough_reason body ct reason →
    stored repo digest body (passing reason ct) l2 → with_body body (passing reason ct) v w' →
    decided repo ref digest body ct l w' (digest, Ok v)
| dc_passthrough_failed stale l1 l2 w1 reason e :
    l = l1 ++ l2 → resolved_lookup repo digest (inr stale) l1 w1 → passthrough_reason body ct reason →
    store_failed repo digest body (passing reason ct) l2 →
    decided repo ref digest body ct l w' ("", Err e)
| dc_pipeline stale l1 l2 w1 r :
    l = l1 ++ l2 → resolved_lookup repo digest (inr stale) l1 w1 →
    isIndexMediaType ct = false → isAttestationManifest body = false →
    flown repo digest (mkLeader ref body ct (bool_decide (is_Some stale))) l2 w' r →
    decided repo ref digest body ct l w'
      (match r, stale with
       | Ok v, _ => (digest, Ok v)
       | Err _, Some v => (digest, Ok v)
       | Err e, None => ("", Err e)
       end).

(** What the gate promises for repo:ref, [l] being the calls of the run that
    ends in [w']: pulled by digest, a fresh verdict it can serve is the answer;
    otherwise the mirrors are asked for the manifest, and when none of them has
    it the answer is an expired verdict it can serve, or the error. *)
Inductive evaluated repo (ref : string) l w' : string * result error GateVerdict → Prop :=
| ev_fresh v :
    digest_lookup repo ref (inl v) l w' → d_puts l = [] → evaluated repo ref l w' (ref, Ok v)
| ev_unreachable offline l1 l2 w1 e :
    l = l1 ++ l2 → digest_lookup repo ref (inr offline) l1 w1 → none_has read_200 (manifest_path repo ref) l2 →
    (FetchManifest std env cfg repo ref w1).1 = Err e →
    evaluated repo ref l w'
      (match offline with Some v => (ref, Ok v) | None => ("", Err (fetch_failed repo ref e)) end)
| ev_fetched offline l1 l2 l3 w1 body ct digest res :
    l = l1 ++ l2 ++ l3 → digest_lookup repo ref (inr offline) l1 w1 → fetched_as repo ref digest body ct l2 →
    decided repo ref digest body ct l3 w' res →
    evaluated repo ref l w' res.

(** The body of an allowed verdict was vouched for. *)
Definition serves_vouched repo (res : string * result error GateVerdict) w' : Prop :=
  ∀ v x, res.2 = Ok v → gv_Allowed v = true → gv_ManifestPath v ≠ "" →
    image_file (dw_cache w') (gv_ManifestPath v) = Some x →
    ∃ reason, image_vouched std cfg repo res.1 reason x (dw_trace w').

Lemma cached_vouched repo digest fresh v l w' :
  repo_ok repo → Inv w' → cached_fact repo digest fresh v l w' → serves_vouched repo (digest, Ok v) w'.
Proof.
  intros Hrepo Hinv (e & _ & _ & _ & _ & _ & _ & _ & _ & Hfile) v' x [= <-] Ha Hp Hx.
  destruct (Hfile Ha Hp) as (_ & d & Hr & Hd). exists (gv_Reason v). rewrite Hd in Hx. simplify_eq. by apply Hinv.
Qed.

(** A failing pipeline stores nothing but an approval with its evidence, so an
    older verdict stays vouched for. *)
Lemma cached_vouched_later repo digest fresh v l w1 l' w' body :
  repo_ok repo → Inv w1 → cached_fact repo digest fresh v l w1 → qseg w1 l' w' → dw_trace w' = dw_trace w1 ++ l' →
  image_puts_ok repo digest body True l' → serves_vouched repo (digest, Ok v) w'.
Proof.
  intros Hrepo Hinv (e & _ & _ & Hal & _ & _ & _ & _ & _ & Hfile) Hq Ht Hputs v' x [= <-] Ha Hp Hx.
  destruct (Hfile Ha Hp) as (Hpath & d & Hr & Hd). destruct (q_files _ _ _ Hq _ _ Hx) as [Hold|(r & b & j & ok & Hput & Heq)].
  - exists (gv_Reason v). rewrite Hd in Hold. simplify_eq. eapply image_vouched_mono; [|by apply Hinv]. rewrite Ht. set_solver.
  - rewrite Hpath in Heq. apply image_path_inj in Heq. destruct (Hputs _ _ _ _ _ Hput) as [[b' ->]|(-> & -> & Hok & Htrue)].
    { by apply image_blob_keys in Heq. }
    exists "ok". destruct (Hok (Htrue I)) as [_ Hg]. right. right. left. split; [done|]. eapply image_gated_mono; [|exact Hg].
    rewrite Ht. set_solver.
Qed.

Lemma passthrough_steps repo digest body ct reason w :
  repo_ok repo → Inv w → image_vouched std cfg repo digest reason body (dw_trace w) →
  qsteps (passthrough env repo digest body ct reason) w (λ r l w', dw_temps w' = dw_temps w ∧
    match r with
    | (dg, Ok v) => dg = digest ∧ stored repo digest body (passing reason ct) l ∧ with_body body (passing reason ct) v w'
    | (dg, Err _) => dg = "" ∧ store_failed repo digest body (passing reason ct) l
    end).
Proof.
  intros Hrepo Hinv Hv. unfold passthrough.
  eapply qsteps_seq; [apply (approve_steps _ _ _ (passing reason ct)); [done|intros _; exact Hv|done..]|].
  intros r l w' _ _ (Htm & _ & Hb). apply qsteps_ret. rewrite app_nil_r. split; [done|]. destruct r; auto.
Qed.

(** A flight, led or joined. *)
Lemma flight_steps repo ref digest body ct cascade w :
  limit_ok → repo_ok repo → Inv w →
  qsteps (flight std env cfg repo ref digest body ct cascade) w (λ r l w', dw_temps w' = dw_temps w ∧
    flown repo digest (mkLeader ref body ct cascade) l w' r).
Proof.
  intros Hlim Hrepo Hinv. unfold flight. eapply qsteps_seq; [by apply dask_steps|].
  intros led l1 w1 Ht1 Hq1 (_ & -> & Hp1 & [Hc1 Htm1]). assert (Inv w1) as Hinv1 by by apply (q_inv _ _ _ Hq1).
  destruct led as [ld|]; (eapply qsteps_mono; [by apply runPipeline_steps|]);
    intros r l2 w2 _ _ [Htm2 Hf]; (split; [congruence|]); eexists _, l2; (split; [reflexivity|exact Hf]).
Qed.

Lemma on_tags_steps f w :
  qsteps (on_tags f) w (λ _ l w', l = [] ∧ same_store w w').
Proof.
  exists []. rewrite app_nil_r. split; [done|]. split; [|done].
  by apply qseg_ext; rewrite ?app_nil_r; [..|intros _; apply Forall_nil].
Qed.

Lemma with_body_vouched repo digest reason body v v' w' :
  with_body body v v' w' → image_vouched std cfg repo digest reason body (dw_trace w') →
  serves_vouched repo (digest, Ok v') w'.
Proof. intros [_ Hb] Hv u x [= <-] _ Hp Hx. exists reason. by rewrite (Hb x Hp Hx). Qed.

Lemma flown_vouched repo digest own l w w' v :
  flown repo digest own l w' (Ok v) → dw_trace w' = dw_trace w ++ l → serves_vouched repo (digest, Ok v) w'.
Proof.
  intros (led & l' & -> & Hpf) Ht u x [= <-] Ha Hp Hx. destruct (pipeline_allowed _ _ _ _ _ _ _ _ _ Hpf Ha) as [Hg [v0 Hb]].
  exists "ok". right. right. left. split; [done|]. rewrite (proj2 Hb x Hp Hx). eapply image_gated_mono; [|exact Hg].
  rewrite Ht. set_solver.
Qed.

(** The calls from the lookup on, [l0] being those before it. *)
Lemma evaluate_fetched_steps repo ref body ct digest w :
  limit_ok → repo_ok repo → Inv w → fetched_as repo ref digest body ct (dw_trace w) →
  qsteps (evaluate_fetched std env cfg repo ref body ct digest) w (λ r l w', dw_temps w' = dw_temps w ∧
    decided repo ref digest body ct l w' r ∧ serves_vouched repo r w').
Proof.
  intros Hlim Hrepo Hinv Hfetch. unfold evaluate_fetched. eapply qsteps_seq.
  { instantiate (1 := λ _ l w', l = [] ∧ same_store w w').
    destruct (_ && _); [apply on_tags_steps|by apply qsteps_ret]. }
  intros _ l1 w1 Ht1 Hq1 (-> & [Hc1 Htm1]). rewrite app_nil_r in Ht1.
  assert (Inv w1) as Hinv1 by by apply (q_inv _ _ _ Hq1). cbn [app].
  eapply qsteps_seq; [by apply by_resolved_steps|]. intros cached l2 w2 Ht2 Hq2 [(_ & Htm2 & _) Hcached].
  assert (Inv w2) as Hinv2 by by apply (q_inv _ _ _ Hq2). assert (dw_temps w2 = dw_temps w) as Htm by congruence.
  destruct cached as [v|stale].
  { apply qsteps_ret. rewrite app_nil_r. split_and!; [done|by apply dc_fresh|by eapply cached_vouched]. }
  assert (fetched_as repo ref digest body ct (dw_trace w2)) as Hfetchw
    by (eapply fetched_as_mono; [|exact Hfetch]; rewrite Ht2, Ht1; set_solver).
  assert (∀ reason, passthrough_reason body ct reason → qsteps (passthrough env repo digest body ct reason) w2
    (λ r l w', dw_temps w' = dw_temps w ∧ decided repo ref digest body ct (l2 ++ l) w' r ∧ serves_vouched repo r w')) as Hpass.
  { intros reason Hr. assert (image_vouched std cfg repo digest reason body (dw_trace w2)) as Hv.
    { destruct Hr as [[? ->]|(? & ? & ->)]; [left; split; [done|]|right; left; split_and!; [done..|]]; exists ref, ct; auto. }
    eapply qsteps_mono; [by apply passthrough_steps|]. intros [dg [v|e]] l3 w3 Ht3 _ [? Hres]; (split; [congruence|]).
    - destruct Hres as (-> & Hst & Hb). split; [by eapply (dc_passthrough _ _ _ _ _ _ _ stale l2 l3 w2 reason)|].
      eapply with_body_vouched; [exact Hb|]. eapply image_vouched_mono; [|exact Hv]. rewrite Ht3. set_solver.
    - destruct Hres as [-> Hsf]. split; [by eapply (dc_passthrough_failed _ _ _ _ _ _ _ stale l2 l3 w2 reason)|done]. }
  destruct (isIndexMediaType ct) eqn:Hidx; [apply Hpass; by left|].
  destruct (isAttestationManifest body) eqn:Hatt; [apply Hpass; by right|].
  eapply qsteps_seq; [by apply flight_steps|]. intros r l3 w3 Ht3 Hq3 [Htm3 Hf].
  apply qsteps_ret. rewrite app_nil_r. split; [congruence|].
  assert (Hd := dc_pipeline repo ref digest body ct (l2 ++ l3) w3 stale l2 l3 w2 r eq_refl Hcached Hidx Hatt Hf).
  destruct r as [v|e]; [split; [exact Hd|by eapply flown_vouched]|]. unfold staleOr.
  destruct stale as [v|]; (split; [exact Hd|]); [|done].
  destruct Hf as (led & l' & -> & Hpf). eapply cached_vouched_later; [done|exact Hinv2|exact Hcached|exact Hq3|exact Ht3|].
  intros rf d b j ok Hin. change (d_puts (DFlight (repo +:+ "@" +:+ digest) led :: l')) with (d_puts l') in Hin.
  destruct (pipeline_puts _ _ _ _ _ _ _ _ _ Hpf _ _ _ _ _ Hin) as [?|(? & ? & Hg & Hfl)]; [by left|right].
  split_and!; [done..| |intros _; apply Hfl; by eexists]. intros Hb. destruct (Hg Hb). split; [done|].
  eapply image_gated_mono; [|done]. set_solver.
Qed.

Lemma gate_Evaluate_steps repo ref w :
  limit_ok → repo_ok repo → Inv w →
  qsteps (gate_Evaluate std env cfg repo ref) w (λ r l w', dw_temps w' = dw_temps w ∧
    evaluated repo ref l w' r ∧ serves_vouched repo r w').
Proof.
  intros Hlim Hrepo Hinv. unfold gate_Evaluate. eapply qsteps_seq; [by apply by_digest_steps|].
  intros r l1 w1 Ht1 Hq1 ((Hp1 & Htm1 & Hs1) & Hout). assert (Inv w1) as Hinv1 by by apply (q_inv _ _ _ Hq1).
  destruct r as [v|offline].
  { apply qsteps_ret. rewrite app_nil_r. split_and!; [done|by apply ev_fresh|]. destruct Hout as (_ & Hcf & _). by eapply cached_vouched. }
  eapply qsteps_seq.
  { instantiate (1 := λ r l w', r = (FetchManifest std env cfg repo ref w1).1 ∧ same_store w1 w' ∧
      match r with Ok (body, ct, dg) => fetched_as repo ref dg body ct l | Err _ => none_has read_200 (manifest_path repo ref) l end).
    destruct (FetchManifest_isteps repo ref w1) as (l & Hl & Hq & [_ Hs] & Hf). by exists l. }
  intros fetched l2 w2 Ht2 Hq2 (Hfm & [Hc2 Htm2] & Hf).
  assert (Inv w2) as Hinv2 by by apply (q_inv _ _ _ Hq2).
  destruct fetched as [[[body ct] digest]|e].
  - eapply qsteps_mono.
    + apply (evaluate_fetched_steps repo ref body ct digest w2); [done..|].
      eapply fetched_as_mono; [|exact Hf]. rewrite Ht2. set_solver.
    + intros r l3 w3 _ _ (? & Hev & Hsv). split_and!; [congruence| |done].
      by eapply (ev_fetched _ _ _ _ offline l1 l2 l3 w1 body ct digest).
  - assert (Hev := λ l H, ev_unreachable repo ref l w2 offline l1 l2 w1 e H Hout Hf (eq_sym Hfm)).
    destruct offline as [v|]; apply qsteps_ret; (split; [congruence|]); rewrite app_nil_r; (split; [by apply Hev|]); [|done].
    destruct Hout as (_ & Hcf & _). eapply cached_vouched; [done|done|]. unfold cached_fact in *. rewrite Hc2. exact Hcf.
Qed.
End Steps.
