(* ===== verification/DockerSpec.v ===== *)
(** * The promises of the Docker proxy

    Theorems on whole requests and on sequences of them: blobs reach a client
    only after the AV engine found their bytes clean, manifests only through
    the gate, stale verdicts only when the gate cannot be run; every request
    is answered once. *)
From S2P Require Import Prelude GoStd Gate Cache Upstream CircuitBreaker HTTP Handler DockerPath Docker DockerCache DockerProps.
Local Open Scope Z_scope.

(** What the proxy relies on of the breaker: the statuses it trips on. *)
Definition denv_ok (env : DEnv) : Prop := ∀ tr, lookup_ok (denv_Throttles env tr).

Section Spec.
Context {C : Type} {AC : ArtifactCache C} {IC : ImageCache C} {L : ImageCacheLaws C} {J : DockerJSON}.
Context (std : DockerStd) (env : DEnv) (cfg : DockerConfig).

Notation W := (DWorld C).
Notation M := (St (DWorld C)).
Implicit Types (w : W) (l : list DCall) (repo digest : string) (ev : Event) (rs : Response).
Notation Inv := (Inv std cfg).
Notation qsteps := (qsteps std cfg).
Notation qseg := (qseg std cfg).

(** ** Stretches that answer *)

(** The store's invariant, the recorder in step with the outcomes, and no
    temporary file left behind. *)
Record rseg w l w' : Prop := mkRseg {
  r_inv : Inv w → Inv w';
  r_av : d_AV cfg = false → Forall av_free l;
  r_records : d_records l = if d_Recorder cfg then d_outcomes l else [];
  r_temps : dw_temps w' = dw_temps w;
}.

Lemma rseg_app w l w' l' w'' : rseg w l w' → rseg w' l' w'' → rseg w (l ++ l') w''.
Proof.
  intros [Hi Ha Hr Ht] [Hi' Ha' Hr' Ht']. split; [auto|by intros; apply Forall_app; auto| |congruence].
  unfold d_records, d_outcomes in *. rewrite !omap_app, Hr, Hr'. by destruct (d_Recorder cfg).
Qed.

Lemma qseg_rseg w l w' : qseg w l w' → dw_temps w' = dw_temps w → rseg w l w'.
Proof.
  intros [(Ho & Hr & _) _ _ Ha Hi] Ht. split; [done..| |done]. rewrite Ho, Hr. by destruct (d_Recorder cfg).
Qed.

Definition rsteps {A} (m : M A) w (F : A → list DCall → W → Prop) : Prop :=
  dsteps m w (λ a l w', rseg w l w' ∧ F a l w').

Lemma rsteps_mono {A} (m : M A) w (F F' : A → list DCall → W → Prop) :
  rsteps m w F → (∀ a l w', dw_trace w' = dw_trace w ++ l → F a l w' → F' a l w') → rsteps m w F'.
Proof. intros Hm H. eapply dsteps_mono; [exact Hm|]. intros a l w' Hl [Hr HF]. auto. Qed.

Lemma rsteps_seq {A B} (m : M A) (f : A → M B) w F G :
  rsteps m w F →
  (∀ a l w', dw_trace w' = dw_trace w ++ l → rseg w l w' → F a l w' →
     rsteps (f a) w' (λ b l' w'', G b (l ++ l') w'')) →
  rsteps (bind_st m f) w G.
Proof.
  intros Hm Hf. eapply dsteps_seq; [exact Hm|]. intros a l w' Hl [Hr HF].
  eapply dsteps_mono; [by apply Hf|]. intros b l' w'' _ [Hr' HG]. split; [by eapply rseg_app|done].
Qed.

Lemma rseg_nil w : rseg w [] w.
Proof. split; [done|intros; apply Forall_nil_2|by destruct (d_Recorder cfg)|done]. Qed.

Lemma rsteps_ret {A} (a : A) w (F : A → list DCall → W → Prop) : F a [] w → rsteps (ret_st a) w F.
Proof. intros H. apply dsteps_ret. split; [apply rseg_nil|done]. Qed.

(** A quiet stretch first. *)
Lemma qsteps_rsteps {A} (m : M A) w (F : A → list DCall → W → Prop) :
  qsteps m w (λ a l w', dw_temps w' = dw_temps w ∧ F a l w') →
  rsteps m w (λ a l w', d_quiet l ∧ dw_header w' = dw_header w ∧ F a l w').
Proof.
  intros H. eapply dsteps_mono; [exact H|]. intros a l w' _ [Hq [Ht HF]].
  split; [by apply qseg_rseg|]. split_and!; [by apply Hq|by apply Hq|done].
Qed.

Lemma rsteps_header f w :
  rsteps (d_header_map f) w (λ _ l w', l = [] ∧ dw_cache w' = dw_cache w ∧ dw_header w' = f (dw_header w)).
Proof.
  exists []. rewrite app_nil_r. split; [done|]. split; [|done]. split; [|intros _; apply Forall_nil_2|by destruct (d_Recorder cfg)|done].
  apply (Inv_ext std cfg _ _ []); [by rewrite app_nil_r|done..].
Qed.

Lemma rsteps_respond status body w :
  rsteps (d_respond status body) w (λ _ l w', l = [DRespond (mkResp status (dw_header w) body)] ∧ dw_cache w' = dw_cache w).
Proof.
  eexists. split; [reflexivity|]. split; [|done].
  split; [by eapply Inv_ext|intros _; by apply Forall_singleton|by destruct (d_Recorder cfg)|done].
Qed.

(** The outcomes and the responses of a stretch, in the order they come. *)
Definition d_visible_of (c : DCall) : option (Event + Response) :=
  match c with DOutcome ev => Some (inl ev) | DRespond rs => Some (inr rs) | _ => None end.
Definition d_visible l : list (Event + Response) := omap d_visible_of l.

Lemma visible_app l l' : d_visible (l ++ l') = d_visible l ++ d_visible l'.
Proof. apply omap_app. Qed.

Definition vis_responses (vis : list (Event + Response)) : list Response :=
  omap (λ x, match x with inr rs => Some rs | inl _ => None end) vis.

Lemma vis_responses_app vis vis' : vis_responses (vis ++ vis') = vis_responses vis ++ vis_responses vis'.
Proof. apply omap_app. Qed.

Lemma vis_responses_inr rs vis : vis_responses (inr rs :: vis) = rs :: vis_responses vis.
Proof. done. Qed.

Lemma visible_responses l : d_responses l = vis_responses (d_visible l).
Proof. induction l as [|[] l IH]; simpl; rewrite ?IH; done. Qed.

Lemma quiet_visible l l' : d_quiet l → d_visible (l ++ l') = d_visible l'.
Proof.
  intros (Ho & _ & Hr). rewrite visible_app. enough (d_visible l = []) as -> by done.
  induction l as [|[] l IH]; simpl in *; try done; by apply IH.
Qed.

Lemma quiet_visible_nil l : d_quiet l → d_visible l = [].
Proof. intros H. rewrite <- (app_nil_r l). by rewrite quiet_visible. Qed.

(** What an outcome says but for the version and its details. *)
Definition d_core (ev : Event) : string * string * string * Verdict * string * Z * string :=
  (ev_RequestID ev, ev_Ecosystem ev, ev_Package ev, ev_Verdict ev, ev_Gate ev, ev_HTTPStatus ev, ev_Reason ev).

Lemma d_record_steps id pp start verdict gateName reason status mod_ w :
  (∀ ev, d_core (mod_ ev) = d_core ev) →
  rsteps (d_record env cfg id pp start verdict gateName reason status mod_) w (λ _ l w',
    dw_cache w' = dw_cache w ∧ dw_header w' = dw_header w ∧
    ∃ ev, d_visible l = [inl ev] ∧ d_core ev = (id, "docker", pp_Repo pp, verdict, gateName, status, reason)).
Proof.
  intros Hmod. unfold d_record. eapply rsteps_seq.
  { apply qsteps_rsteps. eapply qsteps_mono; [apply (d_Now_isteps std env cfg)|]. intros now l w' _ _ [[_ [Hc Ht]] _].
    split; [exact Ht|]. instantiate (1 := λ _ _ w', dw_cache w' = dw_cache w). done. }
  intros now l1 w1 _ _ (Hq1 & Hh1 & Hc1). eapply rsteps_seq.
  { apply qsteps_rsteps. eapply qsteps_mono; [apply (d_Now_isteps std env cfg)|]. intros now' l w' _ _ [[_ [Hc Ht]] _].
    split; [exact Ht|]. instantiate (1 := λ _ _ w', dw_cache w' = dw_cache w1). done. }
  intros now' l2 w2 _ _ (Hq2 & Hh2 & Hc2). cbv zeta.
  set (ev := mod_ _). assert (d_core ev = (id, "docker", pp_Repo pp, verdict, gateName, status, reason)) as Hcore
    by (unfold ev; by rewrite Hmod).
  exists (DOutcome ev :: if d_Recorder cfg then [DRecord ev] else []).
  assert (dw_trace ((_ <- dlog (DOutcome ev);; if d_Recorder cfg then dlog (DRecord ev) else ret_st tt) w2).2 =
          dw_trace w2 ++ DOutcome ev :: (if d_Recorder cfg then [DRecord ev] else [])) as Htr.
  { unfold bind_st, dlog, ret_st. destruct (d_Recorder cfg); cbn [fst snd dw_trace]; [by rewrite <- app_assoc|done]. }
  split; [exact Htr|].
  assert (dw_cache ((_ <- dlog (DOutcome ev);; if d_Recorder cfg then dlog (DRecord ev) else ret_st tt) w2).2 = dw_cache w2 ∧
          dw_header ((_ <- dlog (DOutcome ev);; if d_Recorder cfg then dlog (DRecord ev) else ret_st tt) w2).2 = dw_header w2 ∧
          dw_temps ((_ <- dlog (DOutcome ev);; if d_Recorder cfg then dlog (DRecord ev) else ret_st tt) w2).2 = dw_temps w2) as (Hc & Hh & Ht)
    by (rewrite bind_st_run; unfold dlog; by destruct (d_Recorder cfg)).
  split.
  - split; [|intros _; destruct (d_Recorder cfg); repeat constructor|by destruct (d_Recorder cfg)|done].
    eapply Inv_ext; [exact Htr|done|]. rewrite bind_st_run; unfold dlog; by destruct (d_Recorder cfg).
  - split_and!; [congruence|congruence|]. exists ev. split; [|done].
    rewrite !quiet_visible by done. by destruct (d_Recorder cfg).
Qed.

Definition is_stream (b : Body) : bool := match b with BStream _ _ => true | _ => false end.

Lemma d_writeError_steps status code msg w :
  rsteps (d_writeError status code msg) w (λ _ l w', dw_cache w' = dw_cache w ∧
    ∃ rs, d_visible l = [inr rs] ∧ rs_Status rs = status ∧ is_stream (rs_Body rs) = false).
Proof.
  unfold d_writeError, d_header_set. eapply rsteps_seq; [apply rsteps_header|].
  intros _ l1 w1 _ _ (-> & Hc1 & _). eapply rsteps_mono; [apply rsteps_respond|].
  intros _ l2 w2 _ (-> & Hc2). split; [congruence|]. by eexists.
Qed.

(** ** Answers to a manifest request *)

(** A quiet stretch that leaves the cache alone. *)
Lemma isteps_rsteps {A} (m : M A) w (F : A → list DCall → Prop) :
  isteps std cfg m w F →
  rsteps m w (λ a l w', d_quiet l ∧ dw_header w' = dw_header w ∧ dw_cache w' = dw_cache w ∧ F a l).
Proof.
  intros H. eapply rsteps_mono.
  - apply (qsteps_rsteps m w (λ a l w', dw_cache w' = dw_cache w ∧ F a l)).
    eapply qsteps_mono; [exact H|]. intros a l w' _ _ [[_ [Hc Ht]] HF]. done.
  - intros a l w' _ (? & ? & ? & ?). done.
Qed.

(** The status and the reason a failed evaluation is answered with: 404 when
    no mirror has the manifest, otherwise what throttled mirrors call for,
    otherwise 502. *)
Definition failure_status (err : error) (status : Z) (reason : string) : Prop :=
  if errors_Is err SErrManifestNotFound then status = StatusNotFound ∧ reason = "manifest_not_found"
  else ∃ lookup, (denv_ok env → lookup_ok lookup) ∧
    match AttemptsFrom err with
    | Some atts =>
        match Throttled (url_Parse std) atts lookup with
        | Some (st, _) => status = st ∧ reason = "upstream_throttled"
        | None => status = StatusBadGateway ∧ reason = "gate_error"
        end
    | None => status = StatusBadGateway ∧ reason = "gate_error"
    end.

Lemma failure_status_error err status reason : denv_ok env → failure_status err status reason → 400 ≤ status.
Proof.
  intros He. unfold failure_status. destruct (errors_Is _ _); [intros [-> _]; unfold StatusNotFound; lia|].
  intros (lookup & Hl & H). specialize (Hl He). destruct (AttemptsFrom err) as [atts|].
  - destruct (Throttled _ _ _) as [[st retry]|] eqn:Ht; destruct H as [-> _]; [|unfold StatusBadGateway; lia].
    apply Throttled_status in Ht; [lia|done].
  - destruct H as [-> _]. unfold StatusBadGateway; lia.
Qed.

Lemma gateFailure_isteps err w :
  isteps std cfg (gateFailure std env err) w (λ f _, failure_status err (go_status f) (go_reason f)).
Proof.
  unfold gateFailure, failure_status. destruct (errors_Is err SErrManifestNotFound); [by apply isteps_ret|].
  eapply isteps_seq.
  { apply dask_isteps with (F := λ t _, denv_ok env → lookup_ok t); [done|]. intros Hok. apply Hok. }
  intros t l w' _ Hok. destruct (AttemptsFrom err) as [atts|]; simpl.
  - destruct (Throttled (url_Parse std) atts t) as [[st retry]|] eqn:Ht; apply isteps_ret; exists t; rewrite Ht; done.
  - destruct (Throttled (url_Parse std) [] t) as [[st retry]|]; apply isteps_ret; by exists t.
Qed.

Lemma displayVersion_isteps pp digest w : isteps std cfg (displayVersion cfg pp digest) w (λ _ _, True).
Proof.
  unfold displayVersion. destruct (isDigestRef _); cbn [negb]; [|by apply isteps_ret].
  destruct (d_Tags cfg); [|by apply isteps_ret].
  exists []. rewrite app_nil_r. split; [done|]. split; [apply qseg_nil|done].
Qed.

(** One outcome, then one response of the same status, with no artifact byte. *)
Definition refused id (pp : ParsedPath) (verdict : Verdict) (gateName reason : string) (status : Z)
    (vis : list (Event + Response)) : Prop :=
  ∃ ev rs, vis = [inl ev; inr rs] ∧ rs_Status rs = status ∧ is_stream (rs_Body rs) = false ∧
    d_core ev = (id, "docker", pp_Repo pp, verdict, gateName, status, reason).

Lemma record_then_error id pp start verdict gateName reason status mod_ code msg (pre : M unit) w :
  (∀ ev, d_core (mod_ ev) = d_core ev) →
  (∀ w', rsteps pre w' (λ _ l _, l = [])) →
  rsteps (_ <- d_record env cfg id pp start verdict gateName reason status mod_;; _ <- pre;;
          d_writeError status code msg) w
    (λ _ l _, refused id pp verdict gateName reason status (d_visible l)).
Proof.
  intros Hmod Hpre. eapply rsteps_seq; [by apply d_record_steps|].
  intros _ l1 w1 _ _ (_ & _ & ev & Ho1 & Hcore). eapply rsteps_seq; [apply Hpre|].
  intros _ l2 w2 _ _ ->. eapply rsteps_mono; [apply d_writeError_steps|].
  intros _ l3 w3 _ (_ & rs & Hr3 & ? & ?). exists ev, rs. by rewrite !visible_app, Ho1, Hr3.
Qed.

Lemma SetRetryAfter_rsteps d w : rsteps (d_SetRetryAfter d) w (λ _ l _, l = []).
Proof.
  unfold d_SetRetryAfter, d_header_set. destruct (SetRetryAfter d); [|by apply rsteps_ret].
  eapply rsteps_mono; [apply rsteps_header|]. intros _ l w' _ [? _]. done.
Qed.

Lemma no_mod_core ev : d_core (no_mod ev) = d_core ev.
Proof. done. Qed.

Lemma answer_error_steps id r pp start digest err w :
  rsteps (answer_manifest std env cfg id r pp start (digest, Err err)) w
    (λ _ l _, ∃ status reason, failure_status err status reason ∧
       refused id pp VerdictError GateImageScan reason status (d_visible l)).
Proof.
  cbn [answer_manifest]. eapply rsteps_seq; [apply isteps_rsteps, gateFailure_isteps|].
  intros f l1 w1 _ _ (Hq1 & _ & _ & Hf).
  eapply rsteps_mono.
  - apply (record_then_error id pp start _ _ _ _ no_mod _ _
      (if 0 <? go_retry f then d_SetRetryAfter (go_retry f) else ret_st tt)); [done|].
    intros w'. destruct (0 <? go_retry f); [apply SetRetryAfter_rsteps|by apply rsteps_ret].
  - intros ? l w' _ Hr. exists (go_status f), (go_reason f). by rewrite quiet_visible.
Qed.

Lemma recordBlock_steps id pp start dv v w :
  rsteps (recordBlock env cfg id pp start dv v) w (λ _ l w',
    ∃ ev, d_visible l = [inl ev] ∧
      d_core ev = (id, "docker", pp_Repo pp, VerdictBlock, gateForBlockedBy (gv_BlockedBy v), StatusForbidden, gv_Reason v)).
Proof.
  unfold recordBlock. eapply rsteps_mono; [by apply d_record_steps|].
  intros _ l w' _ (_ & _ & ?). done.
Qed.

Lemma answer_block_steps id r pp start digest v w :
  gv_Allowed v = false →
  rsteps (answer_manifest std env cfg id r pp start (digest, Ok v)) w
    (λ _ l _, refused id pp VerdictBlock (gateForBlockedBy (gv_BlockedBy v)) (gv_Reason v) StatusForbidden (d_visible l)).
Proof.
  intros Ha. cbn [answer_manifest]. eapply rsteps_seq; [apply isteps_rsteps, displayVersion_isteps|].
  intros dv l1 w1 _ _ (Hq1 & _ & _ & _). rewrite Ha. cbn [negb].
  eapply rsteps_seq; [apply recordBlock_steps|]. intros _ l2 w2 _ _ (ev & Ho2 & Hcore).
  eapply rsteps_mono; [apply d_writeError_steps|]. intros _ l3 w3 _ (_ & rs & Hr3 & ? & ?).
  exists ev, rs. by rewrite quiet_visible, visible_app, Ho2, Hr3.
Qed.

(** What is recorded of an allowed image: nothing for one that passes
    through, otherwise one pass. *)
Definition passed id (pp : ParsedPath) (v : GateVerdict) (vis : list (Event + Response)) : Prop :=
  if gv_Passthrough v then vis = []
  else ∃ ev, vis = [inl ev] ∧
    d_core ev = (id, "docker", pp_Repo pp, (pass_label v).1.1, (pass_label v).1.2, StatusOK, (pass_label v).2).

(** An allowed image's answer: the response, then the pass - none when the
    client went away before its last byte.  The body is a file of the cache as
    it was at [w]. *)
Definition served id (pp : ParsedPath) digest (v : GateVerdict) w l : Prop :=
  ∃ rs vis, d_visible l = inr rs :: vis ∧ rs_Status rs = StatusOK ∧
    Header_Get (rs_Header rs) "Docker-Content-Digest" = digest ∧
    (∀ d n, rs_Body rs = BStream d n → gv_ManifestPath v ≠ "" ∧ image_file (dw_cache w) (gv_ManifestPath v) = Some d) ∧
    (passed id pp v vis ∨ vis = [] ∧ ∃ n, DCopied n false ∈ l).

Lemma record_pass_steps id pp start dv v w :
  rsteps (record_pass env cfg id pp start dv v) w (λ _ l w', passed id pp v (d_visible l)).
Proof.
  unfold record_pass, passed. destruct (gv_Passthrough v); [by apply rsteps_ret|].
  destruct (pass_label v) as [[verdict g] reason]. eapply rsteps_mono; [by apply d_record_steps|].
  intros _ l w' _ (_ & _ & ?). done.
Qed.

Lemma remember_attestation_steps pp v w :
  rsteps (remember_attestation cfg pp v) w (λ _ l w', d_quiet l ∧ dw_header w' = dw_header w ∧
    ∀ p, image_file (dw_cache w') p = image_file (dw_cache w) p).
Proof.
  unfold remember_attestation. destruct (_ && _); [|by apply rsteps_ret].
  eapply rsteps_seq.
  { apply qsteps_rsteps. eapply qsteps_mono; [apply d_open_steps|].
    intros d l w' _ _ ((_ & Ht & _) & _ & Hf & _). split; [exact Ht|].
    instantiate (1 := λ _ _ w', ∀ p, image_file (dw_cache w') p = image_file (dw_cache w) p). exact Hf. }
  intros d l1 w1 _ _ (Hq1 & Hh1 & Hf1). destruct d as [body|]; [|apply rsteps_ret; by rewrite app_nil_r].
  exists []. rewrite !app_nil_r. split; [done|]. split; [|done].
  split; [|intros _; apply Forall_nil_2|by destruct (d_Recorder cfg)|done].
  intros (? & ? & ? & Hab & Hats). unfold on_attest. cbn [snd].
  destruct (remember_ok (pp_Repo pp) body (dw_attest w1) Hab) as (Hab' & _ & Hin).
  split_and!; [done..|]. intros k Hk. destruct (Hin k Hk) as [?|(dg & -> & Ha)]; [by apply Hats|].
  by exists (pp_Repo pp), body, dg.
Qed.

Lemma d_copy_steps data w :
  rsteps (d_copy env data) w (λ r l w', d_quiet l ∧ dw_header w' = dw_header w ∧ dw_cache w' = dw_cache w ∧
    DCopied r.1 r.2 ∈ l).
Proof.
  unfold d_copy. eapply rsteps_mono; [apply isteps_rsteps, dask_isteps with (F := λ r l, DCopied r.1 r.2 ∈ l)|].
  - done.
  - by left.
  - intros r l w' _ (? & ? & ? & ?). done.
Qed.

Lemma open_rsteps path w :
  rsteps (d_open path) w (λ d l w', d_quiet l ∧ dw_header w' = dw_header w ∧
    (∀ d', d = Some d' → path ≠ "" ∧ image_file (dw_cache w) path = Some d') ∧ DOpen path d ∈ l).
Proof.
  apply qsteps_rsteps. eapply qsteps_mono; [apply d_open_steps|].
  intros d l w' _ _ ((_ & Ht & _) & _ & _ & Hd & Hin). done.
Qed.

(** The headers an allowed image leaves with. *)
Definition digest_header digest w : Prop := Header_Get (dw_header w) "Docker-Content-Digest" = digest.

(** An allowed image whose body cannot be opened. *)
Definition unreadable id (pp : ParsedPath) (v : GateVerdict) l : Prop :=
  refused id pp VerdictError GateImageScan "cache_read_error" StatusInternalServerError (d_visible l) ∧
  DOpen (gv_ManifestPath v) None ∈ l.

Lemma serve_body_steps id r pp start digest dv v w :
  digest_header digest w →
  rsteps (if rq_Method r =? "HEAD" then
            _ <- d_respond StatusOK BNone;; record_pass env cfg id pp start dv v
          else
            f <- d_open (gv_ManifestPath v);;
            match f with
            | None =>
                _ <- d_record env cfg id pp start VerdictError GateImageScan "cache_read_error"
                       StatusInternalServerError (with_version dv);;
                d_writeError StatusInternalServerError "UNAVAILABLE" "cache read error"
            | Some data =>
                copied <- d_copy env data;;
                _ <- d_respond StatusOK (BStream data copied.1);;
                if copied.2 then record_pass env cfg id pp start dv v else ret_st tt
            end)%string w
    (λ _ l _, unreadable id pp v l ∨ served id pp digest v w l).
Proof.
  intros Hdg. destruct (rq_Method r =? "HEAD")%string.
  - eapply rsteps_seq; [apply rsteps_respond|]. intros _ l1 w1 _ _ (-> & _).
    eapply rsteps_mono; [apply record_pass_steps|]. intros ? l2 w2 _ Hout. right.
    eexists _, _. split_and!; [reflexivity|done|done|done|by left].
  - eapply rsteps_seq; [apply open_rsteps|]. intros f l1 w1 _ _ (Hq1 & Hh1 & Hd1 & Hin1). destruct f as [data|].
    + destruct (Hd1 data eq_refl) as [Hp Hdata]. eapply rsteps_seq; [apply d_copy_steps|].
      intros [n okc] l2 w2 _ _ (Hq2 & Hh2 & _ & Hin). eapply rsteps_seq; [apply rsteps_respond|].
      intros _ l3 w3 _ _ (-> & _).
      eapply rsteps_mono with (F := λ _ l4 _, passed id pp v (d_visible l4) ∨ d_visible l4 = [] ∧ okc = false).
      * cbn [snd]. destruct okc; [|apply rsteps_ret; by right].
        eapply rsteps_mono; [apply record_pass_steps|]. intros ? l4 w4 _ Hout. by left.
      * intros _ l4 w4 _ Hout. right. eexists _, _.
        rewrite !quiet_visible by done. split_and!; [reflexivity|done| | |].
        -- simpl. unfold digest_header in Hdg. by rewrite Hh2, Hh1.
        -- intros d m [= -> ->]. done.
        -- destruct Hout as [?|[? ->]]; [by left|right]. split; [done|]. exists n. set_solver.
    + eapply rsteps_mono.
      * apply (record_then_error id pp start VerdictError GateImageScan "cache_read_error" StatusInternalServerError
          (with_version dv) "UNAVAILABLE" "cache read error" (ret_st tt)); [done|]. intros w'. by apply rsteps_ret.
      * intros ? l w' _ Hr. left. split; [by rewrite quiet_visible|set_solver].
Qed.

Lemma answer_allowed_steps id r pp start digest v w :
  gv_Allowed v = true →
  rsteps (answer_manifest std env cfg id r pp start (digest, Ok v)) w
    (λ _ l _, unreadable id pp v l ∨ served id pp digest v w l).
Proof.
  intros Ha. cbn [answer_manifest]. eapply rsteps_seq; [apply isteps_rsteps, displayVersion_isteps|].
  intros dv l1 w1 _ _ (Hq1 & _ & Hc1 & _). rewrite Ha. cbn [negb]. unfold serve_allowed, d_header_set.
  eapply rsteps_seq; [apply rsteps_header|]. intros _ l2 w2 _ _ (-> & Hc2 & Hh2).
  eapply rsteps_seq.
  { instantiate (1 := λ _ l w', l = [] ∧ dw_cache w' = dw_cache w2 ∧ digest_header digest w').
    assert (digest_header digest w2) as Hdg by (unfold digest_header; by rewrite Hh2, Header_Get_Set).
    destruct (negb _).
    - eapply rsteps_mono; [apply rsteps_header|]. intros _ l w' _ (-> & ? & Hh). split_and!; [done..|].
      unfold digest_header in *. rewrite Hh, Header_Get_Set_ne; [done|]. vm_compute. done.
    - by apply rsteps_ret. }
  intros _ l3 w3 _ _ (-> & Hc3 & Hdg3). eapply rsteps_seq; [apply remember_attestation_steps|].
  intros _ l4 w4 _ _ (Hq4 & Hh4 & Hf4). eapply rsteps_mono.
  - apply (serve_body_steps id r pp start digest dv v). unfold digest_header in *. by rewrite Hh4.
  - intros ? l w' _ Hor. cbn [app]. destruct Hor as [[Hr Hin]|Hs]; [left|right].
    + split; [by rewrite !quiet_visible|set_solver].
    + destruct Hs as (rs & vis & Hv & ? & ? & Hb & Hout). exists rs, vis. rewrite !quiet_visible by done.
      split_and!; [done..| |].
      * intros d n Hd. destruct (Hb d n Hd) as [? Hfile]. split; [done|]. rewrite Hf4, Hc3, Hc2, Hc1 in Hfile. done.
      * destruct Hout as [?|[? [n ?]]]; [by left|right]. split; [done|exists n; set_solver].
Qed.

(** What a request for a manifest ends in, by the verdict. *)
Definition manifest_answer id (pp : ParsedPath) w (res : string * result error GateVerdict) l : Prop :=
  match res.2 with
  | Err e => ∃ status reason, failure_status e status reason ∧
      refused id pp VerdictError GateImageScan reason status (d_visible l)
  | Ok v =>
      if gv_Allowed v then unreadable id pp v l ∨ served id pp res.1 v w l
      else refused id pp VerdictBlock (gateForBlockedBy (gv_BlockedBy v)) (gv_Reason v) StatusForbidden (d_visible l)
  end.

Lemma answer_manifest_steps id r pp start res w :
  rsteps (answer_manifest std env cfg id r pp start res) w (λ _ l _, manifest_answer id pp w res l).
Proof.
  destruct res as [digest [v|e]]; unfold manifest_answer; cbn [fst snd]; [|by apply answer_error_steps].
  destruct (gv_Allowed v) eqn:Ha; [by apply answer_allowed_steps|by apply answer_block_steps].
Qed.

(** What is recorded of a scan whose client was answered before. *)
Definition late_outcome id (pp : ParsedPath) (res : string * result error GateVerdict) (vis : list (Event + Response)) : Prop :=
  match res.2 with
  | Err e => ∃ ev status reason, vis = [inl ev] ∧ failure_status e status reason ∧
      d_core ev = (id, "docker", pp_Repo pp, VerdictError, GateImageScan, status, reason)
  | Ok v =>
      if gv_Allowed v then
        if gv_Passthrough v then vis = []
        else ∃ ev, vis = [inl ev] ∧
          d_core ev = (id, "docker", pp_Repo pp, VerdictPass, GateImageScan, StatusOK, gv_Reason v)
      else ∃ ev, vis = [inl ev] ∧
        d_core ev = (id, "docker", pp_Repo pp, VerdictBlock, gateForBlockedBy (gv_BlockedBy v), StatusForbidden, gv_Reason v)
  end.

Lemma recordWhenDone_steps id pp start res w :
  rsteps (recordWhenDone std env cfg id pp start res) w (λ _ l _, late_outcome id pp res (d_visible l)).
Proof.
  destruct res as [digest [v|e]]; cbn [recordWhenDone].
  - eapply rsteps_seq; [apply isteps_rsteps, displayVersion_isteps|]. intros dv l1 w1 _ _ (Hq1 & _).
    eapply rsteps_mono with (F := λ _ l _, late_outcome id pp (digest, Ok v) (d_visible l));
      [|intros ? l w' _ Hl; by rewrite quiet_visible].
    unfold late_outcome; cbn [snd]. destruct (gv_Allowed v); cbn [negb].
    + destruct (gv_Passthrough v); cbn [negb]; [by apply rsteps_ret|].
      eapply rsteps_mono; [by apply d_record_steps|]. intros _ l w' _ (_ & _ & ?). done.
    + apply recordBlock_steps.
  - eapply rsteps_seq; [apply isteps_rsteps, gateFailure_isteps|]. intros f l1 w1 _ _ (Hq1 & _ & _ & Hf).
    eapply rsteps_mono; [by apply d_record_steps|]. intros _ l w' _ (_ & _ & ev & ? & ?).
    exists ev, (go_status f), (go_reason f). by rewrite quiet_visible.
Qed.

Lemma d_Ensure_isteps r w : isteps std cfg (d_Ensure env r) w (λ _ _, True).
Proof.
  unfold d_Ensure. destruct (negb _); [by apply isteps_ret|].
  eapply isteps_seq; [by apply dask_isteps with (F := λ _ _, True)|]. intros id l w' _ _. by apply isteps_ret.
Qed.

(** Whether the client's wait ran out before the gate was done. *)
Definition wait_over (late : bool) l : Prop :=
  if late then 0 < d_ClientWait cfg ∧ DLate true ∈ l else d_ClientWait cfg ≤ 0 ∨ DLate false ∈ l.

Lemma wait_over_mono late l l' : l ⊆ l' → wait_over late l → wait_over late l'.
Proof. intros Hs. destruct late; simpl; [intros [? ?]; split; auto|intros [?|?]; auto]. Qed.

Lemma d_pending_isteps w : isteps std cfg (d_pending env cfg) w (λ late l, wait_over late l).
Proof.
  unfold d_pending. destruct (_ <=? _) eqn:Hw; bool_to_prop; [apply isteps_ret; by left|].
  apply dask_isteps; [done|]. destruct (denv_Late env _); simpl; [split; [lia|by left]|right; by left].
Qed.

(** A manifest request from [w]: the gate evaluates the reference, and the
    client gets its verdict, or was told before to come back. *)
Definition manifest_request (pp : ParsedPath) w l : Prop :=
  ∃ id l0 l1 l2 w1 res, l = l0 ++ l1 ++ l2 ∧ dw_trace w1 = dw_trace w ++ l0 ++ l1 ∧ d_quiet l1 ∧
    evaluated std env cfg (pp_Repo pp) (pp_Reference pp) l1 w1 res ∧ serves_vouched std cfg (pp_Repo pp) res w1 ∧
    ((wait_over false l0 ∧ d_quiet l0 ∧ manifest_answer id pp w1 res l2) ∨
     (wait_over true l0 ∧ refused id pp VerdictError GateImageScan "scan_in_progress" StatusServiceUnavailable (d_visible l0) ∧
      late_outcome id pp res (d_visible l2))).

Lemma Evaluate_rsteps repo ref w :
  limit_ok cfg → repo_ok repo → Inv w →
  rsteps (gate_Evaluate std env cfg repo ref) w (λ res l w', d_quiet l ∧
    evaluated std env cfg repo ref l w' res ∧ serves_vouched std cfg repo res w').
Proof.
  intros Hlim Hrepo Hinv. eapply dsteps_mono; [by apply gate_Evaluate_steps|]. intros res l w' _ [Hq [Ht [Hev Hsv]]].
  split; [by apply qseg_rseg|]. split_and!; [by apply Hq|done|done].
Qed.

Lemma serveManifest_steps r pp w :
  limit_ok cfg → repo_ok (pp_Repo pp) → Inv w →
  rsteps (serveManifest std env cfg r pp) w (λ _ l _, manifest_request pp w l).
Proof.
  intros Hlim Hrepo Hinv. unfold serveManifest.
  eapply rsteps_seq; [apply isteps_rsteps, d_Ensure_isteps|]. intros [r' id] l1 w1 Ht1 Hs1 (Hq1 & _).
  eapply rsteps_seq; [apply isteps_rsteps, d_Now_isteps|]. intros start l2 w2 Ht2 Hs2 (Hq2 & _).
  eapply rsteps_seq; [apply isteps_rsteps, d_pending_isteps|]. intros pending l3 w3 Ht3 Hs3 (Hq3 & _ & _ & Hw3).
  assert (Inv w3) as Hinv3 by (apply Hs3, Hs2, Hs1, Hinv).
  assert (d_quiet (l1 ++ l2 ++ l3)) as Hq by auto using d_quiet_app.
  assert (dw_trace w3 = dw_trace w ++ (l1 ++ l2 ++ l3)) as Ht by (by rewrite Ht3, Ht2, Ht1, <- !app_assoc).
  destruct pending.
  - eapply rsteps_seq.
    { apply (record_then_error id pp start VerdictError GateImageScan "scan_in_progress" StatusServiceUnavailable
        no_mod "UNAVAILABLE" "image scan in progress; retry shortly" (d_SetRetryAfter scanInProgressRetryAfter)); [done|].
      intros w'. apply SetRetryAfter_rsteps. }
    intros ? l4 w4 Ht4 Hs4 Hrefused. eapply rsteps_seq; [apply Evaluate_rsteps; [done..|by apply Hs4]|].
    intros res l5 w5 Ht5 _ (Hq5 & Hev & Hsv). eapply rsteps_mono; [by apply recordWhenDone_steps|].
    intros ? l6 w6 _ Hlate. exists id, ((l1 ++ l2 ++ l3) ++ l4), l5, l6, w5, res.
    split_and!; [by rewrite <- !app_assoc|by rewrite Ht5, Ht4, Ht, <- !app_assoc|done..|].
    right. split_and!; [eapply wait_over_mono; [|exact Hw3]; set_solver|by rewrite quiet_visible|done].
  - eapply rsteps_seq; [by apply Evaluate_rsteps|].
    intros res l5 w5 Ht5 _ (Hq5 & Hev & Hsv). eapply rsteps_mono; [by apply answer_manifest_steps|].
    intros ? l6 w6 _ Hans. exists id, (l1 ++ l2 ++ l3), l5, l6, w5, res.
    split_and!; [by rewrite <- !app_assoc|by rewrite Ht5, Ht, <- !app_assoc|done..|].
    left. split_and!; [eapply wait_over_mono; [|exact Hw3]; set_solver|done..].
Qed.

(** ** Blobs *)

Definition attestation_verified digest (d : bytes) : Prop :=
  Z.of_nat (length d) ≤ maxAttestationBlobBytes ∧
  digest = "sha256:" +:+ hex_EncodeToString (sha256_Sum std d).

Lemma fetchAttestationBlob_isteps repo digest w :
  isteps std cfg (fetchAttestationBlob std env cfg repo digest) w
    (λ r _, ∀ d, r = Ok d → attestation_verified digest d).
Proof.
  unfold fetchAttestationBlob. destruct (strip_prefix _ _) as [want|] eqn:Hp; [|by apply isteps_ret].
  eapply isteps_seq; [apply FetchBlob_isteps|]. intros rc l w' _ _. destruct rc as [rc|e]; [|by apply isteps_ret].
  destruct (_ <? up_Length rc); [by apply isteps_ret|]. destruct (limited_read _ _ _) as [buf readErr].
  destruct readErr; [by apply isteps_ret|]. destruct (_ <? Z.of_nat (length buf)) eqn:Hl; [by apply isteps_ret|].
  destruct (hex_EncodeToString _ =? of_bytes want)%string eqn:Hh; cbn [negb]; apply isteps_ret; intros d ?; simplify_eq.
  bool_to_prop. split; [done|]. apply strip_prefix_Some in Hp. rewrite Hh.
  apply to_bytes_inj. by rewrite Hp, to_bytes_app, to_of_bytes.
Qed.

(** Where the bytes of a blob response come from: the cache, the AV engine
    having vouched for them, or - for a blob an attestation manifest lists -
    a mirror, verified against its digest.  The list and the flights go by
    repository@digest. *)
Definition blob_source (pp : ParsedPath) (d : bytes) tr : Prop :=
  let key := pp_Repo pp +:+ "@" +:+ pp_Reference pp in
  blob_vouched cfg (pp_Reference pp) d tr ∨
  ((∃ repo body digest, repo +:+ "@" +:+ digest = key ∧ attested body digest) ∧
   ∃ repo digest, repo +:+ "@" +:+ digest = key ∧ attestation_verified digest d).

Definition blob_answer (pp : ParsedPath) l w' : Prop :=
  ∃ rs, d_visible l = [inr rs] ∧
    ∀ d n, rs_Body rs = BStream d n → rs_Status rs = StatusOK ∧ blob_source pp d (dw_trace w').

Lemma blob_error pp status code msg w :
  rsteps (d_writeError status code msg) w (λ _ l w', blob_answer pp l w').
Proof.
  eapply rsteps_mono; [apply d_writeError_steps|]. intros _ l w' _ (_ & rs & Hr & _ & Hb).
  exists rs. split; [done|]. intros d n Hd. by rewrite Hd in Hb.
Qed.

Lemma blob_answer_app pp l l' w' : d_quiet l → blob_answer pp l' w' → blob_answer pp (l ++ l') w'.
Proof. intros Hq (rs & Hr & Hb). exists rs. by rewrite quiet_visible. Qed.

(** A stream answered after quiet steps and headers. *)
Lemma stream_answer pp status h d n l l' w' :
  d_quiet l → l' = [DRespond (mkResp status h (BStream d n))] → status = StatusOK →
  blob_source pp d (dw_trace w') → blob_answer pp (l ++ l') w'.
Proof.
  intros Hq -> -> Hs. eexists. split; [by rewrite quiet_visible|]. intros d' n' [= <- _]. done.
Qed.

Lemma flight_blob_key key led own :
  own.1 +:+ "@" +:+ own.2 = key → (flight_blob key led own).1 +:+ "@" +:+ (flight_blob key led own).2 = key.
Proof. intros H. unfold flight_blob. destruct led as [ld|]; [|done]. destruct (_ =? _)%string eqn:He; bool_to_prop; done. Qed.

Lemma serveAttestationBlob_steps r pp w :
  (∃ repo body digest, repo +:+ "@" +:+ digest = pp_Repo pp +:+ "@" +:+ pp_Reference pp ∧ attested body digest) →
  rsteps (serveAttestationBlob std env cfg r pp) w (λ _ l w', blob_answer pp l w').
Proof.
  intros Hat. unfold serveAttestationBlob. cbv zeta.
  set (key := pp_Repo pp +:+ "@" +:+ pp_Reference pp).
  eapply rsteps_seq; [by apply isteps_rsteps, dask_isteps with (F := λ _ _, True)|]. intros led l1 w1 _ _ (Hq1 & _).
  pose proof (flight_blob_key key led (pp_Repo pp, pp_Reference pp) eq_refl) as Hkey.
  destruct (flight_blob key led _) as [repo digest]. cbn [fst snd] in Hkey.
  eapply rsteps_seq; [apply isteps_rsteps, fetchAttestationBlob_isteps|].
  intros res l2 w2 _ _ (Hq2 & _ & _ & HP). destruct res as [body|err].
  2:{ eapply rsteps_mono with (F := λ _ l w', blob_answer pp l w').
      - destruct (errors_Is err SErrAttestationBlobRejected); apply blob_error.
      - intros ? l w3 _ H. by do 2 (apply blob_answer_app; [done|]). }
  unfold d_header_set. do 3 (eapply rsteps_seq; [apply rsteps_header|]; intros _ ? ? _ _ (-> & _ & _)).
  cbn [app]. destruct (rq_Method r =? "HEAD")%string.
  - eapply rsteps_mono; [apply rsteps_respond|]. intros _ l w4 _ (-> & _).
    eexists. split; [by rewrite !quiet_visible|]. intros d n. done.
  - eapply rsteps_seq; [apply d_copy_steps|]. intros cp l3 w4 _ _ (Hq3 & _).
    eapply rsteps_mono; [apply rsteps_respond|]. intros _ l4 w5 _ (Hl4 & _).
    rewrite !app_assoc. eapply stream_answer; [by auto using d_quiet_app|exact Hl4|done|]. right. split; [done|].
    exists repo, digest. split; [done|by apply HP].
Qed.

Lemma serve_cached_blob_steps pp path w :
  (∀ d, image_file (dw_cache w) path = Some d → blob_vouched cfg (pp_Reference pp) d (dw_trace w)) →
  rsteps (serve_cached_blob env path (pp_Reference pp)) w (λ _ l w', blob_answer pp l w').
Proof.
  intros Hv. unfold serve_cached_blob. eapply rsteps_seq; [apply open_rsteps|].
  intros f l1 w1 Ht1 _ (Hq1 & _ & Hd & _). destruct f as [data|].
  2:{ eapply rsteps_mono; [apply (blob_error pp)|]. intros ? l w' _ H. by apply blob_answer_app. }
  destruct (Hd data eq_refl) as [_ Hf]. apply Hv in Hf. unfold d_header_set.
  eapply rsteps_seq; [apply rsteps_header|]. intros _ l2 w2 Ht2 _ (-> & _ & _).
  eapply rsteps_seq; [apply rsteps_header|]. intros _ l3 w3 Ht3 _ (-> & _ & _).
  eapply rsteps_seq; [by apply isteps_rsteps, dask_isteps with (F := λ _ _, True)|].
  intros st l4 w4 Ht4 _ (Hq4 & _). eapply rsteps_seq with (F := λ _ l _, l = []).
  { destruct st; [|by apply rsteps_ret]. eapply rsteps_mono; [apply rsteps_header|]. intros _ l w' _ (? & _). done. }
  intros _ l5 w5 Ht5 _ ->. eapply rsteps_seq; [apply d_copy_steps|]. intros cp l6 w6 Ht6 _ (Hq6 & _).
  eapply rsteps_mono; [apply rsteps_respond|]. intros _ l7 w7 Ht7 (Hl7 & _). cbn [app]. rewrite !app_assoc.
  eapply stream_answer; [by auto using d_quiet_app|exact Hl7|done|]. left.
  eapply blob_vouched_mono; [|exact Hf]. rewrite Ht7, Ht6, Ht5, Ht4, Ht3, Ht2, Ht1. set_solver.
Qed.

Lemma the_attest_rsteps w : rsteps the_attest w (λ a l w', a = dw_attest w ∧ l = [] ∧ w' = w).
Proof. exists []. rewrite app_nil_r. split; [done|]. split; [apply rseg_nil|done]. Qed.

Lemma GetBlob_rsteps digest w :
  Inv w → rsteps (GetBlob env digest) w (λ r l w', d_quiet l ∧ Inv w' ∧
    ∀ path, r = Some (path, true) → ∀ d, image_file (dw_cache w') path = Some d → blob_vouched cfg digest d (dw_trace w')).
Proof.
  intros Hinv. eapply dsteps_mono; [apply (GetBlob_steps std env cfg digest w)|].
  intros r l w' _ [Hq ((_ & Ht & _) & e & -> & _ & Hh)]. split; [by apply qseg_rseg|].
  assert (Inv w') as Hinv' by by apply (q_inv _ _ _ _ _ Hq). split_and!; [by apply Hq|done|].
  intros path Hp d Hd. destruct e as [e|]; [|done]. injection Hp as <- Hcl.
  destruct (Hh (proj1 Hinv) e eq_refl) as (_ & d' & Hr & Hd'). rewrite Hd in Hd'. simplify_eq.
  rewrite Hcl in Hr. by eapply Hinv'.
Qed.

Lemma serveBlob_steps r pp w :
  Inv w → rsteps (serveBlob std env cfg r pp) w (λ _ l w', blob_answer pp l w').
Proof.
  intros Hinv. unfold serveBlob. eapply rsteps_seq; [by apply GetBlob_rsteps|].
  intros found l1 w1 _ _ (Hq1 & Hinv1 & Hv). eapply rsteps_seq; [apply the_attest_rsteps|].
  intros a l2 w2 _ _ (-> & -> & ->). cbn [app].
  eapply rsteps_mono with (F := λ _ l w', blob_answer pp l w'); [|intros ? l w' _ H; by apply blob_answer_app].
  destruct found as [[path clean]|].
  - destruct clean; cbn [negb]; [|apply blob_error]. apply serve_cached_blob_steps. by apply Hv.
  - destruct (d_Attest cfg); cbn [andb]; [|apply blob_error].
    destruct (ab_has _ _ _) eqn:Hhas; [|apply blob_error]. apply serveAttestationBlob_steps.
    apply bool_decide_eq_true in Hhas. destruct Hinv1 as (_ & _ & _ & _ & Hats).
    destruct (Hats _ Hhas) as (repo & body & dg & ? & ?). by exists repo, body, dg.
Qed.

(** ** Whole requests *)

(** A request whose manifest, if it asks for one, is of a well-named repository. *)
Definition request_ok (r : Request) : Prop :=
  pp_Kind (ParsePath (rq_Path r)) = KindManifest → repo_ok (pp_Repo (ParsePath (rq_Path r))).

Definition request_fact (r : Request) w l w' : Prop :=
  let pp := ParsePath (rq_Path r) in
  match pp_Kind pp with
  | KindManifest => manifest_request pp w l
  | KindBlob => blob_answer pp l w'
  | _ => ∃ rs, d_visible l = [inr rs] ∧ is_stream (rs_Body rs) = false
  end.

Lemma ServeHTTP_steps r w :
  limit_ok cfg → request_ok r → Inv w →
  rsteps (docker_ServeHTTP std env cfg r) w (λ _ l w', request_fact r w l w').
Proof.
  intros Hlim Hr Hinv. unfold docker_ServeHTTP, request_fact, request_ok in *. cbv zeta.
  assert (∀ w0, rsteps (d_writeError StatusNotFound "NOT_FOUND" "unsupported registry path") w0
    (λ _ l _, ∃ rs, d_visible l = [inr rs] ∧ is_stream (rs_Body rs) = false)) as Herr.
  { intros w0. eapply rsteps_mono; [apply d_writeError_steps|].
    intros _ l w' _ (_ & rs & ? & _ & ?). by exists rs. }
  destruct (pp_Kind (ParsePath (rq_Path r))) eqn:Hk; [apply Herr| | | |apply Herr].
  - unfold d_header_set. eapply rsteps_seq; [apply rsteps_header|]. intros _ l1 w1 _ _ (-> & _).
    eapply rsteps_mono; [apply rsteps_respond|]. intros _ l w' _ (-> & _). by eexists.
  - apply serveManifest_steps; auto.
  - by apply serveBlob_steps.
Qed.

(** The next request, with a response header of its own. *)
Definition next w : W := mkDWorld (dw_cache w) (dw_tags w) (dw_attest w) (dw_trace w) ∅ (dw_temps w).

Definition docker_serve (r : Request) w : W := (docker_ServeHTTP std env cfg r (next w)).2.

Definition docker_serve_all (reqs : list Request) w : W := foldl (fun w r => docker_serve r w) w reqs.

(** The proxy as it starts, over a cache without an entry. *)
Definition docker_start (c : C) : W := mkDWorld c (newTagIndex 0) (newAttestationBlobs 0) [] ∅ 0.

Definition empty_image_cache (c : C) : Prop := image_ok c ∧ ∀ ref, image_record c ref = None.

Lemma Inv_next w : Inv w → Inv (next w).
Proof. intros H. exact H. Qed.

Lemma Inv_start c : empty_image_cache c → Inv (docker_start c).
Proof.
  intros [Hok He]. split_and!; [done|by intros ???; rewrite He|by intros ?????; rewrite He|apply ab_ok_new|].
  intros k Hk. simpl in Hk. set_solver.
Qed.

Lemma docker_serve_steps r w :
  limit_ok cfg → request_ok r → Inv w →
  ∃ l, dw_trace (docker_serve r w) = dw_trace w ++ l ∧ rseg (next w) l (docker_serve r w) ∧
    request_fact r (next w) l (docker_serve r w).
Proof.
  intros Hlim Hr Hinv. destruct (ServeHTTP_steps r (next w) Hlim Hr Hinv) as (l & Hl & Hseg & Hf). by exists l.
Qed.

Lemma docker_serve_all_Inv reqs w :
  limit_ok cfg → Forall request_ok reqs → Inv w → Inv (docker_serve_all reqs w).
Proof.
  intros Hlim Hreqs. revert w. induction Hreqs as [|r reqs Hr _ IH]; intros w Hinv; [done|].
  apply IH. destruct (docker_serve_steps r w Hlim Hr Hinv) as (l & _ & Hseg & _). by apply Hseg.
Qed.

Lemma docker_blob_answer reqs r c :
  limit_ok cfg → empty_image_cache c → Forall request_ok reqs → pp_Kind (ParsePath (rq_Path r)) = KindBlob →
  let w := docker_serve_all reqs (docker_start c) in
  ∃ l, dw_trace (docker_serve r w) = dw_trace w ++ l ∧ rseg (next w) l (docker_serve r w) ∧
    ∀ rs d n, rs ∈ d_responses l → rs_Body rs = BStream d n →
      rs_Status rs = StatusOK ∧ blob_source (ParsePath (rq_Path r)) d (dw_trace (docker_serve r w)).
Proof.
  intros Hlim Hc Hreqs Hk. cbv zeta. set (w := docker_serve_all reqs (docker_start c)).
  assert (Inv w) as Hinv by (apply docker_serve_all_Inv; [done..|by apply Inv_start]).
  destruct (docker_serve_steps r w Hlim) as (l & Hl & Hseg & Hf); [unfold request_ok; congruence|done|].
  exists l. split_and!; [done..|]. unfold request_fact in Hf. rewrite Hk in Hf. destruct Hf as (rs & Hr & Hb).
  intros rs' d n. rewrite visible_responses, Hr. intros ->%list_elem_of_singleton. apply Hb.
Qed.


Lemma refused_no_stream id pp verdict g reason status l rs d n :
  refused id pp verdict g reason status (d_visible l) → rs ∈ d_responses l → rs_Body rs = BStream d n → False.
Proof.
  intros (ev & rs' & Hv & _ & Hs & _). rewrite visible_responses, Hv. simpl.
  intros ->%list_elem_of_singleton Hd. by rewrite Hd in Hs.
Qed.

Lemma passed_no_response id pp v vis :
  passed id pp v vis → vis_responses vis = [].
Proof. unfold passed. destruct (gv_Passthrough v); [by intros ->|by intros (ev & -> & _)]. Qed.

Lemma late_no_response id pp res vis :
  late_outcome id pp res vis → vis_responses vis = [].
Proof.
  unfold late_outcome. destruct res as [dg [v|e]]; cbn [snd]; repeat case_match; [by intros ->|by intros (? & -> & _)..|by intros (? & ? & ? & -> & _)].
Qed.

Lemma manifest_request_stream pp w l rs d n :
  manifest_request pp w l → rs ∈ d_responses l → rs_Body rs = BStream d n →
  rs_Status rs = StatusOK ∧
  ∃ reason, image_vouched std cfg (pp_Repo pp) (Header_Get (rs_Header rs) "Docker-Content-Digest") reason d (dw_trace w ++ l).
Proof.
  intros (id & l0 & l1 & l2 & w1 & res & -> & Ht1 & Hq1 & _ & Hsv & Hor) Hin Hd.
  unfold d_responses in Hin. rewrite !omap_app in Hin. fold (d_responses l0) (d_responses l1) (d_responses l2) in Hin.
  destruct Hq1 as (_ & _ & Hr1). rewrite Hr1 in Hin. destruct Hor as [(_ & (_ & _ & Hr0) & Hans)|(_ & Hrefused & Hlate)].
  - rewrite Hr0 in Hin. cbn [app] in Hin.
    destruct res as [digest [v|e]]; unfold manifest_answer in Hans; cbn [fst snd] in Hans.
    2:{ destruct Hans as (? & ? & _ & ?). exfalso. by eapply refused_no_stream. }
    destruct (gv_Allowed v) eqn:Ha; [|exfalso; by eapply refused_no_stream].
    destruct Hans as [[? _]|Hs]; [exfalso; by eapply refused_no_stream|].
    destruct Hs as (rs' & vis & Hv & Hst & Hdg & Hb & Hout).
    assert (rs = rs') as ->.
    { rewrite visible_responses, Hv, vis_responses_inr in Hin.
      assert (vis_responses vis = []) as Hn
        by (destruct Hout as [?|[-> _]]; [by eapply passed_no_response|done]).
      rewrite Hn in Hin. by apply list_elem_of_singleton in Hin. }
    split; [done|]. rewrite Hdg. destruct (Hb d n Hd) as [Hp Hf].
    destruct (Hsv v d eq_refl Ha Hp Hf) as [reason Hv']. exists reason. eapply image_vouched_mono; [|exact Hv'].
    rewrite Ht1. set_solver.
  - rewrite (visible_responses l2), (late_no_response _ _ _ _ Hlate), app_nil_r in Hin.
    exfalso. by eapply refused_no_stream.
Qed.


(** The outcomes and responses of a manifest request, in order, for the
    verdict [res] the gate came to. *)
Definition manifest_visible id (pp : ParsedPath) (res : string * result error GateVerdict) l (vis : list (Event + Response)) : Prop :=
  match res.2 with
  | Err e => ∃ status reason, failure_status e status reason ∧ refused id pp VerdictError GateImageScan reason status vis
  | Ok v =>
      if gv_Allowed v then
        (refused id pp VerdictError GateImageScan "cache_read_error" StatusInternalServerError vis ∧
         DOpen (gv_ManifestPath v) None ∈ l) ∨
        ∃ rs vis', vis = inr rs :: vis' ∧ rs_Status rs = StatusOK ∧
          Header_Get (rs_Header rs) "Docker-Content-Digest" = res.1 ∧
          (passed id pp v vis' ∨ vis' = [] ∧ ∃ n, DCopied n false ∈ l)
      else refused id pp VerdictBlock (gateForBlockedBy (gv_BlockedBy v)) (gv_Reason v) StatusForbidden vis
  end.

Definition docker_visible (r : Request) l : Prop :=
  let pp := ParsePath (rq_Path r) in
  match pp_Kind pp with
  | KindManifest => ∃ id l1 w1 res, l1 ⊆ l ∧ evaluated std env cfg (pp_Repo pp) (pp_Reference pp) l1 w1 res ∧
      ((wait_over true l ∧ ∃ vis vis', d_visible l = vis ++ vis' ∧
          refused id pp VerdictError GateImageScan "scan_in_progress" StatusServiceUnavailable vis ∧
          late_outcome id pp res vis') ∨
       wait_over false l ∧ manifest_visible id pp res l (d_visible l))
  | _ => ∃ rs, d_visible l = [inr rs]
  end.

Lemma manifest_request_visible r w l :
  pp_Kind (ParsePath (rq_Path r)) = KindManifest → manifest_request (ParsePath (rq_Path r)) w l →
  length (d_responses l) = 1%nat ∧ docker_visible r l.
Proof.
  unfold docker_visible. intros ->. set (pp := ParsePath (rq_Path r)).
  intros (id & l0 & l1 & l2 & w1 & res & -> & _ & Hq1 & Hev & _ & Hor). rewrite visible_responses, !visible_app.
  rewrite (quiet_visible_nil l1 Hq1). destruct Hor as [(Hw & Hq0 & Hans)|(Hw & Href & Hlate)].
  - rewrite (quiet_visible_nil l0 Hq0). cbn [app].
    assert (length (vis_responses (d_visible l2)) = 1%nat ∧
      manifest_visible id pp res (l0 ++ l1 ++ l2) (d_visible l2)) as [? ?].
    2:{ split; [done|]. exists id, l1, w1, res. split_and!; [set_solver|done|right].
        split; [eapply wait_over_mono; [|exact Hw]; set_solver|done]. }
    unfold manifest_answer in Hans. unfold manifest_visible. destruct res as [digest [v|e]]; cbn [fst snd] in *.
    + destruct (gv_Allowed v).
      * destruct Hans as [[(ev & rs & Hv & Hs) ?]|(rs & vis & Hv & ? & ? & _ & Hout)]; rewrite Hv.
        -- split; [done|left]. split; [by exists ev, rs|set_solver].
        -- assert (vis_responses vis = []) as Hn
             by (destruct Hout as [?|[-> _]]; [by eapply passed_no_response|done]).
           split; [by rewrite vis_responses_inr, Hn|right]. exists rs, vis. split_and!; [done..|].
           destruct Hout as [?|[-> [n ?]]]; [by left|right]. split; [done|exists n; set_solver].
      * destruct Hans as (ev & rs & -> & Hs). split; [done|by exists ev, rs].
    + destruct Hans as (st & reason & ? & ev & rs & -> & Hs). split; [done|]. exists st, reason. split; [done|by exists ev, rs].
  - pose proof (late_no_response _ _ _ _ Hlate) as Hn. split.
    + cbn [app]. rewrite vis_responses_app, Hn. destruct Href as (ev & rs & -> & _). done.
    + exists id, l1, w1, res. split_and!; [set_solver|done|left].
      split; [eapply wait_over_mono; [|exact Hw]; set_solver|]. exists (d_visible l0), (d_visible l2). done.
Qed.




(** ** Without an AV engine *)

Lemma docker_serve_all_av_free reqs w :
  d_AV cfg = false → limit_ok cfg → Forall request_ok reqs → Inv w → Forall av_free (dw_trace w) →
  Forall av_free (dw_trace (docker_serve_all reqs w)).
Proof.
  intros HA Hlim Hreqs. revert w. induction Hreqs as [|r reqs Hr _ IH]; intros w Hinv Hf; [done|].
  destruct (docker_serve_steps r w Hlim Hr Hinv) as (l & Hl & Hseg & _). apply IH; [by apply Hseg|].
  rewrite Hl. apply Forall_app. split; [done|by apply Hseg].
Qed.

(** With no AV engine configured the proxy serves no image: from an empty
    cache, whatever was pulled before, no blob of an image is ever served,
    although its manifest may be. *)
Theorem docker_without_av reqs r c :
  d_AV cfg = false → limit_ok cfg → empty_image_cache c → Forall request_ok reqs →
  pp_Kind (ParsePath (rq_Path r)) = KindBlob →
  let w := docker_serve_all reqs (docker_start c) in
  let pp := ParsePath (rq_Path r) in
  ∃ l, dw_trace (docker_serve r w) = dw_trace w ++ l ∧
    ∀ rs d n, rs ∈ d_responses l → rs_Body rs = BStream d n →
      ∃ repo body digest, repo +:+ "@" +:+ digest = pp_Repo pp +:+ "@" +:+ pp_Reference pp ∧ attested body digest.
Proof.
  intros HA Hlim Hc Hreqs Hk. cbv zeta. set (w := docker_serve_all reqs (docker_start c)).
  destruct (docker_blob_answer reqs r c Hlim Hc Hreqs Hk) as (l & Hl & Hseg & Hb). fold w in Hl, Hseg, Hb.
  exists l. split; [done|]. intros rs d n Hrs Hd.
  assert (Forall av_free (dw_trace (docker_serve r w))) as Hfree.
  { rewrite Hl. apply Forall_app. split; [|by apply Hseg].
    apply docker_serve_all_av_free; [done..|by apply Inv_start|apply Forall_nil_2]. }
  rewrite Forall_forall in Hfree.
  destruct (Hb rs d n Hrs Hd) as [_ [[(repo & resp & av & _ & _ & _ & Hav & _)|((b & j & Hput) & _)]|[? _]]]; [| |done].
  - by apply Hfree in Hav.
  - by apply Hfree in Hput.
Qed.
End Spec.

(** ** A run over the local cache *)

Section Example.

#[local] Instance ex_ac : ArtifactCache LocalCache := artifactCacheAdapter ex_cfg hex.
#[local] Instance ex_ic : ImageCache LocalCache := localImageCache ex_cfg hex.
#[local] Instance ex_laws : ImageCacheLaws LocalCache := localImageCache_laws ex_cfg hex hex_ok.

(** One image "M" with config "C" and layer "L", one index "I" over it, and
    one attestation "A" with the statement "S". *)
#[local] Instance ex_json : DockerJSON := {
  json_layer_types b :=
    if bool_decide (b = to_bytes "M") then Ok ["application/vnd.oci.image.layer.v1.tar+gzip"]
    else if bool_decide (b = to_bytes "A") then Ok ["application/vnd.in-toto+json"]
    else Ok [];
  json_image b :=
    if bool_decide (b = to_bytes "M") then Ok ("sha256:c", ["sha256:l"])
    else if bool_decide (b = to_bytes "A") then Ok ("", ["sha256:53"]) else Ok ("", []);
  json_attestation b := if bool_decide (b = to_bytes "A") then Ok ("", [("application/vnd.in-toto+json", "sha256:53")]) else Ok ("", []);
  json_children b := if bool_decide (b = to_bytes "I") then Ok ["sha256:m"] else Ok [];
  json_mediaType b := Ok (if bool_decide (b = to_bytes "I") then mediaTypeOCIIndex else mediaTypeOCIManifest);
  decode_created _ _ := Ok "2024-01-01T00:00:00Z";
  decode_token _ _ := Ok ("token", "");
}.

Definition ex_std : DockerStd := {|
  url_Parse _ := None;
  url_String _ := "";
  Quote s := s;
  sha256_Sum b := b;
  parse_RFC3339 _ := Ok (of_unix 1704067200 0);
|}.

Definition ex_answer (digest ct body : string) : DoResult :=
  DoResp 200 (Header_Set "Docker-Content-Digest" digest (Header_Set "Content-Type" ct ∅))
    (Z.of_nat (String.length body)) (to_bytes body) false.

(** A registry that first asks for a token. *)
Definition ex_registry (out : OutRequest) : DoResult :=
  let path := out_URL out in
  if HasPrefix path "https://auth.example/token" then ex_answer "" "application/json" "{}"
  else if Header_Get (out_Header out) "Authorization" =s? "" then
    DoResp 401 (Header_Set "Www-Authenticate" ("Bearer realm=" +:+ of_bytes [byte_of 34] +:+ "https://auth.example/token" +:+ of_bytes [byte_of 34]) ∅) 0 [] false
  else if HasSuffix path "/manifests/latest" then ex_answer "sha256:i" mediaTypeOCIIndex "I"
  else if HasSuffix path "/manifests/sha256:m" then ex_answer "sha256:m" mediaTypeOCIManifest "M"
  else if HasSuffix path "/manifests/sha256:a" then ex_answer "sha256:a" mediaTypeOCIManifest "A"
  else if HasSuffix path "/blobs/sha256:c" then ex_answer "" "" "C"
  else if HasSuffix path "/blobs/sha256:l" then ex_answer "" "" "L"
  else if HasSuffix path "/blobs/sha256:53" then ex_answer "" "" "S"
  else DoResp 404 ∅ 0 [] false.

(** [down tr] is whether the upstreams are unreachable, [virus tr] whether the
    AV engine finds something, [t tr] the clock. *)
Definition ex_denv (down virus : list DCall -> bool) (t : list DCall -> Z) : DEnv := {|
  denv_Now := t;
  denv_NewUUID _ := "id";
  denv_Filter _ _ meta := mkFilterResult true "" (md_PublishedAt meta) 0;
  denv_ImageScan _ _ := Ok [];
  denv_Policy _ _ _ := mkDecision true "" [];
  denv_AVScan tr _ := Ok (mkAV (negb (virus tr)) "" "clamav" false);
  denv_Do tr out := if down tr then DoErr (ENew "unreachable") else ex_registry out;
  denv_CreateTemp _ := None;
  denv_WriteTemp _ _ := None;
  denv_StatOk _ := true;
  denv_Copied _ data := (length data, true);
  denv_Flight _ _ := None;
  denv_BlobFlight _ _ := None;
  denv_Late _ := false;
  denv_Throttles _ := None;
|}.

Lemma ex_denv_ok down virus t : denv_ok (ex_denv down virus t).
Proof. intros tr f host status left [=]. Qed.

Definition ex_good : DEnv := ex_denv (fun _ => false) (fun _ => false) (fun _ => ex_now).

Definition ex_docker (av : bool) : DockerConfig := NewDocker ["https://registry-1.docker.io/"] av true 1000 Hour 0 true.

Definition ex_get (path : string) : Request :=
  mkRequest "" "v2" "GET" path "" "" "proxy.example" "192.0.2.7:50000" true ∅ None.

Definition ex_pull : list Request :=
  map ex_get ["/library/nginx/manifests/latest"; "/library/nginx/manifests/sha256:m";
              "/library/nginx/blobs/sha256:c"; "/library/nginx/blobs/sha256:l";
              "/library/nginx/manifests/sha256:a"; "/library/nginx/blobs/sha256:53"].

Definition ex_w0 : DWorld LocalCache := docker_start (empty_cache []).

Lemma ex_empty : empty_image_cache (empty_cache []).
Proof. split; [by intros ref r|done]. Qed.

Definition ex_statuses (w : DWorld LocalCache) : list Z := map rs_Status (d_responses (dw_trace w)).

Lemma ex_requests_ok : Forall request_ok ex_pull.
Proof. repeat (constructor; [intros _; split; [apply (bool_decide_unpack _); vm_compute; exact I|discriminate]|]). constructor. Qed.

Definition ex_run (env : DEnv) (av : bool) (reqs : list Request) : DWorld LocalCache :=
  docker_serve_all ex_std env (ex_docker av) reqs ex_w0.

Definition ex_verdicts (w : DWorld LocalCache) : list (string * Verdict * string) :=
  map (fun ev => (ev_Version ev, ev_Verdict ev, ev_Reason ev)) (d_outcomes (dw_trace w)).

(** A pull by tag: the index, the image, its blobs, and the attestation with
    its statement; the one outcome is labelled with the tag. *)
Example ex_pull_served :
  ex_statuses (ex_run ex_good true ex_pull) = [200; 200; 200; 200; 200; 200] ∧
  ex_verdicts (ex_run ex_good true ex_pull) = [("latest", VerdictPass, "ok")].
Proof. vm_compute. done. Qed.

(** Without an AV engine the manifest of an image is served, its blobs never. *)
Example ex_no_av : ex_statuses (ex_run ex_good false ex_pull) = [200; 200; 404; 404; 200; 200].
Proof. vm_compute. reflexivity. Qed.

(** The first [n] answers come before the change. *)
Definition after (n : nat) (tr : list DCall) : bool := (n <=? length (d_responses tr))%nat.
Definition later (n : nat) (tr : list DCall) : Z := if after n tr then ex_now + 2 * Hour else ex_now.

(** The mirrors go down and the verdict expires: the image still comes, from
    the cache, by digest; by tag it cannot be resolved. *)
Example ex_offline :
  let w := ex_run (ex_denv (after 6) (fun _ => false) (later 6)) true
             (ex_pull ++ map ex_get ["/library/nginx/manifests/sha256:m"; "/library/nginx/manifests/latest"]) in
  drop 6 (ex_statuses w) = [200; 502] ∧ drop 1 (ex_verdicts w) = [("latest", VerdictCache, "cache_hit"); ("latest", VerdictError, "gate_error")].
Proof. vm_compute. done. Qed.

(** The AV engine learns of the layer after the first pull: the expired
    verdict is evaluated again, but the layers the cache holds clean are not
    scanned again, and the image is still served. *)
Example ex_cached_layers_not_rescanned :
  let w := ex_run (ex_denv (fun _ => false) (after 6) (later 6)) true
             (ex_pull ++ map ex_get ["/library/nginx/manifests/sha256:m"; "/library/nginx/blobs/sha256:l"]) in
  drop 6 (ex_statuses w) = [200; 200] ∧ drop 1 (ex_verdicts w) = [("latest", VerdictPass, "ok")].
Proof. vm_compute. done. Qed.

(** A blob evicted on its own leaves a manifest that is served, fresh, from
    the cache, and a blob that is not found. *)
Example ex_evicted_blob :
  let w := ex_run ex_good true ex_pull in
  let w := mkDWorld (cache_Invalidate (blobRef "sha256:l") (dw_cache w)).2 (dw_tags w) (dw_attest w)
             (dw_trace w) (dw_header w) (dw_temps w) in
  drop 6 (ex_statuses (docker_serve_all ex_std ex_good (ex_docker true)
    (map ex_get ["/library/nginx/manifests/sha256:m"; "/library/nginx/blobs/sha256:l"]) w)) = [200; 404].
Proof. vm_compute. reflexivity. Qed.

(** A repository called "blobs": its index, never scanned, is served as a blob. *)
Example ex_blobs_repo :
  let w := ex_run ex_good true (map ex_get ["/blobs/manifests/latest"; "/library/nginx/blobs/sha256:i"]) in
  map (fun rs => (rs_Status rs, rs_Body rs)) (d_responses (dw_trace w)) =
    [(200, BStream (to_bytes "I") 1); (200, BStream (to_bytes "I") 1)] ∧
  existsb (fun c => match c with DAVScan _ _ => true | _ => false end) (dw_trace w) = false.
Proof. vm_compute. done. Qed.

Lemma ex_limit av : limit_ok (ex_docker av).
Proof. by vm_compute. Qed.

Lemma ex_inv av reqs : Forall request_ok reqs → Inv ex_std (ex_docker av) (ex_run ex_good av reqs).
Proof. intros H. apply docker_serve_all_Inv; [apply ex_limit|done|apply Inv_start, ex_empty]. Qed.

Lemma ex_repo_ok : repo_ok "library/nginx".
Proof. apply (bool_decide_unpack _). vm_compute. exact I. Qed.

(** A pull whose approval could not be stored, over an expired one: the
    pipeline ran, and the expired verdict is the answer. *)
Example ex_stale_after_failure :
  let env := ex_denv (fun _ => false) (fun _ => false) (later 6) in
  let w := ex_run env true ex_pull in
  let fails := {| denv_Now := denv_Now env; denv_NewUUID := denv_NewUUID env; denv_Filter := denv_Filter env;
                  denv_ImageScan _ _ := Err (ENew "down"); denv_Policy := denv_Policy env; denv_AVScan := denv_AVScan env;
                  denv_Do := denv_Do env; denv_CreateTemp := denv_CreateTemp env; denv_WriteTemp := denv_WriteTemp env;
                  denv_StatOk := denv_StatOk env; denv_Copied := denv_Copied env; denv_Flight := denv_Flight env;
                  denv_BlobFlight := denv_BlobFlight env; denv_Late := denv_Late env; denv_Throttles := denv_Throttles env |} in
  drop 6 (ex_statuses (docker_serve_all ex_std fails (ex_docker true) (map ex_get ["/library/nginx/manifests/sha256:m"]) w)) = [200] ∧
  drop 6 (ex_statuses (docker_serve_all ex_std fails (ex_docker true) (map ex_get ["/library/nginx/manifests/sha256:m"]) ex_w0)) = [] ∧
  ex_statuses (docker_serve_all ex_std fails (ex_docker true) (map ex_get ["/library/nginx/manifests/sha256:m"]) ex_w0) = [502].
Proof. vm_compute. done. Qed.

(** With the largest int64 as the layer limit, one more than it wraps: a layer
    is read as no bytes at all, scanned clean as such and served empty.  The
    promises need [limit_ok]. *)
Example ex_layer_limit_overflow :
  let layers limit :=
    map rs_Body (drop 2 (d_responses (dw_trace (docker_serve_all ex_std ex_good
      (NewDocker ["https://registry-1.docker.io/"] true true limit Hour 0 true) (take 4 ex_pull) ex_w0)))) in
  layers (max_int64 - 1) = [BStream (to_bytes "C") 1; BStream (to_bytes "L") 1] ∧
  layers max_int64 = [BStream [] 0; BStream [] 0].
Proof. vm_compute. done. Qed.






Lemma docker_without_av_witness :
  let w := docker_serve_all ex_std ex_good (ex_docker false) ex_pull ex_w0 in
  let r := ex_get "/library/nginx/blobs/sha256:l" in
  ∃ l, dw_trace (docker_serve ex_std ex_good (ex_docker false) r w) = dw_trace w ++ l ∧
    ∀ rs d n, rs ∈ d_responses l → rs_Body rs = BStream d n →
      ∃ repo body digest, repo +:+ "@" +:+ digest = "library/nginx@sha256:l" ∧ attested body digest.
Proof.
  exact (docker_without_av ex_std ex_good (ex_docker false) ex_pull (ex_get "/library/nginx/blobs/sha256:l")
    (empty_cache []) eq_refl (ex_limit false) ex_empty ex_requests_ok ltac:(vm_compute; reflexivity)).
Defined.
End Example.
