(* ===== verification/Adapters.v ===== *)
(** * Package adapters: what the registries share, Maven, RubyGems and Go
    (options.go, maven.go, rubygems.go, go.go)

    How each registry names the package of a download, where its metadata
    comes from, and what that means for the cache: which paths share a slot.
    A registry's metadata API is reached through an [AEnv], whose answers are
    functions of the calls before; RequestURI, time.Parse and net/url are
    parameters. *)
From S2P Require Import Prelude GoStd Json Gate Upstream HTTP Handler.
Local Open Scope Z_scope.

(** ** What they share *)

Inductive ACall :=
| AClock (t : Z)
| ADo (out : OutRequest) (r : DoResult).

Record AEnv := mkAEnv {
  aenv_Now : list ACall -> Z;
  aenv_Do : list ACall -> OutRequest -> DoResult;
}.

(** The parts of the standard library the adapters go through. *)
Record AdapterStd := mkAdapterStd {
  std_RequestURI : Request -> string;
  std_url_Parse : string -> option url;
  std_url_String : url -> string;
  std_time_Parse : string -> string -> result error Z;
  std_Time_UnmarshalJSON : bytes -> option Z;
  std_http_ParseTime : string -> option Z;
  std_Quote : string -> string;
}.

Definition RFC3339 : string := "2006-01-02T15:04:05Z07:00".

Definition trim_upstreams (upstreams : list string) : list string :=
  map (fun u => TrimRight u ["/"%char]) upstreams.

Definition Join (l : list string) (sep : string) : string := String.concat sep l.

Section Adapters.
Context (std : AdapterStd) (env : AEnv).

Definition upstream_urls (upstreams : list string) (r : Request) : list string :=
  map (fun base => base +:+ std_RequestURI std r) upstreams.

Local Notation M := (St (list ACall)).

Definition a_Now : M Z := fun tr => let t := aenv_Now env tr in (t, tr ++ [AClock t]).
Definition a_Get (u : string) : M DoResult := fun tr =>
  let out := mkOut "GET" u ∅ [] in
  let r := aenv_Do env tr out in (r, tr ++ [ADo out r]).

(** One mirror's answer: the metadata, or (URL, status, error). *)
Definition Fetched : Type := result (string * Z * error) PackageMetadata.

Fixpoint fetch_loop (from : string -> M Fetched) (bases : list string) (atts : Attempts)
    : M (result error PackageMetadata) :=
  match bases with
  | [] => ret_st (Err (EAttempts atts))
  | base :: bases' =>
      start <- a_Now;;
      res <- from base;;
      match res with
      | Ok meta => ret_st (Ok meta)
      | Err (u, status, e) =>
          now <- a_Now;;
          fetch_loop from bases'
            (Add (std_url_Parse std) (std_url_String std) u status (Some e) (time_sub now start) atts)
      end
  end.

Definition FetchMetadata (registry : string) (from : string -> M Fetched) (upstreams : list string)
    : M (result error PackageMetadata) :=
  match upstreams with
  | [] => ret_st (Err (ENew ("no upstreams configured for " +:+ registry)))
  | _ => fetch_loop from upstreams []
  end.

(** A document fetched from [u]: its body, or the failure to answer with. *)
Definition fetch_body (building fetching : string) (refused : Z -> string) (u : string)
    : M (result (string * Z * error) (Z * bytes)) :=
  res <- a_Get u;;
  ret_st (match res with
          | ReqErr e => Err (u, 0, EWrap building e "")
          | DoErr e => Err (u, 0, EWrap fetching e "")
          | DoResp status _ _ body _ =>
              if negb (status =? StatusOK) then Err (u, status, ENew (refused status)) else Ok (status, body)
          end).

(** ** Maven *)

Definition mavenSidecarExts : list string :=
  [".pom"; ".module"; ".xml"; ".md5"; ".sha1"; ".sha256"; ".sha512"; ".asc"; ".sig"].

Definition isMavenSidecar (file : string) : bool := existsb (HasSuffix file) mavenSidecarExts.

Definition mavenClassifier (file artifact version : string) : string :=
  match strip_prefix (to_bytes (artifact +:+ "-" +:+ version)) (to_bytes file) with
  | None | Some [] => file
  | Some (c :: rest) =>
      let named cls ext := if ext =s? "jar" then cls else cls +:+ "." +:+ ext in
      if Ascii.eqb c "-"%char then
        let '(cls, ext, _) := Cut (of_bytes rest) "."%char in named cls ext
      else if Ascii.eqb c "."%char then named "" (of_bytes rest)
      else file
  end.

(** (name, version, classifier). *)
Definition parseMavenPath (path : string) : option (string * string * string) :=
  match rev (Split (TrimPrefix path "/") "/"%char) with
  | file :: version :: artifact :: ((_ :: _) as group) =>
      let group := Join (rev group) "." in
      if (group =s? "") || (artifact =s? "") || (version =s? "") then None
      else if negb (HasPrefix file (artifact +:+ "-")) || isMavenSidecar file then None
      else Some (group +:+ ":" +:+ artifact, version, mavenClassifier file artifact version)
  | _ => None
  end.

Definition maven_NormalizeRequest (r : Request) : option PackageRef :=
  match parseMavenPath (rq_Path r) with
  | Some (name, version, classifier) => Some (mkRef "maven" name version classifier)
  | None => None
  end.

Definition maven_IsArtifactPath (r : Request) : bool :=
  match parseMavenPath (rq_Path r) with Some _ => true | None => false end.

Definition maven_MetadataFromHeader (h : Header) : PackageMetadata :=
  let lm := Header_Get h "Last-Modified" in
  mkMeta (if lm =s? "" then 0 else default 0 (std_http_ParseTime std lm)) "" "".

Definition MavenAdapter (upstreams : list string) : RegistryAdapter := {|
  NormalizeRequest := maven_NormalizeRequest;
  UpstreamURLs := upstream_urls (trim_upstreams upstreams);
  IsArtifactPath := Some maven_IsArtifactPath;
  IsIndexRequest := None;
  RewriteIndex _ _ _ := None;
  NormalizeMetadataRequest := None;
  FilterVersions S _ _ _ _ := ret_st None;
  MetadataFromHeader := Some maven_MetadataFromHeader;
|}.

(** ** RubyGems *)

Definition starts_with_digit (s : string) : bool :=
  match to_bytes s with c :: _ => is_digit c | [] => false end.

(** The segments before the first that begins with a digit, and that one with
    those after it. *)
Fixpoint split_at_version (segs : list string) : option (list string * string * list string) :=
  match segs with
  | [] => None
  | s :: segs' =>
      if starts_with_digit s then Some ([], s, segs')
      else
        match split_at_version segs' with
        | Some (before, v, after) => Some (s :: before, v, after)
        | None => None
        end
  end.

(** (name, version), the platform encoded in the version. *)
Definition parseGemFilename (filename : string) : option (string * string) :=
  match split_at_version (Split (TrimSuffix filename ".gem") "-"%char) with
  | None | Some ([], _, _) => None
  | Some (before, number, after) =>
      let name := Join before "-" in
      let platform := Join after "-" in
      if name =s? "" then None
      else if platform =s? "" then Some (name, number)
      else Some (name, number +:+ "-" +:+ platform)
  end.

Definition gem_NormalizeRequest (r : Request) : option PackageRef :=
  let path := rq_Path r in
  if negb (HasSuffix path ".gem") then None
  else
    match cut_last_sub (to_bytes "/gems/") (to_bytes path) with
    | None => None
    | Some (_, filename) =>
        if bool_decide ("/"%char ∈ filename) then None
        else
          match parseGemFilename (of_bytes filename) with
          | Some (name, version) => Some (mkRef "rubygems" name version "")
          | None => None
          end
    end.

Definition gem_IsArtifactPath (r : Request) : bool := HasSuffix (rq_Path r) ".gem".

(** (number, platform). *)
Definition splitGemVersion (version : string) : string * string :=
  let '(number, platform, found) := Cut version "-"%char in
  if found : bool then (number, platform) else (number, "ruby").

Record rubygemsVersion := mkGemVersion {
  gem_Number : string;
  gem_Platform : string;
  gem_CreatedAt : string;
  gem_Licenses : list string;
}.

(** A struct's fields, all of them: null leaves the zero value. *)
Definition as_gem_version (v : Raw) : option rubygemsVersion :=
  match v with
  | RNull => Some (mkGemVersion "" "" "" [])
  | RObj ms =>
      number ← field "number" as_string "" ms;
      platform ← field "platform" as_string "" ms;
      createdAt ← field "created_at" as_string "" ms;
      licenses ← field "licenses" (fun _ => as_slice (as_string "")) [] ms;
      Some (mkGemVersion number platform createdAt licenses)
  | _ => None
  end.

Definition gem_fetchMetadataFrom (ref : PackageRef) (base : string) : M Fetched :=
  let '(number, platform) := splitGemVersion (Version ref) in
  let apiURL := base +:+ "/api/v1/versions/" +:+ Name ref +:+ ".json" in
  res <- fetch_body "building rubygems metadata request: " "fetching rubygems metadata: "
           (fun status => "rubygems returned HTTP " +:+ FormatInt status +:+ " for " +:+ Name ref) apiURL;;
  ret_st (match res with
          | Err e => Err e
          | Ok (status, body) =>
              match v ← parse_first body; as_slice as_gem_version v with
              | None => Err (apiURL, status, EWrap "decoding rubygems response: " (ENew "json") "")
              | Some versions =>
                  match first_such (fun v => (gem_Number v =s? number) && (gem_Platform v =s? platform)) versions with
                  | None =>
                      Err (apiURL, status, ENew ("version " +:+ number +:+ " (platform " +:+ platform +:+
                                                 ") not found for rubygems gem " +:+ Name ref))
                  | Some v =>
                      match std_time_Parse std RFC3339 (gem_CreatedAt v) with
                      | Err e =>
                          Err (apiURL, status, EWrap ("parsing rubygems created_at " +:+ std_Quote std (gem_CreatedAt v) +:+ ": ") e "")
                      | Ok t => Ok (mkMeta t "" (Join (gem_Licenses v) ", "))
                      end
                  end
              end
          end).

Definition gem_FetchMetadata (upstreams : list string) (ref : PackageRef) : M (result error PackageMetadata) :=
  FetchMetadata "rubygems" (gem_fetchMetadataFrom ref) (trim_upstreams upstreams).

Definition RubyGemsAdapter (upstreams : list string) : RegistryAdapter := {|
  NormalizeRequest := gem_NormalizeRequest;
  UpstreamURLs := upstream_urls (trim_upstreams upstreams);
  IsArtifactPath := Some gem_IsArtifactPath;
  IsIndexRequest := None;
  RewriteIndex _ _ _ := None;
  NormalizeMetadataRequest := None;
  FilterVersions S _ _ _ _ := ret_st None;
  MetadataFromHeader := None;
|}.

(** ** Go modules *)

Definition is_lower (c : ascii) : bool := in_range 97 122 (Ascii.nat_of_ascii c).
Definition is_upper (c : ascii) : bool := in_range 65 90 (Ascii.nat_of_ascii c).

Fixpoint decode_go (l : bytes) : option bytes :=
  match l with
  | [] => Some []
  | c :: l' =>
      if Ascii.eqb c "!"%char then
        match l' with
        | n :: l'' => if is_lower n then (fun d => upper_byte n :: d) <$> decode_go l'' else None
        | [] => None
        end
      else (fun d => c :: d) <$> decode_go l'
  end.

(** Without a '!' the loop copies: the source's short cut is the same. *)
Definition decodeGoPath (s : string) : option string := of_bytes <$> decode_go (to_bytes s).

Definition encode_go (l : bytes) : bytes :=
  l ≫= (fun c => if is_upper c then ["!"%char; lower_byte c] else [c]).

Definition encodeGoPath (s : string) : string := of_bytes (encode_go (to_bytes s)).

Definition go_NormalizeRequest (r : Request) : option PackageRef :=
  let path := rq_Path r in
  if negb (HasSuffix path ".zip") then None
  else
    match cut_sub (to_bytes "/@v/") (to_bytes path) with
    | None => None
    | Some (before, after) =>
        let encModule := TrimPrefix (of_bytes before) "/" in
        let encVersion := TrimSuffix (of_bytes after) ".zip" in
        if (encModule =s? "") || (encVersion =s? "") then None
        else
          match decodeGoPath encModule, decodeGoPath encVersion with
          | Some module, Some version => Some (mkRef "go" module version "")
          | _, _ => None
          end
    end.

Definition Contains (s sub : string) : bool :=
  match cut_sub (to_bytes sub) (to_bytes s) with Some _ => true | None => false end.

Definition go_IsArtifactPath (r : Request) : bool := HasSuffix (rq_Path r) ".zip" && Contains (rq_Path r) "/@v/".

(** The Time of an .info document; its Version has to be a string. *)
Definition as_go_info (v : Raw) : option Z :=
  let time old v :=
    match v with
    | RNull => Some old
    | RStr b => std_Time_UnmarshalJSON std b
    | _ => None
    end in
  match v with
  | RNull => Some 0
  | RObj ms => _ ← field "Version" as_string "" ms; field "Time" time 0 ms
  | _ => None
  end.

Definition go_fetchInfoFrom (encModule encVersion base : string) : M Fetched :=
  let apiURL := base +:+ "/" +:+ encModule +:+ "/@v/" +:+ encVersion +:+ ".info" in
  res <- fetch_body "building go info request: " "fetching go info: "
           (fun status => "go proxy returned HTTP " +:+ FormatInt status +:+ " for " +:+
                          SanitizeURL (std_url_Parse std) (std_url_String std) apiURL) apiURL;;
  ret_st (match res with
          | Err e => Err e
          | Ok (status, body) =>
              match v ← parse_first body; as_go_info v with
              | None => Err (apiURL, status, EWrap "decoding go info: " (ENew "json") "")
              | Some t =>
                  if time_is_zero t then
                    Err (apiURL, status, ENew ("go info for " +:+ encModule +:+ "@" +:+ encVersion +:+ " has no Time"))
                  else Ok (mkMeta t "" "")
              end
          end).

Definition go_FetchMetadata (upstreams : list string) (ref : PackageRef) : M (result error PackageMetadata) :=
  FetchMetadata "go" (go_fetchInfoFrom (encodeGoPath (Name ref)) (encodeGoPath (Version ref))) (trim_upstreams upstreams).

Definition GoAdapter (upstreams : list string) : RegistryAdapter := {|
  NormalizeRequest := go_NormalizeRequest;
  UpstreamURLs := upstream_urls (trim_upstreams upstreams);
  IsArtifactPath := Some go_IsArtifactPath;
  IsIndexRequest := None;
  RewriteIndex _ _ _ := None;
  NormalizeMetadataRequest := None;
  FilterVersions S _ _ _ _ := ret_st None;
  MetadataFromHeader := None;
|}.
End Adapters.

(** ** Lists of segments *)

Lemma Join_cons x l sep : l ≠ [] → Join (x :: l) sep = x +:+ sep +:+ Join l sep.
Proof. by destruct l. Qed.

Lemma string_app_assoc (a b c : string) : (a +:+ b) +:+ c = a +:+ (b +:+ c).
Proof. apply to_bytes_inj. by rewrite !to_bytes_app, app_assoc. Qed.

Lemma Join_app a b sep : a ≠ [] → b ≠ [] → Join (a ++ b) sep = Join a sep +:+ sep +:+ Join b sep.
Proof.
  intros Ha Hb. induction a as [|x a IH]; [done|]. destruct (decide (a = [])) as [->|Hn].
  - cbn [app]. by rewrite Join_cons by done.
  - cbn [app]. rewrite !Join_cons, IH, !string_app_assoc by (done || by destruct a). done.
Qed.

Lemma Join_Split s sep : Join (Split s sep) (of_bytes [sep]) = s.
Proof.
  apply to_bytes_inj. unfold Split. generalize (to_bytes s) as l. clear s.
  assert (∀ x (ws : list bytes), to_bytes (Join (of_bytes <$> (x :: ws)) (of_bytes [sep])) =
            x ++ match ws with [] => [] | _ => sep :: to_bytes (Join (of_bytes <$> ws) (of_bytes [sep])) end) as Hj.
  { intros x [|w ws]; [cbn; by rewrite app_nil_r, to_of_bytes|]. rewrite fmap_cons, Join_cons by done.
    by rewrite !to_bytes_app, !to_of_bytes. }
  induction l as [|c l IH]; [done|]. cbn [split_bytes]. destruct (Ascii.eqb_spec c sep) as [->|_].
  - rewrite Hj. cbn [app]. pose proof (split_bytes_nonempty sep l). destruct (split_bytes sep l); [done|]. by rewrite IH.
  - pose proof (split_bytes_nonempty sep l). destruct (split_bytes sep l) as [|w ws]; [done|].
    rewrite Hj; rewrite Hj in IH. cbn [app]. by rewrite IH.
Qed.

Lemma Join_empty l sep : sep ≠ "" → Join l sep = "" → l = [] ∨ l = [""].
Proof.
  intros Hs. destruct l as [|x [|y l]]; [by left|intros H; right; by cbn in H; subst|]. rewrite Join_cons by done.
  intros H. apply (f_equal to_bytes) in H. rewrite !to_bytes_app in H. apply app_eq_nil in H as [_ [H _]%app_eq_nil].
  exfalso. apply Hs, to_bytes_inj, H.
Qed.

Lemma HasSuffix_app s p : HasSuffix s p = true ↔ s = TrimSuffix s p +:+ p.
Proof.
  unfold HasSuffix, TrimSuffix. destruct (strip_suffix (to_bytes p) (to_bytes s)) as [r|] eqn:Hs.
  - split; intros _.
    + apply strip_suffix_Some in Hs. apply to_bytes_inj. by rewrite to_bytes_app, to_of_bytes.
    + unfold strip_suffix in Hs. by destruct (strip_prefix _ _).
  - split; intros H.
    + unfold strip_suffix in Hs. by destruct (strip_prefix _ _).
    + exfalso. apply (f_equal to_bytes) in H. rewrite to_bytes_app in H.
      apply strip_suffix_Some in H. congruence.
Qed.

(** ** RubyGems: a file name and its reference *)

Lemma split_at_version_app segs before v after :
  split_at_version segs = Some (before, v, after) → segs = before ++ v :: after.
Proof.
  revert before. induction segs as [|s segs IH]; [done|]. intros before. cbn [split_at_version].
  destruct (starts_with_digit s); [by intros [= <- <- <-]|].
  destruct (split_at_version segs) as [[[b v'] a]|]; [|done]. intros [= <- <- <-]. cbn. by rewrite (IH b).
Qed.

(** The name and the version spell the file, but for a hyphen at its end. *)
Lemma parseGemFilename_spells filename name version :
  parseGemFilename filename = Some (name, version) → HasSuffix filename ".gem" = true →
  filename = name +:+ "-" +:+ version +:+ ".gem" ∨ filename = name +:+ "-" +:+ version +:+ "-.gem".
Proof.
  unfold parseGemFilename. intros H Hsuf%HasSuffix_app. set (base := TrimSuffix filename ".gem") in *.
  pose proof (Join_Split base "-") as Hbase.
  destruct (split_at_version (Split base "-")) as [[[before v] after]|] eqn:E; [|done].
  apply split_at_version_app in E. rewrite E in Hbase.
  destruct before as [|b before]; [done|]. set (pre := b :: before) in *.
  destruct (String.eqb_spec (Join pre "-") ""); [done|].
  rewrite Join_app in Hbase by done. change (of_bytes ["-"%char]) with "-" in Hbase.
  destruct (String.eqb_spec (Join after "-") "") as [He|He]; intros; simplify_eq; rewrite Hsuf, <- Hbase.
  - destruct (Join_empty after "-" ltac:(done) He) as [->| ->]; [left|right]; cbn [Join String.concat];
      by rewrite ?string_app_assoc.
  - left. destruct (decide (after = [])) as [->|Ha]; [done|]. rewrite Join_cons by done. by rewrite !string_app_assoc.
Qed.

Lemma Cut_app a sep b : sep ∉ to_bytes a → Cut (a +:+ of_bytes [sep] +:+ b) sep = (a, b, true).
Proof.
  intros Hn. unfold Cut.
  assert (cut_bytes sep (to_bytes (a +:+ of_bytes [sep] +:+ b)) = Some (to_bytes a, to_bytes b)) as ->.
  { rewrite !to_bytes_app, to_of_bytes. by apply cut_bytes_Some. }
  by rewrite !of_to_bytes.
Qed.

(** Platform gems keep their platform: the version decodes to its parts. *)
Lemma splitGemVersion_platform number platform :
  "-"%char ∉ to_bytes number → splitGemVersion (number +:+ "-" +:+ platform) = (number, platform).
Proof.
  intros Hn. unfold splitGemVersion. pose proof (Cut_app number "-"%char platform Hn) as E.
  change (of_bytes ["-"%char] +:+ platform) with ("-" +:+ platform) in E. by rewrite E.
Qed.

(** ** Maven: the slots of a version directory *)

(** The file names Maven and Gradle make from coordinates. *)
Definition maven_file (artifact version : string) (classifier : option string) (ext : string) : string :=
  artifact +:+ "-" +:+ version +:+ (match classifier with Some c => "-" +:+ c | None => "" end) +:+ "." +:+ ext.

Definition classifier_ok (classifier : option string) : Prop :=
  match classifier with Some c => c ≠ "" ∧ "."%char ∉ to_bytes c | None => True end.

Lemma mavenClassifier_file artifact version classifier ext :
  classifier_ok classifier →
  mavenClassifier (maven_file artifact version classifier ext) artifact version =
    default "" classifier +:+ (if ext =s? "jar" then "" else "." +:+ ext).
Proof.
  intros Hc. unfold mavenClassifier, maven_file.
  set (rest := (match classifier with Some c => "-" +:+ c | None => "" end) +:+ "." +:+ ext).
  assert (strip_prefix (to_bytes (artifact +:+ "-" +:+ version)) (to_bytes (artifact +:+ "-" +:+ version +:+ rest)) = Some (to_bytes rest)) as ->.
  { apply strip_prefix_Some. by rewrite !to_bytes_app, <- !app_assoc. }
  subst rest. destruct classifier as [c|]; cbn [default].
  - destruct Hc as [_ Hd].
    change (to_bytes (("-" +:+ c) +:+ "." +:+ ext)) with ("-"%char :: to_bytes (c +:+ "." +:+ ext)).
    cbv iota. rewrite of_to_bytes. pose proof (Cut_app c "."%char ext Hd) as E.
    change (of_bytes ["."%char] +:+ ext) with ("." +:+ ext) in E. rewrite E. cbn [Ascii.eqb Bool.eqb].
    destruct (ext =s? "jar"); [|done]. apply to_bytes_inj. by rewrite to_bytes_app, app_nil_r.
  - change (to_bytes ("" +:+ "." +:+ ext)) with ("."%char :: to_bytes ext). cbv iota. rewrite of_to_bytes.
    cbn [Ascii.eqb Bool.eqb]. by destruct (ext =s? "jar").
Qed.

(** In one version directory the files made from coordinates have slots of
    their own. *)
Lemma maven_slots_apart artifact version c1 e1 c2 e2 :
  classifier_ok c1 → classifier_ok c2 →
  let f1 := maven_file artifact version c1 e1 in
  let f2 := maven_file artifact version c2 e2 in
  mavenClassifier f1 artifact version = mavenClassifier f2 artifact version → f1 = f2.
Proof.
  intros H1 H2. cbv zeta. rewrite !mavenClassifier_file by done. intros E. enough (c1 = c2 ∧ e1 = e2) as [-> ->] by done.
  apply (f_equal to_bytes) in E. rewrite !to_bytes_app in E.
  assert (∀ c e, classifier_ok c → ∃ a b, to_bytes (default "" c) ++ to_bytes (if e =s? "jar" then "" else "." +:+ e) = a ++ b ∧
            a = to_bytes (default "" c) ∧ "."%char ∉ a ∧ (b = [] ∧ e = "jar" ∨ b = "."%char :: to_bytes e)) as Hshape.
  { intros c e Hc. eexists _, _. split_and!; [done..| |].
    - destruct c as [c|]; [apply Hc|]. by apply not_elem_of_nil.
    - destruct (String.eqb_spec e "jar"); [by left|by right]. }
  destruct (Hshape c1 e1 H1) as (a1 & b1 & Q1 & A1 & N1 & B1), (Hshape c2 e2 H2) as (a2 & b2 & Q2 & A2 & N2 & B2).
  rewrite Q1, Q2 in E.
  assert (a1 = a2 ∧ b1 = b2) as [Ea Eb].
  { destruct B1 as [[-> _]| ->], B2 as [[-> _]| ->].
    - rewrite !app_nil_r in E. done.
    - rewrite app_nil_r in E. exfalso. apply N1. rewrite E. set_solver.
    - rewrite app_nil_r in E. exfalso. apply N2. rewrite <- E. set_solver.
    - assert (Some (a1, to_bytes e1) = Some (a2, to_bytes e2)) as [= -> ->]; [|done].
      transitivity (cut_bytes "."%char (a1 ++ "."%char :: to_bytes e1)); [symmetry|rewrite E]; by apply cut_bytes_Some. }
  rewrite A1, A2 in Ea. apply to_bytes_inj in Ea. split.
  - destruct c1 as [c1|], c2 as [c2|]; cbn in Ea, H1, H2; subst; try done; naive_solver.
  - destruct B1 as [[-> ->]| ->], B2 as [[-> ->]| ->]; try done. injection Eb. apply to_bytes_inj.
Qed.

(** Other names may share a slot: a hyphen before the extension is dropped, and
    a classifier may spell another file's whole name. *)
Example ex_maven_slots :
  parseMavenPath "/org/acme/app/1.0/app-1.0.jar" = Some ("org.acme:app", "1.0", "") ∧
  parseMavenPath "/org/acme/app/1.0/app-1.0-.jar" = Some ("org.acme:app", "1.0", "") ∧
  parseMavenPath "/org/acme/app/1.0/app-1.0-app-x.zip" = parseMavenPath "/org/acme/app/1.0/app-x.zip" ∧
  parseMavenPath "/org/acme/app/1.0/app-1.0.pom" = None.
Proof. vm_compute. done. Qed.

(** ** Go: the case encoding *)

Definition lower_upper_ok (c : ascii) : bool :=
  implb (is_upper c) (is_lower (lower_byte c) && Ascii.eqb (upper_byte (lower_byte c)) c) &&
  implb (is_lower c) (is_upper (upper_byte c) && Ascii.eqb (lower_byte (upper_byte c)) c).

Lemma lower_upper c : lower_upper_ok c = true.
Proof. revert c. apply all_bytes. vm_compute. done. Qed.

Lemma upper_lower c : is_upper c = true → is_lower (lower_byte c) = true ∧ upper_byte (lower_byte c) = c.
Proof.
  intros H. pose proof (lower_upper c) as Hc. unfold lower_upper_ok in Hc. rewrite H in Hc.
  apply andb_true_iff in Hc as [Hc _]. cbn in Hc. apply andb_true_iff in Hc as [? ?%Ascii.eqb_eq]. done.
Qed.

Lemma lower_upper_byte c : is_lower c = true → is_upper (upper_byte c) = true ∧ lower_byte (upper_byte c) = c.
Proof.
  intros H. pose proof (lower_upper c) as Hc. unfold lower_upper_ok in Hc. rewrite H in Hc.
  apply andb_true_iff in Hc as [_ Hc]. cbn in Hc. apply andb_true_iff in Hc as [? ?%Ascii.eqb_eq]. done.
Qed.

(** Encoding then decoding gives a path without '!' back. *)
Lemma decode_encode_go s : "!"%char ∉ to_bytes s → decodeGoPath (encodeGoPath s) = Some s.
Proof.
  intros Hn. unfold decodeGoPath, encodeGoPath. rewrite to_of_bytes.
  enough (decode_go (encode_go (to_bytes s)) = Some (to_bytes s)) as -> by (cbn; by rewrite of_to_bytes).
  induction (to_bytes s) as [|c l IH]; [done|]. unfold encode_go. rewrite bind_cons.
  assert (c ≠ "!"%char ∧ "!"%char ∉ l) as [Hc Hl] by set_solver. specialize (IH Hl).
  destruct (is_upper c) eqn:Hu.
  - destruct (upper_lower c Hu) as [E1 E2]. cbn [app decode_go]. rewrite Ascii.eqb_refl, E1, E2.
    fold (encode_go l). by rewrite IH.
  - cbn [app decode_go]. rewrite (proj2 (Ascii.eqb_neq c _)) by done. fold (encode_go l). by rewrite IH.
Qed.

(** What decodes, without a capital in it, is the encoding of what it decodes to. *)
Lemma encode_decode_go s t :
  forallb (λ c, negb (is_upper c)) (to_bytes s) = true → decodeGoPath s = Some t → encodeGoPath t = s.
Proof.
  intros Hs Hd. unfold decodeGoPath in Hd. apply fmap_Some in Hd as (l & Hd & ->).
  unfold encodeGoPath. rewrite to_of_bytes. rewrite <- (of_to_bytes s). f_equal.
  revert l Hs Hd. generalize (to_bytes s) as b. induction b as [b IH] using list_len_ind. intros l Hs Hd.
  destruct b as [|c b]; [by injection Hd as <-|]. cbn [forallb decode_go] in Hs, Hd. apply andb_true_iff in Hs as [Hc Hs].
  destruct (Ascii.eqb_spec c "!"%char) as [->|].
  - destruct b as [|n b]; [done|]. destruct (is_lower n) eqn:Hn; [|done]. apply fmap_Some in Hd as (l' & Hd & ->).
    destruct (lower_upper_byte n Hn) as [E1 E2]. unfold encode_go. rewrite bind_cons, E1, E2. cbn [app].
    cbn [forallb] in Hs. apply andb_true_iff in Hs as [_ Hs]. fold (encode_go l'). rewrite (IH b); [done|cbn; lia|done..].
  - apply fmap_Some in Hd as (l' & Hd & ->). unfold encode_go. rewrite bind_cons. apply negb_true_iff in Hc. rewrite Hc.
    cbn [app]. fold (encode_go l'). rewrite (IH b); [done|cbn; lia|done..].
Qed.

Lemma TrimPrefix_HasPrefix s p : HasPrefix s p = true → s = p +:+ TrimPrefix s p.
Proof.
  unfold HasPrefix, TrimPrefix. destruct (strip_prefix (to_bytes p) (to_bytes s)) as [r|] eqn:E; [|done].
  intros _. apply strip_prefix_Some in E. apply to_bytes_inj. by rewrite to_bytes_app, to_of_bytes.
Qed.

Lemma suffix_bytes s p : HasSuffix s p = true ↔ to_bytes p `suffix_of` to_bytes s.
Proof.
  rewrite HasSuffix_app. split.
  - intros ->. rewrite to_bytes_app. by eexists.
  - intros [k Hk]. unfold TrimSuffix. assert (strip_suffix (to_bytes p) (to_bytes s) = Some k) as -> by by apply strip_suffix_Some.
    apply to_bytes_inj. by rewrite to_bytes_app, to_of_bytes.
Qed.

(** A suffix without [c] ends what follows [c]. *)
Lemma suffix_after (s a b : bytes) c : c ∉ s → s `suffix_of` (a ++ c :: b) → s `suffix_of` b.
Proof.
  intros Hc [k H]. rewrite cons_middle, app_assoc in H. apply app_eq_inv in H as [(d & E & Hd)|(d & E & Hd)]; [|by exists d].
  destruct d as [|x d _] using rev_ind; [by exists []|]. rewrite app_assoc in E. apply app_inj_tail in E as [_ ->].
  exfalso. apply Hc. rewrite Hd. set_solver.
Qed.

(** The reference of a module zip gives its path back, when the client encodes
    the case as the protocol asks. *)
Lemma go_reference_path r ref :
  HasPrefix (rq_Path r) "/" = true → forallb (λ c, negb (is_upper c)) (to_bytes (rq_Path r)) = true →
  go_NormalizeRequest r = Some ref →
  rq_Path r = "/" +:+ encodeGoPath (Name ref) +:+ "/@v/" +:+ encodeGoPath (Version ref) +:+ ".zip".
Proof.
  intros Hp Hu. unfold go_NormalizeRequest.
  destruct (HasSuffix (rq_Path r) ".zip") eqn:Hsuf; [|done]. cbn [negb].
  destruct (cut_sub (to_bytes "/@v/") (to_bytes (rq_Path r))) as [[before after]|] eqn:Hc; [|done].
  apply cut_sub_Some in Hc.
  set (m := TrimPrefix (of_bytes before) "/"). set (v := TrimSuffix (of_bytes after) ".zip").
  destruct (String.eqb_spec m ""), (String.eqb_spec v ""); try done. cbn [orb].
  destruct (decodeGoPath m) as [m'|] eqn:Hm; [|done]. destruct (decodeGoPath v) as [v'|] eqn:Hv; [|done].
  intros [= <-]. cbn [Name Version].
  assert (HasPrefix (of_bytes before) "/" = true) as Hb.
  { clear -Hc Hp n. subst m. unfold HasPrefix, TrimPrefix in *. rewrite to_of_bytes in *. rewrite Hc in Hp.
    destruct before as [|c before]; [done|]. cbn [app] in Hp. change (to_bytes "/") with ["/"%char] in *.
    cbn [strip_prefix] in *. by destruct (Ascii.eqb "/" c). }
  assert (HasSuffix (of_bytes after) ".zip" = true) as Ha.
  { rewrite suffix_bytes in *. rewrite to_of_bytes. apply (suffix_after _ (before ++ to_bytes "/@v") _ "/"%char).
    - apply (bool_decide_unpack _). vm_compute. done.
    - rewrite Hc in Hsuf. by rewrite <- app_assoc. }
  apply TrimPrefix_HasPrefix in Hb. apply HasSuffix_app in Ha. fold m in Hb. fold v in Ha.
  assert (rq_Path r = "/" +:+ m +:+ "/@v/" +:+ v +:+ ".zip") as E.
  { apply to_bytes_inj. rewrite Hc, <- (to_of_bytes before), <- (to_of_bytes after), Hb, Ha.
    by rewrite !to_bytes_app, <- !app_assoc. }
  rewrite E in Hu |- *. rewrite !to_bytes_app, !forallb_app in Hu. rewrite !andb_true_iff in Hu.
  destruct Hu as (_ & Hum & _ & Huv & _).
  by rewrite (encode_decode_go m m'), (encode_decode_go v v').
Qed.

(** ** Fetching metadata *)

(** The mirrors are asked in turn, each once, up to the first that answers;
    when none does, the error holds the failure of each. *)
Lemma fetch_loop_spec std env from bases atts tr :
  let '(res, tr') := fetch_loop std env from bases atts tr in
  match res with
  | Ok meta => ∃ before base after tr0, bases = before ++ base :: after ∧ (from base tr0) = (Ok meta, tr')
  | Err e => ∃ l, e = EAttempts (atts ++ l) ∧ length l = length bases
  end.
Proof.
  revert atts tr. induction bases as [|base bases IH]; intros atts tr; [exists []; by rewrite app_nil_r|].
  cbn [fetch_loop]. unfold bind_st at 1. cbn [a_Now]. unfold bind_st at 1.
  destruct (from base _) as [[meta|[[u status] e]] tr1] eqn:E.
  - eexists [], base, bases, _. by split.
  - unfold bind_st. cbn [a_Now]. match goal with |- context [fetch_loop _ _ _ _ ?a ?t] => specialize (IH a t) end.
    destruct (fetch_loop _ _ _ _ _ _) as [[meta|e'] tr'].
    + destruct IH as (before & b & after & tr0 & -> & H). exists (base :: before), b, after, tr0. by split.
    + destruct IH as (l & -> & Hl). eexists. split; [unfold Add; by rewrite <- app_assoc|]. cbn. by rewrite Hl.
Qed.

(** ** What is named is an artifact *)

Lemma maven_named_is_artifact r ref : maven_NormalizeRequest r = Some ref → maven_IsArtifactPath r = true.
Proof. unfold maven_NormalizeRequest, maven_IsArtifactPath. by destruct (parseMavenPath _) as [[[]]|]. Qed.

Lemma gem_named_is_artifact r ref : gem_NormalizeRequest r = Some ref → gem_IsArtifactPath r = true.
Proof. unfold gem_NormalizeRequest, gem_IsArtifactPath. by destruct (HasSuffix _ _). Qed.

Lemma go_named_is_artifact r ref : go_NormalizeRequest r = Some ref → go_IsArtifactPath r = true.
Proof.
  unfold go_NormalizeRequest, go_IsArtifactPath, Contains. destruct (HasSuffix _ _); [|done].
  by destruct (cut_sub _ _).
Qed.
