(* ===== verification/URL.v ===== *)
(** * Packages net/url and path: what rewriting links uses of them

    Escaping, [Parse], [ResolveReference] and [path.Clean], with what a
    document's relative links resolve to.  How an authority ("user@host:port")
    is read is a parameter: nothing here depends on it. *)
From S2P Require Import Prelude GoStd Json.
Local Open Scope Z_scope.

(** ** Escaping *)

Inductive encoding := encodePath | encodeFragment.

Definition is_alnum (c : ascii) : bool :=
  let n := Ascii.nat_of_ascii c in in_range 48 57 n || in_range 65 90 n || in_range 97 122 n.

Definition shouldEscape (mode : encoding) (c : ascii) : bool :=
  if is_alnum c || bool_decide (c ∈ ["-"; "_"; "."; "~"]%char) then false
  else if bool_decide (c ∈ ["$"; "&"; "+"; ","; "/"; ":"; ";"; "="; "?"; "@"]%char) then
    match mode with encodePath => Ascii.eqb c "?"%char | encodeFragment => false end
  else match mode with encodePath => true | encodeFragment => negb (bool_decide (c ∈ ["!"; "("; ")"; "*"]%char)) end.

Definition upper_hex (n : nat) : ascii := byte_of (if (n <? 10)%nat then 48 + n else 55 + n).

Definition escape_byte (mode : encoding) (c : ascii) : bytes :=
  if shouldEscape mode c then
    let n := Ascii.nat_of_ascii c in ["%"%char; upper_hex (n / 16); upper_hex (n mod 16)]
  else [c].

Definition escape (mode : encoding) (l : bytes) : bytes := l ≫= escape_byte mode.

(** In a path and in a fragment a plus sign stands for itself. *)
Fixpoint unescape_plain (l : bytes) : option bytes :=
  match l with
  | [] => Some []
  | c :: l' =>
      if Ascii.eqb c "%"%char then
        match l' with
        | h1 :: h2 :: l'' =>
            match hex_value h1, hex_value h2 with
            | Some a, Some b => cons (byte_of (16 * a + b)) <$> unescape_plain l''
            | _, _ => None
            end
        | _ => None
        end
      else cons c <$> unescape_plain l'
  end.

Definition valid_byte (mode : encoding) (c : ascii) : bool :=
  bool_decide (c ∈ ["!"; "$"; "&"; "'"; "("; ")"; "*"; "+"; ","; ";"; "="; ":"; "@"; "["; "]"; "%"]%char)
  || negb (shouldEscape mode c).

Definition validEncoded (mode : encoding) (l : bytes) : bool := forallb (valid_byte mode) l.

(** The encoding a URL keeps besides a decoded part: none when it is the usual
    one. *)
Definition set_encoded (mode : encoding) (p : bytes) : option (bytes * bytes) :=
  decoded ← unescape_plain p;
  Some (decoded, if bool_decide (p = escape mode decoded) then [] else p).

Definition encoded (mode : encoding) (decoded raw : bytes) : bytes :=
  if bool_decide (raw ≠ []) && validEncoded mode raw && bool_decide (unescape_plain raw = Some decoded) then raw
  else escape mode decoded.

(** ** URLs *)

Record URL := mkParsed {
  URL_Scheme : bytes;
  URL_Opaque : bytes;
  URL_User : option string;
  URL_Host : string;
  URL_Path : bytes;
  URL_RawPath : bytes;
  URL_ForceQuery : bool;
  URL_RawQuery : bytes;
  URL_Fragment : bytes;
  URL_RawFragment : bytes;
}.

Definition EscapedPath (u : URL) : bytes :=
  if bool_decide (URL_RawPath u ≠ []) && validEncoded encodePath (URL_RawPath u) &&
     bool_decide (unescape_plain (URL_RawPath u) = Some (URL_Path u)) then URL_RawPath u
  else if bool_decide (URL_Path u = ["*"%char]) then ["*"%char]
  else escape encodePath (URL_Path u).

Definition EscapedFragment (u : URL) : bytes := encoded encodeFragment (URL_Fragment u) (URL_RawFragment u).

Definition is_letter (c : ascii) : bool :=
  let n := Ascii.nat_of_ascii c in in_range 65 90 n || in_range 97 122 n.

(** The scheme and the rest; [None] for an empty scheme. *)
Fixpoint scheme_from (seen l : bytes) : option (bytes * bytes) :=
  match l with
  | [] => Some ([], [])
  | c :: l' =>
      if is_letter c then scheme_from (c :: seen) l'
      else if is_digit c || bool_decide (c ∈ ["+"; "-"; "."]%char) then
        match seen with [] => Some ([], []) | _ => scheme_from (c :: seen) l' end
      else if Ascii.eqb c ":"%char then
        match seen with [] => None | _ => Some (rev seen, l') end
      else Some ([], [])
  end.

Definition getScheme (l : bytes) : option (bytes * bytes) :=
  match scheme_from [] l with
  | Some ([], _) => Some ([], l)
  | r => r
  end.

Definition cut1 (sep : ascii) (l : bytes) : bytes * bytes := default (l, []) (cut_bytes sep l).

Definition is_ctl (c : ascii) : bool := let n := Ascii.nat_of_ascii c in (n <? 32)%nat || (n =? 127)%nat.

Section URL.
(** "user@host" to the user, if any, and the host. *)
Context (parseAuthority : bytes -> option (option string * string)).

(** Parse without its fragment. *)
Definition parse_url (raw : bytes) : option URL :=
  if existsb is_ctl raw then None
  else if bool_decide (raw = ["*"%char]) then Some (mkParsed [] [] None "" raw [] false [] [] [])
  else
    '(scheme, rest) ← getScheme raw;
    let scheme := lower_bytes scheme in
    let '(rest, query, force) :=
      match strip_suffix ["?"%char] rest with
      | Some rest' => if bool_decide ("?"%char ∈ rest') then (cut1 "?"%char rest, false) else (rest', [], true)
      | None => (cut1 "?"%char rest, false)
      end in
    let rooted := bool_decide (head rest = Some "/"%char) in
    if negb rooted && bool_decide (scheme ≠ []) then Some (mkParsed scheme rest None "" [] [] force query [] [])
    else if negb rooted && bool_decide (":"%char ∈ (cut1 "/"%char rest).1) then None
    else
      '(user, host, rest) ←
        match strip_prefix ["/"; "/"]%char rest with
        | Some authority =>
            if bool_decide (scheme = []) && bool_decide (head authority = Some "/"%char) then Some (None, "", rest)
            else
              let '(authority, rest) :=
                match cut_bytes "/"%char authority with
                | Some (a, r) => (a, "/"%char :: r)
                | None => (authority, [])
                end in
              '(user, host) ← parseAuthority authority;
              Some (user, host, rest)
        | None => Some (None, "", rest)
        end;
      '(path, rawPath) ← set_encoded encodePath rest;
      Some (mkParsed scheme [] user host path rawPath force query [] []).

Definition Parse (raw : bytes) : option URL :=
  let '(u, frag) := cut1 "#"%char raw in
  url ← parse_url u;
  match frag with
  | [] => Some url
  | _ =>
      '(fragment, rawFragment) ← set_encoded encodeFragment frag;
      Some (mkParsed (URL_Scheme url) (URL_Opaque url) (URL_User url) (URL_Host url) (URL_Path url) (URL_RawPath url) (URL_ForceQuery url)
              (URL_RawQuery url) fragment rawFragment)
  end.
End URL.

(** ** References *)

(** The segments of the path so far, the last one first. *)
Definition resolve_step (st : list bytes) (elem : bytes) : list bytes :=
  if bool_decide (elem = ["."%char]) then match st with [] => [[]] | _ => st end
  else if bool_decide (elem = [".";"."]%char) then tail st
  else elem :: st.

Fixpoint join_bytes (sep : ascii) (l : list bytes) : bytes :=
  match l with
  | [] => []
  | [x] => x
  | x :: l' => x ++ sep :: join_bytes sep l'
  end.

Definition is_dots (elem : bytes) : bool := bool_decide (elem = ["."%char]) || bool_decide (elem = [".";"."]%char).

(** Up to the last slash, it included. *)
Definition up_to_last (l : bytes) : bytes :=
  match cut_bytes "/"%char (rev l) with Some (_, r) => rev ("/"%char :: r) | None => [] end.

Definition resolvePath (base ref : bytes) : bytes :=
  let full := match ref with [] => base | "/"%char :: _ => ref | _ => up_to_last base ++ ref end in
  match full with
  | [] => []
  | _ =>
      let elems := split_bytes "/"%char full in
      let str := join_bytes "/"%char (rev (foldl resolve_step [] elems)) ++
                 (if is_dots (default [] (last elems)) then ["/"%char] else []) in
      match str with "/"%char :: _ => str | _ => "/"%char :: str end
  end.

(** setPath, whose error the code ignores. *)
Definition with_path (u : URL) (p : bytes) : URL :=
  match set_encoded encodePath p with
  | Some (path, raw) =>
      mkParsed (URL_Scheme u) (URL_Opaque u) (URL_User u) (URL_Host u) path raw (URL_ForceQuery u) (URL_RawQuery u)
        (URL_Fragment u) (URL_RawFragment u)
  | None => u
  end.

Definition ResolveReference (u ref : URL) : URL :=
  let scheme := if bool_decide (URL_Scheme ref = []) then URL_Scheme u else URL_Scheme ref in
  let url := mkParsed scheme (URL_Opaque ref) (URL_User ref) (URL_Host ref) (URL_Path ref) (URL_RawPath ref)
               (URL_ForceQuery ref) (URL_RawQuery ref) (URL_Fragment ref) (URL_RawFragment ref) in
  if bool_decide (URL_Scheme ref ≠ []) || negb (URL_Host ref =s? "") || bool_decide (is_Some (URL_User ref)) then
    with_path url (resolvePath (EscapedPath ref) [])
  else if bool_decide (URL_Opaque ref ≠ []) then
    mkParsed scheme (URL_Opaque ref) None "" [] (URL_RawPath ref) (URL_ForceQuery ref) (URL_RawQuery ref)
      (URL_Fragment ref) (URL_RawFragment ref)
  else
    let same := bool_decide (URL_Path ref = []) && negb (URL_ForceQuery ref) && bool_decide (URL_RawQuery ref = []) in
    let query := if same then URL_RawQuery u else URL_RawQuery ref in
    let keep := same && bool_decide (URL_Fragment ref = []) in
    let fragment := if keep then URL_Fragment u else URL_Fragment ref in
    let rawFragment := if keep then URL_RawFragment u else URL_RawFragment ref in
    if bool_decide (URL_Path ref = []) && bool_decide (URL_Opaque u ≠ []) then
      mkParsed scheme (URL_Opaque u) None "" (URL_Path ref) (URL_RawPath ref) (URL_ForceQuery ref) query fragment rawFragment
    else
      with_path (mkParsed scheme (URL_Opaque ref) (URL_User u) (URL_Host u) (URL_Path ref) (URL_RawPath ref)
                   (URL_ForceQuery ref) query fragment rawFragment)
        (resolvePath (EscapedPath u) (EscapedPath ref)).

(** ** path.Clean *)

Definition clean_step (rooted : bool) (st : list bytes) (elem : bytes) : list bytes :=
  if bool_decide (elem = []) || bool_decide (elem = ["."%char]) then st
  else if bool_decide (elem = [".";"."]%char) then
    match st with
    | [] => if rooted then [] else [elem]
    | top :: st' => if bool_decide (top = [".";"."]%char) then elem :: st else st'
    end
  else elem :: st.

Definition Clean (p : bytes) : bytes :=
  let rooted := bool_decide (head p = Some "/"%char) in
  let segs := rev (foldl (clean_step rooted) [] (split_bytes "/"%char p)) in
  match rooted, segs with
  | true, _ => "/"%char :: join_bytes "/"%char segs
  | false, [] => ["."%char]
  | false, _ => join_bytes "/"%char segs
  end.

Example ex_url :
  Clean (to_bytes "/a//b/../c/.") = to_bytes "/a/c" ∧ Clean (to_bytes "a/../..") = to_bytes ".." ∧
  resolvePath (to_bytes "/simple/foo/") (to_bytes "../../packages/x") = to_bytes "/packages/x" ∧
  resolvePath (to_bytes "/a/b/c") (to_bytes "..") = to_bytes "/a/" ∧ resolvePath (to_bytes "/a/b") (to_bytes "../../../g/./h") = to_bytes "/g/h" ∧
  escape encodePath (to_bytes "a b?%") = to_bytes "a%20b%3F%25".
Proof. vm_compute. done. Qed.

(** ** Escaping and back *)

Lemma escape_cons mode c l : escape mode (c :: l) = escape_byte mode c ++ escape mode l.
Proof. done. Qed.

Lemma escape_app mode a b : escape mode (a ++ b) = escape mode a ++ escape mode b.
Proof. apply bind_app. Qed.

(** A byte written in hexadecimal is read back; the others are no percent sign. *)
Lemma hex_byte c :
  let n := Ascii.nat_of_ascii c in
  hex_value (upper_hex (n / 16)) = Some (n / 16)%nat ∧ hex_value (upper_hex (n mod 16)) = Some (n mod 16)%nat ∧
  byte_of (16 * (n / 16) + n mod 16) = c.
Proof.
  set (p c := let n := Ascii.nat_of_ascii c in
    bool_decide (hex_value (upper_hex (n / 16)) = Some (n / 16)%nat ∧ hex_value (upper_hex (n mod 16)) = Some (n mod 16)%nat ∧
      byte_of (16 * (n / 16) + n mod 16) = c)).
  assert (p c = true) as H by (apply all_bytes; vm_compute; done). by apply bool_decide_eq_true in H.
Qed.

Lemma plain_not_percent mode c : shouldEscape mode c = false → Ascii.eqb c "%"%char = false.
Proof. destruct mode; destruct (Ascii.eqb_spec c "%"%char) as [->|]; done. Qed.

Lemma unescape_escape mode l : unescape_plain (escape mode l) = Some l.
Proof.
  induction l as [|c l IH]; [done|]. rewrite escape_cons. unfold escape_byte.
  destruct (shouldEscape mode c) eqn:Hc.
  - pose proof (hex_byte c) as H. cbv zeta in H |- *. destruct H as (H1 & H2 & H3).
    cbn [app unescape_plain Ascii.eqb]. change (Ascii.eqb "%" "%") with true. cbv iota. by rewrite H1, H2, IH, H3.
  - apply plain_not_percent in Hc. cbn [app unescape_plain]. by rewrite Hc, IH.
Qed.

Lemma escape_no_sep mode sep l : shouldEscape mode sep = true → is_hex sep = false → sep ≠ "%"%char → sep ∉ escape mode l.
Proof.
  intros Hs Hh Hp. unfold escape. rewrite list_elem_of_bind. intros (c & Hin & _). unfold escape_byte in Hin.
  destruct (shouldEscape mode c) eqn:Hc.
  - cbv zeta in Hin. pose proof (hex_byte c) as (H1 & H2 & _). unfold is_hex in Hh.
    apply elem_of_cons in Hin as [->|[->|[->|Hin]%elem_of_cons]%elem_of_cons]; [done| | |by apply not_elem_of_nil in Hin].
    + by rewrite H1 in Hh.
    + by rewrite H2 in Hh.
  - apply list_elem_of_singleton in Hin as ->. by rewrite Hs in Hc.
Qed.

Lemma escape_slash_byte c : c ≠ "/"%char → "/"%char ∉ escape_byte encodePath c.
Proof.
  intros Hc. unfold escape_byte. destruct (shouldEscape _ c); [|set_solver]. cbv zeta.
  pose proof (hex_byte c) as (H1 & H2 & _). rewrite !not_elem_of_cons. split_and!; [done| | |apply not_elem_of_nil];
    intros E; rewrite <- E in *; done.
Qed.

Lemma split_prefix sep p l : sep ∉ p →
  split_bytes sep (p ++ l) = match split_bytes sep l with w :: ws => (p ++ w) :: ws | [] => [p] end.
Proof.
  induction p as [|c p IH]; intros Hp; cbn [app].
  - destruct (split_bytes sep l) eqn:E; [by apply split_bytes_nonempty in E|done].
  - cbn [split_bytes]. apply not_elem_of_cons in Hp as [Hc Hp]. destruct (Ascii.eqb_spec c sep) as [->|_]; [done|].
    rewrite IH by done. by destruct (split_bytes sep l).
Qed.

Lemma split_escape l : split_bytes "/"%char (escape encodePath l) = escape encodePath <$> split_bytes "/"%char l.
Proof.
  induction l as [|c l IH]; [done|]. rewrite escape_cons. cbn [split_bytes]. destruct (Ascii.eqb_spec c "/"%char) as [->|Hc].
  - change (escape_byte encodePath "/"%char) with ["/"%char]. cbn [app split_bytes]. rewrite IH. done.
  - rewrite split_prefix by (by apply escape_slash_byte). rewrite IH. destruct (split_bytes "/" l) eqn:E; [by apply split_bytes_nonempty in E|].
    done.
Qed.

(** ** Segments *)

Definition plain_seg (seg : bytes) : Prop := seg ≠ [] ∧ is_dots seg = false ∧ "/"%char ∉ seg.

Lemma split_no_sep sep l x : x ∈ split_bytes sep l → sep ∉ x.
Proof.
  revert x. induction l as [|c l IH]; intros x; cbn [split_bytes].
  - intros ->%list_elem_of_singleton. apply not_elem_of_nil.
  - destruct (Ascii.eqb_spec c sep) as [->|Hc]; [intros [->|Hx]%elem_of_cons; [apply not_elem_of_nil|auto]|].
    destruct (split_bytes sep l) as [|w ws].
    + intros ->%list_elem_of_singleton. apply not_elem_of_cons. split; [done|apply not_elem_of_nil].
    + intros [->|Hx]%elem_of_cons; [|apply IH; by right]. apply not_elem_of_cons. split; [done|]. apply IH. by left.
Qed.

Lemma split_join sep l : l ≠ [] → Forall (λ x, sep ∉ x) l → split_bytes sep (join_bytes sep l) = l.
Proof.
  induction l as [|x l IH]; [done|]. intros _ H. inversion H as [|? ? Hx Hl]; subst. destruct l as [|y l].
  - by apply split_bytes_no_sep.
  - change (join_bytes sep (x :: y :: l)) with (x ++ sep :: join_bytes sep (y :: l)).
    rewrite split_bytes_app by done. by rewrite IH.
Qed.

Lemma join_split sep l : join_bytes sep (split_bytes sep l) = l.
Proof.
  induction l as [|c l IH]; [done|]. cbn [split_bytes]. destruct (Ascii.eqb_spec c sep) as [->|Hc].
  - destruct (split_bytes sep l) as [|w ws] eqn:E; [by apply split_bytes_nonempty in E|].
    change (sep :: join_bytes sep (w :: ws) = sep :: l). by rewrite IH.
  - destruct (split_bytes sep l) as [|w ws] eqn:E; [by apply split_bytes_nonempty in E|].
    destruct ws as [|w' ws]; [cbn in *; by subst|].
    change (c :: join_bytes sep (w :: w' :: ws) = c :: l). by rewrite IH.
Qed.

Lemma escape_join l : escape encodePath (join_bytes "/"%char l) = join_bytes "/"%char (escape encodePath <$> l).
Proof.
  induction l as [|x l IH]; [done|]. destruct l as [|y l]; [done|].
  change (join_bytes "/" (x :: y :: l)) with (x ++ "/"%char :: join_bytes "/" (y :: l)).
  rewrite escape_app, escape_cons, IH. done.
Qed.

Lemma escape_plain_seg seg : plain_seg seg → plain_seg (escape encodePath seg).
Proof.
  intros (He & Hd & Hs). pose proof (unescape_escape encodePath seg) as Hu. split_and!.
  - intros E. rewrite E in Hu. by injection Hu as <-.
  - unfold is_dots in *. rewrite orb_false_iff, !bool_decide_eq_false in *.
    split; intros E; rewrite E in Hu; injection Hu as <-; by destruct Hd.
  - unfold escape. rewrite list_elem_of_bind. intros (c & Hc & Hin). destruct (decide (c = "/"%char)) as [->|Hne]; [done|].
    by apply escape_slash_byte in Hc.
Qed.

(** ** Clean *)

Lemma clean_steps rooted l st :
  Forall (λ x, "/"%char ∉ x) l → Forall (λ x, x ≠ [] ∧ "/"%char ∉ x ∧ (rooted = true → is_dots x = false)) st →
  Forall (λ x, x ≠ [] ∧ "/"%char ∉ x ∧ (rooted = true → is_dots x = false)) (foldl (clean_step rooted) st l).
Proof.
  revert st. induction l as [|x l IH]; [done|]. intros st Hl Hst. inversion Hl as [|? ? Hx Hl']; subst. cbn [foldl].
  apply IH; [done|]. unfold clean_step. destruct (decide (x = [])) as [->|He]; [done|].
  rewrite (bool_decide_eq_false_2 (x = [])) by done. cbn [orb]. case_bool_decide as H1; [done|]. case_bool_decide as H2.
  - destruct st as [|top st]; [destruct rooted; [done|by constructor]|].
    inversion Hst as [|? ? (_ & _ & Hd) Hst']; subst. case_bool_decide as Ht; [|done]. constructor; [|done].
    split; [done|]. split; [done|]. intros Hr. specialize (Hd Hr). by rewrite Ht in Hd.
  - constructor; [|done]. split; [done|]. split; [done|]. intros _. unfold is_dots. by rewrite !bool_decide_eq_false_2.
Qed.

(** A clean path that is rooted is plain segments. *)
Lemma Clean_rooted p r : Clean p = "/"%char :: r → ∃ segs, r = join_bytes "/"%char segs ∧ Forall plain_seg segs.
Proof.
  unfold Clean. set (rooted := bool_decide _). set (st := foldl _ _ _).
  assert (Forall (λ x, x ≠ [] ∧ "/"%char ∉ x ∧ (rooted = true → is_dots x = false)) st) as Hst.
  { apply clean_steps; [|done]. apply Forall_forall. apply split_no_sep. }
  apply Forall_rev in Hst. destruct rooted.
  - intros [= <-]. exists (rev st). split; [done|]. eapply Forall_impl; [exact Hst|]. intros x (? & ? & Hd). split_and!; auto.
  - destruct (rev st) as [|x l]; [done|]. intros E. inversion Hst as [|? ? (He & Hs & _) _]; subst.
    destruct x as [|c x]; [done|]. exfalso. destruct l; injection E as -> _; set_solver.
Qed.

(** ** Going up and down again *)

Definition up_prefix (n : nat) : bytes := concat (replicate n (to_bytes "../")).

Definition dir_bytes (dirs : list bytes) : bytes := "/"%char :: concat ((λ d, d ++ ["/"%char]) <$> dirs).

Lemma dir_bytes_snoc dirs d : dir_bytes (dirs ++ [d]) = dir_bytes dirs ++ d ++ ["/"%char].
Proof. unfold dir_bytes. rewrite fmap_app, concat_app. cbn. by rewrite app_nil_r. Qed.

Lemma dir_bytes_last dirs : ∃ l, dir_bytes dirs = l ++ ["/"%char].
Proof.
  destruct dirs as [|d dirs _] using rev_ind; [by exists []|]. exists (dir_bytes dirs ++ d).
  by rewrite dir_bytes_snoc, app_assoc.
Qed.

Lemma up_to_last_dir dirs file : "/"%char ∉ file → up_to_last (dir_bytes dirs ++ file) = dir_bytes dirs.
Proof.
  intros Hl. destruct (dir_bytes_last dirs) as [l ->]. unfold up_to_last.
  assert (cut_bytes "/"%char (rev ((l ++ ["/"%char]) ++ file)) = Some (rev file, rev l)) as ->.
  { apply cut_bytes_Some. rewrite rev_app_distr, rev_app_distr. split; [done|]. by rewrite list_elem_of_In, <- in_rev, <- list_elem_of_In. }
  cbn. by rewrite rev_involutive.
Qed.

Lemma split_dir dirs l : Forall (λ d, "/"%char ∉ d) dirs →
  split_bytes "/"%char (dir_bytes dirs ++ l) = [] :: dirs ++ split_bytes "/"%char l.
Proof.
  intros H. unfold dir_bytes. cbn [app]. change ("/"%char :: ?x) with ([] ++ "/"%char :: x).
  rewrite split_bytes_app by apply not_elem_of_nil. f_equal.
  induction dirs as [|d dirs IH]; [done|]. inversion H as [|? ? Hd Hds]; subst. cbn [fmap list_fmap concat app].
  rewrite <- !app_assoc. cbn [app]. rewrite split_bytes_app by done. by rewrite IH.
Qed.

Lemma split_up n l : split_bytes "/"%char (up_prefix n ++ l) = replicate n [".";"."]%char ++ split_bytes "/"%char l.
Proof.
  induction n as [|n IH]; [done|]. unfold up_prefix in *. cbn [replicate concat]. rewrite <- app_assoc.
  change (to_bytes "../" ++ ?x) with ([".";"."]%char ++ "/"%char :: x). rewrite split_bytes_app, IH; [done|].
  apply (bool_decide_unpack _). vm_compute. done.
Qed.

Lemma resolve_plain segs st : Forall plain_seg segs → foldl resolve_step st segs = rev segs ++ st.
Proof.
  revert st. induction segs as [|x segs IH]; intros st H; [done|]. inversion H as [|? ? (_ & Hd & _) Hs]; subst.
  cbn [foldl rev]. rewrite IH by done. rewrite <- app_assoc. f_equal. unfold resolve_step, is_dots in *.
  apply orb_false_iff in Hd as [-> ->]. done.
Qed.

Lemma resolve_ups n l st : length l = n → foldl resolve_step (l ++ st) (replicate n [".";"."]%char) = st.
Proof. revert l. induction n as [|n IH]; intros [|x l]; try done. intros [= Hl]. cbn. by apply IH. Qed.

(** From a document, as many steps up as it has directories lead to the root. *)
Lemma resolvePath_up dirs file segs :
  Forall plain_seg dirs → dirs ≠ [] → "/"%char ∉ file → Forall plain_seg segs → segs ≠ [] →
  resolvePath (dir_bytes dirs ++ file) (up_prefix (length dirs) ++ join_bytes "/"%char segs) =
    "/"%char :: join_bytes "/"%char segs.
Proof.
  intros Hd Hne Hl Hs Hse. destruct dirs as [|d dirs']; [done|]. set (dirs := d :: dirs') in *.
  assert (∃ r, up_prefix (length dirs) ++ join_bytes "/"%char segs = "."%char :: r) as [r Hr] by by eexists.
  unfold resolvePath. rewrite Hr. cbv iota. rewrite <- Hr, up_to_last_dir by done. clear Hr r.
  destruct (dir_bytes dirs ++ _) as [|x0 full0] eqn:E; [by destruct (dir_bytes_last dirs) as [[] El]; rewrite El in E|].
  rewrite <- E. clear E x0 full0.
  rewrite split_dir by (eapply Forall_impl; [exact Hd|]; by intros ? (_ & _ & ?)).
  rewrite split_up, split_join; [|done|eapply Forall_impl; [exact Hs|]; by intros ? (_ & _ & ?)].
  assert (default [] (last ([] :: dirs ++ replicate (length dirs) [".";"."]%char ++ segs)) = default [] (last segs)) as ->.
  { destruct segs as [|x segs _] using rev_ind; [done|]. rewrite app_comm_cons, !app_assoc, !last_snoc. done. }
  assert (is_dots (default [] (last segs)) = false) as ->.
  { destruct segs as [|x segs' _] using rev_ind; [done|]. rewrite last_snoc. cbn. apply Forall_app in Hs as [_ Hs].
    inversion Hs as [|? ? (_ & Hx & _) _]; by subst. }
  assert (foldl resolve_step [] ([] :: dirs ++ replicate (length dirs) [".";"."]%char ++ segs) = rev segs ++ [[]]) as ->.
  { cbn [foldl]. change (resolve_step [] []) with [[] : bytes]. rewrite !foldl_app, (resolve_plain dirs) by done.
    rewrite resolve_ups by apply length_rev. by apply resolve_plain. }
  rewrite rev_app_distr, rev_involutive, app_nil_r. cbn [rev app]. by destruct segs.
Qed.

(** ** Relative links *)

Definition tagged (tag : ascii) (l : bytes) : bytes := match l with [] => [] | _ => tag :: l end.

Lemma cut1_tagged tag p l : tag ∉ p → cut1 tag (p ++ tagged tag l) = (p, l).
Proof.
  intros Hp. unfold cut1. destruct l as [|c l].
  - cbn [tagged]. rewrite app_nil_r. apply cut_bytes_None in Hp as ->. done.
  - assert (cut_bytes tag (p ++ tagged tag (c :: l)) = Some (p, c :: l)) as -> by (by apply cut_bytes_Some). done.
Qed.

Lemma encoded_decodes mode decoded raw : unescape_plain (encoded mode decoded raw) = Some decoded.
Proof.
  unfold encoded. destruct (_ && _) eqn:E; [|apply unescape_escape].
  apply andb_true_iff in E as [_ E]. by apply bool_decide_eq_true in E.
Qed.

Section Relative.
Context (parseAuthority : bytes → option (option string * string)).

Lemma existsb_app_false {A} (f : A → bool) a b : existsb f (a ++ b) = false ↔ existsb f a = false ∧ existsb f b = false.
Proof. by rewrite existsb_app, orb_false_iff. Qed.

(** A path that goes up first is read as a path. *)
Lemma parse_url_up path query :
  existsb is_ctl (("."%char :: "."%char :: "/"%char :: path) ++ tagged "?"%char query) = false → "?"%char ∉ path →
  is_Some (unescape_plain path) →
  ∃ u, parse_url parseAuthority (("."%char :: "."%char :: "/"%char :: path) ++ tagged "?"%char query) = Some u ∧
    URL_Scheme u = [] ∧ URL_Opaque u = [] ∧ URL_User u = None ∧ URL_Host u = "" ∧
    set_encoded encodePath ("."%char :: "."%char :: "/"%char :: path) = Some (URL_Path u, URL_RawPath u).
Proof.
  intros Hctl Hq [dec Hdec]. set (p := "."%char :: "."%char :: "/"%char :: path) in *.
  assert (unescape_plain p = Some (to_bytes "../" ++ dec)) as Hp by (unfold p; cbn; by rewrite Hdec).
  unfold parse_url. rewrite Hctl.
  rewrite bool_decide_eq_false_2 by done. cbn [getScheme app].
  assert (getScheme (p ++ tagged "?" query) = Some ([], p ++ tagged "?" query)) as -> by done. cbn [mbind option_bind lower_bytes].
  assert ("?"%char ∉ p) as Hqp by (unfold p; rewrite !not_elem_of_cons; done).
  assert (∃ query' force, (match strip_suffix ["?"%char] (p ++ tagged "?" query) with
      | Some rest' => if bool_decide ("?"%char ∈ rest') then (cut1 "?"%char (p ++ tagged "?" query), false) else (rest', [], true)
      | None => (cut1 "?"%char (p ++ tagged "?" query), false)
      end) = (p, query', force)) as (query' & force & ->).
  { rewrite cut1_tagged by done. destruct (strip_suffix _ _) as [rest'|] eqn:E; [|by eexists _, _].
    case_bool_decide as Hin; [by eexists _, _|]. exfalso. apply strip_suffix_Some in E. destruct query as [|c query].
    - cbn [tagged] in E. rewrite app_nil_r in E. rewrite E in Hqp. apply Hqp. set_solver.
    - destruct (cut_bytes_Some "?"%char (p ++ tagged "?" (c :: query)) p (c :: query)) as [_ H1]. specialize (H1 (conj eq_refl Hqp)).
      destruct (cut_bytes_Some "?"%char (p ++ tagged "?" (c :: query)) rest' []) as [_ H2]. specialize (H2 (conj E Hin)).
      rewrite H1 in H2. by injection H2. }
  rewrite (bool_decide_eq_false_2 (head p = _)) by done. rewrite (bool_decide_eq_false_2 ([] ≠ [])) by naive_solver.
  cbn [negb andb]. rewrite (bool_decide_eq_false_2 (":"%char ∈ (cut1 "/" p).1)) by (apply (bool_decide_unpack _); vm_compute; done).
  assert (strip_prefix ["/"; "/"]%char p = None) as -> by done. cbn [mbind option_bind].
  assert (∃ raw, set_encoded encodePath p = Some (to_bytes "../" ++ dec, raw)) as [raw Hraw]
    by (unfold set_encoded; rewrite Hp; by eexists).
  rewrite Hraw. cbn [mbind option_bind]. eexists. split; [done|]. cbn. done.
Qed.

(** The bytes of a query come from the link; no control character does. *)
Lemma cut1_sub sep l c : c ∈ (cut1 sep l).1 ∨ c ∈ (cut1 sep l).2 → c ∈ l.
Proof.
  unfold cut1. destruct (cut_bytes sep l) as [[a b]|] eqn:E; cbn; [|by intros [|?%elem_of_nil]].
  apply cut_bytes_Some in E as [-> _]. rewrite elem_of_app, elem_of_cons. tauto.
Qed.

Lemma scheme_from_sub l : ∀ seen scheme rest, scheme_from seen l = Some (scheme, rest) → ∀ c, c ∈ rest → c ∈ l.
Proof.
  induction l as [|x l IH]; intros seen scheme rest; cbn [scheme_from]; [by intros [= <- <-]|].
  repeat case_match; intros E; simplify_eq; intros b Hb; try (by apply not_elem_of_nil in Hb); right; eauto.
Qed.

Lemma parse_url_query raw u : parse_url parseAuthority raw = Some u →
  existsb is_ctl (URL_RawQuery u) = false ∧ ∀ c, c ∈ URL_RawQuery u → c ∈ raw.
Proof.
  intros H. assert (∀ c, c ∈ URL_RawQuery u → c ∈ raw) as Hsub; [|split; [|done]].
  - revert H. unfold parse_url. destruct (existsb is_ctl raw); [done|].
    case_bool_decide; [intros [= <-]; cbn; intros c ?%elem_of_nil; done|].
    unfold getScheme. destruct (scheme_from [] raw) as [[scheme rest0]|] eqn:Hs; [|done].
    pose proof (scheme_from_sub _ _ _ _ Hs) as Hsub0.
    set (sr := match scheme with [] => _ | _ => _ end).
    assert (∃ s r, sr = Some (s, r) ∧ ∀ c, c ∈ r → c ∈ raw) as (s & r & -> & Hr) by (unfold sr; destruct scheme; by eexists _, _).
    clear Hs Hsub0. cbn [mbind option_bind].
    assert (∀ c, c ∈ (match strip_suffix ["?"%char] r with
      | Some rest' => if bool_decide ("?"%char ∈ rest') then (cut1 "?"%char r, false) else (rest', [], true)
      | None => (cut1 "?"%char r, false)
      end).1.2 → c ∈ raw) as Hq.
    { intros c. repeat case_match; cbn; try (intros ?; apply Hr, (cut1_sub "?"%char); by right). by intros ?%elem_of_nil. }
    destruct (match strip_suffix _ r with Some _ => _ | None => _ end) as [[rest query] force]. cbn [fst snd] in Hq.
    repeat case_match; try done; intros E; try (injection E as <-; done);
      repeat match type of E with
        | mbind _ ?o = Some _ => destruct o as [[]|]; cbn [mbind option_bind] in E; [|done]
        end; repeat case_match; try done; repeat match type of E with
        | mbind _ ?o = Some _ => destruct o as [[]|]; cbn [mbind option_bind] in E; [|done]
        end; repeat case_match; try done; injection E as <-; done.
  - apply not_true_is_false. intros E. apply existsb_exists in E as (c & Hc & E). apply list_elem_of_In in Hc.
    unfold parse_url in H. destruct (existsb is_ctl raw) eqn:Er; [done|].
    assert (existsb is_ctl raw = true); [|congruence]. apply existsb_exists. exists c. split; [|done].
    by apply list_elem_of_In, Hsub.
Qed.
End Relative.

Lemma up_prefix_S n l : up_prefix (S n) ++ l = "."%char :: "."%char :: "/"%char :: (up_prefix n ++ l).
Proof. done. Qed.

Lemma unescape_up n l d : unescape_plain l = Some d → unescape_plain (up_prefix n ++ l) = Some (up_prefix n ++ d).
Proof.
  intros Hl. induction n as [|n IH]; [done|]. rewrite !up_prefix_S. cbn [unescape_plain].
  change (Ascii.eqb "." "%") with false. change (Ascii.eqb "/" "%") with false. cbv iota. by rewrite IH.
Qed.

Lemma escape_up n l : escape encodePath (up_prefix n ++ l) = up_prefix n ++ escape encodePath l.
Proof. induction n as [|n IH]; [done|]. rewrite !up_prefix_S, !escape_cons, IH. done. Qed.

Lemma up_no c n : c ≠ "."%char → c ≠ "/"%char → c ∉ up_prefix n.
Proof.
  intros H1 H2. induction n as [|n IH]; [apply not_elem_of_nil|]. rewrite <- (app_nil_r (up_prefix _)), up_prefix_S.
  rewrite !not_elem_of_cons, app_nil_r. done.
Qed.

(** Nothing that is escaped, but for the percent sign, is in an escaped path. *)
Lemma up_escape_no c n l :
  shouldEscape encodePath c = true → is_hex c = false → c ≠ "%"%char → c ∉ up_prefix n ++ escape encodePath l.
Proof.
  intros H1 H2 H3. rewrite not_elem_of_app. split; [apply up_no; by intros ->|by apply escape_no_sep].
Qed.

Lemma up_escape_ctl n l : existsb is_ctl (up_prefix n ++ escape encodePath l) = false.
Proof.
  apply not_true_is_false. intros E. apply existsb_exists in E as (c & Hc & E). apply list_elem_of_In in Hc.
  revert Hc. apply up_escape_no.
  - revert E. apply (all_bytes_impl is_ctl (shouldEscape encodePath)). by vm_compute.
  - apply negb_true_iff. revert E. apply (all_bytes_impl is_ctl (λ c, negb (is_hex c))). by vm_compute.
  - by intros ->.
Qed.
