(* ===== verification/NPM.v ===== *)
(** * Package adapters: npm (npm.go)

    Tarball downloads, metadata requests, the registry document a publication
    date is read from, and the rewriting of packuments: versions the policy
    rejects disappear, and every download link that stays leads back to the
    gates.  The documents are those of [Json]; the order in which Go ranges over
    a map is a parameter. *)
From S2P Require Import Prelude GoStd Json Gate Upstream HTTP Handler MetadataSpec Adapters URL.
Local Open Scope Z_scope.

(** ** Downloads *)

(** The version of a tarball named "<unscoped>-<version>.tgz". *)
Definition parseNPMVersion (name filename : string) : option string :=
  let base := TrimSuffix filename ".tgz" in
  let prefix := after_last "/"%char name +:+ "-" in
  if negb (HasPrefix base prefix) then None
  else
    let version := TrimPrefix base prefix in
    if version =s? "" then None else Some version.

Definition npm_NormalizeRequest (r : Request) : option PackageRef :=
  let path := rq_Path r in
  if negb (HasSuffix path ".tgz") then None
  else
    match cut_sub (to_bytes "/-/") (to_bytes path) with
    | None => None
    | Some (before, filename) =>
        let name := TrimPrefix (of_bytes before) "/" in
        match parseNPMVersion name (of_bytes filename) with
        | Some version => Some (mkRef "npm" name version "")
        | None => None
        end
    end.

Definition npm_IsArtifactPath (r : Request) : bool := HasSuffix (rq_Path r) ".tgz" && Contains (rq_Path r) "/-/".

(** ** Publication dates *)

(** A license is informational: no shape of it fails. *)
Definition as_license (v : Raw) : string :=
  match v with
  | RStr b => unquote b
  | RObj _ => default "" (as_struct1 "type" as_string "" v)
  | _ => ""
  end.

(** The times and the licenses by version. *)
Definition as_npmMetadata (v : Raw) : option (gmap string string * gmap string string) :=
  let times old v :=
    match v with RNull => Some ∅ | _ => (fun m => m ∪ old) <$> as_string_map v end in
  let version v := as_struct1 "license" (fun _ v => Some (as_license v)) "" v in
  let versions old v :=
    match as_map v with
    | Some (Some m) =>
        if forallb (fun kv => bool_decide (is_Some (version kv.2))) (map_to_list m)
        then Some (omap version m ∪ old) else None
    | Some None => Some ∅
    | None => None
    end in
  match v with
  | RNull => Some (∅, ∅)
  | RObj ms =>
      time ← field "time" times ∅ ms;
      vs ← field "versions" versions ∅ ms;
      Some (time, vs)
  | _ => None
  end.

Section Fetch.
Context (std : AdapterStd) (env : AEnv).

Definition npm_fetchMetadataFrom (ref : PackageRef) (base : string) : St (list ACall) Fetched :=
  let apiURL := base +:+ "/" +:+ Name ref in
  res <- fetch_body env "building npm metadata request: " "fetching npm metadata: "
           (fun status => "npm returned HTTP " +:+ FormatInt status +:+ " for " +:+ Name ref) apiURL;;
  ret_st (match res with
          | Err e => Err e
          | Ok (status, body) =>
              match v ← parse_first body; as_npmMetadata v with
              | None => Err (apiURL, status, EWrap "decoding npm response: " (ENew "json") "")
              | Some (times, versions) =>
                  match times !! Version ref with
                  | None =>
                      Err (apiURL, status, ENew ("version " +:+ Version ref +:+ " not found in npm metadata for " +:+ Name ref))
                  | Some s =>
                      match std_time_Parse std RFC3339 s with
                      | Err e => Err (apiURL, status, EWrap ("parsing npm publish time " +:+ std_Quote std s +:+ ": ") e "")
                      | Ok t =>
                          match versions !! Version ref with
                          | None =>
                              Err (apiURL, status, ENew ("version " +:+ Version ref +:+ " missing from npm versions map for " +:+ Name ref))
                          | Some license => Ok (mkMeta t "" license)
                          end
                      end
                  end
              end
          end).

Definition npm_FetchMetadata (upstreams : list string) (ref : PackageRef) : St (list ACall) (result error PackageMetadata) :=
  FetchMetadata std env "npm" (npm_fetchMetadataFrom ref) (trim_upstreams upstreams).
End Fetch.

(** ** Metadata requests *)

(** The package and the version or tag ("" for a packument). *)
Definition splitNPMMetadataPath (s : string) : option (string * string) :=
  if s =s? "" then None
  else
    match Split s "/"%char with
    | first :: rest =>
        if first =s? "-" then None
        else
          let after name rest :=
            match rest with
            | [] => Some (name, "")
            | [version] => if (version =s? "") || (version =s? "-") then None else Some (name, version)
            | _ => None
            end in
          if HasPrefix s "@" then
            match rest with
            | second :: rest' =>
                if (str_len first <? 2) || (second =s? "") then None else after (first +:+ "/" +:+ second) rest'
            | [] => None
            end
          else after first rest
    | [] => None
    end.

(** url.QueryUnescape. *)
Fixpoint unescape (l : bytes) : option bytes :=
  match l with
  | [] => Some []
  | c :: l' =>
      if Ascii.eqb c "%"%char then
        match l' with
        | h1 :: h2 :: l'' =>
            match hex_value h1, hex_value h2 with
            | Some a, Some b => (fun d => byte_of (16 * a + b) :: d) <$> unescape l''
            | _, _ => None
            end
        | _ => None
        end
      else (fun d => (if Ascii.eqb c "+"%char then " "%char else c) :: d) <$> unescape l'
  end.

(** Whether a raw query has a parameter: those that do not parse are dropped. *)
Definition query_Has (rawQuery name : string) : bool :=
  existsb (fun part =>
    if contains_byte part ";"%char || (part =s? "") then false
    else
      let '(key, value, _) := Cut part "="%char in
      match unescape (to_bytes key), unescape (to_bytes value) with
      | Some key, Some _ => of_bytes key =s? name
      | _, _ => false
      end) (Split rawQuery "&"%char).

Definition npm_NormalizeMetadataRequest (r : Request) : option MetadataRef :=
  if negb (rq_Method r =s? "GET") then None
  else if query_Has (rq_RawQuery r) "write" then None
  else
    match splitNPMMetadataPath (TrimSuffix (TrimPrefix (rq_Path r) "/") "/") with
    | Some (name, version) => Some (mkMetadataRef "npm" name version)
    | None => None
    end.

(** ** Links *)

Definition npm_version_byte (c : ascii) : bool :=
  is_digit c || is_lower c || is_upper c || bool_decide (c ∈ ["."; "+"; "_"; "-"]%char).

Definition npmVersionRe (version : string) : bool :=
  negb (version =s? "") && forallb npm_version_byte (to_bytes version).

Definition npmTarballURL (linkBase name version : string) : option string :=
  if negb (npmVersionRe version) then None
  else
    let filename := after_last "/"%char name +:+ "-" +:+ version +:+ ".tgz" in
    match parseNPMVersion name filename with
    | Some v => if v =s? version then Some (linkBase +:+ "/" +:+ name +:+ "/-/" +:+ filename) else None
    | None => None
    end.

(** What becomes of a version object. *)
Inductive tarball_rewrite :=
| RwNoLink
| RwFailed
| RwDone (v : Raw).

Definition rewriteNPMTarball (raw : Raw) (linkBase name version : string) : tarball_rewrite :=
  match as_map raw with
  | None => RwFailed
  | Some obj =>
      let obj := default ∅ obj in
      match (match obj !! "dist" with Some d => as_map d | None => Some None end) with
      | None => RwFailed
      | Some dist =>
          let dist := default ∅ dist in
          match dist !! "tarball" with
          | None => RwNoLink
          | Some _ =>
              match npmTarballURL linkBase name version with
              | None => RwFailed
              | Some link => RwDone (of_map (<[ "dist" := of_map (<[ "tarball" := of_string link ]> dist) ]> obj))
              end
          end
      end
  end.

(** ** FilterVersions *)

Section Filter.
Context (std : AdapterStd) (range : list string -> list string).

(** A version's publication time, by what the document's "time" says. *)
Definition npmPublishDates (raw : option Raw) : gmap string Z :=
  match raw ≫= as_string_map with
  | Some times => omap (fun s => match std_time_Parse std RFC3339 s with Ok t => Some t | Err _ => None end) times
  | None => ∅
  end.

Definition sort_strings (l : list string) : list string :=
  fst <$> merge_sort key_le ((fun s => (s, RNull)) <$> l).

(** The keys of a map, as Go ranges over them. *)
Definition ranged {A} (m : gmap string A) : list string := range (map_to_list m).*1.

Section Decide.
Context {S : Type} (decide : string -> Z -> St S bool).

(** The versions the decider rejects. *)
Fixpoint reject (published : gmap string Z) (versions : list string) : St S (list string) :=
  match versions with
  | [] => ret_st []
  | v :: versions' =>
      ok <- decide v (default 0 (published !! v));;
      removed <- reject published versions';;
      ret_st (if ok : bool then removed else v :: removed)
  end.

Definition delete_all {A} (keys : list string) (m : gmap string A) : gmap string A := foldr delete m keys.

Definition rewriteNPMManifest (doc : bytes) (name linkBase : string) : option FilteredDocument :=
  v ← parse doc;
  version ← as_struct1 "version" as_string "" v;
  match rewriteNPMTarball v linkBase name version with
  | RwNoLink => Some (mkFiltered doc [] [] false)
  | RwFailed => None
  | RwDone v' => Some (mkFiltered (print v') [] [] false)
  end.

(** The versions whose links were rewritten, and those that cannot be. *)
Definition rewrite_versions (linkBase name : string) (versions : gmap string Raw) : gmap string Raw * list string :=
  (map_imap (fun version raw =>
     match rewriteNPMTarball raw linkBase name version with
     | RwNoLink => Some raw
     | RwFailed => None
     | RwDone v => Some v
     end) versions,
   sort_strings (ranged (map_imap (fun version raw =>
     match rewriteNPMTarball raw linkBase name version with RwFailed => Some tt | _ => None end) versions))).

(** The document with the versions kept and without the times of the others. *)
Definition rebuild (top : gmap string Raw) (versions : option (gmap string Raw)) (dropped : list string) : Raw :=
  let top' := <[ "versions" := of_gomap versions ]> top in
  match top !! "time" with
  | Some raw =>
      match as_map raw with
      | Some times => of_map (<[ "time" := of_gomap (delete_all dropped <$> times) ]> top')
      | None => of_map top'
      end
  | None => of_map top'
  end.

Definition filter_packument (doc : bytes) (name linkBase : string) : St S (option FilteredDocument) :=
  match v ← parse doc; as_map v with
  | None => ret_st None
  | Some top =>
      let top := default ∅ top in
      match top !! "versions" with
      | None => ret_st (Some (mkFiltered doc [] [] false))
      | Some rawVersions =>
          match as_map rawVersions with
          | None => ret_st None
          | Some rawVersionMap =>
              let '(versions, unmappable) := rewrite_versions linkBase name (default ∅ rawVersionMap) in
              if bool_decide (default ∅ rawVersionMap ≠ ∅) && bool_decide (versions = ∅) then ret_st None
              else
                removed <- reject (npmPublishDates (top !! "time")) (ranged versions);;
                let removed := sort_strings removed in
                let allRejected := bool_decide (removed ≠ []) && bool_decide (length removed = size versions) in
                let kept := if allRejected then versions else delete_all removed versions in
                let dropped := unmappable ++ (if allRejected then [] else removed) in
                let body := rebuild top ((fun _ => kept) <$> rawVersionMap) dropped in
                ret_st (Some (mkFiltered (print body) removed unmappable allRejected))
          end
      end
  end.
End Decide.

Definition npm_FilterVersions (S : Type) (doc : bytes) (ref : MetadataRef) (decide : string -> Z -> St S bool)
    (linkBase : string) : St S (option FilteredDocument) :=
  if negb (mr_Version ref =s? "") then ret_st (rewriteNPMManifest doc (mr_Name ref) linkBase)
  else filter_packument decide doc (mr_Name ref) linkBase.

Definition NPMAdapter (upstreams : list string) : RegistryAdapter := {|
  NormalizeRequest := npm_NormalizeRequest;
  UpstreamURLs := upstream_urls std (trim_upstreams upstreams);
  IsArtifactPath := Some npm_IsArtifactPath;
  IsIndexRequest := None;
  RewriteIndex _ _ _ := None;
  NormalizeMetadataRequest := Some npm_NormalizeMetadataRequest;
  FilterVersions := npm_FilterVersions;
  MetadataFromHeader := None;
|}.
End Filter.

(** ** Reading documents *)

(** What a version object has under dist.tarball. *)
Definition dist_tarball (raw : Raw) : option Raw :=
  obj ← as_map raw; obj ← obj; dist ← sub_map "dist" obj; dist !! "tarball".

(** ** The path of a tarball *)

Definition npm_file (name version : string) : string := after_last "/"%char name +:+ "-" +:+ version +:+ ".tgz".
Definition npm_path (name version : string) : string := "/" +:+ name +:+ "/-/" +:+ npm_file name version.

(** No segment of the name is a lone hyphen. *)
Definition name_ok (name : string) : Prop := ["-"%char] ∉ split_bytes "/"%char (to_bytes name).

Lemma name_ok_first name a k : name_ok name → "/"%char :: to_bytes name ++ ["/"; "-"]%char ≠ a ++ to_bytes "/-/" ++ k.
Proof.
  intros Hn E. apply Hn. clear Hn. generalize dependent (to_bytes name). intros l E.
  apply (f_equal (split_bytes "/"%char)) in E.
  change ("/"%char :: l ++ ["/"; "-"]%char) with ([] ++ "/"%char :: (l ++ "/"%char :: ["-"%char])) in E.
  change (a ++ to_bytes "/-/" ++ k) with (a ++ "/"%char :: (["-"%char] ++ "/"%char :: k)) in E.
  rewrite !split_bytes_concat in E. cbn [split_bytes] in E.
  change (split_bytes "/" ["-"%char]) with [["-"%char]] in E.
  pose proof (split_bytes_nonempty "/"%char a) as Ha. pose proof (split_bytes_nonempty "/"%char k) as Hk.
  destruct (split_bytes "/" a) as [|x xs]; [done|]. cbn [app] in E. injection E as _ E.
  destruct (split_bytes "/" k) as [|y ys _] using rev_ind; [done|].
  rewrite app_comm_cons, app_assoc in E. apply app_inj_tail in E as [-> _]. set_solver.
Qed.

Lemma cut_sub_found sep c a r :
  (∀ b k, a ++ sep ≠ b ++ (sep ++ [c]) ++ k) → cut_sub (sep ++ [c]) (a ++ (sep ++ [c]) ++ r) = Some (a, r).
Proof.
  intros Hn. destruct (cut_sub _ _) as [[a' b']|] eqn:E; [|by eapply cut_sub_None in E].
  pose proof (cut_sub_first _ _ _ _ a r E eq_refl) as Hl. apply cut_sub_Some in E.
  assert ((a ++ sep) ++ c :: r = (a' ++ sep ++ [c]) ++ b') as E' by (rewrite <- !app_assoc in *; exact E).
  destruct (decide (length a' = length a)) as [Hlen|Hlen].
  { apply app_inj_1 in E as [-> E]; [by apply app_inv_head in E as ->|done]. }
  exfalso. apply app_eq_inv in E' as [(d & Ha & _)|(d & Ha & _)].
  - apply (Hn a' d). by rewrite Ha, <- !app_assoc.
  - apply (Hn a' []). rewrite app_nil_r, Ha. apply (f_equal length) in Ha. rewrite !length_app in Ha. cbn in Ha.
    destruct d; [by rewrite app_nil_r|cbn in Ha; lia].
Qed.

Lemma HasSuffix_path a b : HasSuffix b a = true → ∀ p, HasSuffix (p +:+ b) a = true.
Proof. rewrite suffix_bytes. intros H p. rewrite suffix_bytes, to_bytes_app. by apply suffix_app_r. Qed.

(** The words a version can be: not empty, and nothing that could add a path
    segment or a query. *)
Definition version_word (v : string) : Prop :=
  v ≠ "" ∧ to_bytes v ⊆ to_bytes "0123456789ABCDEFGHIJKLMNOPQRSTUVWXYZabcdefghijklmnopqrstuvwxyz.+_-".

Lemma npmVersionRe_word v : npmVersionRe v = true ↔ version_word v.
Proof.
  unfold npmVersionRe, version_word. rewrite andb_true_iff, negb_true_iff, String.eqb_neq, forallb_forall.
  set (word := to_bytes "0123456789ABCDEFGHIJKLMNOPQRSTUVWXYZabcdefghijklmnopqrstuvwxyz.+_-").
  assert (∀ c, npm_version_byte c = true ↔ c ∈ word) as Hc.
  { intros c. rewrite <- (bool_decide_eq_true (c ∈ word)). revert c.
    assert (∀ c, implb (npm_version_byte c) (bool_decide (c ∈ word)) && implb (bool_decide (c ∈ word)) (npm_version_byte c) = true) as H
      by (apply all_bytes; vm_compute; done).
    intros c. specialize (H c). by destruct (npm_version_byte c), (bool_decide (c ∈ word)). }
  split; (intros [Hv H]; split; [done|]); intros c Hin; apply Hc, H; by apply list_elem_of_In.
Qed.

Lemma parse_npm_file name v : v ≠ "" → parseNPMVersion name (npm_file name v) = Some v.
Proof.
  intros Hv. unfold parseNPMVersion, npm_file. set (u := after_last "/"%char name).
  assert (TrimSuffix (u +:+ "-" +:+ v +:+ ".tgz") ".tgz" = (u +:+ "-") +:+ v) as ->.
  { unfold TrimSuffix. assert (strip_suffix (to_bytes ".tgz") (to_bytes (u +:+ "-" +:+ v +:+ ".tgz")) = Some (to_bytes ((u +:+ "-") +:+ v))) as ->
      by (apply strip_suffix_Some; by rewrite !to_bytes_app, <- !app_assoc). by rewrite of_to_bytes. }
  unfold HasPrefix, TrimPrefix.
  assert (strip_prefix (to_bytes (u +:+ "-")) (to_bytes ((u +:+ "-") +:+ v)) = Some (to_bytes v)) as ->
    by (apply strip_prefix_Some; by rewrite to_bytes_app). rewrite of_to_bytes. cbn [negb].
  by destruct (String.eqb_spec v "").
Qed.

Lemma npmTarballURL_exact linkBase name version :
  npmTarballURL linkBase name version = if npmVersionRe version then Some (linkBase +:+ npm_path name version) else None.
Proof.
  unfold npmTarballURL. destruct (npmVersionRe version) eqn:Hv; [|done]. cbn [negb]. fold (npm_file name version).
  apply npmVersionRe_word in Hv as [Hv _]. rewrite parse_npm_file, String.eqb_refl by done. f_equal.
Qed.

Lemma npm_path_suffix name version : HasSuffix (npm_path name version) ".tgz" = true.
Proof. unfold npm_path, npm_file. repeat apply HasSuffix_path. done. Qed.

(** A download link leads to the gates of its version. *)
Lemma npm_path_named name version r :
  version ≠ "" → name_ok name → rq_Path r = npm_path name version → npm_NormalizeRequest r = Some (mkRef "npm" name version "").
Proof.
  intros Hv Hn Hr. unfold npm_NormalizeRequest. rewrite Hr, npm_path_suffix.
  assert (cut_sub (to_bytes "/-/") (to_bytes (npm_path name version)) =
    Some (to_bytes ("/" +:+ name), to_bytes (npm_file name version))) as ->.
  { unfold npm_path. rewrite !to_bytes_app.
    rewrite (app_assoc (to_bytes "/") (to_bytes name)). rewrite <- to_bytes_app.
    apply (cut_sub_found ["/"; "-"]%char "/"%char). intros b k. rewrite to_bytes_app. apply name_ok_first, Hn. }
  cbn [negb]. rewrite !of_to_bytes.
  assert (TrimPrefix ("/" +:+ name) "/" = name) as ->.
  { unfold TrimPrefix. rewrite to_bytes_app. cbn. by rewrite of_to_bytes. }
  by rewrite parse_npm_file.
Qed.

(** The links of a package called "-" under a scope name no version: they
    are refused. *)
Lemma npm_hyphen_refused scope version r :
  name_ok scope → scope ≠ "" → "/"%char ∉ to_bytes scope → rq_Path r = npm_path (scope +:+ "/-") version →
  npm_NormalizeRequest r = None ∧ npm_IsArtifactPath r = true.
Proof.
  intros Hn Hne Hs Hr. unfold npm_NormalizeRequest, npm_IsArtifactPath, Contains. rewrite Hr, npm_path_suffix.
  set (file := "-/" +:+ npm_file (scope +:+ "/-") version).
  assert (cut_sub (to_bytes "/-/") (to_bytes (npm_path (scope +:+ "/-") version)) =
    Some (to_bytes ("/" +:+ scope), to_bytes file)) as ->.
  { unfold npm_path, file. rewrite !to_bytes_app.
    change (to_bytes "/" ++ (to_bytes scope ++ to_bytes "/-") ++ to_bytes "/-/" ++ to_bytes (npm_file (scope +:+ "/-") version))
      with ("/"%char :: (to_bytes scope ++ to_bytes "/-") ++ to_bytes "/-/" ++ to_bytes (npm_file (scope +:+ "/-") version)).
    rewrite <- app_assoc.
    apply (cut_sub_found ["/"; "-"]%char "/"%char ("/"%char :: to_bytes scope)). intros b k. apply name_ok_first, Hn. }
  cbn [negb andb]. split; [|done]. rewrite !of_to_bytes.
  assert (TrimPrefix ("/" +:+ scope) "/" = scope) as ->.
  { unfold TrimPrefix. rewrite to_bytes_app. cbn. by rewrite of_to_bytes. }
  unfold parseNPMVersion. set (base := TrimSuffix file ".tgz").
  assert (∃ rest, to_bytes base = "-"%char :: "/"%char :: rest) as [rest Hb].
  { unfold base, file. exists (to_bytes (after_last "/"%char (scope +:+ "/-") +:+ "-" +:+ version)). unfold TrimSuffix.
    assert (strip_suffix (to_bytes ".tgz") (to_bytes ("-/" +:+ npm_file (scope +:+ "/-") version)) =
      Some (to_bytes ("-/" +:+ (after_last "/"%char (scope +:+ "/-") +:+ "-" +:+ version)))) as ->
      by (apply strip_suffix_Some; unfold npm_file; by rewrite !to_bytes_app, <- !app_assoc).
    rewrite to_of_bytes, (to_bytes_app "-/"). done. }
  assert (HasPrefix base (after_last "/"%char scope +:+ "-") = false) as ->; [|done].
  assert (after_last "/"%char scope = scope) as ->.
  { unfold after_last. destruct (cut_bytes _ _) as [[a b]|] eqn:E; [|done]. exfalso. apply Hs.
    apply cut_bytes_Some in E as [E _]. apply list_elem_of_In, in_rev, list_elem_of_In. rewrite E. set_solver. }
  unfold HasPrefix. destruct (strip_prefix _ _) as [x|] eqn:E; [|done]. exfalso. apply strip_prefix_Some in E.
  rewrite Hb, to_bytes_app in E. destruct (to_bytes scope) as [|c l] eqn:El.
  { apply Hne. apply to_bytes_inj. by rewrite El. }
  injection E as _ E. destruct l as [|c' l]; [done|]. injection E as <- _. apply Hs. set_solver.
Qed.

(** The names metadata is asked for: no segment is a lone hyphen, but for a
    scoped package called "-". *)
Lemma metadata_name path name version :
  splitNPMMetadataPath path = Some (name, version) →
  name_ok name ∨ ∃ scope, name = scope +:+ "/-" ∧ name_ok scope ∧ scope ≠ "" ∧ "/"%char ∉ to_bytes scope.
Proof.
  unfold splitNPMMetadataPath. destruct (path =? "")%string; [done|].
  assert (∀ x, x ∈ Split path "/"%char → "/"%char ∉ to_bytes x) as Hseg.
  { intros x (l & -> & Hl)%list_elem_of_fmap. rewrite to_of_bytes. by eapply split_no_sep. }
  assert (∀ x, "/"%char ∉ to_bytes x → x ≠ "-" → name_ok x) as Hok.
  { intros x Hx Hne. unfold name_ok. rewrite split_bytes_no_sep by done. intros H%list_elem_of_singleton.
    apply Hne, to_bytes_inj. by rewrite <- H. }
  destruct (Split path "/"%char) as [|first rest]; [done|].
  destruct (first =? "-")%string eqn:Hf; bool_to_prop; [done|].
  assert ("/"%char ∉ to_bytes first) as Hfirst by (apply Hseg; left).
  assert (∀ nm rest, (match rest with
    | [] => Some (nm, "")
    | [version] => if ((version =? "") || (version =? "-"))%string then None else Some (nm, version)
    | _ => None end) = Some (name, version) → nm = name) as Hafter.
  { intros nm [|v [|]]; [by intros [= <-]|destruct (_ || _); [done|by intros [= <-]]|done]. }
  destruct (HasPrefix path "@").
  - destruct rest as [|second rest]; [done|]. destruct (str_len first <? 2) eqn:Hl; [done|]. cbn [orb].
    destruct (second =? "")%string eqn:Hse; bool_to_prop; [done|]. intros <-%Hafter.
    assert ("/"%char ∉ to_bytes second) as Hsecond by (apply Hseg; right; left).
    assert (first ≠ "") as Hfe by (intros ->; unfold str_len in Hl; cbn in Hl; lia).
    destruct (decide (second = "-")) as [->|Hne].
    + right. exists first. split_and!; [by apply to_bytes_inj; rewrite !to_bytes_app|auto..].
    + left. unfold name_ok. rewrite !to_bytes_app. change (to_bytes "/") with ["/"%char]. cbn [app].
      rewrite split_bytes_app, split_bytes_no_sep by done. rewrite !elem_of_cons, elem_of_nil.
      intros [H|[H|[]]]; [apply Hf|apply Hne]; apply to_bytes_inj; by rewrite <- H.
  - intros <-%Hafter. left. auto.
Qed.

(** A tarball's reference gives its path back: different files never share a
    slot of the cache. *)
Lemma npm_reference_path r ref :
  HasPrefix (rq_Path r) "/" = true → npm_NormalizeRequest r = Some ref → Name ref ≠ "" →
  rq_Path r = npm_path (Name ref) (Version ref).
Proof.
  intros Hp. unfold npm_NormalizeRequest. destruct (HasSuffix (rq_Path r) ".tgz") eqn:Hsuf; [|done]. cbn [negb].
  destruct (cut_sub (to_bytes "/-/") (to_bytes (rq_Path r))) as [[before file]|] eqn:Hc; [|done].
  apply cut_sub_Some in Hc. set (name := TrimPrefix (of_bytes before) "/").
  unfold parseNPMVersion. set (base := TrimSuffix (of_bytes file) ".tgz"). set (pre := after_last "/" name +:+ "-").
  destruct (HasPrefix base pre) eqn:Hpre; [|done]. cbn [negb].
  destruct (String.eqb_spec (TrimPrefix base pre) ""); [done|]. intros [= <-]. cbn [Name Version]. intros Hname.
  apply TrimPrefix_HasPrefix in Hpre. set (v := TrimPrefix base pre) in *. clearbody v. unfold npm_path, npm_file.
  assert (HasSuffix (of_bytes file) ".tgz" = true) as Hf.
  { rewrite suffix_bytes in *. rewrite to_of_bytes. apply (suffix_after _ (before ++ to_bytes "/-") _ "/"%char).
    - apply (bool_decide_unpack _). vm_compute. done.
    - rewrite Hc in Hsuf. rewrite <- app_assoc. exact Hsuf. }
  apply HasSuffix_app in Hf. fold base in Hf.
  assert (of_bytes before = "/" +:+ name) as Hb.
  { destruct before as [|c before]; [done|]. apply TrimPrefix_HasPrefix. unfold HasPrefix in *. rewrite Hc in Hp.
    rewrite to_of_bytes. change (to_bytes "/") with ["/"%char] in *. cbn [app strip_prefix] in *. by destruct (Ascii.eqb "/" c). }
  apply to_bytes_inj. rewrite Hc, <- (to_of_bytes before), <- (to_of_bytes file), Hb, Hf, Hpre.
  unfold pre. by rewrite !to_bytes_app, <- !app_assoc.
Qed.

(** ** What FilterVersions makes of a packument *)

Lemma utf8_ascii_string s : forallb is_ascii (to_bytes s) = true → utf8 (to_bytes s).
Proof. apply ascii_utf8. Qed.

Lemma version_utf8 version : npmVersionRe version = true → utf8 (to_bytes version).
Proof.
  intros [_ H]%andb_true_iff. apply ascii_utf8. revert H. apply forallb_impl.
  apply (all_bytes_impl npm_version_byte is_ascii). vm_compute. done.
Qed.

Lemma after_last_utf8 c name : is_ascii c = true → utf8 (to_bytes name) → utf8 (to_bytes (after_last c name)).
Proof.
  intros Hc Hn. unfold after_last. destruct (cut_bytes c (rev (to_bytes name))) as [[a b]|] eqn:E; [|done].
  apply cut_bytes_Some in E as [E _]. rewrite to_of_bytes. eapply (utf8_after _ Hn (rev b) c); [|done].
  apply (f_equal (@rev ascii)) in E. rewrite rev_involutive in E. rewrite E, rev_app_distr. cbn. by rewrite <- app_assoc.
Qed.

(** A rewritten version object nests no deeper, and its link is the one
    handed out, however it is printed. *)
Lemma rewrite_done d raw linkBase name version v :
  utf8 (to_bytes linkBase) → utf8 (to_bytes name) → fits d raw →
  rewriteNPMTarball raw linkBase name version = RwDone v →
  fits d v ∧ ∃ t link, dist_tarball (esc v) = Some t ∧ as_string "" t = Some link ∧
    npmTarballURL linkBase name version = Some link.
Proof.
  intros Hb Hn Hr. unfold rewriteNPMTarball. destruct (as_map raw) as [[obj|]|] eqn:Ho; cbn [default from_option id];
    [|by rewrite !lookup_empty|done].
  destruct (obj !! "dist") as [rd|] eqn:Hd; [|done].
  destruct (as_map rd) as [[dist|]|] eqn:Hdist; cbn [default from_option id]; [|by rewrite lookup_empty|done].
  destruct (dist !! "tarball") as [old|] eqn:Ht; [|done].
  destruct (npmTarballURL linkBase name version) as [link|] eqn:Hl; [|done]. intros [= <-].
  destruct raw as [| | | | |ms]; try done. inversion Hr as [| | | | |d1 ? Hms]; subst d ms0.
  assert (∀ k x, obj !! k = Some x → fits d1 x ∧ utf8 (to_bytes k)) as Hobj by (intros; by eapply as_map_fits).
  destruct (Hobj _ _ Hd) as [Hfd _]. destruct rd as [| | | | |ds]; try done. inversion Hfd as [| | | | |d2 ? Hds]; subst d1 ms0.
  assert (∀ k x, dist !! k = Some x → fits d2 x ∧ utf8 (to_bytes k)) as Hdd by (intros; by eapply as_map_fits).
  assert (utf8 (to_bytes link)) as Hlink.
  { clear -Hl Hb Hn. rewrite npmTarballURL_exact in Hl. destruct (npmVersionRe version) eqn:Hv; [|done].
    apply version_utf8 in Hv. injection Hl as <-. unfold npm_path, npm_file. rewrite !to_bytes_app.
    repeat first [apply utf8_app|assumption|apply after_last_utf8; [done|]|by apply ascii_utf8]. }
  split.
  - apply of_map_fits. intros k x. rewrite lookup_insert_Some. intros [[_ <-]|[_ Hx]]; [|by apply Hobj in Hx as [? _]].
    apply of_map_fits. intros k' x'. rewrite lookup_insert_Some. intros [[_ <-]|[_ Hx]]; [|by apply Hdd in Hx as [? _]].
    constructor. apply quote_body_ok.
  - exists (esc (of_string link)), link. split_and!; [|by apply of_string_read|done].
    unfold dist_tarball, sub_map. rewrite as_map_of_map.
    2:{ intros k [x Hx]. revert Hx. rewrite lookup_insert_Some. intros [[<- _]|[_ Hx]]; [by apply ascii_utf8|by apply Hobj in Hx as [_ ?]]. }
    cbn [mbind option_bind]. rewrite lookup_fmap, lookup_insert_eq. cbn [fmap option_fmap option_map mbind option_bind].
    rewrite as_map_of_map.
    2:{ intros k [x Hx]. revert Hx. rewrite lookup_insert_Some. intros [[<- _]|[_ Hx]]; [by apply ascii_utf8|by apply Hdd in Hx as [_ ?]]. }
    cbn [mbind option_bind]. by rewrite lookup_fmap, lookup_insert_eq.
Qed.

Lemma dist_tarball_esc d raw : fits d raw → dist_tarball (esc raw) = esc <$> dist_tarball raw.
Proof.
  intros Hr. unfold dist_tarball. rewrite (as_map_esc d) by done.
  destruct (as_map raw) as [[obj|]|] eqn:Ho; try done. cbn [mbind option_bind].
  destruct raw; try done. inversion Hr as [| | | | |d' ? ?]; subst. rewrite (sub_map_esc d').
  - destruct (sub_map "dist" obj) as [dist|]; [|done]. cbn [fmap option_fmap option_map mbind option_bind]. by rewrite lookup_fmap.
  - intros k x Hx. eapply as_map_fits in Hx as [? _]; [done|by constructor|done].
Qed.

Lemma rewrite_none raw linkBase name version :
  rewriteNPMTarball raw linkBase name version = RwNoLink → dist_tarball raw = None.
Proof.
  unfold rewriteNPMTarball, dist_tarball, sub_map. destruct (as_map raw) as [[obj|]|]; cbn [default from_option id mbind option_bind]; [|done..].
  destruct (obj !! "dist") as [rd|]; [|done]. cbn [mbind option_bind].
  destruct (as_map rd) as [[dist|]|]; cbn [default from_option id mbind option_bind]; [|done..].
  destruct (dist !! "tarball") as [old|]; [|done]. by destruct (npmTarballURL _ _ _).
Qed.

(** The shape of a version object a link can be put into: an object, or null,
    whose dist is one too. *)
Definition well_formed (raw : Raw) : Prop :=
  ∃ o, as_map raw = Some o ∧ ∀ obj d, o = Some obj → obj !! "dist" = Some d → is_Some (as_map d).

(** A version stays when it has no link to rewrite, or one can be made. *)
Definition linkable (v : string) (raw : Raw) : Prop := well_formed raw ∧ (dist_tarball raw = None ∨ version_word v).

Lemma rewrite_linkable raw linkBase name v :
  if rewriteNPMTarball raw linkBase name v is RwFailed then ¬ linkable v raw else linkable v raw.
Proof.
  unfold linkable, well_formed, rewriteNPMTarball, dist_tarball, sub_map. rewrite npmTarballURL_exact.
  pose proof (npmVersionRe_word v) as Hw.
  destruct (as_map raw) as [[obj|]|] eqn:Ho; cbn [default from_option id mbind option_bind].
  - destruct (obj !! "dist") as [rd|] eqn:Hd; cbn [mbind option_bind].
    + destruct (as_map rd) as [[dist|]|] eqn:Hdist; cbn [default from_option id mbind option_bind].
      * assert (∃ o, Some (Some obj) = Some o ∧ ∀ obj' d, o = Some obj' → obj' !! "dist" = Some d → is_Some (as_map d)) as Hf.
        { exists (Some obj). split; [done|]. intros obj' d [= <-]. rewrite Hd. intros [= <-]. by eexists. }
        destruct (dist !! "tarball") as [t|]; [|by split; [|left]].
        destruct (npmVersionRe v); [split; [done|right; by apply Hw]|]. by intros [_ [?|?%Hw]].
      * rewrite lookup_empty. split; [|by left]. exists (Some obj). split; [done|].
        intros obj' d [= <-]. rewrite Hd. intros [= <-]. by eexists.
      * intros [(o & [= <-] & H) _]. destruct (H obj rd eq_refl Hd) as [? ?]. congruence.
    + cbn [default from_option id]. rewrite lookup_empty. split; [|by left]. exists (Some obj). split; [done|].
      intros obj' d [= <-]. by rewrite Hd.
  - rewrite !lookup_empty. cbn [default from_option id]. rewrite lookup_empty. split; [|by left]. exists None. by split.
  - intros [(o & [=] & _) _].
Qed.

Lemma rewrite_failed raw linkBase name v : rewriteNPMTarball raw linkBase name v = RwFailed ↔ ¬ linkable v raw.
Proof. pose proof (rewrite_linkable raw linkBase name v) as H. by destruct (rewriteNPMTarball raw linkBase name v). Qed.

#[export] Instance linkable_dec v raw : Decision (linkable v raw).
Proof. pose proof (rewrite_linkable raw "" "" v) as H. destruct (rewriteNPMTarball raw "" "" v); [by left|by right|by left]. Defined.

Lemma sort_strings_perm l : sort_strings l ≡ₚ l.
Proof. unfold sort_strings. rewrite merge_sort_Permutation, <- list_fmap_compose. by rewrite list_fmap_id. Qed.

Lemma lookup_delete_all {A} keys (m : gmap string A) k :
  delete_all keys m !! k = if bool_decide (k ∈ keys) then None else m !! k.
Proof.
  induction keys as [|x keys IH]; [done|]. cbn [delete_all foldr]. fold (delete_all keys m).
  destruct (decide (x = k)) as [->|Hx].
  - rewrite lookup_delete_eq, bool_decide_eq_true_2; [done|set_solver].
  - rewrite lookup_delete_ne, IH by done. destruct (decide (k ∈ keys)).
    + by rewrite !bool_decide_eq_true_2 by set_solver.
    + rewrite !bool_decide_eq_false_2; set_solver.
Qed.

(** The object rebuilt: the versions given, the times left, the rest as it was. *)
Lemma rebuild_map top vs dropped :
  ∃ M, rebuild top vs dropped = of_map M ∧ M !! "versions" = Some (of_gomap vs) ∧
    (∀ k, k ≠ "versions" → k ≠ "time" → M !! k = top !! k) ∧
    ((sub_map "time" M = None ∧ M !! "time" = top !! "time") ∨
     ∃ times, sub_map "time" top = Some times ∧ M !! "time" = Some (of_map (delete_all dropped times)) ∨
       M !! "time" = Some RNull).
Proof.
  unfold rebuild, sub_map. destruct (top !! "time") as [raw|] eqn:Ht.
  - destruct (as_map raw) as [times|] eqn:Hr.
    + eexists. split; [done|]. rewrite lookup_insert_ne, lookup_insert_eq by done. split; [done|]. split.
      { intros k H1 H2. by rewrite !lookup_insert_ne. }
      right. rewrite lookup_insert_eq. cbn. destruct times as [times|]; [exists times; left; by rewrite Hr|exists ∅; by right].
    + eexists. split; [done|]. rewrite lookup_insert_eq. split; [done|]. split; [intros; by rewrite lookup_insert_ne|].
      left. rewrite lookup_insert_ne, Ht by done. cbn. by rewrite Hr.
  - eexists. split; [done|]. rewrite lookup_insert_eq. split; [done|]. split; [intros; by rewrite lookup_insert_ne|].
    left. by rewrite lookup_insert_ne, Ht by done.
Qed.

(** What the object a packument is rebuilt from reads back as. *)
Lemma rebuild_read top versions kept dropped d :
  maxNestingDepth = S (S d) → (∀ k v, top !! k = Some v → fits (S d) v ∧ utf8 (to_bytes k)) →
  sub_map "versions" top = Some versions → (∀ v x, kept !! v = Some x → fits d x ∧ is_Some (versions !! v)) →
  ∃ top', doc_map (print (rebuild top (Some kept) dropped)) = Some top' ∧
    sub_map "versions" top' = Some (esc <$> kept) ∧
    (∀ k, k ≠ "versions" → k ≠ "time" → top' !! k = esc <$> (top !! k)) ∧
    (∀ times v, sub_map "time" top' = Some times → v ∈ dropped → times !! v = None).
Proof.
  intros Hd Htop Hv Hkept. destruct (rebuild_map top (Some kept) dropped) as (M & -> & HMv & HMo & HMt).
  destruct (sub_map_fits (S d) "versions" top versions (λ k v H, proj1 (Htop k v H)) Hv) as (d' & rv & [= <-] & Hrv & _ & Hvs).
  assert (∀ times, sub_map "time" top = Some times → ∀ k v, times !! k = Some v → fits d v ∧ utf8 (to_bytes k)) as Hts.
  { intros times Ht. destruct (sub_map_fits (S d) _ _ _ (λ k v H, proj1 (Htop k v H)) Ht) as (d' & rt & [= <-] & _ & _ & H). done. }
  assert (∀ k v, M !! k = Some v → fits (S d) v ∧ utf8 (to_bytes k)) as HM.
  { intros k v Hk. destruct (decide (k = "versions")) as [->|Hk1].
    { rewrite HMv in Hk. injection Hk as <-. split; [|by apply ascii_utf8]. apply of_map_fits. intros k x. apply Hkept. }
    destruct (decide (k = "time")) as [->|Hk2]; [|rewrite HMo in Hk by done; by apply Htop].
    split; [|by apply ascii_utf8].
    destruct HMt as [[_ E]|(times & [(Ht & E)|E])]; rewrite E in Hk; [by apply Htop in Hk as []|injection Hk as <-..].
    - apply of_map_fits. intros k x. rewrite lookup_delete_all. case_bool_decide; [done|]. by intros []%(Hts _ Ht).
    - constructor. }
  exists (esc <$> M). split; [|split; [|split]].
  - apply doc_map_print. intros k v d0 Hk Hd0. rewrite Hd in Hd0. injection Hd0 as <-. by apply HM.
  - apply (sub_map_printed _ _ kept); [done|]. intros k' [x Hx]. apply Hkept in Hx as [_ [y Hy]]. by apply Hvs in Hy as [].
  - intros k H1 H2. by rewrite lookup_fmap, HMo.
  - intros times v. destruct HMt as [[E _]|(times' & [(Ht & E)|E])].
    + rewrite (sub_map_esc (S d)) by (intros; by eapply HM). by rewrite E.
    + rewrite (sub_map_printed _ _ (delete_all dropped times')); [|done|].
      2:{ intros k' [x Hx]. rewrite lookup_delete_all in Hx. case_bool_decide; [done|]. by apply (Hts _ Ht) in Hx as []. }
      intros [= <-] Hin. by rewrite lookup_fmap, lookup_delete_all, bool_decide_eq_true_2.
    + unfold sub_map. by rewrite lookup_fmap, E.
Qed.

(** The decider put to these versions, with these times, in this order, and its
    answers; it may read and change the state each time. *)
Inductive consults {S : Type} (decide : string → Z → St S bool) : S → list (string * Z * bool) → S → Prop :=
| consults_nil s : consults decide s [] s
| consults_cons v t s ok s1 l s2 :
    decide v t s = (ok, s1) → consults decide s1 l s2 → consults decide s ((v, t, ok) :: l) s2.

(** The time a document's "time" gives a version, zero when it gives none. *)
Definition publish_time (std : AdapterStd) (top : gmap string Raw) (v : string) : Z :=
  match raw ← top !! "time"; times ← as_string_map raw; times !! v with
  | Some s => match std_time_Parse std RFC3339 s with Ok t => t | Err _ => 0 end
  | None => 0
  end.

Lemma npmPublishDates_time std top v : default 0 (npmPublishDates std (top !! "time") !! v) = publish_time std top v.
Proof.
  unfold npmPublishDates, publish_time. destruct (top !! "time") as [raw|]; cbn [mbind option_bind]; [|by rewrite lookup_empty].
  destruct (as_string_map raw) as [times|]; cbn [mbind option_bind]; [|by rewrite lookup_empty].
  rewrite lookup_omap. destruct (times !! v) as [s|]; cbn; [|done]. by destruct (std_time_Parse std RFC3339 s).
Qed.

Section Packument.
Context (std : AdapterStd) (range : list string → list string).
Hypothesis range_ok : ∀ l, range l ≡ₚ l.
Context {S : Type} (decide_ : string → Z → St S bool).

Lemma elem_of_ranged {A} (m : gmap string A) k : k ∈ ranged range m ↔ is_Some (m !! k).
Proof.
  unfold ranged. rewrite range_ok, list_elem_of_fmap. split.
  - intros ([k' x] & -> & H). apply elem_of_map_to_list in H. by eexists.
  - intros [x Hx]. exists (k, x). split; [done|]. by apply elem_of_map_to_list.
Qed.

Lemma NoDup_ranged {A} (m : gmap string A) : NoDup (ranged range m).
Proof. unfold ranged. rewrite range_ok. apply NoDup_fst_map_to_list. Qed.

(** The versions rejected are those the decider is against. *)
Lemma reject_verdict published l s :
  NoDup l → ∃ verdict : string → bool,
    (reject decide_ published l s).1 = List.filter (λ v, negb (verdict v)) l ∧
    consults decide_ s ((λ v, (v, default 0 (published !! v), verdict v)) <$> l) (reject decide_ published l s).2.
Proof.
  intros Hnd. revert s. induction Hnd as [|v l Hv _ IH]; intros s; [exists (λ _, true); by split; [|constructor]|].
  cbn [reject]. unfold bind_st. destruct (decide_ v (default 0 (published !! v)) s) as [ok s1] eqn:Hd.
  destruct (IH s1) as (verdict & Hr & Hc). destruct (reject decide_ published l s1) as [removed s2].
  cbn [fst snd] in Hr, Hc. exists (λ x, if decide (x = v) then ok else verdict x).
  assert (∀ x, x ∈ l → (if decide (x = v) then ok else verdict x) = verdict x) as Hx
    by (intros x Hx; rewrite decide_False by (intros ->; done); done).
  cbn [fst snd ret_st fmap list_fmap List.filter]. rewrite decide_True by done. split.
  - assert (List.filter (λ x, negb (if decide (x = v) then ok else verdict x)) l = removed) as Hf.
    { rewrite Hr. apply filter_ext_in. intros x Hin. by rewrite Hx by by apply list_elem_of_In. }
    rewrite Hf. by destruct ok.
  - econstructor; [exact Hd|]. erewrite list_fmap_ext; [exact Hc|]. intros i x Hi. cbn. f_equal. apply Hx.
    by eapply list_elem_of_lookup_2.
Qed.

(** The decider acts once on each version. *)
Lemma reject_steps (R : S → S → Prop) published l s :
  (∀ s, R s s) → (∀ a b c, R a b → R b c → R a c) → (∀ v t s, R s (decide_ v t s).2) →
  R s (reject decide_ published l s).2.
Proof.
  intros Hr Ht Hd. revert s. induction l as [|v l IH]; intros s; [done|]. cbn [reject]. unfold bind_st.
  specialize (Hd v (default 0 (published !! v)) s). destruct (decide_ v _ s) as [ok s1]. cbn [snd] in Hd.
  specialize (IH s1). destruct (reject decide_ published l s1) as [removed s2]. cbn. by eapply Ht.
Qed.
Lemma elem_of_rewrite_failed linkBase name (versions : gmap string Raw) v :
  v ∈ (rewrite_versions range linkBase name versions).2 ↔
  ∃ raw, versions !! v = Some raw ∧ rewriteNPMTarball raw linkBase name v = RwFailed.
Proof.
  cbn [rewrite_versions snd]. rewrite sort_strings_perm, elem_of_ranged, map_lookup_imap.
  split; [|by intros (raw & -> & E); cbn; rewrite E].
  destruct (versions !! v) as [raw|]; cbn; [|by intros []]. intros H. exists raw. split; [done|].
  by destruct (rewriteNPMTarball _ _ _ _); [destruct H| |destruct H].
Qed.

Lemma lookup_rewrite linkBase name (versions : gmap string Raw) v :
  (rewrite_versions range linkBase name versions).1 !! v =
  raw ← versions !! v;
  match rewriteNPMTarball raw linkBase name v with RwNoLink => Some raw | RwFailed => None | RwDone x => Some x end.
Proof. apply map_lookup_imap. Qed.

Lemma rewrite_split linkBase name (versions : gmap string Raw) v :
  is_Some ((rewrite_versions range linkBase name versions).1 !! v) ↔
  is_Some (versions !! v) ∧ v ∉ (rewrite_versions range linkBase name versions).2.
Proof.
  rewrite elem_of_rewrite_failed, lookup_rewrite. destruct (versions !! v) as [raw|]; cbn.
  - destruct (rewriteNPMTarball raw linkBase name v) eqn:E; split.
    all: try (intros _; split; [done|intros (? & [= <-] & ?); congruence]).
    all: try (by intros [_ H]; eexists).
    + by intros [].
    + intros [_ []]. by exists raw.
  - split; [by intros []|by intros [[] _]].
Qed.

(** The filter's answer in the terms it was computed from. *)
Lemma filter_packument_inv doc name linkBase s fd s' top versions :
  filter_packument std range decide_ doc name linkBase s = (Some fd, s') →
  doc_map doc = Some top → sub_map "versions" top = Some versions →
  let '(links, unmappable) := rewrite_versions range linkBase name versions in
  ∃ verdict, let against := List.filter (λ v, negb (verdict v)) (ranged range links) in
  consults decide_ s ((λ v, (v, publish_time std top v, verdict v)) <$> ranged range links) s' ∧
  fd_Removed fd ≡ₚ against ∧ fd_Unmappable fd = unmappable ∧
  (fd_AllRejected fd = true ↔ against ≠ [] ∧ length against = size links) ∧
  fd_Body fd = print (rebuild top (Some (if fd_AllRejected fd then links else delete_all (fd_Removed fd) links))
                        (unmappable ++ (if fd_AllRejected fd then [] else fd_Removed fd))).
Proof.
  unfold filter_packument, doc_map, sub_map. destruct (v ← parse doc; as_map v) as [otop|] eqn:Hp; [|done].
  destruct (parse doc) as [v|]; [|done]. cbn [mbind option_bind] in Hp |- *. rewrite Hp. intros H [= ->] Hv. revert H.
  cbn [default from_option id]. destruct (top !! "versions") as [raw|]; [|done]. cbn [mbind option_bind] in Hv.
  destruct (as_map raw) as [[vs|]|]; try done. injection Hv as ->. cbn [default from_option id].
  destruct (rewrite_versions range linkBase name versions) as [links unmappable].
  destruct (_ && _); [done|]. unfold bind_st.
  destruct (reject_verdict (npmPublishDates std (top !! "time")) (ranged range links) s (NoDup_ranged links)) as (verdict & Hr & Hc).
  destruct (reject decide_ _ _ s) as [removed s1]. cbn [fst snd] in Hr, Hc. subst removed.
  set (against := List.filter _ _). intros [= <- <-]. exists verdict. cbv zeta. fold against. cbn [fd_Removed fd_Unmappable fd_AllRejected fd_Body].
  pose proof (sort_strings_perm against) as HP. split_and!; [|done|done|..].
  - erewrite list_fmap_ext; [exact Hc|]. intros i x _. cbn. by rewrite npmPublishDates_time.
  - rewrite andb_true_iff, !bool_decide_eq_true, (Permutation_length HP). split; intros [H1 H2]; (split; [|done]).
    + intros E. rewrite E in H1. by apply H1.
    + intros E. rewrite E in HP. by apply Permutation_nil in HP.
  - done.
Qed.

(** Where a link of the document leads: to the gates of the version, or - for
    a scoped package called "-" - to a refusal. *)
Definition leads_to_gates (name v : string) : Prop :=
  ∀ r, rq_Path r = npm_path name v →
    npm_NormalizeRequest r = Some (mkRef "npm" name v "") ∨
    ((∃ scope, name = scope +:+ "/-") ∧ npm_NormalizeRequest r = None ∧ npm_IsArtifactPath r = true).

Lemma metadata_leads_to_gates req ref v :
  npm_NormalizeMetadataRequest req = Some ref → v ≠ "" → leads_to_gates (mr_Name ref) v.
Proof.
  unfold npm_NormalizeMetadataRequest. destruct (negb _); [done|]. destruct (query_Has _ _); [done|].
  destruct (splitNPMMetadataPath _) as [[name version]|] eqn:E; [|done]. intros [= <-] Hv r Hr. cbn [mr_Name] in *.
  destruct (metadata_name _ _ _ E) as [Hok|(scope & -> & Hok & Hne & Hs)]; [left; by apply npm_path_named|right].
  split; [by eexists|]. by eapply npm_hyphen_refused.
Qed.

(** The link of a rewritten version. *)
Lemma links_rewritten linkBase name versions d v x :
  utf8 (to_bytes linkBase) → utf8 (to_bytes name) → (∀ v raw, versions !! v = Some raw → fits d raw) →
  (rewrite_versions range linkBase name versions).1 !! v = Some x →
  fits d x ∧ ∀ link, dist_tarball (esc x) = Some link → as_string "" link = Some (linkBase +:+ npm_path name v) ∧ v ≠ "".
Proof.
  intros Hb Hn Hd. rewrite lookup_rewrite. destruct (versions !! v) as [raw|] eqn:Hv; [|done]. cbn. apply Hd in Hv.
  destruct (rewriteNPMTarball raw linkBase name v) as [| |y] eqn:E; [|done|]; intros [= ->].
  - split; [done|]. intros link. apply rewrite_none in E. by rewrite (dist_tarball_esc d), E.
  - destruct (rewrite_done _ _ _ _ _ _ Hb Hn Hv E) as (Hx & t & link & Ht & Hs & Hl). split; [done|].
    intros link'. rewrite Ht. intros [= <-]. rewrite npmTarballURL_exact in Hl.
    destruct (npmVersionRe v) eqn:Hw; [|done]. injection Hl as <-. apply npmVersionRe_word in Hw as [? _]. done.
Qed.

Lemma elem_of_against {A} (allowed : string → bool) (m : gmap string A) v :
  v ∈ List.filter (λ v, negb (allowed v)) (ranged range m) ↔ is_Some (m !! v) ∧ allowed v = false.
Proof. rewrite list_elem_of_In, filter_In, <- list_elem_of_In, elem_of_ranged, negb_true_iff. done. Qed.

Lemma all_rejected {A} (allowed : string → bool) (m : gmap string A) :
  (List.filter (λ v, negb (allowed v)) (ranged range m) ≠ [] ∧
   length (List.filter (λ v, negb (allowed v)) (ranged range m)) = size m) ↔
  ranged range m ≠ [] ∧ ∀ x, x ∈ ranged range m → allowed x = false.
Proof.
  assert (size m = length (ranged range m)) as ->.
  { unfold ranged. by rewrite (Permutation_length (range_ok _)), length_fmap, length_map_to_list. }
  generalize (ranged range m). intros l. split.
  - intros [Hne Hlen]. split; [by intros ->|]. revert Hlen. clear Hne.
    induction l as [|x l IH]; [by intros _ ? ?%elem_of_nil|]. cbn [List.filter].
    pose proof (filter_length_le (λ v, negb (allowed v)) l). destruct (negb (allowed x)) eqn:Hx; cbn [length]; [|lia].
    intros [= Hl] y [->|Hy]%elem_of_cons; [by apply negb_true_iff|auto].
  - intros [Hne Ha]. assert (List.filter (λ v, negb (allowed v)) l = l) as ->; [|done].
    clear Hne. induction l as [|x l IH]; [done|]. cbn [List.filter]. rewrite Ha by left. cbn [negb]. f_equal.
    apply IH. intros y Hy. apply Ha. by right.
Qed.

(** C15: A packument passes rewritten or not at all.  Each version that has a
    well-formed object and, where it has a download link, a name a tarball path
    can carry - letters, digits, dots, plus signs, underscores and hyphens - is
    put to the decider once, with the time the document gives it; the others
    are left out as unmappable.  In the document that goes to the client the
    versions are those the decider is for - all of those put to it when it is
    against every one, since the gates refuse each download with the reason; a
    version left out is gone from the times too; every download link is the
    proxy's, under the path that names that very version to the gates - or, for
    a scoped package called "-", one the proxy refuses; and the other fields
    are kept. *)
Theorem npm_packument_gated doc req ref linkBase s fd s' top versions :
  utf8 (to_bytes linkBase) → utf8 (to_bytes (mr_Name ref)) →
  npm_NormalizeMetadataRequest req = Some ref → mr_Version ref = "" →
  npm_FilterVersions std range S doc ref decide_ linkBase s = (Some fd, s') →
  doc_map doc = Some top → sub_map "versions" top = Some versions →
  ∃ (asked : list string) (allowed : string → bool) top' versions',
    consults decide_ s ((λ v, (v, publish_time std top v, allowed v)) <$> asked) s' ∧ NoDup asked ∧
    (∀ v, v ∈ asked ↔ ∃ raw, versions !! v = Some raw ∧ linkable v raw) ∧
    doc_map (fd_Body fd) = Some top' ∧ sub_map "versions" top' = Some versions' ∧
    (∀ v, is_Some (versions' !! v) ↔ v ∈ asked ∧ (allowed v = true ∨ ∀ x, x ∈ asked → allowed x = false)) ∧
    (∀ v, v ∈ fd_Removed fd ↔ v ∈ asked ∧ allowed v = false) ∧
    (∀ v, v ∈ fd_Unmappable fd ↔ ∃ raw, versions !! v = Some raw ∧ ¬ linkable v raw) ∧
    (fd_AllRejected fd = true ↔ asked ≠ [] ∧ ∀ x, x ∈ asked → allowed x = false) ∧
    (∀ v raw link, versions' !! v = Some raw → dist_tarball raw = Some link →
       as_string "" link = Some (linkBase +:+ npm_path (mr_Name ref) v) ∧ leads_to_gates (mr_Name ref) v) ∧
    (∀ times v, sub_map "time" top' = Some times → is_Some (versions !! v) → versions' !! v = None → times !! v = None) ∧
    (∀ k, k ≠ "versions" → k ≠ "time" → top' !! k = esc <$> (top !! k)).
Proof.
  intros Hb Hn Hreq Hver Hf Hdoc Hv. unfold npm_FilterVersions in Hf. rewrite Hver in Hf.
  replace (negb ("" =s? "")) with false in Hf by done.
  pose proof (filter_packument_inv _ _ _ _ _ _ _ _ Hf Hdoc Hv) as H. clear Hf.
  pose proof (rewrite_split linkBase (mr_Name ref) versions) as Hsplit.
  pose proof (elem_of_rewrite_failed linkBase (mr_Name ref) versions) as Hfailed.
  destruct depth_two as [d Hd].
  assert (∀ k v, top !! k = Some v → fits (Datatypes.S d) v ∧ utf8 (to_bytes k)) as Htop by (intros k v; by apply (doc_map_fits doc)).
  destruct (sub_map_fits _ _ _ _ (λ k v H, proj1 (Htop k v H)) Hv) as (d' & rv & [= <-] & _ & _ & Hvs).
  pose proof (λ v x, links_rewritten linkBase (mr_Name ref) versions d v x Hb Hn (λ v raw H, proj1 (Hvs v raw H))) as Hgate.
  destruct (rewrite_versions range linkBase (mr_Name ref) versions) as [links unmappable]. cbn [fst snd] in *.
  destruct H as (allowed & Hcons & Hrem & Hun & Hall & Hbody).
  assert (∀ v, v ∈ unmappable ↔ ∃ raw, versions !! v = Some raw ∧ ¬ linkable v raw) as Hunm.
  { intros v. rewrite Hfailed. split; intros (raw & Hraw & H); exists raw; (split; [done|]); by eapply rewrite_failed. }
  assert (∀ v, v ∈ ranged range links ↔ is_Some (links !! v)) as Hin by apply elem_of_ranged.
  assert (fd_AllRejected fd = true ↔ ranged range links ≠ [] ∧ ∀ x, x ∈ ranged range links → allowed x = false) as Hall'.
  { rewrite Hall. apply all_rejected. }
  set (dropped := if fd_AllRejected fd then [] else fd_Removed fd) in *.
  assert (∀ v, v ∈ dropped ↔ fd_AllRejected fd = false ∧ is_Some (links !! v) ∧ allowed v = false) as Hdrop.
  { intros v. unfold dropped. destruct (fd_AllRejected fd); [set_solver|]. rewrite Hrem, elem_of_against. naive_solver. }
  assert ((if fd_AllRejected fd then links else delete_all (fd_Removed fd) links) = delete_all dropped links) as Ek
    by (unfold dropped; by destruct (fd_AllRejected fd)).
  rewrite Ek in Hbody. clear Ek. clearbody dropped.
  assert (∀ v x, delete_all dropped links !! v = Some x ↔ links !! v = Some x ∧ v ∉ dropped) as Hkept.
  { intros v x. rewrite lookup_delete_all. case_bool_decide; [|tauto]. split; [done|by intros []]. }
  destruct (rebuild_read top versions (delete_all dropped links) (unmappable ++ dropped) d Hd Htop Hv)
    as (top' & Ht & Hv' & Ho & Hts).
  { intros v x [Hl _]%Hkept. split; [by apply (Hgate v x)|]. by apply Hsplit; eexists. }
  exists (ranged range links), allowed, top', (esc <$> delete_all dropped links). rewrite Hbody, Hun.
  split_and!; [done|apply NoDup_ranged| |done|done|..].
  - intros v. rewrite Hin, Hsplit, Hunm. split.
    + intros [[raw Hraw] Hnot]. exists raw. split; [done|]. apply dec_stable. intros Hl. apply Hnot. by exists raw.
    + intros (raw & Hraw & Hl). split; [by eexists|]. intros (raw' & Hraw' & Hnl). congruence.
  - intros v. rewrite lookup_fmap, fmap_is_Some. transitivity (is_Some (links !! v) ∧ v ∉ dropped).
    { split; [intros [x Hx%Hkept]|intros [[x Hx] Hnd]; exists x; by apply Hkept]. destruct Hx. split; [by eexists|done]. }
    rewrite Hdrop, Hin. destruct (fd_AllRejected fd) eqn:E.
    + destruct (proj1 Hall' eq_refl) as [_ Hx]. split; [intros [? _]; by split; [|right]|intros [? _]; by split; [|intros [? _]]].
    + split.
      * intros [Hl Hnd]. split; [done|left]. destruct (allowed v); [done|]. by destruct Hnd.
      * intros [Hl Hor]. split; [done|]. intros (_ & _ & Ha). destruct Hor as [|Hx]; [congruence|].
        assert (false = true); [|done]. apply Hall'. split; [|done]. intros Hnil. apply Hin in Hl. rewrite Hnil in Hl. by apply elem_of_nil in Hl.
  - intros v. by rewrite Hrem, elem_of_against, Hin.
  - done.
  - done.
  - intros v raw link. rewrite lookup_fmap. destruct (delete_all dropped links !! v) as [x|] eqn:Hx; [|done]. intros [= <-].
    apply Hkept in Hx as [Hl _]. intros Hlink. destruct (proj2 (Hgate v x Hl) link Hlink) as [? ?]. split; [done|].
    by eapply metadata_leads_to_gates.
  - intros times v Htm Hvv. rewrite lookup_fmap, fmap_None, lookup_delete_all. intros Hk.
    eapply Hts; [done|]. rewrite elem_of_app. destruct (decide (v ∈ unmappable)) as [|Hu]; [by left|right].
    destruct (proj2 (Hsplit v) (conj Hvv Hu)) as [x Hx]. case_bool_decide; [done|congruence].
  - done.
Qed.
End Packument.

(** ** Manifests *)

(** A manifest of one version: the link leads back to the gates of the version
    the document names, or there is none to follow. *)
Lemma npm_manifest_gated doc name linkBase fd :
  utf8 (to_bytes linkBase) → utf8 (to_bytes name) → name_ok name → rewriteNPMManifest doc name linkBase = Some fd →
  ∃ v version, parse doc = Some v ∧ as_struct1 "version" as_string "" v = Some version ∧
    (fd_Body fd = doc ∧ dist_tarball v = None ∨
     ∃ w link, parse (fd_Body fd) = Some w ∧ dist_tarball w = Some link ∧
       as_string "" link = Some (linkBase +:+ npm_path name version) ∧
       ∀ r, rq_Path r = npm_path name version → npm_NormalizeRequest r = Some (mkRef "npm" name version "")).
Proof.
  intros Hb Hn Hok. unfold rewriteNPMManifest. destruct (parse doc) as [v|] eqn:Hp; [|done]. cbn [mbind option_bind].
  destruct (as_struct1 _ _ _ v) as [version|] eqn:Hv; [|done]. cbn [mbind option_bind]. intros H. exists v, version.
  split; [done|]. split; [done|]. apply parse_fits in Hp.
  destruct (rewriteNPMTarball v linkBase name version) as [| |w] eqn:E; [|done|]; injection H as <-; cbn [fd_Body].
  - left. split; [done|]. by eapply rewrite_none.
  - right. destruct (rewrite_done _ _ _ _ _ _ Hb Hn Hp E) as (Hw & t & link & Ht & Hs & Hl).
    exists (esc w), t. split; [by apply parse_print|]. split; [done|]. rewrite npmTarballURL_exact in Hl.
    destruct (npmVersionRe version) eqn:Hr; [|done]. injection Hl as <-. apply npmVersionRe_word in Hr as [? _].
    split; [done|]. intros r. by apply npm_path_named.
Qed.

(** ** What the metadata handler relies on *)

Lemma npm_named_is_artifact r ref : npm_NormalizeRequest r = Some ref → npm_IsArtifactPath r = true.
Proof.
  unfold npm_NormalizeRequest, npm_IsArtifactPath. destruct (HasSuffix (rq_Path r) ".tgz"); [|done]. cbn [negb andb].
  unfold Contains. by destruct (cut_sub _ _) as [[]|].
Qed.

(** The adapter acts on the world through the decider only. *)
Lemma npm_decides_only std range upstreams : decides_only (NPMAdapter std range upstreams).
Proof.
  intros S R Hr Ht doc mref decide base s Hd. cbn [FilterVersions NPMAdapter]. unfold npm_FilterVersions.
  destruct (negb _); [apply Hr|]. unfold filter_packument.
  repeat (case_match; try apply Hr). unfold bind_st.
  match goal with |- context [reject decide ?published ?l s] =>
    pose proof (reject_steps decide R published l s Hr Ht Hd); by destruct (reject decide published l s) end.
Qed.

(** ** A packument, rewritten *)

Definition ex_std : AdapterStd :=
  mkAdapterStd rq_Path (fun _ => None) (fun _ => "") (fun _ s => Ok (str_len s)) (fun _ => None) (fun _ => None) (fun s => s).

Definition ex_packument : bytes := text
  "{'name':'left-pad', 'time':{'1.0.0':'on Monday', '2.0.0':'today'},
    'versions':{'1.0.0':{'dist':{'tarball':'https://registry.npmjs.org/left-pad/-/left-pad-1.0.0.tgz'}},
                '2.0.0':{'dist':{'tarball':'https://elsewhere.example/evil.tgz'}},
                '3/../0':{'dist':{'tarball':'x'}}}}".

(** Only what was published on a day with a long name is old enough. *)
Definition ex_decide (v : string) (t : Z) : St unit bool := fun s => (6 <=? t, s).

Lemma npm_packument_gated_witness :
  let run := npm_FilterVersions ex_std id unit ex_packument (mkMetadataRef "npm" "left-pad" "") ex_decide
                "https://proxy.example/npm" tt in
  fd_Removed <$> run.1 = Some ["2.0.0"] ∧ fd_Unmappable <$> run.1 = Some ["3/../0"] ∧ fd_AllRejected <$> run.1 = Some false ∧
  ∃ fd asked allowed top' versions', run.1 = Some fd ∧
    consults ex_decide tt ((λ v, (v, publish_time ex_std (default ∅ (doc_map ex_packument)) v, allowed v)) <$> asked) run.2 ∧
    doc_map (fd_Body fd) = Some top' ∧ sub_map "versions" top' = Some versions' ∧
    (∀ v, is_Some (versions' !! v) ↔ v ∈ asked ∧ (allowed v = true ∨ ∀ x, x ∈ asked → allowed x = false)) ∧
    ∀ v raw link, versions' !! v = Some raw → dist_tarball raw = Some link →
      as_string "" link = Some ("https://proxy.example/npm" +:+ npm_path "left-pad" v) ∧ leads_to_gates "left-pad" v.
Proof.
  cbv zeta. split_and!; [vm_compute; done..|].
  destruct (npm_FilterVersions ex_std id unit ex_packument (mkMetadataRef "npm" "left-pad" "") ex_decide
              "https://proxy.example/npm" tt) as [[fd|] s'] eqn:E; [|by apply (f_equal fst) in E; vm_compute in E].
  destruct (npm_packument_gated ex_std id (λ l, reflexivity l) ex_decide
    ex_packument (mkRequest "" "npm" "GET" "/left-pad" "" "" "proxy.example" "192.0.2.7:50000" true ∅ None)
    (mkMetadataRef "npm" "left-pad" "") "https://proxy.example/npm" tt fd s'
    (default ∅ (doc_map ex_packument)) (default ∅ (doc_map ex_packument ≫= sub_map "versions")))
    as (asked & allowed & top' & vs' & H0 & _ & _ & H1 & H2 & H3 & _ & _ & _ & H4 & _);
    [by apply ascii_utf8|by apply ascii_utf8|by vm_compute|reflexivity|exact E|by vm_compute|by vm_compute|].
  exists fd, asked, allowed, top', vs'. exact (conj eq_refl (conj H0 (conj H1 (conj H2 (conj H3 H4))))).
Defined.

(** A package called "-" under a scope: its links name no version, and are
    refused. *)
Example ex_hyphen_package :
  let req path := mkRequest "" "npm" "GET" path "" "" "proxy.example" "192.0.2.7:50000" true ∅ None in
  npm_NormalizeMetadataRequest (req "/@scope/-") = Some (mkMetadataRef "npm" "@scope/-" "") ∧
  npmTarballURL "https://proxy.example/npm" "@scope/-" "1.0.0" = Some "https://proxy.example/npm/@scope/-/-/--1.0.0.tgz" ∧
  npm_NormalizeRequest (req "/@scope/-/-/--1.0.0.tgz") = None.
Proof. vm_compute. done. Qed.
