(* ===== verification/PyPI.v ===== *)
(** * Package adapters: PyPI (pypi.go, pypi_index.go)

    Distribution files by name, the publication date of the file requested,
    and the rewriting of index pages: a link stays only when it resolves under
    /packages/, and then leads to the proxy's own route.  HTML is read by a
    tokenizer of another package and is a parameter, as are letter case beyond
    ASCII, media types and the authority of a URL. *)
From S2P Require Import Prelude GoStd Json Gate Upstream HTTP Handler Adapters URL.
Local Open Scope Z_scope.

(** ** Downloads *)

Definition packagePathRe (path : string) : bool := HasPrefix path "/packages/".

Definition sdistExts : list string :=
  [".tar.gz"; ".tar.bz2"; ".tar.xz"; ".tar.lzma"; ".tar.lz"; ".tgz"; ".tbz"; ".txz"; ".tlz"; ".tar"; ".zip"].

(** s[:len(s)-n] *)
Definition drop_end (s : string) (n : nat) : string := of_bytes (take (String.length s - n) (to_bytes s)).

Definition pypi_separator (c : ascii) : bool := bool_decide (c ∈ ["-"; "_"; "."]%char).

(** Runs of separators become one hyphen. *)
Fixpoint fold_separators (l : bytes) : bytes :=
  match l with
  | [] => []
  | c :: l' =>
      if pypi_separator c then
        match fold_separators l' with
        | "-"%char :: r => "-"%char :: r
        | r => "-"%char :: r
        end
      else c :: fold_separators l'
  end.

Section Names.
(** strings.ToLower on names, which may hold any letter. *)
Context (lower : string -> string).

Definition normalizePyPIName (name : string) : string := of_bytes (fold_separators (to_bytes (lower name))).

Definition parsePyPIFilename (filename : string) : option (string * string) :=
  let low := ToLower filename in
  match first_such (HasSuffix low) [".whl"; ".egg"] with
  | Some ext =>
      match Split (drop_end filename (String.length ext)) "-"%char with
      | dist :: version :: _ => Some (normalizePyPIName dist, version)
      | _ => None
      end
  | None =>
      match first_such (HasSuffix low) sdistExts with
      | Some ext =>
          match cut_last_sub ["-"%char] (to_bytes (drop_end filename (String.length ext))) with
          | Some ((_ :: _) as dist, version) => Some (normalizePyPIName (of_bytes dist), of_bytes version)
          | _ => None
          end
      | None => None
      end
  end.

Definition pypi_NormalizeRequest (r : Request) : option PackageRef :=
  if negb (packagePathRe (rq_Path r)) then None
  else
    let '(filename, _, _) := Cut (after_last "/"%char (rq_Path r)) "#"%char in
    match parsePyPIFilename filename with
    | Some (name, version) => Some (mkRef "pypi" name version filename)
    | None => None
    end.

Definition pypi_IsArtifactPath (r : Request) : bool :=
  packagePathRe (rq_Path r) &&
  negb (match strip_suffix (to_bytes ".metadata") (to_bytes (rq_Path r)) with
        | Some dist => bool_decide (is_Some (parsePyPIFilename (after_last "/"%char (of_bytes dist))))
        | None => false
        end).
End Names.

(** ** Publication dates *)

Record pypiFile := mkPyPIFile {
  pf_Filename : string;
  pf_UploadTimeISO : string;
}.

Definition as_pypi_file (v : Raw) : option pypiFile :=
  match v with
  | RNull => Some (mkPyPIFile "" "")
  | RObj ms =>
      filename ← field "filename" as_string "" ms;
      upload ← field "upload_time_iso_8601" as_string "" ms;
      _ ← field "url" as_string "" ms;
      Some (mkPyPIFile filename upload)
  | _ => None
  end.

(** The license, the author and the files. *)
Definition as_pypi (v : Raw) : option (string * string * list pypiFile) :=
  let info old v :=
    match v with
    | RNull => Some old
    | RObj ms =>
        _ ← field "name" as_string "" ms;
        _ ← field "version" as_string "" ms;
        license ← field "license" as_string old.1 ms;
        author ← field "author" as_string old.2 ms;
        Some (license, author)
    | _ => None
    end in
  match v with
  | RNull => Some ("", "", [])
  | RObj ms =>
      '(license, author) ← field "info" info ("", "") ms;
      urls ← field "urls" (fun _ => as_slice as_pypi_file) [] ms;
      Some (license, author, urls)
  | _ => None
  end.

Section Fetch.
Context (std : AdapterStd) (env : AEnv).

Definition parsePyPIUploadTime (s : string) : result error Z :=
  match std_time_Parse std RFC3339 s with
  | Ok t => Ok t
  | Err _ =>
      match std_time_Parse std "2006-01-02T15:04:05.999999Z07:00" s with
      | Ok t => Ok t
      | Err e => Err (EWrap ("parsing upload_time_iso_8601 " +:+ std_Quote std s +:+ ": ") e "")
      end
  end.

(** The newest of the files asked for; all of them when no file is named. *)
Fixpoint newest_upload (classifier : string) (files : list pypiFile) (found : option Z) : result error (option Z) :=
  match files with
  | [] => Ok found
  | f :: files' =>
      if negb (classifier =s? "") && negb (pf_Filename f =s? classifier) then newest_upload classifier files' found
      else
        match parsePyPIUploadTime (pf_UploadTimeISO f) with
        | Err e => Err e
        | Ok t =>
            newest_upload classifier files'
              (Some (match found with Some p => if time_after t p then t else p | None => t end))
        end
  end.

Definition pypi_fetchMetadataFrom (ref : PackageRef) (base : string) : St (list ACall) Fetched :=
  let apiURL := base +:+ "/pypi/" +:+ Name ref +:+ "/" +:+ Version ref +:+ "/json" in
  let refused status :=
    if status =? StatusNotFound then "package " +:+ Name ref +:+ "@" +:+ Version ref +:+ " not found on PyPI"
    else "pypi returned HTTP " +:+ FormatInt status in
  res <- fetch_body env "building metadata request: " "fetching pypi metadata: " refused apiURL;;
  ret_st (match res with
          | Err e => Err e
          | Ok (status, body) =>
              match v ← parse_first body; as_pypi v with
              | None => Err (apiURL, status, EWrap "decoding pypi response: " (ENew "json") "")
              | Some (license, author, urls) =>
                  match urls with
                  | [] => Err (apiURL, status, ENew ("no download URLs in pypi response for " +:+ Name ref +:+ "@" +:+ Version ref))
                  | _ =>
                      match newest_upload (Classifier ref) urls None with
                      | Err e => Err (apiURL, status, e)
                      | Ok None =>
                          Err (apiURL, status, ENew ("file " +:+ Classifier ref +:+ " not listed in pypi release " +:+
                                                     Name ref +:+ "@" +:+ Version ref))
                      | Ok (Some t) => Ok (mkMeta t author license)
                      end
                  end
              end
          end).

Definition pypi_FetchMetadata (upstreams : list string) (ref : PackageRef) : St (list ACall) (result error PackageMetadata) :=
  FetchMetadata std env "pypi" (pypi_fetchMetadataFrom ref) (trim_upstreams upstreams).
End Fetch.

(** ** Index pages *)

(** "/pypi/<project>/json" and "/pypi/<project>/<version>/json". *)
Definition pypiJSONAPIRe (path : string) : bool :=
  match Split path "/"%char with
  | root :: pypi :: rest =>
      (root =s? "") && (pypi =s? "pypi") &&
      match (match rev rest with last :: r => if last =s? "" then r else last :: r | [] => [] end) with
      | [json; project] => (json =s? "json") && negb (project =s? "")
      | [json; version; project] => (json =s? "json") && negb (version =s? "") && negb (project =s? "")
      | _ => false
      end
  | _ => false
  end.

Definition pypi_IsIndexRequest (r : Request) : bool := HasPrefix (rq_Path r) "/simple/" || pypiJSONAPIRe (rq_Path r).

Inductive docKind := kindHTML | kindJSONSimple | kindJSONAPI.

Definition dirDepth (requestPath : string) : nat :=
  let dir := if HasSuffix requestPath "/" then to_bytes requestPath else up_to_last (to_bytes requestPath) in
  let trimmed := to_bytes (Trim (of_bytes dir) ["/"%char]) in
  match trimmed with [] => 0 | _ => length (split_bytes "/"%char trimmed) end%nat.

(** Leading bytes up to the space. *)
Fixpoint trim_controls (l : bytes) : bytes :=
  match l with
  | c :: l' => if (Ascii.nat_of_ascii c <=? 32)%nat then trim_controls l' else l
  | [] => []
  end.

Definition tab_or_newline (c : ascii) : bool := bool_decide (Ascii.nat_of_ascii c ∈ [9; 13; 10]%nat).

Definition normalizeLink (raw : bytes) : bytes :=
  let s := rev (trim_controls (rev (trim_controls raw))) in
  (fun c => if Ascii.eqb c (byte_of 92) then "/"%char else c) <$> List.filter (fun c => negb (tab_or_newline c)) s.

Definition proxyHost : string := "proxy.joei.invalid".

(** The tokens of a page: a start tag with its attributes, or anything else,
    and the bytes it came from. *)
Record Attribute := mkAttribute {
  at_Namespace : string;
  at_Key : string;
  at_Val : string;
}.

Inductive Token :=
| TOther (raw : bytes)
| TTag (raw : bytes) (selfClosing : bool) (data : string) (attrs : list Attribute).

Section Index.
Context (parseAuthority : bytes -> option (option string * string)).
Context (ParseMediaType : string -> option string).
Context (tokenize : bytes -> option (list Token)) (token_String : bool -> string -> list Attribute -> bytes).
Context (range : list string -> list string).

Definition indexKind (contentType requestPath : string) : option docKind :=
  if pypiJSONAPIRe requestPath then Some kindJSONAPI
  else
    mt ← (if contentType =s? "" then Some "" else ToLower <$> ParseMediaType contentType);
    if (mt =s? "") || (mt =s? "text/html") || (mt =s? "application/vnd.pypi.simple.v1+html") then Some kindHTML
    else if (mt =s? "application/json") || HasSuffix mt "+json" then Some kindJSONSimple
    else None.

(** What a document's links are resolved from, and the way back to the root. *)
Definition document_URL (requestPath : string) : URL :=
  mkParsed (to_bytes "http") [] None proxyHost (to_bytes requestPath) [] false [] [] [].

Definition absolute_ok (norm : bytes) (u : URL) : bool :=
  bool_decide (URL_Scheme u = []) ||
  ((bool_decide (URL_Scheme u = to_bytes "http") || bool_decide (URL_Scheme u = to_bytes "https")) &&
   negb (URL_Host u =s? "") && HasPrefix (ToLower (of_bytes norm)) (of_bytes (URL_Scheme u) +:+ "://")).

Definition resolve (requestPath : string) (raw : bytes) : option bytes :=
  let norm := normalizeLink raw in
  u ← Parse parseAuthority norm;
  if bool_decide (URL_Opaque u ≠ []) || bool_decide (is_Some (URL_User u)) then None
  else if negb (absolute_ok norm u) then None
  else
    let abs := ResolveReference (document_URL requestPath) u in
    let clean := Clean (URL_Path abs) in
    match strip_prefix (to_bytes "/packages/") clean with
    | None => None
    | Some _ =>
        Some (up_prefix (dirDepth requestPath) ++
              tail (EscapedPath (mkParsed [] [] None "" clean [] false [] [] [])) ++
              (if bool_decide (URL_RawQuery abs = []) then [] else "?"%char :: URL_RawQuery abs) ++
              (if bool_decide (URL_Fragment abs = []) then [] else "#"%char :: EscapedFragment abs))
    end.

(** The tally of a document: links rewritten, links dropped. *)
Notation Tally := (Z * list string)%type.

Definition mapLink (requestPath raw : string) : St Tally (option string) := fun '(rewritten, dropped) =>
  match resolve requestPath (to_bytes raw) with
  | None => (None, (rewritten, dropped ++ [raw]))
  | Some mapped =>
      let mapped := of_bytes mapped in
      (Some mapped, (if mapped =s? raw then rewritten else rewritten + 1, dropped))
  end.

(** The attributes of an anchor with their links mapped; whether it stays. *)
Fixpoint map_hrefs (requestPath : string) (attrs : list Attribute) : St Tally (list Attribute * bool) :=
  match attrs with
  | [] => ret_st ([], true)
  | attr :: attrs' =>
      if negb (at_Namespace attr =s? "") || negb (at_Key attr =s? "href") then
        rest <- map_hrefs requestPath attrs';;
        ret_st (attr :: rest.1, rest.2)
      else
        mapped <- mapLink requestPath (at_Val attr);;
        rest <- map_hrefs requestPath attrs';;
        ret_st (match mapped with
                | Some link => (mkAttribute (at_Namespace attr) (at_Key attr) link :: rest.1, rest.2)
                | None => (attr :: rest.1, false)
                end)
  end.

Definition html_token (requestPath : string) (t : Token) : St Tally bytes :=
  match t with
  | TOther raw => ret_st raw
  | TTag raw selfClosing data attrs =>
      if data =s? "base" then ret_st []
      else if data =s? "a" then
        res <- map_hrefs requestPath attrs;;
        ret_st (if (res.2 : bool) then token_String selfClosing data res.1 else [])
      else ret_st raw
  end.

Fixpoint html_tokens (requestPath : string) (ts : list Token) : St Tally bytes :=
  match ts with
  | [] => ret_st []
  | t :: ts' =>
      out <- html_token requestPath t;;
      rest <- html_tokens requestPath ts';;
      ret_st (out ++ rest)
  end.

Definition html (requestPath : string) (doc : bytes) : St Tally (option bytes) :=
  match tokenize doc with
  | None => ret_st None
  | Some ts =>
      out <- html_tokens requestPath ts;;
      ret_st (Some out)
  end.

(** One file of a list: kept, dropped, or not to be read. *)
Definition map_file (requestPath : string) (f : option (gmap string Raw)) : St Tally (option (option Raw)) :=
  match f ≫= lookup "url" with
  | None => ret_st (Some (Some (of_gomap f)))
  | Some rawURL =>
      match as_string "" rawURL with
      | None => ret_st None
      | Some link =>
          mapped <- mapLink requestPath link;;
          ret_st (match mapped with
                  | None => Some None
                  | Some mapped =>
                      Some (Some (of_gomap (if mapped =s? link then f else <[ "url" := of_string mapped ]> <$> f)))
                  end)
      end
  end.

Fixpoint map_files (requestPath : string) (files : list (option (gmap string Raw))) : St Tally (option (list Raw)) :=
  match files with
  | [] => ret_st (Some [])
  | f :: files' =>
      file <- map_file requestPath f;;
      match file with
      | None => ret_st None
      | Some file =>
          rest <- map_files requestPath files';;
          ret_st (match rest with
                  | None => None
                  | Some rest => Some (match file with Some file => file :: rest | None => rest end)
                  end)
      end
  end.

(** A null list stays null. *)
Definition fileList (requestPath : string) (raw : Raw) : St Tally (option Raw) :=
  match raw with
  | RNull => ret_st (Some RNull)
  | _ =>
      match as_slice as_map raw with
      | None => ret_st None
      | Some files =>
          files <- map_files requestPath files;;
          ret_st (RArr <$> files)
      end
  end.

(** A key of the document that holds a file list. *)
Definition rewrite_key (requestPath key : string) (top : gmap string Raw) : St Tally (option (gmap string Raw)) :=
  match top !! key with
  | None => ret_st (Some top)
  | Some raw =>
      files <- fileList requestPath raw;;
      ret_st (match files with Some files => Some (<[ key := files ]> top) | None => None end)
  end.

Definition jsonSimple (requestPath : string) (doc : bytes) : St Tally (option bytes) :=
  match v ← parse doc; as_map v with
  | None => ret_st None
  | Some None => ret_st (Some (print RNull))
  | Some (Some top) =>
      top <- rewrite_key requestPath "files" top;;
      ret_st ((fun top => print (of_map top)) <$> top)
  end.

(** The lists of the releases, as Go ranges over them. *)
Fixpoint rewrite_keys (requestPath : string) (keys : list string) (m : gmap string Raw)
    : St Tally (option (gmap string Raw)) :=
  match keys with
  | [] => ret_st (Some m)
  | key :: keys' =>
      m' <- rewrite_key requestPath key m;;
      match m' with
      | None => ret_st None
      | Some m' => rewrite_keys requestPath keys' m'
      end
  end.

Definition rewrite_releases (requestPath : string) (top : gmap string Raw) : St Tally (option (gmap string Raw)) :=
  match top !! "releases" with
  | None => ret_st (Some top)
  | Some raw =>
      match as_map raw with
      | None => ret_st None
      | Some None => ret_st (Some (<[ "releases" := RNull ]> top))
      | Some (Some releases) =>
          releases <- rewrite_keys requestPath (range (map_to_list releases).*1) releases;;
          ret_st (match releases with Some releases => Some (<[ "releases" := of_map releases ]> top) | None => None end)
      end
  end.

Definition jsonAPI (requestPath : string) (doc : bytes) : St Tally (option bytes) :=
  match v ← parse doc; as_map v with
  | None => ret_st None
  | Some None => ret_st (Some (print RNull))
  | Some (Some top) =>
      top <- rewrite_key requestPath "urls" top;;
      match top with
      | None => ret_st None
      | Some top =>
          top <- rewrite_releases requestPath top;;
          ret_st ((fun top => print (of_map top)) <$> top)
      end
  end.

Definition pypi_RewriteIndex (doc : bytes) (contentType requestPath : string) : option IndexRewrite :=
  kind ← indexKind contentType requestPath;
  let rewrite := match kind with kindJSONAPI => jsonAPI | kindJSONSimple => jsonSimple | kindHTML => html end in
  let '(body, (rewritten, dropped)) := rewrite requestPath doc (0, []) in
  (fun body => mkIndexRewrite body rewritten dropped) <$> body.

Definition PyPIAdapter (std : AdapterStd) (lower : string -> string) (upstreams : list string) : RegistryAdapter := {|
  NormalizeRequest := pypi_NormalizeRequest lower;
  UpstreamURLs := upstream_urls std (trim_upstreams upstreams);
  IsArtifactPath := Some (pypi_IsArtifactPath lower);
  IsIndexRequest := Some pypi_IsIndexRequest;
  RewriteIndex := pypi_RewriteIndex;
  NormalizeMetadataRequest := None;
  FilterVersions S _ _ _ _ := ret_st None;
  MetadataFromHeader := None;
|}.
End Index.

(** ** Where a link leads *)

(** A request path whose directories are written out: none of them is empty or
    made of dots, and what follows the last slash names the document.  The mux
    redirects to their cleaned form the escaped paths that are otherwise, so
    this fails only when an escape stands for a slash or a dot of the path
    ([ex_escaped_slash]). *)
Definition plain_path (requestPath : string) (dirs : list bytes) : Prop :=
  dirs ≠ [] ∧ Forall plain_seg dirs ∧ ∃ file, "/"%char ∉ file ∧ to_bytes requestPath = dir_bytes dirs ++ file.

Lemma dir_bytes_join dirs : dirs ≠ [] → dir_bytes dirs = "/"%char :: join_bytes "/"%char dirs ++ ["/"%char].
Proof.
  intros H. unfold dir_bytes. f_equal. induction dirs as [|d dirs IH]; [done|]. cbn [fmap list_fmap concat].
  destruct dirs as [|d' dirs]; [cbn; by rewrite app_nil_r|]. rewrite IH by done.
  change (join_bytes "/" (d :: d' :: dirs)) with (d ++ "/"%char :: join_bytes "/" (d' :: dirs)). by rewrite <- !app_assoc.
Qed.

Lemma join_head dirs : dirs ≠ [] → Forall plain_seg dirs → ∃ c r, join_bytes "/"%char dirs = c :: r ∧ c ≠ "/"%char.
Proof.
  destruct dirs as [|d dirs]; [done|]. intros _ H. inversion H as [|? ? (Hne & _ & Hs) _]; subst. destruct d as [|c d]; [done|].
  apply not_elem_of_cons in Hs as [Hc _]. destruct dirs; by eexists _, _.
Qed.

Lemma join_last dirs : dirs ≠ [] → Forall plain_seg dirs → ∃ c r, join_bytes "/"%char dirs = r ++ [c] ∧ c ≠ "/"%char.
Proof.
  intros Hne H. induction dirs as [|d dirs IH]; [done|]. inversion H as [|? ? (Hd & _ & Hs) Hds]; subst.
  destruct dirs as [|d' dirs].
  - destruct d as [|c d _] using rev_ind; [done|]. exists c, d. split; [done|]. intros ->. apply Hs. set_solver.
  - destruct IH as (c & r & E & Hc); [done|done|]. exists c, (d ++ "/"%char :: r).
    change (join_bytes "/" (d :: d' :: dirs)) with (d ++ "/"%char :: join_bytes "/" (d' :: dirs)). rewrite E.
    by rewrite <- app_assoc.
Qed.

Lemma drop_set_other c l : c ≠ "/"%char → drop_set ["/"%char] (c :: l) = c :: l.
Proof. intros Hc. cbn. by destruct (Ascii.eqb_spec c "/"%char). Qed.

Lemma drop_set_slash l : drop_set ["/"%char] ("/"%char :: l) = drop_set ["/"%char] l.
Proof. done. Qed.

Lemma dirDepth_plain requestPath dirs : plain_path requestPath dirs → dirDepth requestPath = length dirs.
Proof.
  intros (Hne & Hd & file & Hf & Hp). unfold dirDepth.
  assert ((if HasSuffix requestPath "/" then to_bytes requestPath else up_to_last (to_bytes requestPath)) = dir_bytes dirs) as ->.
  { destruct (HasSuffix requestPath "/") eqn:E; [|by rewrite Hp; apply up_to_last_dir].
    apply suffix_bytes in E as [l E]. rewrite Hp in *. destruct file as [|x file _] using rev_ind; [by rewrite app_nil_r|].
    change (to_bytes "/") with ["/"%char] in E. rewrite app_assoc in E. apply app_inj_tail in E as [_ ->]. set_solver. }
  assert (Trim (of_bytes (dir_bytes dirs)) ["/"%char] = of_bytes (join_bytes "/"%char dirs)) as ->.
  { unfold Trim, TrimRight. rewrite !to_of_bytes, dir_bytes_join by done. f_equal.
    destruct (join_head dirs Hne Hd) as (c & r & E & Hc). rewrite drop_set_slash, E. cbn [app]. rewrite drop_set_other by done. change (c :: r ++ ?x) with ((c :: r) ++ x). rewrite <- E.
    destruct (join_last dirs Hne Hd) as (b & r' & E' & Hb). rewrite E', !rev_app_distr. cbn [rev app].
    rewrite drop_set_slash, drop_set_other by done.
    cbn [rev]. by rewrite rev_involutive. }
  rewrite to_of_bytes. destruct (join_head dirs Hne Hd) as (c & r & E & Hc). rewrite E, <- E.
  rewrite split_join; [done|done|]. eapply Forall_impl; [exact Hd|]. by intros ? (_ & _ & ?).
Qed.

Section Links.
Context (parseAuthority : bytes → option (option string * string)).

(** A link of the document at [requestPath], read as net/url reads it, names no
    host of its own and leads under /packages/, where every path is gated. *)
Definition leads_to_packages (requestPath : string) (link : bytes) : Prop :=
  ∃ u, Parse parseAuthority link = Some u ∧ URL_Scheme u = [] ∧ URL_User u = None ∧ URL_Host u = "" ∧
    packagePathRe (of_bytes (URL_Path (ResolveReference (document_URL requestPath) u))) = true.

(** A relative URL as Parse gives it, resolved against a document. *)
Lemma resolve_relative requestPath dirs segs u :
  plain_path requestPath dirs → segs ≠ [] → Forall plain_seg segs →
  URL_Scheme u = [] → URL_Opaque u = [] → URL_User u = None → URL_Host u = "" →
  set_encoded encodePath (up_prefix (length dirs) ++ escape encodePath (join_bytes "/"%char segs)) = Some (URL_Path u, URL_RawPath u) →
  URL_Path (ResolveReference (document_URL requestPath) u) = "/"%char :: join_bytes "/"%char segs.
Proof.
  intros (Hne & Hd & file & Hf & Hp) Hsne Hs Hsch Hop Hus Hho Hset. unfold set_encoded in Hset.
  rewrite (unescape_up _ _ _ (unescape_escape _ _)) in Hset. cbn [mbind option_bind] in Hset.
  rewrite escape_up, bool_decide_eq_true_2 in Hset by done. injection Hset as Hpath Hraw.
  assert (URL_Path u ≠ []) as Hpne by (rewrite <- Hpath; by destruct dirs).
  assert (EscapedPath u = up_prefix (length dirs) ++ join_bytes "/"%char (escape encodePath <$> segs)) as Hesc.
  { unfold EscapedPath. rewrite <- Hraw, <- Hpath. cbn [bool_decide decide_rel andb].
    rewrite (bool_decide_eq_false_2 ([] ≠ [])) by naive_solver. cbn [andb].
    rewrite bool_decide_eq_false_2 by (by destruct dirs). by rewrite escape_up, escape_join. }
  assert (EscapedPath (document_URL requestPath) = dir_bytes (escape encodePath <$> dirs) ++ escape encodePath file) as Hbase.
  { unfold EscapedPath, document_URL. cbn [URL_Path URL_RawPath]. rewrite (bool_decide_eq_false_2 ([] ≠ [])) by naive_solver.
    cbn [andb]. rewrite Hp, bool_decide_eq_false_2 by done. rewrite escape_app. f_equal.
    rewrite !dir_bytes_join by (by destruct dirs). rewrite escape_cons, escape_app, escape_join. done. }
  assert (∀ l, Forall plain_seg l → Forall plain_seg (escape encodePath <$> l)) as Hpl.
  { intros l Hl. apply Forall_fmap. eapply Forall_impl; [exact Hl|]. apply escape_plain_seg. }
  unfold ResolveReference. rewrite Hsch, Hop, Hus, Hho. rewrite !(bool_decide_eq_false_2 ([] ≠ [])) by naive_solver.
  rewrite (bool_decide_eq_false_2 (is_Some None)) by (by intros []).
  rewrite (bool_decide_eq_false_2 (URL_Path u = [])) by done. cbn [orb negb String.eqb andb URL_Opaque document_URL].
  fold (document_URL requestPath). rewrite Hesc, Hbase, <- (length_fmap (escape encodePath) dirs).
  rewrite resolvePath_up; [|by apply Hpl|by destruct dirs| |by apply Hpl|by destruct segs].
  - rewrite <- escape_join. unfold with_path, set_encoded. change ("/"%char :: escape encodePath ?l) with (escape encodePath ("/"%char :: l)).
    by rewrite unescape_escape.
  - destruct (decide ("/"%char ∈ escape encodePath file)) as [Hin|]; [exfalso|done]. unfold escape in Hin.
    apply list_elem_of_bind in Hin as (c & Hc & Hcf). apply escape_slash_byte in Hc; [done|]. by intros ->.
Qed.

(** A link that goes up to the root and down a clean path. *)
Lemma relative_link requestPath dirs segs query frag :
  plain_path requestPath dirs → segs ≠ [] → Forall plain_seg segs →
  existsb is_ctl query = false → "#"%char ∉ query → is_Some (unescape_plain frag) →
  ∃ u, Parse parseAuthority (up_prefix (length dirs) ++ escape encodePath (join_bytes "/"%char segs) ++
                             tagged "?"%char query ++ tagged "#"%char frag) = Some u ∧
    URL_Scheme u = [] ∧ URL_User u = None ∧ URL_Host u = "" ∧
    URL_Path (ResolveReference (document_URL requestPath) u) = "/"%char :: join_bytes "/"%char segs.
Proof.
  intros Hplain Hsne Hs Hqc Hqh [fdec Hfd]. set (down := join_bytes "/"%char segs).
  assert (∃ n, length dirs = S n) as [n Hn] by (destruct Hplain as [Hne _]; destruct dirs; [done|by eexists]).
  destruct (parse_url_up parseAuthority (up_prefix n ++ escape encodePath down) query) as (u & Hu & Hsch & Hop & Hus & Hho & Hset).
  { rewrite <- up_prefix_S, existsb_app_false, up_escape_ctl. split; [done|]. by destruct query. }
  { by apply up_escape_no. }
  { eexists. apply unescape_up, unescape_escape. }
  rewrite <- up_prefix_S, <- Hn in Hset. rewrite <- up_prefix_S, <- Hn in Hu.
  pose proof (resolve_relative requestPath dirs segs u Hplain Hsne Hs Hsch Hop Hus Hho Hset) as Hres.
  rewrite app_assoc, app_assoc. unfold Parse. rewrite cut1_tagged.
  2:{ rewrite not_elem_of_app. split; [by apply up_escape_no|]. destruct query; [apply not_elem_of_nil|].
      cbn [tagged]. rewrite not_elem_of_cons. done. }
  rewrite Hu. cbn [mbind option_bind]. destruct frag as [|c frag]; [by exists u|].
  unfold set_encoded. rewrite Hfd. cbn [mbind option_bind]. eexists. split; [done|]. cbn [URL_Scheme URL_User URL_Host].
  split_and!; [done..|]. by apply (resolve_relative requestPath dirs).
Qed.

Lemma ResolveReference_query requestPath u :
  URL_RawQuery (ResolveReference (document_URL requestPath) u) = URL_RawQuery u ∨
  URL_RawQuery (ResolveReference (document_URL requestPath) u) = [].
Proof. unfold ResolveReference, with_path. repeat case_match; cbn; auto. Qed.

(** Whatever the document says, a link that is kept is gated. *)
Lemma resolve_gated requestPath dirs raw out :
  plain_path requestPath dirs → resolve parseAuthority requestPath raw = Some out → leads_to_packages requestPath out.
Proof.
  intros Hplain. unfold resolve. destruct (Parse parseAuthority (normalizeLink raw)) as [u|] eqn:Hu; [|done].
  cbn [mbind option_bind]. destruct (_ || _); [done|]. destruct (negb _); [done|].
  set (abs := ResolveReference _ u).
  destruct (strip_prefix (to_bytes "/packages/") (Clean (URL_Path abs))) as [rest|] eqn:Hrest; [|done].
  apply strip_prefix_Some in Hrest. set (clean := Clean (URL_Path abs)) in *.
  destruct (Clean_rooted (URL_Path abs) (to_bytes "packages/" ++ rest)) as (segs & Hclean & Hsegs); [exact Hrest|].
  assert (segs ≠ []) as Hne by (by intros ->).
  assert (tail (EscapedPath (mkParsed [] [] None "" clean [] false [] [] [])) = escape encodePath (join_bytes "/"%char segs)) as ->.
  { rewrite <- Hclean. unfold EscapedPath. cbn [URL_Path URL_RawPath]. rewrite (bool_decide_eq_false_2 ([] ≠ [])) by naive_solver.
    cbn [andb]. rewrite Hrest, bool_decide_eq_false_2 by done. done. }
  rewrite (dirDepth_plain requestPath dirs) by done. intros [= <-].
  assert (existsb is_ctl (URL_RawQuery abs) = false ∧ "#"%char ∉ URL_RawQuery abs) as [Hctl Hhash].
  { destruct (ResolveReference_query requestPath u) as [E|E]; fold abs in E; rewrite E; [|split; [done|apply not_elem_of_nil]].
    unfold Parse in Hu. destruct (cut1 "#" (normalizeLink raw)) as [before frag] eqn:Hcut.
    destruct (parse_url parseAuthority before) as [u0|] eqn:Hp; [|done]. cbn [mbind option_bind] in Hu.
    assert (URL_RawQuery u = URL_RawQuery u0) as ->.
    { destruct frag; [by injection Hu as <-|]. destruct (set_encoded _ _) as [[]|]; [|done]. by injection Hu as <-. }
    apply parse_url_query in Hp as [H1 H2]. split; [done|]. intros Hin%H2. revert Hcut Hin. unfold cut1.
    destruct (cut_bytes "#" (normalizeLink raw)) as [[a b]|] eqn:Ec; intros [= <- <-].
    - by apply cut_bytes_Some in Ec as [_ ?].
    - by apply cut_bytes_None in Ec. }
  assert ((if bool_decide (URL_RawQuery abs = []) then [] else "?"%char :: URL_RawQuery abs) = tagged "?"%char (URL_RawQuery abs)) as ->
    by (by destruct (URL_RawQuery abs)).
  set (frag := if bool_decide (URL_Fragment abs = []) then [] else EscapedFragment abs).
  assert ((if bool_decide (URL_Fragment abs = []) then [] else "#"%char :: EscapedFragment abs) = tagged "#"%char frag) as ->.
  { unfold frag. case_bool_decide as E; [done|]. unfold EscapedFragment.
    destruct (encoded encodeFragment _ _) eqn:Ee; [|done]. pose proof (encoded_decodes encodeFragment (URL_Fragment abs) (URL_RawFragment abs)) as H.
    rewrite Ee in H. injection H as H. by rewrite <- H in E. }
  assert (is_Some (unescape_plain frag)) as Hfrag.
  { unfold frag. case_bool_decide; [by eexists|]. eexists. apply encoded_decodes. }
  clearbody frag. clear Hu.
  destruct (relative_link requestPath dirs segs (URL_RawQuery abs) frag) as (u' & Hu' & H1 & H2 & H3 & H4); [done..|].
  exists u'. split_and!; [done..|]. rewrite H4, <- Hclean. unfold packagePathRe, HasPrefix. by rewrite to_of_bytes.
Qed.
End Links.

(** ** What is served is text *)

Lemma trim_controls_suffix l : ∃ p, l = p ++ trim_controls l ∧ forallb is_ascii p = true.
Proof.
  induction l as [|c l (p & E & Hp)]; [by exists []|]. cbn [trim_controls]. destruct (_ <=? 32)%nat eqn:Hc; [|by exists []].
  exists (c :: p). split; [cbn; by f_equal|]. cbn [forallb]. rewrite Hp, andb_true_r.
  apply Nat.leb_le in Hc. apply Nat.ltb_lt. lia.
Qed.

Lemma utf8_drop p l : forallb is_ascii p = true → utf8 (p ++ l) → utf8 l.
Proof.
  induction p as [|c p IH]; [done|]. cbn. intros [Hc Hp]%andb_true_iff H. apply IH; [done|].
  by eapply (utf8_after _ H [] c).
Qed.

Lemma utf8_take l p : forallb is_ascii p = true → utf8 (l ++ p) → utf8 l.
Proof.
  induction p as [|c p IH] using rev_ind; [by rewrite app_nil_r|]. rewrite forallb_app, app_assoc.
  intros [Hp Hc]%andb_true_iff H. apply IH; [done|]. cbn in Hc. rewrite andb_true_r in Hc.
  by destruct (utf8_cut _ H (l ++ p) c []).
Qed.

Lemma normalizeLink_utf8 raw : utf8 raw → utf8 (normalizeLink raw).
Proof.
  intros H. unfold normalizeLink. apply utf8_map; [intros c Hc; destruct (Ascii.eqb c _); [by vm_compute|done]| |].
  { intros c Hc. destruct (Ascii.eqb_spec c (byte_of 92)) as [->|]; [by vm_compute in Hc|done]. }
  apply utf8_filter.
  { intros c Hc. apply (all_bytes_impl (λ c, negb (is_ascii c)) (λ c, negb (tab_or_newline c))); [by vm_compute|].
    by rewrite Hc. }
  destruct (trim_controls_suffix raw) as (p & E & Hp). rewrite E in H. apply utf8_drop in H; [|done].
  destruct (trim_controls_suffix (rev (trim_controls raw))) as (q & E' & Hq).
  apply (f_equal (@rev ascii)) in E'. rewrite rev_involutive, rev_app_distr in E'. rewrite E' in H.
  apply utf8_take in H; [done|]. apply forallb_forall. intros c Hc. rewrite forallb_forall in Hq. by apply Hq, in_rev.
Qed.

Lemma cut1_utf8 c l : is_ascii c = true → utf8 l → utf8 (cut1 c l).1 ∧ utf8 (cut1 c l).2.
Proof.
  intros Hc Hl. unfold cut1. destruct (cut_bytes c l) as [[a b]|] eqn:E; cbn; [|split; [done|constructor]].
  apply cut_bytes_Some in E as [-> _]. by apply (utf8_cut _ Hl a c b).
Qed.

Lemma escape_ascii mode l : forallb is_ascii (escape mode l) = true.
Proof.
  induction l as [|c l IH]; [done|]. rewrite escape_cons, forallb_app, IH, andb_true_r.
  apply (all_bytes (λ c, forallb is_ascii (escape_byte mode c))). destruct mode; by vm_compute.
Qed.

Lemma encoded_ascii mode decoded raw : forallb is_ascii (encoded mode decoded raw) = true.
Proof.
  unfold encoded. destruct (_ && _) eqn:E; [|apply escape_ascii]. apply andb_true_iff in E as [[_ E]%andb_true_iff _].
  revert E. apply forallb_impl. apply (all_bytes_impl (valid_byte mode) is_ascii). destruct mode; by vm_compute.
Qed.

Lemma scheme_from_rest l : ∀ seen scheme rest, scheme_from seen l = Some (scheme, rest) →
  rest = [] ∨ ∃ a, l = a ++ ":"%char :: rest.
Proof.
  induction l as [|x l IH]; intros seen scheme rest; cbn [scheme_from]; [intros [= _ <-]; by left|].
  destruct (Ascii.eqb_spec x ":"%char) as [->|_].
  - cbn. destruct seen; [done|]. intros [= _ <-]. right. by exists [].
  - repeat case_match; intros E; simplify_eq; auto;
      (destruct (IH _ _ _ E) as [?|[q ->]]; [by left|right; by exists (x :: q)]).
Qed.

Section Text.
Context (parseAuthority : bytes → option (option string * string)).

Lemma parse_url_utf8 raw u : utf8 raw → parse_url parseAuthority raw = Some u → utf8 (URL_RawQuery u).
Proof.
  intros Hraw. unfold parse_url. destruct (existsb is_ctl raw); [done|].
  case_bool_decide; [intros [= <-]; constructor|]. unfold getScheme.
  destruct (scheme_from [] raw) as [[scheme rest0]|] eqn:Hs; [|done].
  set (sr := match scheme with [] => _ | _ => _ end).
  assert (∃ s r, sr = Some (s, r) ∧ utf8 r) as (s & r & -> & Hr).
  { unfold sr. destruct scheme; [by eexists _, _|]. eexists _, _. split; [done|].
    destruct (scheme_from_rest _ _ _ _ Hs) as [->|[q ->]]; [constructor|]. by eapply utf8_after. }
  cbn [mbind option_bind].
  assert (utf8 (match strip_suffix ["?"%char] r with
      | Some rest' => if bool_decide ("?"%char ∈ rest') then (cut1 "?"%char r, false) else (rest', [], true)
      | None => (cut1 "?"%char r, false)
      end).1.2) as Hq.
  { repeat case_match; cbn; try (by apply cut1_utf8); constructor. }
  destruct (match strip_suffix _ r with Some _ => _ | None => _ end) as [[rest query] force]. cbn [fst snd] in Hq.
  repeat first [case_match|match goal with |- mbind _ ?o = Some _ → _ => destruct o as [[]|]; cbn [mbind option_bind] end];
    try done; by intros [= <-].
Qed.

Lemma resolve_utf8 requestPath raw out :
  utf8 raw → resolve parseAuthority requestPath raw = Some out → utf8 out.
Proof.
  intros Hraw%normalizeLink_utf8. unfold resolve. destruct (Parse parseAuthority _) as [u|] eqn:Hu; [|done].
  cbn [mbind option_bind]. destruct (_ || _); [done|]. destruct (negb _); [done|].
  set (abs := ResolveReference _ u). destruct (strip_prefix _ _); [|done]. intros [= <-].
  assert (utf8 (URL_RawQuery u)) as Hq.
  { unfold Parse in Hu. pose proof (cut1_utf8 "#"%char _ eq_refl Hraw) as [Hb _].
    destruct (cut1 "#" (normalizeLink raw)) as [before frag]. cbn [fst] in Hb.
    destruct (parse_url parseAuthority before) as [u0|] eqn:Hp; [|done]. cbn [mbind option_bind] in Hu.
    apply parse_url_utf8 in Hp; [|done].
    destruct frag; [by injection Hu as <-|]. destruct (set_encoded _ _) as [[]|]; [|done]. by injection Hu as <-. }
  repeat apply utf8_app.
  - apply ascii_utf8. unfold up_prefix. induction (dirDepth requestPath); [done|]. cbn [replicate concat]. by rewrite forallb_app.
  - apply ascii_utf8. unfold EscapedPath. cbn [URL_Path URL_RawPath]. rewrite (bool_decide_eq_false_2 ([] ≠ [])) by naive_solver.
    cbn [andb]. case_bool_decide; [done|]. pose proof (escape_ascii encodePath (Clean (URL_Path abs))) as H'.
    destruct (escape _ _); [done|]. cbn in *. by apply andb_true_iff in H' as [].
  - case_bool_decide; [constructor|]. constructor; [done|].
    destruct (ResolveReference_query requestPath u) as [E|E]; fold abs in E; rewrite E; [done|constructor].
  - case_bool_decide; [constructor|]. apply ascii_utf8. cbn. apply encoded_ascii.
Qed.
End Text.

(** ** JSON documents *)

Section Documents.
Context (parseAuthority : bytes → option (option string * string)).
Context (requestPath : string) (dirs : list bytes).
Hypothesis plain : plain_path requestPath dirs.

(** A file whose link, if any, is gated; a list of such files. *)
Definition gated_file (v : Raw) : Prop :=
  ∀ f link, as_map v = Some (Some f) → f !! "url" = Some link →
  ∃ s, as_string "" link = Some s ∧ leads_to_packages parseAuthority requestPath (to_bytes s).

Definition gated_list (v : Raw) : Prop := v = RNull ∨ ∃ l, v = RArr l ∧ Forall gated_file l.

Lemma as_string_esc d v : fits d v → as_string "" (esc v) = as_string "" v.
Proof. destruct v; try done. intros H. inversion H; subst. cbn. by rewrite unquote_html. Qed.

Lemma as_string_utf8 d v s : fits d v → as_string "" v = Some s → utf8 (to_bytes s).
Proof.
  intros H. destruct v; try done; [intros [= <-]; constructor|]. intros [= <-]. inversion H; subst.
  unfold unquote. rewrite to_of_bytes. by apply unquote_utf8.
Qed.

Lemma mapLink_gated raw mapped t :
  (mapLink parseAuthority requestPath raw t).1 = Some mapped → utf8 (to_bytes raw) →
  leads_to_packages parseAuthority requestPath (to_bytes mapped) ∧ utf8 (to_bytes mapped).
Proof.
  destruct t as [n dropped]. unfold mapLink. destruct (resolve _ _ _) as [out|] eqn:E; [|done]. intros [= <-] Hraw.
  rewrite to_of_bytes. split; [by eapply resolve_gated|by eapply resolve_utf8].
Qed.

Lemma map_file_gated d x f t file :
  fits d x → as_map x = Some f → (map_file parseAuthority requestPath f t).1 = Some (Some file) →
  fits d file ∧ gated_file (esc file).
Proof.
  intros Hx Hf. unfold map_file. destruct f as [f|].
  2:{ cbn. intros [= <-]. split; [constructor|]. by intros f link. }
  destruct x as [| | | | |ms]; try done. inversion Hx as [| | | | |d' ? Hms]; subst.
  assert (∀ k v, f !! k = Some v → fits d' v ∧ utf8 (to_bytes k)) as Hfits by (intros; by eapply as_map_fits).
  assert (∀ g : gmap string Raw, (∀ k v, g !! k = Some v → fits d' v ∧ utf8 (to_bytes k)) →
    (∀ v, g !! "url" = Some v → ∃ s, as_string "" (esc v) = Some s ∧ leads_to_packages parseAuthority requestPath (to_bytes s)) →
    fits (S d') (of_map g) ∧ gated_file (esc (of_map g))) as Hout.
  { intros g Hg Hurl. split; [apply of_map_fits; intros; by eapply Hg|]. intros f' link.
    rewrite as_map_of_map by (intros k [v Hv]; by eapply Hg). intros [= <-]. rewrite lookup_fmap.
    destruct (g !! "url") as [v|] eqn:E; [|done]. intros [= <-]. by apply Hurl. }
  cbn [mbind option_bind]. destruct (f !! "url") as [rawURL|] eqn:Hu.
  2:{ intros [= <-]. apply Hout; [done|]. by rewrite Hu. }
  destruct (as_string "" rawURL) as [link|] eqn:Hs; [|done]. destruct (Hfits _ _ Hu) as [Hfu _].
  pose proof (as_string_utf8 _ _ _ Hfu Hs) as Hlink. unfold bind_st.
  pose proof (λ m, mapLink_gated link m t) as Hm. destruct (mapLink _ _ link t) as [[mapped|] t']; [|done].
  destruct (Hm mapped eq_refl Hlink) as [Hgate Hutf]. cbn [fst ret_st]. destruct (String.eqb_spec mapped link) as [->|Hne]; intros [= <-].
  - apply Hout; [done|]. rewrite Hu. intros v [= <-]. exists link. by rewrite (as_string_esc d').
  - cbn [fmap option_fmap option_map of_gomap]. apply Hout.
    + intros k v. rewrite lookup_insert_Some. intros [[<- <-]|[_ Hv]]; [|by apply Hfits].
      split; [constructor; apply quote_body_ok|by apply ascii_utf8].
    + rewrite lookup_insert_eq. intros v [= <-]. exists mapped. by rewrite of_string_read.
Qed.

Lemma map_files_gated d l fs t out :
  Forall (fits d) l → mapM as_map l = Some fs → (map_files parseAuthority requestPath fs t).1 = Some out →
  Forall (λ x, fits d x ∧ gated_file (esc x)) out.
Proof.
  revert fs t out. induction l as [|x l IH]; intros fs t out Hl; cbn [mapM].
  { intros [= <-]. cbn. intros [= <-]. constructor. }
  inversion Hl as [|? ? Hx Hl']; subst. destruct (as_map x) as [f|] eqn:Hf; [|done]. cbn [mbind option_bind].
  destruct (mapM as_map l) as [fs'|] eqn:Hfs; [|done]. intros [= <-]. cbn [map_files]. unfold bind_st.
  pose proof (λ file, map_file_gated d x f t file Hx Hf) as Hfile. destruct (map_file _ _ f t) as [[file|] t1]; [|done].
  specialize (IH fs' t1). destruct (map_files _ _ fs' t1) as [[rest|] t2]; [|done]. cbn. intros [= <-].
  specialize (IH rest Hl' eq_refl eq_refl). destruct file as [file|]; [|done]. constructor; [by apply Hfile|done].
Qed.

Lemma fileList_gated d raw t out :
  fits d raw → (fileList parseAuthority requestPath raw t).1 = Some out → fits d out ∧ gated_list (esc out).
Proof.
  intros Hraw. unfold fileList. destruct raw as [| | | |l|]; try done.
  { intros [= <-]. split; [constructor|by left]. }
  cbn [as_slice]. destruct (mapM as_map l) as [fs|] eqn:Hfs; [|done]. unfold bind_st.
  inversion Hraw as [| | | |d' ? Hl|]; subst. pose proof (λ out, map_files_gated d' l fs t out Hl Hfs) as H.
  destruct (map_files _ _ fs t) as [[files|] t']; [|done]. cbn. intros [= <-]. specialize (H files eq_refl). split.
  - constructor. eapply Forall_impl; [exact H|]. by intros ? [].
  - right. eexists. split; [done|]. apply Forall_fmap. eapply Forall_impl; [exact H|]. by intros ? [].
Qed.

Lemma rewrite_key_gated d key top t top' :
  (∀ k v, top !! k = Some v → fits d v ∧ utf8 (to_bytes k)) →
  (rewrite_key parseAuthority requestPath key top t).1 = Some top' →
  (∀ k v, top' !! k = Some v → fits d v ∧ utf8 (to_bytes k)) ∧ (∀ k, k ≠ key → top' !! k = top !! k) ∧
  (∀ v, top' !! key = Some v → gated_list (esc v)).
Proof.
  intros Htop. unfold rewrite_key. destruct (top !! key) as [raw|] eqn:E.
  2:{ intros [= <-]. split_and!; [done|done|]. by rewrite E. }
  destruct (Htop _ _ E) as [Hf Hk]. unfold bind_st. pose proof (λ out, fileList_gated d raw t out Hf) as H.
  destruct (fileList _ _ raw t) as [[files|] t']; [|done]. cbn. intros [= <-]. destruct (H files eq_refl) as [Hff Hg]. split_and!.
  - intros k v. rewrite lookup_insert_Some. intros [[<- <-]|[_ Hv]]; [done|by apply Htop].
  - intros k Hne. by rewrite lookup_insert_ne.
  - rewrite lookup_insert_eq. by intros v [= <-].
Qed.

Lemma rewrite_keys_gated d keys m t m' :
  (∀ k v, m !! k = Some v → fits d v ∧ utf8 (to_bytes k)) →
  (rewrite_keys parseAuthority requestPath keys m t).1 = Some m' →
  (∀ k v, m' !! k = Some v → fits d v ∧ utf8 (to_bytes k)) ∧ (∀ k, k ∉ keys → m' !! k = m !! k) ∧
  (∀ k v, k ∈ keys → m' !! k = Some v → gated_list (esc v)).
Proof.
  revert m t. induction keys as [|key keys IH]; intros m t Hm; cbn [rewrite_keys].
  { intros [= <-]. split_and!; [done|done|]. by intros k v ?%elem_of_nil. }
  unfold bind_st. pose proof (λ m1, rewrite_key_gated d key m t m1 Hm) as H.
  destruct (rewrite_key _ _ key m t) as [[m1|] t1]; [|done]. destruct (H m1 eq_refl) as (Hm1 & Hne & Hkey).
  intros Hrest. destruct (IH m1 t1 Hm1 Hrest) as (H1 & H2 & H3). split_and!; [done|..].
  - intros k [Hk Hks]%not_elem_of_cons. by rewrite H2, Hne.
  - intros k v Hk Hv. destruct (decide (k ∈ keys)) as [|Hks]; [by eapply H3|]. rewrite H2 in Hv by done.
    apply elem_of_cons in Hk as [->|]; [by apply Hkey|done].
Qed.

(** What a page served as JSON reads as: every link in it is gated. *)
Definition simple_gated (body : bytes) : Prop :=
  ∃ w, parse body = Some w ∧ ∀ top, as_map w = Some (Some top) → ∀ v, top !! "files" = Some v → gated_list v.

Definition api_gated (body : bytes) : Prop :=
  ∃ w, parse body = Some w ∧ ∀ top, as_map w = Some (Some top) →
    (∀ v, top !! "urls" = Some v → gated_list v) ∧
    (∀ releases k v, sub_map "releases" top = Some releases → releases !! k = Some v → gated_list v).

(** A document that is printed again reads as its values did. *)
Lemma printed_map top d :
  maxNestingDepth = S d → (∀ k v, top !! k = Some v → fits d v ∧ utf8 (to_bytes k)) →
  ∃ w, parse (print (of_map top)) = Some w ∧ as_map w = Some (Some (esc <$> top)).
Proof.
  intros Hd Htop. exists (esc (of_map top)). split.
  - apply parse_print. rewrite Hd. apply of_map_fits. intros k v Hk. by eapply Htop.
  - apply as_map_of_map. intros k [v Hk]. by eapply Htop.
Qed.

Lemma jsonSimple_gated doc t body :
  (jsonSimple parseAuthority requestPath doc t).1 = Some body → simple_gated body.
Proof.
  unfold jsonSimple. destruct (v ← parse doc; as_map v) as [[top|]|] eqn:Hdoc; [| |done].
  2:{ intros [= <-]. exists RNull. by split; [vm_compute|]. }
  unfold bind_st. destruct depth_two as [d Hd].
  assert (doc_map doc = Some top) as Hm.
  { unfold doc_map. destruct (parse doc); [|done]. cbn [mbind option_bind] in *. by rewrite Hdoc. }
  pose proof (λ k v, doc_map_fits doc top _ k v Hm Hd) as Htop.
  pose proof (λ top', rewrite_key_gated (S d) "files" top t top' Htop) as H.
  destruct (rewrite_key _ _ _ top t) as [[top'|] t']; [|done]. destruct (H top' eq_refl) as (Htop' & _ & Hg).
  intros [= <-]. destruct (printed_map top' (S d) Hd Htop') as (w & Hw & Has). exists w. split; [done|].
  rewrite Has. intros top0 [= <-] v. rewrite lookup_fmap. destruct (top' !! "files") as [x|]; [|done].
  intros [= <-]. by apply Hg.
Qed.

Section Api.
Context (range : list string → list string).
Hypothesis range_ok : ∀ l, range l ≡ₚ l.

Lemma rewrite_releases_gated top t top' d :
  (∀ k v, top !! k = Some v → fits (S d) v ∧ utf8 (to_bytes k)) →
  (rewrite_releases parseAuthority range requestPath top t).1 = Some top' →
  (∀ k v, top' !! k = Some v → fits (S d) v ∧ utf8 (to_bytes k)) ∧ (∀ k, k ≠ "releases" → top' !! k = top !! k) ∧
  ∀ releases k v, sub_map "releases" (esc <$> top') = Some releases → releases !! k = Some v → gated_list v.
Proof.
  intros Htop. unfold rewrite_releases. destruct (top !! "releases") as [raw|] eqn:E.
  2:{ intros [= <-]. split_and!; [done|done|]. intros rs k v. unfold sub_map. by rewrite lookup_fmap, E. }
  destruct (Htop _ _ E) as [Hraw Hk]. destruct (as_map raw) as [[rs|]|] eqn:Hm; [| |done].
  - assert (∀ k v, rs !! k = Some v → fits d v ∧ utf8 (to_bytes k)) as Hrs.
    { intros k v Hv. destruct raw; try done. by eapply as_map_fits. }
    unfold bind_st. pose proof (λ rs', rewrite_keys_gated d (range (map_to_list rs).*1) rs t rs' Hrs) as H.
    destruct (rewrite_keys _ _ _ rs t) as [[rs'|] t']; [|done]. destruct (H rs' eq_refl) as (Hfit & Hout & Hg). clear H.
    intros [= <-]. split_and!.
    + intros k v. rewrite lookup_insert_Some. intros [[<- <-]|[_ Hv]]; [|by apply Htop].
      split; [|done]. apply of_map_fits. intros. by eapply Hfit.
    + intros k Hne. by rewrite lookup_insert_ne.
    + intros rs0 k v. rewrite (sub_map_printed _ _ rs') by (first [apply lookup_insert_eq|intros ? [? ?]; by eapply Hfit]).
      intros [= <-]. rewrite lookup_fmap. destruct (rs' !! k) as [x|] eqn:Hx; [|done]. intros [= <-]. apply (Hg k); [|done].
      rewrite range_ok. destruct (decide (k ∈ (map_to_list rs).*1)) as [|Hn]; [done|]. exfalso.
      rewrite <- (range_ok (map_to_list rs).*1) in Hn. pose proof Hx as Hx'. rewrite Hout in Hx' by done.
      apply Hn. rewrite range_ok. apply list_elem_of_fmap. exists (k, x). split; [done|]. by apply elem_of_map_to_list.
  - intros [= <-]. split_and!.
    + intros k v. rewrite lookup_insert_Some. intros [[<- <-]|[_ Hv]]; [|by apply Htop]. split; [constructor|done].
    + intros k Hne. by rewrite lookup_insert_ne.
    + intros rs k v. unfold sub_map. by rewrite lookup_fmap, lookup_insert_eq.
Qed.

Lemma jsonAPI_gated doc t body :
  (jsonAPI parseAuthority range requestPath doc t).1 = Some body → api_gated body.
Proof.
  unfold jsonAPI. destruct (v ← parse doc; as_map v) as [[top|]|] eqn:Hdoc; [| |done].
  2:{ intros [= <-]. exists RNull. by split; [vm_compute|]. }
  unfold bind_st. destruct depth_two as [d Hd].
  assert (doc_map doc = Some top) as Hm.
  { unfold doc_map. destruct (parse doc); [|done]. cbn [mbind option_bind] in *. by rewrite Hdoc. }
  pose proof (λ k v, doc_map_fits doc top _ k v Hm Hd) as Htop.
  pose proof (λ top', rewrite_key_gated (S d) "urls" top t top' Htop) as H.
  destruct (rewrite_key _ _ _ top t) as [[top1|] t1]; [|done]. destruct (H top1 eq_refl) as (Htop1 & _ & Hurls). clear H.
  pose proof (λ top', rewrite_releases_gated top1 t1 top' d Htop1) as H.
  destruct (rewrite_releases _ _ _ top1 t1) as [[top2|] t2]; [|done]. destruct (H top2 eq_refl) as (Htop2 & Hne & Hrel). clear H.
  intros [= <-]. destruct (printed_map top2 (S d) Hd Htop2) as (w & Hw & Has). exists w. split; [done|].
  rewrite Has. intros top0 [= <-]. split; [|done]. intros v. rewrite lookup_fmap, Hne by done.
  destruct (top1 !! "urls") as [x|]; [|done]. intros [= <-]. by apply Hurls.
Qed.
End Api.

(** ** HTML pages *)

Definition href_gated (attr : Attribute) : Prop :=
  at_Namespace attr = "" → at_Key attr = "href" → leads_to_packages parseAuthority requestPath (to_bytes (at_Val attr)).

(** What a token becomes: an anchor goes, or has only gated links; a base goes;
    the rest is copied. *)
Definition token_gated (token_String : bool → string → list Attribute → bytes) (t : Token) (part : bytes) : Prop :=
  match t with
  | TOther raw => part = raw
  | TTag raw selfClosing data attrs =>
      if data =s? "base" then part = []
      else if data =s? "a" then part = [] ∨ ∃ attrs', part = token_String selfClosing data attrs' ∧ Forall href_gated attrs'
      else part = raw
  end.

Lemma map_hrefs_gated attrs t attrs' :
  (map_hrefs parseAuthority requestPath attrs t).1 = (attrs', true) → Forall href_gated attrs'.
Proof using plain.
  revert t attrs'. induction attrs as [|attr attrs IH]; intros t attrs'; cbn [map_hrefs].
  { intros [= <-]. constructor. }
  destruct (negb (at_Namespace attr =s? "") || negb (at_Key attr =s? "href")) eqn:Ha; unfold bind_st.
  - specialize (IH t). destruct (map_hrefs _ _ attrs t) as [[rest ok] t']. cbn. intros [= <- ->]. constructor; [|by apply IH].
    intros H1 H2. rewrite H1, H2 in Ha. done.
  - destruct (mapLink _ _ _ t) as [mapped t1] eqn:Em. specialize (IH t1).
    destruct (map_hrefs _ _ attrs t1) as [[rest ok] t']. destruct mapped as [link|]; cbn; [|done]. intros [= <- ->].
    constructor; [|by apply IH]. intros _ _. cbn. destruct t as [n dropped]. unfold mapLink in Em.
    destruct (resolve _ _ _) as [out|] eqn:E; [|done]. injection Em as <- _. rewrite to_of_bytes. by eapply resolve_gated.
Qed.

Lemma html_gated tokenize token_String doc t body :
  (html parseAuthority tokenize token_String requestPath doc t).1 = Some body →
  ∃ ts parts, tokenize doc = Some ts ∧ Forall2 (token_gated token_String) ts parts ∧ body = concat parts.
Proof.
  unfold html. destruct (tokenize doc) as [ts|]; [|done]. unfold bind_st.
  assert (∀ t, ∃ parts, Forall2 (token_gated token_String) ts parts ∧
    (html_tokens parseAuthority token_String requestPath ts t).1 = concat parts) as H.
  { induction ts as [|tok ts IH]; intros t0; [exists []; by split; [constructor|]|]. cbn [html_tokens]. unfold bind_st.
    assert (token_gated token_String tok (html_token parseAuthority token_String requestPath tok t0).1) as Htok.
    { destruct tok as [raw|raw sc data attrs]; [done|]. cbn [html_token token_gated].
      destruct (data =s? "base"); [done|]. destruct (data =s? "a"); [|done]. unfold bind_st.
      pose proof (λ attrs', map_hrefs_gated attrs t0 attrs') as Hm.
      destruct (map_hrefs _ _ attrs t0) as [[attrs' ok] t1]. destruct ok; cbn; [right|by left].
      exists attrs'. split; [done|by apply Hm]. }
    destruct (html_token _ _ _ tok t0) as [part t1]. destruct (IH t1) as (parts & Hp & E).
    destruct (html_tokens _ _ _ ts t1) as [rest t2]. exists (part :: parts). split; [by constructor|]. cbn in *. by subst. }
  destruct (H t) as (parts & Hp & E). destruct (html_tokens _ _ _ ts t) as [out t']. cbn in *. intros [= <-].
  by exists ts, parts.
Qed.
End Documents.

(** ** What a page is *)

Definition path_word (w : string) : Prop := w ≠ "" ∧ "/"%char ∉ to_bytes w.

(** The paths of the JSON API: a project, or one release of it. *)
Inductive json_api_path : string → Prop :=
| api_project project slash : path_word project → slash ∈ [""; "/"] →
    json_api_path ("/pypi/" +:+ project +:+ "/json" +:+ slash)
| api_release project version slash : path_word project → path_word version → slash ∈ [""; "/"] →
    json_api_path ("/pypi/" +:+ project +:+ "/" +:+ version +:+ "/json" +:+ slash).

Lemma split_segments (segs : list string) path :
  segs ≠ [] → Forall (λ w, "/"%char ∉ to_bytes w) segs → to_bytes path = join_bytes "/"%char (to_bytes <$> segs) →
  Split path "/"%char = segs.
Proof.
  intros Hne Hs E. unfold Split. rewrite E, split_join; [|by destruct segs|by apply Forall_fmap].
  rewrite <- list_fmap_compose. rewrite <- (list_fmap_id segs) at 2. apply list_fmap_ext. intros i w _. apply of_to_bytes.
Qed.

Lemma segments_of path : ∃ segs, Split path "/"%char = segs ∧ Forall (λ w, "/"%char ∉ to_bytes w) segs ∧
  to_bytes path = join_bytes "/"%char (to_bytes <$> segs).
Proof.
  eexists. split; [done|]. unfold Split. split.
  - apply Forall_fmap, Forall_forall. intros w Hw. cbn. rewrite to_of_bytes. by eapply split_no_sep.
  - rewrite <- list_fmap_compose, <- (join_split "/"%char (to_bytes path)) at 1. f_equal.
    rewrite <- (list_fmap_id (split_bytes _ _)) at 1. apply list_fmap_ext. intros i w _. cbn. by rewrite to_of_bytes.
Qed.

Lemma pypiJSONAPIRe_spec path : pypiJSONAPIRe path = true ↔ json_api_path path.
Proof.
  unfold pypiJSONAPIRe. split.
  - destruct (segments_of path) as (segs & -> & Hs & E). destruct segs as [|root [|pypi rest]]; [done..|].
    rewrite !andb_true_iff. intros [[->%String.eqb_eq ->%String.eqb_eq] H].
    inversion Hs as [|? ? _ Hs1]; subst. inversion Hs1 as [|? ? _ Hrest]; subst. clear Hs Hs1.
    assert (∃ slash l, (slash = "" ∧ rest = rev l ∨ slash = "/" ∧ rest = rev l ++ [""]) ∧
      match l with
      | [json; project] => (json =s? "json") && negb (project =s? "")
      | [json; version; project] => (json =s? "json") && negb (version =s? "") && negb (project =s? "")
      | _ => false
      end = true) as (slash & l & Hl & Hm).
    { destruct (rev rest) as [|last r] eqn:Er; [by destruct rest; cbn in *|].
      apply (f_equal (@rev string)) in Er. rewrite rev_involutive in Er. destruct (String.eqb_spec last "") as [->|_].
      - exists "/", r. split; [right; by rewrite Er|exact H].
      - exists "", (last :: r). split; [by left|exact H]. }
    clear H. assert (slash ∈ [""; "/"]) as Hslash by (destruct Hl as [[-> _]|[-> _]]; repeat constructor).
    destruct l as [|json [|x [|y [|]]]]; try done; rewrite !andb_true_iff, ?negb_true_iff, ?String.eqb_neq in Hm.
    + destruct Hm as [->%String.eqb_eq Hx]. replace path with ("/pypi/" +:+ x +:+ "/json" +:+ slash).
      * constructor; [|done]. split; [done|]. destruct Hl as [[_ ->]|[_ ->]]; by inversion Hrest.
      * apply to_bytes_inj. rewrite E, !to_bytes_app. by destruct Hl as [[-> ->]|[-> ->]].
    + destruct Hm as [[->%String.eqb_eq Hx] Hy]. replace path with ("/pypi/" +:+ y +:+ "/" +:+ x +:+ "/json" +:+ slash).
      * assert ("/"%char ∉ to_bytes y ∧ "/"%char ∉ to_bytes x) as [Hy' Hx'].
        { destruct Hl as [[_ ->]|[_ ->]]; inversion Hrest as [|? ? H1 H2]; subst; inversion H2; by subst. }
        by constructor.
      * apply to_bytes_inj. rewrite E, !to_bytes_app. by destruct Hl as [[-> ->]|[-> ->]].
  - assert (∀ w, path_word w → (w =s? "") = false) as Hw by (intros w [H _]; by apply String.eqb_neq).
    intros H. destruct H as [project slash Hp Hs|project version slash Hp Hv Hs].
    all: rewrite !elem_of_cons, elem_of_nil in Hs; destruct Hs as [->|[->|[]]].
    + rewrite (split_segments [""; "pypi"; project; "json"]); [cbn; by rewrite Hw|done| |by rewrite !to_bytes_app].
      destruct Hp as [_ Hp]. repeat constructor; try done; by apply (bool_decide_unpack _); vm_compute.
    + rewrite (split_segments [""; "pypi"; project; "json"; ""]); [cbn; by rewrite Hw|done| |by rewrite !to_bytes_app].
      destruct Hp as [_ Hp]. repeat constructor; try done; by apply (bool_decide_unpack _); vm_compute.
    + rewrite (split_segments [""; "pypi"; project; version; "json"]); [cbn; by rewrite !Hw|done| |by rewrite !to_bytes_app].
      destruct Hp as [_ Hp], Hv as [_ Hv]. repeat constructor; try done; by apply (bool_decide_unpack _); vm_compute.
    + rewrite (split_segments [""; "pypi"; project; version; "json"; ""]); [cbn; by rewrite !Hw|done| |by rewrite !to_bytes_app].
      destruct Hp as [_ Hp], Hv as [_ Hv]. repeat constructor; try done; by apply (bool_decide_unpack _); vm_compute.
Qed.

Section Kinds.
Context (ParseMediaType : string → option string).

(** The media type a page names, in lower case; none is the empty word. *)
Definition names_type (contentType mt : string) : Prop :=
  contentType = "" ∧ mt = "" ∨
  contentType ≠ "" ∧ ∃ parsed, ParseMediaType contentType = Some parsed ∧ mt = ToLower parsed.

Definition is_html (contentType : string) : Prop :=
  ∃ mt, names_type contentType mt ∧ mt ∈ [""; "text/html"; "application/vnd.pypi.simple.v1+html"].

Definition is_json (contentType : string) : Prop :=
  ∃ mt, names_type contentType mt ∧ (mt = "application/json" ∨ to_bytes "+json" `suffix_of` to_bytes mt).

Lemma names_type_fun contentType mt :
  names_type contentType mt ↔ (if contentType =s? "" then Some "" else ToLower <$> ParseMediaType contentType) = Some mt.
Proof.
  unfold names_type. destruct (String.eqb_spec contentType "") as [->|Hne]; [naive_solver|].
  rewrite fmap_Some. naive_solver.
Qed.

Lemma html_not_json contentType : is_html contentType → ¬ is_json contentType.
Proof.
  intros (mt & H%names_type_fun & Hin) (mt' & H'%names_type_fun & Hj). rewrite H in H'. injection H' as <-.
  rewrite <- suffix_bytes in Hj. rewrite !elem_of_cons, elem_of_nil in Hin.
  destruct Hin as [->|[->|[->|[]]]]; by destruct Hj.
Qed.

Lemma indexKind_spec contentType requestPath kind :
  indexKind ParseMediaType contentType requestPath = Some kind →
  match kind with
  | kindJSONAPI => json_api_path requestPath
  | kindHTML => ¬ json_api_path requestPath ∧ is_html contentType
  | kindJSONSimple => ¬ json_api_path requestPath ∧ is_json contentType ∧ ¬ is_html contentType
  end.
Proof.
  unfold indexKind. pose proof (pypiJSONAPIRe_spec requestPath) as Hapi.
  destruct (pypiJSONAPIRe requestPath); [intros [= <-]; by apply Hapi|].
  assert (¬ json_api_path requestPath) as Hno by (by intros ?%Hapi).
  destruct (if contentType =s? "" then _ else _) as [mt|] eqn:Hmt; [|done]. cbn [mbind option_bind].
  apply names_type_fun in Hmt. destruct ((mt =s? "") || _ || _) eqn:Hh.
  - intros [= <-]. split; [done|]. exists mt. split; [done|]. rewrite !orb_true_iff, !String.eqb_eq in Hh.
    rewrite !elem_of_cons. tauto.
  - destruct ((mt =s? "application/json") || _) eqn:Hj; [|done]. intros [= <-]. split; [done|]. split.
    + exists mt. split; [done|]. rewrite orb_true_iff, String.eqb_eq, suffix_bytes in Hj. exact Hj.
    + intros (mt' & Hmt' & Hin). apply names_type_fun in Hmt, Hmt'. rewrite Hmt in Hmt'. injection Hmt' as <-.
      rewrite !orb_false_iff, !String.eqb_neq in Hh. rewrite !elem_of_cons, elem_of_nil in Hin. tauto.
Qed.
End Kinds.

(** C16: An index page asked for at a plain path reaches a client rewritten or
    not at all, and whatever the registry wrote in it, each link it then has
    leads to the proxy's own /packages/ route, where the artifact gates are:
    each file of a page of the JSON API, project or release; each file of any
    other page that names a JSON type; each href of an anchor in a page that
    names an HTML type or none, whose base elements are gone.  A page of
    another type is not served. *)
Theorem pypi_index_gated parseAuthority ParseMediaType tokenize token_String range requestPath dirs doc contentType ir :
  plain_path requestPath dirs → (∀ l, range l ≡ₚ l) →
  pypi_RewriteIndex parseAuthority ParseMediaType tokenize token_String range doc contentType requestPath = Some ir →
  (json_api_path requestPath → api_gated parseAuthority requestPath (ir_Body ir)) ∧
  (¬ json_api_path requestPath → is_json ParseMediaType contentType → simple_gated parseAuthority requestPath (ir_Body ir)) ∧
  (¬ json_api_path requestPath → is_html ParseMediaType contentType → ∃ ts parts, tokenize doc = Some ts ∧
     Forall2 (token_gated parseAuthority requestPath token_String) ts parts ∧ ir_Body ir = concat parts) ∧
  (json_api_path requestPath ∨ is_json ParseMediaType contentType ∨ is_html ParseMediaType contentType).
Proof.
  intros Hplain Hrange. unfold pypi_RewriteIndex.
  destruct (indexKind _ _ _) as [kind|] eqn:Hk; [|done]; cbn [mbind option_bind]. apply indexKind_spec in Hk.
  destruct kind.
  - pose proof (html_gated parseAuthority requestPath dirs Hplain tokenize token_String doc (0, [])) as H.
    destruct (html _ _ _ _ _ _) as [[body|] [n dropped]]; [|done]. intros [= <-]. destruct Hk as [Hn Hh].
    split_and!; [done| |intros _ _; by apply H|by right; right].
    intros _ Hj. by destruct (html_not_json ParseMediaType contentType).
  - pose proof (jsonSimple_gated parseAuthority requestPath dirs Hplain doc (0, [])) as H.
    destruct (jsonSimple _ _ _ _) as [[body|] [n dropped]]; [|done]. intros [= <-]. destruct Hk as (Hn & Hj & Hh).
    split_and!; [done|intros _ _; by apply H|done|by right; left].
  - pose proof (jsonAPI_gated parseAuthority requestPath dirs Hplain range Hrange doc (0, [])) as H.
    destruct (jsonAPI _ _ _ _ _) as [[body|] [n dropped]]; [|done]. intros [= <-].
    split_and!; [intros _; by apply H|done|done|by left].
Qed.

(** The mux cleans the escaped path, so "/pypi/simple/x/%2F/" reaches the
    adapter with two empty directories, which dirDepth does not count: the
    link it writes leads under /simple/, not to /packages/. *)
Example ex_escaped_slash :
  dirDepth "/simple/x///" = 2%nat ∧
  URL_Path (ResolveReference (document_URL "/simple/x///")
    (mkParsed [] [] None "" (to_bytes "../../packages/ab/x-1.tar.gz") [] false [] [] [])) =
  to_bytes "/simple/x/packages/ab/x-1.tar.gz".
Proof. by vm_compute. Qed.

(** ** A project page *)

Definition ex_authority (a : bytes) : option (option string * string) := Some (None, of_bytes a).

Definition ex_page : bytes := text
  "{'name':'requests', 'files':[
     {'filename':'requests-2.0.tar.gz', 'url':'https://files.pythonhosted.org/packages/ab/requests-2.0.tar.gz#sha256=1'},
     {'filename':'requests-9.tar.gz', 'url':'https://elsewhere.example/packages/../evil/requests-9.tar.gz'},
     {'filename':'no-link'}]}".

Lemma pypi_index_gated_witness :
  plain_path "/simple/requests/" [to_bytes "simple"; to_bytes "requests"] ∧
  ∃ ir, pypi_RewriteIndex ex_authority Some (fun _ => None) (fun _ _ _ => []) id ex_page
          "application/vnd.pypi.simple.v1+json" "/simple/requests/" = Some ir ∧
    ir_Rewritten ir = 1 ∧ ir_Dropped ir = ["https://elsewhere.example/packages/../evil/requests-9.tar.gz"] ∧
    ir_Body ir = text ("{'files':[{'filename':'requests-2.0.tar.gz','url':'../../packages/ab/requests-2.0.tar.gz#sha256=1'}," +:+
                       "{'filename':'no-link'}],'name':'requests'}") ∧
    simple_gated ex_authority "/simple/requests/" (ir_Body ir).
Proof.
  assert (plain_path "/simple/requests/" [to_bytes "simple"; to_bytes "requests"]) as Hp.
  { split; [done|]. split; [|exists []; split; [apply not_elem_of_nil|done]].
    repeat constructor; try done; by apply (bool_decide_unpack _); vm_compute. }
  split; [exact Hp|].
  destruct (pypi_RewriteIndex ex_authority Some (fun _ => None) (fun _ _ _ => []) id ex_page
              "application/vnd.pypi.simple.v1+json" "/simple/requests/") as [ir|] eqn:E; [|by vm_compute in E].
  exists ir. split; [done|].
  pose proof (pypi_index_gated ex_authority Some (fun _ => None) (fun _ _ _ => []) id _ _ ex_page
    "application/vnd.pypi.simple.v1+json" ir Hp (fun l => reflexivity l) E) as (_ & H & _).
  vm_compute in E. injection E as <-. split; [done|]. split; [done|]. split; [vm_compute; done|]. apply H.
  - intros H'%pypiJSONAPIRe_spec. by vm_compute in H'.
  - exists "application/vnd.pypi.simple.v1+json". split; [right; split; [done|by eexists]|]. right.
    exists (to_bytes "application/vnd.pypi.simple.v1"). reflexivity.
Defined.

(** ** The file that is dated *)

Definition asked (classifier : string) (f : pypiFile) : Prop := classifier = "" ∨ pf_Filename f = classifier.

(** The date is that of a file asked for, and no file asked for is newer. *)
Lemma newest_upload_spec std classifier files found t :
  newest_upload std classifier files found = Ok (Some t) →
  (∀ f, f ∈ files → asked classifier f → ∃ u, parsePyPIUploadTime std (pf_UploadTimeISO f) = Ok u ∧ u ≤ t) ∧
  (∀ p, found = Some p → p ≤ t) ∧
  (found = Some t ∨ ∃ f, f ∈ files ∧ asked classifier f ∧ parsePyPIUploadTime std (pf_UploadTimeISO f) = Ok t).
Proof.
  revert found. induction files as [|f files IH]; intros found; cbn [newest_upload].
  { intros [= ->]. split_and!; [by intros f ?%elem_of_nil|by intros p [= ->]|by left]. }
  destruct (negb (classifier =s? "") && negb (pf_Filename f =s? classifier)) eqn:Hskip.
  - intros (H1 & H2 & H3)%IH. split_and!; [|done|].
    + intros g [->|Hg]%elem_of_cons Ha; [|by apply H1]. exfalso. apply andb_true_iff in Hskip as [Hc Hn].
      destruct (String.eqb_spec classifier ""), (String.eqb_spec (pf_Filename f) classifier); try done. by destruct Ha.
    + destruct H3 as [|(g & Hg & Ha & Ht)]; [by left|right; exists g; split_and!; [by right|done|done]].
  - assert (asked classifier f) as Hf.
    { unfold asked. destruct (String.eqb_spec classifier ""), (String.eqb_spec (pf_Filename f) classifier); auto; done. }
    destruct (parsePyPIUploadTime std (pf_UploadTimeISO f)) as [u|e] eqn:Hu; [|done].
    set (newer := match found with Some p => _ | None => u end).
    assert (u ≤ newer ∧ (∀ p, found = Some p → p ≤ newer) ∧ (found = Some newer ∨ newer = u)) as (Hle & Hp & Hor).
    { unfold newer. destruct found as [p|]; [|split_and!; [lia|done|by right]]. unfold time_after.
      destruct (Z.ltb_spec p u); split_and!; auto; try lia; by intros ? [= <-]; lia. }
    intros (H1 & H2 & H3)%IH. specialize (H2 newer eq_refl). split_and!.
    + intros g [->|Hg]%elem_of_cons Ha; [|by apply H1]. exists u. split; [done|lia].
    + intros p Hp'%Hp. lia.
    + destruct H3 as [[= ->]|(g & Hg & Ha & Ht)].
      * destruct Hor as [|E]; [by left|]. right. exists f. split_and!; [by left|done|congruence].
      * right. exists g. split_and!; [by right|done|done].
Qed.
