(* ===== verification/Health.v ===== *)
(** * Package health: the monitor of the scan engines (health.go)

    What a probe's outcome means, and what the console is shown: engines that
    are probed on a timer, engines that report their own last outcome, engines
    that are off.  A probe, its timer and the clock are steps of a run; the lock
    is held for one step at a time. *)
From S2P Require Import Prelude GoStd.
Local Open Scope Z_scope.

Inductive Status := StatusHealthOK | StatusWarn | StatusDown | StatusUnknown | StatusOff.

#[export] Instance Status_eq_dec : EqDecision Status.
Proof. solve_decision. Defined.

Record Sample := mkSample {
  sm_OK : bool;
  sm_Latency : Z;
  sm_HasData : bool;
}.

Record ScannerHealth := mkScannerHealth {
  sh_Name : string;
  sh_Detail : string;
  sh_Enabled : bool;
  sh_Status : Status;
  sh_LatencyMS : Z;
  sh_Passive : bool;
}.

(** Duration.Milliseconds *)
Definition Milliseconds (d : Z) : Z := Z.quot d Millisecond.

Definition classify (s : Sample) (slow : Z) : Status * Z :=
  if negb (sm_HasData s) then (StatusUnknown, 0)
  else if negb (sm_OK s) then (StatusDown, 0)
  else
    let ms := Milliseconds (sm_Latency s) in
    if (0 <? slow) && (slow <? sm_Latency s) then (StatusWarn, ms) else (StatusHealthOK, ms).

Definition defaultInterval : Z := 30 * Second.
Definition maxProbeTimeout : Z := 10 * Second.

Inductive entryKind := kindActive | kindPassive | kindDisabled.

#[export] Instance entryKind_eq_dec : EqDecision entryKind.
Proof. solve_decision. Defined.

(** The probe or the reporter of an entry is named by its place. *)
Record entry := mkEntry {
  en_meta : ScannerHealth;
  en_kind : entryKind;
  en_sample : option Sample;
}.

Record Monitor := mkMonitor {
  mo_interval : Z;
  mo_slow : Z;
  mo_entries : list entry;
  mo_started : bool;
  mo_stopped : bool;
}.

Definition NewMonitor (interval slow : Z) : Monitor :=
  mkMonitor (if interval <=? 0 then defaultInterval else interval) (if slow <? 0 then 0 else slow) [] false false.

(** Add* panics once the monitor is started. *)
Definition add_entry (meta : ScannerHealth) (kind : entryKind) (m : Monitor) : option Monitor :=
  if mo_started m then None
  else Some (mkMonitor (mo_interval m) (mo_slow m) (mo_entries m ++ [mkEntry meta kind None]) false (mo_stopped m)).

Definition AddActive (name detail : string) (enabled : bool) : Monitor -> option Monitor :=
  add_entry (mkScannerHealth name detail enabled StatusUnknown 0 false) kindActive.
Definition AddPassive (name detail : string) (enabled : bool) : Monitor -> option Monitor :=
  add_entry (mkScannerHealth name detail enabled StatusUnknown 0 true) kindPassive.
Definition AddDisabled (name detail : string) : Monitor -> option Monitor :=
  add_entry (mkScannerHealth name detail false StatusUnknown 0 false) kindDisabled.

Definition Start (m : Monitor) : Monitor :=
  mkMonitor (mo_interval m) (mo_slow m) (mo_entries m) true (mo_stopped m).

Definition Monitor_Close (m : Monitor) : Monitor :=
  mkMonitor (mo_interval m) (mo_slow m) (mo_entries m) (mo_started m) true.

Definition probeTimeout (m : Monitor) : Z := if mo_interval m <? maxProbeTimeout then mo_interval m else maxProbeTimeout.

(** One probe of the loop: entry [i] was asked, with the outcome after so long. *)
Definition probe_entry (i : nat) (ok : bool) (latency : Z) (m : Monitor) : Monitor :=
  match mo_entries m !! i with
  | Some e =>
      if decide (en_kind e = kindActive)
      then mkMonitor (mo_interval m) (mo_slow m)
             (<[ i := mkEntry (en_meta e) (en_kind e) (Some (mkSample ok latency true)) ]> (mo_entries m))
             (mo_started m) (mo_stopped m)
      else m
  | None => m
  end.

(** The loop's round: every entry in order, with what each probe comes to. *)
Definition probeAll (outcomes : nat -> bool * Z) (m : Monitor) : Monitor :=
  foldl (fun m i => probe_entry i (outcomes i).1 (outcomes i).2 m) m (seq 0 (length (mo_entries m))).

Definition with_status (meta : ScannerHealth) (s : Status * Z) : ScannerHealth :=
  mkScannerHealth (sh_Name meta) (sh_Detail meta) (sh_Enabled meta) s.1 s.2 (sh_Passive meta).

Definition snapshot_entry (slow : Z) (report : nat -> Sample) (i : nat) (e : entry) : ScannerHealth :=
  with_status (en_meta e)
    (match en_kind e with
     | kindDisabled => (StatusOff, 0)
     | kindPassive => classify (report i) slow
     | kindActive => match en_sample e with None => (StatusUnknown, 0) | Some s => classify s slow end
     end).

(** What the passive engines report is asked for at the time. *)
Definition Snapshot (report : nat -> Sample) (m : Monitor) : list ScannerHealth :=
  imap (snapshot_entry (mo_slow m) report) (mo_entries m).

(** ** Runs *)

Inductive monitor_op :=
| OpProbe (i : nat) (ok : bool) (latency : Z)
| OpStart
| OpClose.

Definition monitor_step (m : Monitor) (op : monitor_op) : Monitor :=
  match op with
  | OpProbe i ok latency => probe_entry i ok latency m
  | OpStart => Start m
  | OpClose => Monitor_Close m
  end.

(** The last sample a run takes of an entry. *)
Definition last_sample (i : nat) (s : option Sample) (ops : list monitor_op) : option Sample :=
  foldl (fun s op => match op with
                     | OpProbe j ok latency => if (i =? j)%nat then Some (mkSample ok latency true) else s
                     | _ => s
                     end) s ops.

Lemma probe_entry_lookup i j ok latency m e :
  mo_entries m !! j = Some e →
  mo_entries (probe_entry i ok latency m) !! j =
    Some (if (j =? i)%nat && bool_decide (en_kind e = kindActive)
          then mkEntry (en_meta e) (en_kind e) (Some (mkSample ok latency true)) else e).
Proof.
  intros He. unfold probe_entry. destruct (mo_entries m !! i) as [e'|] eqn:Hi.
  - destruct (Nat.eqb_spec j i) as [->|Hne].
    + rewrite He in Hi. injection Hi as <-. case_decide; cbn; [|by rewrite bool_decide_eq_false_2].
      rewrite bool_decide_eq_true_2 by done. apply list_lookup_insert_eq. by eapply lookup_lt_Some.
    + case_decide; cbn; [|done]. by rewrite list_lookup_insert_ne by done.
  - destruct (Nat.eqb_spec j i) as [->|Hne]; [congruence|done].
Qed.

Lemma probe_entry_slow i ok latency m :
  mo_slow (probe_entry i ok latency m) = mo_slow m ∧ length (mo_entries (probe_entry i ok latency m)) = length (mo_entries m).
Proof. unfold probe_entry. repeat case_match; cbn; by rewrite ?length_insert. Qed.

Lemma monitor_run_lookup ops m i e :
  mo_entries m !! i = Some e →
  mo_entries (foldl monitor_step m ops) !! i =
    Some (mkEntry (en_meta e) (en_kind e) (match en_kind e with kindActive => last_sample i (en_sample e) ops | _ => en_sample e end)) ∧
  mo_slow (foldl monitor_step m ops) = mo_slow m.
Proof.
  revert m e. induction ops as [|op ops IH]; intros m e He; cbn [foldl].
  { destruct e as [meta kind s]. cbn. split; [|done]. by destruct kind. }
  destruct op as [j ok latency| |]; cbn [monitor_step]; [|by apply (IH (Start m))|by apply (IH (Monitor_Close m))].
  pose proof (probe_entry_lookup j i ok latency m e He) as Hp. destruct (IH _ _ Hp) as [H1 H2]. rewrite H1, H2.
  split; [|apply probe_entry_slow]. unfold last_sample. cbn [foldl]. destruct (i =? j)%nat; [|done].
  destruct e as [meta kind s]. cbn. by destruct kind.
Qed.

(** Whatever is probed, in whatever order, before and after starting and
    closing: an engine's row stays where and what it was registered as, and
    its status is that of the last probe that came back, unknown when none
    has; of what it reports itself; or off. *)
Lemma snapshot_faithful ops m report i e :
  mo_entries m !! i = Some e → en_sample e = None →
  Snapshot report (foldl monitor_step m ops) !! i =
    Some (with_status (en_meta e)
      (match en_kind e with
       | kindDisabled => (StatusOff, 0)
       | kindPassive => classify (report i) (mo_slow m)
       | kindActive => match last_sample i None ops with None => (StatusUnknown, 0) | Some s => classify s (mo_slow m) end
       end)).
Proof.
  intros He Hs. destruct (monitor_run_lookup ops m i e He) as [H1 H2]. unfold Snapshot.
  rewrite list_lookup_imap, H1, H2. cbn. destruct e as [meta kind s]. cbn in *. subst s. by destruct kind.
Qed.

(** A probe always has time, and never more than ten seconds. *)
Lemma probe_timeout_bounded interval slow m :
  m = NewMonitor interval slow → 0 < probeTimeout m ∧ probeTimeout m <= maxProbeTimeout.
Proof.
  intros ->. unfold probeTimeout, NewMonitor, maxProbeTimeout, defaultInterval, Second. cbn [mo_interval].
  destruct (Z.leb_spec interval 0); case_match eqn:E; try lia; apply Z.ltb_lt in E || apply Z.ltb_ge in E; lia.
Qed.
