(* ===== verification/AV.v ===== *)
(** * Package scanner: the antivirus engines
    (clamav.go, icap.go, multi.go, limited.go, probe.go)

    What is sent to clamd and to an ICAP server, what their replies mean, and
    how several engines make one verdict.  Opening a file, dialling, writing
    and the reply are answers of an environment; deadlines show as failing
    writes and replies. *)
From S2P Require Import Prelude GoStd Json Gate Upstream HTTP.
Local Open Scope Z_scope.

(** What reading a file gives: the chunks read, then the end or an error. *)
Record File := mkFile {
  f_Chunks : list bytes;
  f_End : option error;
}.

Record AVEnv := mkAVEnv {
  av_Open : string -> result error File;
  av_Dial : string -> string -> option error;
  (** the failure of a write after those before it *)
  av_Write : list bytes -> bytes -> option error;
  (** all that comes back after what was written, and how the reading ends *)
  av_Reply : list bytes -> bytes * option error;
  (** textproto's ReadMIMEHeader; an early end of the input is no failure *)
  av_ReadMIMEHeader : bytes -> option error -> result error Header;
  av_Quote : string -> string;
}.

Record SocketScanner := mkSocket {
  sk_network : string;
  sk_addr : string;
  sk_service : string;
  sk_timeout : Z;
  sk_name : string;
}.

Section AV.
Context (env : AVEnv).

Notation M := (St (list bytes)).

Definition write (what : string) (data : bytes) : M (option error) := fun sent =>
  match av_Write env sent data with
  | Some e => (Some (EWrap what e ""), sent)
  | None => (None, sent ++ [data])
  end.

(** Statements in order up to the first failure. *)
Definition seq_st (m k : M (option error)) : M (option error) :=
  e <- m;;
  match e with Some e => ret_st (Some e) | None => k end.

(** "unix:///path" or "tcp:host:port". *)
Definition parseScannerAddress (address : string) : result error (string * string) :=
  if HasPrefix address "unix://" then Ok ("unix", TrimPrefix address "unix://")
  else if HasPrefix address "tcp:" then Ok ("tcp", TrimPrefix address "tcp:")
  else Err (ENew ("unsupported scanner address " +:+ av_Quote env address +:+ " (want unix:// or tcp:)")).

Definition default_timeout (timeout : Z) : Z := if timeout <=? 0 then 30 * Second else timeout.

(** ** clamd *)

Definition clamavChunkSize : nat := 8192.

Definition NewClamAVScanner (address : string) (timeout : Z) : result error SocketScanner :=
  match parseScannerAddress address with
  | Err e => Err e
  | Ok (network, addr) => Ok (mkSocket network addr "" (default_timeout timeout) "clamav")
  end.

(** binary.BigEndian.PutUint32(uint32(n)) *)
Definition PutUint32 (n : nat) : bytes :=
  let z := Z.of_nat n `mod` 2 ^ 32 in
  (fun k => byte_of (Z.to_nat ((z / 2 ^ k) `mod` 256))) <$> [24; 16; 8; 0].

Definition nul : ascii := byte_of 0.

Definition clamav_command (name : string) : bytes := to_bytes ("z" +:+ name) ++ [nul].

Fixpoint send_chunks (chunks : list bytes) : M (option error) :=
  match chunks with
  | [] => ret_st None
  | [] :: chunks' => send_chunks chunks'
  | chunk :: chunks' =>
      seq_st (write "sending chunk size: " (PutUint32 (length chunk)))
        (seq_st (write "sending chunk data: " chunk) (send_chunks chunks'))
  end.

Definition read_end (f : File) : M (option error) :=
  ret_st (match f_End f with Some e => Some (EWrap "reading artifact: " e "") | None => None end).

Definition parseClamAVResponse (resp : string) : result error AVResult :=
  let trimmed := TrimRight resp [nul; byte_of 10; " "%char] in
  if HasSuffix trimmed "OK" then Ok (mkAV true "" "clamav" false)
  else if HasSuffix trimmed "FOUND" then
    let sig := TrimSuffix trimmed " FOUND" in
    let sig := match cut_sub (to_bytes ": ") (to_bytes sig) with Some (_, after) => of_bytes after | None => sig end in
    let sig := TrimSpace sig in
    Ok (mkAV false sig "clamav" (HasPrefix sig "Heuristics.Limits.Exceeded"))
  else Err (ENew ("clamd error response: " +:+ av_Quote env trimmed)).

Definition named (name : string) (res : AVResult) : AVResult :=
  mkAV (av_Clean res) (av_Signature res) name (av_Incomplete res).

Definition clamav_Scan (s : SocketScanner) (filePath : string) : M (result error AVResult) :=
  match av_Open env filePath with
  | Err e => ret_st (Err (EWrap "opening artifact for scan: " e ""))
  | Ok f =>
      match av_Dial env (sk_network s) (sk_addr s) with
      | Some e => ret_st (Err (EWrap "connecting to clamd: " e ""))
      | None =>
          failed <- seq_st (write "sending INSTREAM command: " (clamav_command "INSTREAM"))
                      (seq_st (send_chunks (f_Chunks f))
                         (seq_st (read_end f) (write "sending stream terminator: " (PutUint32 0))));;
          match failed with
          | Some e => ret_st (Err e)
          | None =>
              fun sent =>
                (match av_Reply env sent with
                 | (_, Some e) => Err (EWrap "reading clamd response: " e "")
                 | (reply, None) =>
                     match parseClamAVResponse (of_bytes reply) with
                     | Ok res => Ok (named (sk_name s) res)
                     | Err e => Err e
                     end
                 end, sent)
          end
      end
  end.

Definition Contains_sub (s sub : string) : bool :=
  match cut_sub (to_bytes sub) (to_bytes s) with Some _ => true | None => false end.

(** [None] when the engine answers. *)
Definition clamav_Probe (s : SocketScanner) : M (option error) :=
  match av_Dial env (sk_network s) (sk_addr s) with
  | Some e => ret_st (Some (EWrap "connecting to clamd: " e ""))
  | None =>
      seq_st (write "sending PING: " (clamav_command "PING"))
        (fun sent =>
           let '(reply, e) := av_Reply env sent in
           let '(resp, e) := match cut_bytes nul reply with
                             | Some (a, _) => (a ++ [nul], None)
                             | None => (reply, Some (default (ENew "EOF") e))
                             end in
           (match e, resp with
            | Some e, [] => Some (EWrap "reading clamd ping reply: " e "")
            | _, _ =>
                if Contains_sub (of_bytes resp) "PONG" then None
                else Some (ENew ("unexpected clamd ping reply: " +:+ av_Quote env (TrimSpace (of_bytes resp))))
            end, sent))
  end.

(** ** ICAP *)

Definition icapChunkSize : nat := 8192.

Definition NewICAPScanner (address service : string) (timeout : Z) : result error SocketScanner :=
  match parseScannerAddress address with
  | Err e => Err e
  | Ok (network, addr) =>
      if service =s? "" then Err (ENew "icap scanner requires a service name")
      else Ok (mkSocket network addr service (default_timeout timeout) "icap")
  end.

Definition crlf : bytes := [byte_of 13; byte_of 10].

(** fmt's "%x". *)
Fixpoint hex_fuel (fuel n : nat) : bytes :=
  match fuel with
  | O => []
  | S fuel => if (n <? 16)%nat then [hex_digit n] else hex_fuel fuel (n / 16) ++ [hex_digit (n mod 16)]
  end.

Definition FormatHex (n : nat) : bytes := hex_fuel (S n) n.

Definition icap_resHdr : bytes := to_bytes "HTTP/1.1 200 OK" ++ crlf ++ crlf.

Definition icap_header (s : SocketScanner) : bytes :=
  to_bytes ("RESPMOD icap://" +:+ sk_addr s +:+ "/" +:+ sk_service s +:+ " ICAP/1.0") ++ crlf ++
  to_bytes ("Host: " +:+ sk_addr s) ++ crlf ++
  to_bytes "Allow: 204" ++ crlf ++
  to_bytes ("Encapsulated: res-hdr=0, res-body=" +:+ FormatInt (Z.of_nat (length icap_resHdr))) ++ crlf ++
  crlf ++ icap_resHdr.

Fixpoint send_icap_chunks (chunks : list bytes) : M (option error) :=
  match chunks with
  | [] => ret_st None
  | [] :: chunks' => send_icap_chunks chunks'
  | chunk :: chunks' =>
      seq_st (write "sending chunk size: " (FormatHex (length chunk) ++ crlf))
        (seq_st (write "sending chunk data: " chunk)
           (seq_st (write "sending chunk crlf: " crlf) (send_icap_chunks chunks')))
  end.

Definition writeRespmod (s : SocketScanner) (f : File) : M (option error) :=
  seq_st (write "sending icap request: " (icap_header s))
    (seq_st (send_icap_chunks (f_Chunks f))
       (seq_st (read_end f) (write "sending final chunk: " (to_bytes "0" ++ crlf ++ crlf)))).

(** A line without its end, and what follows it. *)
Definition ReadLine (data : bytes) : option (bytes * bytes) :=
  match data with
  | [] => None
  | _ =>
      match cut_bytes (byte_of 10) data with
      | None => Some (data, [])
      | Some (line, rest) => Some (default line (strip_suffix [byte_of 13] line), rest)
      end
  end.

Definition icapStatusCode (statusLine : string) : result error Z :=
  let '(version, rest, found) := Cut statusLine " "%char in
  if negb found || negb (HasPrefix version "ICAP/") then
    Err (ENew ("malformed icap status line " +:+ av_Quote env statusLine))
  else
    let '(code, _, _) := Cut rest " "%char in
    match ParseInt code with
    | Some code => Ok code
    | None => Err (ENew ("malformed icap status code in " +:+ av_Quote env statusLine))
    end.

Definition threatFromInfectionHeader (v : string) : string :=
  match first_such (fun part => HasPrefix (TrimSpace part) "Threat=") (Split v ";"%char) with
  | Some part => TrimSpace (TrimPrefix (TrimSpace part) "Threat=")
  | None => ""
  end.

Definition infectionSignature (hdr : Header) : string :=
  if negb (Header_Get hdr "X-Virus-ID" =s? "") then Header_Get hdr "X-Virus-ID"
  else
    let v := Header_Get hdr "X-Infection-Found" in
    if negb (v =s? "") then (let t := threatFromInfectionHeader v in if negb (t =s? "") then t else v)
    else Header_Get hdr "X-Violations-Found".

Definition parseICAPResponse (reply : bytes) (ends : option error) : result error AVResult :=
  match ReadLine reply with
  | None => Err (EWrap "reading icap status line: " (default (ENew "EOF") ends) "")
  | Some (statusLine, rest) =>
      match icapStatusCode (of_bytes statusLine) with
      | Err e => Err e
      | Ok code =>
          match av_ReadMIMEHeader env rest ends with
          | Err e => Err (EWrap "reading icap headers: " e "")
          | Ok hdr =>
              if code =? 204 then Ok (mkAV true "" "icap" false)
              else if code =? 200 then
                let sig := infectionSignature hdr in
                Ok (mkAV false (if sig =s? "" then "icap.infected" else sig) "icap" false)
              else Err (ENew ("icap server returned status " +:+ FormatInt code))
          end
      end
  end.

Definition icap_Scan (s : SocketScanner) (filePath : string) : M (result error AVResult) :=
  match av_Open env filePath with
  | Err e => ret_st (Err (EWrap "opening artifact for scan: " e ""))
  | Ok f =>
      match av_Dial env (sk_network s) (sk_addr s) with
      | Some e => ret_st (Err (EWrap "connecting to icap server: " e ""))
      | None =>
          failed <- writeRespmod s f;;
          match failed with
          | Some e => ret_st (Err e)
          | None =>
              fun sent =>
                (match uncurry parseICAPResponse (av_Reply env sent) with
                 | Ok res => Ok (named (sk_name s) res)
                 | Err e => Err e
                 end, sent)
          end
      end
  end.

Definition icap_Probe (s : SocketScanner) : M (option error) :=
  match av_Dial env (sk_network s) (sk_addr s) with
  | Some e => ret_st (Some (EWrap "connecting to icap server: " e ""))
  | None =>
      seq_st (write "sending OPTIONS: "
                (to_bytes ("OPTIONS icap://" +:+ sk_addr s +:+ "/" +:+ sk_service s +:+ " ICAP/1.0") ++ crlf ++
                 to_bytes ("Host: " +:+ sk_addr s) ++ crlf ++ crlf))
        (fun sent =>
           let '(reply, ends) := av_Reply env sent in
           (match ReadLine reply with
            | None => Some (EWrap "reading icap options status: " (default (ENew "EOF") ends) "")
            | Some (statusLine, _) =>
                match icapStatusCode (of_bytes statusLine) with
                | Err e => Some e
                | Ok code =>
                    if (code <? 200) || (300 <=? code)
                    then Some (ENew ("icap OPTIONS returned status " +:+ FormatInt code)) else None
                end
            end, sent))
  end.
End AV.

(** ** What an engine reads

    The receiving side of the two protocols: a clamd INSTREAM session and a
    chunked body. *)

Definition Uint32 (l : bytes) : nat := Z.to_nat (foldl (fun z c => z * 256 + Z.of_nat (Ascii.nat_of_ascii c)) 0 l).

Fixpoint read_sized (fuel : nat) (l : bytes) : option bytes :=
  match fuel with
  | O => None
  | S fuel =>
      let n := Uint32 (take 4 l) in
      let rest := drop 4 l in
      if (length l <? 4)%nat then None
      else if (n =? 0)%nat then (if bool_decide (rest = []) then Some [] else None)
      else if (length rest <? n)%nat then None
      else app (take n rest) <$> read_sized fuel (drop n rest)
  end.

(** The file of an INSTREAM session. *)
Definition instream (l : bytes) : option bytes :=
  l ← strip_prefix (clamav_command "INSTREAM") l; read_sized (S (length l)) l.

Definition parse_hex (l : bytes) : nat := foldl (fun n c => n * 16 + default 0 (hex_value c))%nat 0%nat l.

Fixpoint read_chunked (fuel : nat) (l : bytes) : option bytes :=
  match fuel with
  | O => None
  | S fuel =>
      let '(digits, rest) := span is_hex l in
      rest ← strip_prefix crlf rest;
      let n := parse_hex digits in
      if bool_decide (digits = []) then None
      else if (n =? 0)%nat then (if bool_decide (rest = crlf) then Some [] else None)
      else if (length rest <? n)%nat then None
      else
        after ← strip_prefix crlf (drop n rest);
        app (take n rest) <$> read_chunked fuel after
  end.

(** The body of a RESPMOD request. *)
Definition respmod_body (s : SocketScanner) (l : bytes) : option bytes :=
  l ← strip_prefix (icap_header s) l; read_chunked (S (length l)) l.

Lemma nat_of_byte n : (n < 256)%nat → Ascii.nat_of_ascii (byte_of n) = n.
Proof. apply Ascii.nat_ascii_embedding. Qed.

Lemma Uint32_put n : Z.of_nat n < 2 ^ 32 → Uint32 (PutUint32 n) = n.
Proof.
  intros H. unfold Uint32, PutUint32. rewrite Z.mod_small by lia. cbn [fmap list_fmap foldl].
  assert (∀ z, Z.of_nat (Ascii.nat_of_ascii (byte_of (Z.to_nat (z mod 256)))) = z mod 256) as E.
  { intros z. pose proof (Z.mod_pos_bound z 256 ltac:(lia)). rewrite nat_of_byte by lia. lia. }
  rewrite !E. set (z := Z.of_nat n) in *. assert (0 ≤ z) by lia.
  change (2 ^ 0) with 1. change (2 ^ 8) with 256. change (2 ^ 16) with 65536. change (2 ^ 24) with 16777216.
  change (2 ^ 32) with 4294967296 in H. rewrite Z.div_1_r. replace n with (Z.to_nat z) by lia. f_equal.
  pose proof (Z.div_mod z 256 ltac:(lia)). pose proof (Z.div_mod (z / 256) 256 ltac:(lia)).
  pose proof (Z.div_mod (z / 65536) 256 ltac:(lia)). pose proof (Z.div_div z 256 256 ltac:(lia) ltac:(lia)) as D1.
  pose proof (Z.div_div z 65536 256 ltac:(lia) ltac:(lia)) as D2. change (256 * 256) with 65536 in D1. change (65536 * 256) with 16777216 in D2.
  rewrite D1 in *. rewrite D2 in *. rewrite (Z.mod_small (z / 16777216)); [lia|].
  split; [apply Z.div_pos; lia|apply Z.div_lt_upper_bound; lia].
Qed.

(** The chunks of a file, as they are sent. *)
Definition sized (chunks : list bytes) : bytes :=
  concat ((λ c, PutUint32 (length c) ++ c) <$> List.filter (λ c, negb (bool_decide (c = []))) chunks).

Definition chunked (chunks : list bytes) : bytes :=
  concat ((λ c, FormatHex (length c) ++ crlf ++ c ++ crlf) <$> List.filter (λ c, negb (bool_decide (c = []))) chunks).

Definition chunks_ok (max : nat) (f : File) : Prop := Forall (λ c, (length c <= max)%nat) (f_Chunks f).

Lemma sized_cons c chunks : c ≠ [] → sized (c :: chunks) = PutUint32 (length c) ++ c ++ sized chunks.
Proof. intros H. unfold sized. cbn [List.filter]. rewrite bool_decide_eq_false_2 by done. cbn [negb]. rewrite fmap_cons. cbn [concat]. by rewrite <- !app_assoc. Qed.

Lemma chunked_cons c chunks : c ≠ [] → chunked (c :: chunks) = FormatHex (length c) ++ crlf ++ c ++ crlf ++ chunked chunks.
Proof. intros H. unfold chunked. cbn [List.filter]. rewrite bool_decide_eq_false_2 by done. cbn [negb]. rewrite fmap_cons. cbn [concat]. by rewrite <- !app_assoc. Qed.

Lemma chunk_fits (c : bytes) : (length c <= clamavChunkSize)%nat → Z.of_nat (length c) < 2 ^ 32.
Proof.
  intros H%Nat2Z.inj_le. assert (Z.of_nat clamavChunkSize = 8192) as E by (vm_compute; done).
  rewrite E in H. change (2 ^ 32) with 4294967296. lia.
Qed.

Lemma read_sized_sized chunks fuel :
  Forall (λ c : bytes, (length c <= clamavChunkSize)%nat) chunks → (length (sized chunks ++ PutUint32 0) < fuel)%nat →
  read_sized fuel (sized chunks ++ PutUint32 0) = Some (concat chunks).
Proof.
  revert fuel. induction chunks as [|c chunks IH]; intros fuel Hc Hf; (destruct fuel as [|fuel]; [lia|]).
  { done. }
  inversion Hc as [|? ? Hlen Hcs]; subst. destruct (decide (c = [])) as [->|Hne].
  { change (sized ([] :: chunks)) with (sized chunks) in *. cbn [concat app]. by apply (IH (S fuel)). }
  rewrite sized_cons in * by done. rewrite <- !app_assoc in *.
  assert (length (PutUint32 (length c)) = 4%nat) as H4 by done.
  cbn [read_sized]. rewrite (take_app_length' _ _ 4), (drop_app_length' _ _ 4) by done.
  rewrite Uint32_put by (by apply chunk_fits).
  destruct (Nat.ltb_spec (length (PutUint32 (length c) ++ c ++ sized chunks ++ PutUint32 0)) 4) as [Hl|_];
    [rewrite length_app in Hl; lia|].
  destruct (Nat.eqb_spec (length c) 0) as [E|_]; [by destruct c|].
  destruct (Nat.ltb_spec (length (c ++ sized chunks ++ PutUint32 0)) (length c)) as [Hl|_]; [rewrite length_app in Hl; lia|].
  rewrite take_app_length, drop_app_length. rewrite IH; [done|done|]. rewrite !length_app in *. lia.
Qed.

Lemma parse_hex_app a c : parse_hex (a ++ [c]) = (parse_hex a * 16 + default 0 (hex_value c))%nat.
Proof. unfold parse_hex. by rewrite foldl_app. Qed.

Lemma hex_fuel_ok fuel n : (n < fuel)%nat →
  parse_hex (hex_fuel fuel n) = n ∧ forallb is_hex (hex_fuel fuel n) = true ∧ hex_fuel fuel n ≠ [].
Proof.
  revert n. induction fuel as [|fuel IH]; intros n Hn; [lia|]. cbn [hex_fuel].
  destruct (Nat.ltb_spec n 16) as [Hlt|Hge].
  - cbn [parse_hex foldl forallb]. rewrite hex_value_digit, is_hex_digit by done. cbn [default from_option id andb]. split_and!; [lia|done|done].
  - assert (n mod 16 < 16)%nat by (apply Nat.mod_upper_bound; lia).
    destruct (IH (n / 16)%nat) as (H1 & H2 & _); [apply Nat.lt_le_trans with n; [apply Nat.div_lt; lia|lia]|].
    rewrite parse_hex_app, H1, hex_value_digit, forallb_app, H2 by done. cbn [default forallb from_option id].
    rewrite is_hex_digit by done. split_and!; [|done|by intros [_ ?]%app_eq_nil]. pose proof (Nat.div_mod n 16 ltac:(lia)). lia.
Qed.

Lemma FormatHex_span n rest : span is_hex (FormatHex n ++ crlf ++ rest) = (FormatHex n, crlf ++ rest).
Proof.
  destruct (hex_fuel_ok (S n) n ltac:(lia)) as (_ & H & _). apply span_app; [exact H|]. intros c r [= <- _]. done.
Qed.

Lemma read_chunked_chunked chunks fuel :
  (length (chunked chunks ++ to_bytes "0" ++ crlf ++ crlf) < fuel)%nat →
  read_chunked fuel (chunked chunks ++ to_bytes "0" ++ crlf ++ crlf) = Some (concat chunks).
Proof.
  revert fuel. induction chunks as [|c chunks IH]; intros fuel Hf; (destruct fuel as [|fuel]; [lia|]).
  { done. }
  destruct (decide (c = [])) as [->|Hne].
  { change (chunked ([] :: chunks)) with (chunked chunks) in *. cbn [concat app]. by apply (IH (S fuel)). }
  rewrite chunked_cons in * by done. rewrite <- !app_assoc in *. cbn [read_chunked]. rewrite FormatHex_span.
  assert (∀ l, strip_prefix crlf (crlf ++ l) = Some l) as Hstrip by (intros; by apply strip_prefix_Some).
  rewrite Hstrip. cbn [mbind option_bind]. destruct (hex_fuel_ok (S (length c)) (length c) ltac:(lia)) as (Hp & _ & Hn).
  fold (FormatHex (length c)) in Hp, Hn. rewrite Hp, bool_decide_eq_false_2 by done.
  destruct (Nat.eqb_spec (length c) 0) as [E|_]; [by destruct c|].
  set (tl := crlf ++ chunked chunks ++ to_bytes "0" ++ crlf ++ crlf) in *.
  destruct (Nat.ltb_spec (length (c ++ tl)) (length c)) as [Hl|_]; [rewrite length_app in Hl; lia|].
  rewrite take_app_length, drop_app_length. unfold tl in *. rewrite Hstrip. cbn [mbind option_bind].
  rewrite IH; [done|]. assert (length crlf = 2%nat) by done. rewrite !length_app in *. lia.
Qed.

Section Sent.
Context (env : AVEnv).

Lemma seq_st_None m k sent sent' :
  seq_st m k sent = (None, sent') → ∃ mid, m sent = (None, mid) ∧ k mid = (None, sent').
Proof. unfold seq_st, bind_st. destruct (m sent) as [[e|] mid]; [done|]. intros H. by exists mid. Qed.

Lemma write_None what d sent sent' : write env what d sent = (None, sent') → concat sent' = concat sent ++ d.
Proof.
  unfold write. destruct (av_Write env sent d); [done|]. intros [= <-]. rewrite concat_app. cbn. by rewrite app_nil_r.
Qed.

Lemma send_chunks_None chunks sent sent' :
  send_chunks env chunks sent = (None, sent') → concat sent' = concat sent ++ sized chunks.
Proof.
  revert sent. induction chunks as [|c chunks IH]; intros sent.
  { intros [= <-]. by rewrite app_nil_r. }
  destruct c as [|b c]; [apply IH|]. intros (m1 & H1%write_None & (m2 & H2%write_None & H3%IH)%seq_st_None)%seq_st_None.
  rewrite sized_cons by done. by rewrite H3, H2, H1, <- !app_assoc.
Qed.

Lemma send_icap_chunks_None chunks sent sent' :
  send_icap_chunks env chunks sent = (None, sent') → concat sent' = concat sent ++ chunked chunks.
Proof.
  revert sent. induction chunks as [|c chunks IH]; intros sent.
  { intros [= <-]. by rewrite app_nil_r. }
  destruct c as [|b c]; [apply IH|].
  intros (m1 & H1%write_None & (m2 & H2%write_None & (m3 & H3%write_None & H4%IH)%seq_st_None)%seq_st_None)%seq_st_None.
  rewrite chunked_cons by done. by rewrite H4, H3, H2, H1, <- !app_assoc.
Qed.

Lemma read_end_None f sent sent' : read_end f sent = (None, sent') → f_End f = None ∧ sent' = sent.
Proof. unfold read_end, ret_st. destruct (f_End f); [done|]. by intros [= <-]. Qed.

(** A session that is sent to its end is the file. *)
Lemma clamav_sent f sent :
  chunks_ok clamavChunkSize f →
  seq_st (write env "sending INSTREAM command: " (clamav_command "INSTREAM"))
    (seq_st (send_chunks env (f_Chunks f))
       (seq_st (read_end f) (write env "sending stream terminator: " (PutUint32 0)))) [] = (None, sent) →
  f_End f = None ∧ instream (concat sent) = Some (concat (f_Chunks f)).
Proof.
  intros Hc (m1 & H1%write_None & (m2 & H2%send_chunks_None & (m3 & [He ->]%read_end_None & H3%write_None)%seq_st_None)%seq_st_None)%seq_st_None.
  split; [done|]. rewrite H3, H2, H1. cbn [concat app]. rewrite <- !app_assoc. unfold instream.
  assert (∀ l, strip_prefix (clamav_command "INSTREAM") (clamav_command "INSTREAM" ++ l) = Some l) as -> by (intros; by apply strip_prefix_Some).
  cbn [mbind option_bind]. apply read_sized_sized; [done|lia].
Qed.

Lemma icap_sent s f sent :
  writeRespmod env s f [] = (None, sent) → f_End f = None ∧ respmod_body s (concat sent) = Some (concat (f_Chunks f)).
Proof.
  intros (m1 & H1%write_None & (m2 & H2%send_icap_chunks_None & (m3 & [He ->]%read_end_None & H3%write_None)%seq_st_None)%seq_st_None)%seq_st_None.
  split; [done|]. rewrite H3, H2, H1. cbn [concat app]. rewrite <- !app_assoc. unfold respmod_body.
  assert (∀ l, strip_prefix (icap_header s) (icap_header s ++ l) = Some l) as -> by (intros; by apply strip_prefix_Some).
  cbn [mbind option_bind]. apply read_chunked_chunked. lia.
Qed.

(** What may go wrong before the reply: the file cannot be opened or read to
    its end, the engine cannot be dialled, or a write fails. *)
Definition session_failed (s : SocketScanner) (path : string) : Prop :=
  (∃ e, av_Open env path = Err e) ∨ (∃ e, av_Dial env (sk_network s) (sk_addr s) = Some e) ∨
  (∃ f e, av_Open env path = Ok f ∧ f_End f = Some e) ∨ ∃ before data e, av_Write env before data = Some e.

Definition fails_only (P : Prop) (m : St (list bytes) (option error)) : Prop := ∀ sent e sent', m sent = (Some e, sent') → P.

Lemma seq_fails P m k : fails_only P m → fails_only P k → fails_only P (seq_st m k).
Proof.
  intros Hm Hk sent e sent'. unfold seq_st, bind_st. destruct (m sent) as [[e'|] mid] eqn:E; [|apply Hk].
  intros _. by eapply Hm.
Qed.

Lemma write_fails s path what d : fails_only (session_failed s path) (write env what d).
Proof.
  intros sent e sent'. unfold write. destruct (av_Write env sent d) as [e'|] eqn:E; [|done].
  intros _. do 3 right. by eexists _, _, _.
Qed.

Lemma read_end_fails s path f : av_Open env path = Ok f → fails_only (session_failed s path) (read_end f).
Proof.
  intros Hf sent e sent'. unfold read_end, ret_st. destruct (f_End f) as [e'|] eqn:E; [|done].
  intros _. right. right. left. by exists f, e'.
Qed.

Lemma send_chunks_fails s path chunks : fails_only (session_failed s path) (send_chunks env chunks).
Proof. induction chunks as [|[|b c] chunks IH]; [done|exact IH|]. cbn [send_chunks]. auto using seq_fails, write_fails. Qed.

Lemma send_icap_chunks_fails s path chunks : fails_only (session_failed s path) (send_icap_chunks env chunks).
Proof. induction chunks as [|[|b c] chunks IH]; [done|exact IH|]. cbn [send_icap_chunks]. auto 10 using seq_fails, write_fails. Qed.

(** *** What clamd's replies say *)

Definition clamd_pad : bytes := [nul; byte_of 10; " "%char].

Definition ends_in (word : string) (reply pre : bytes) : Prop := ∃ pad, reply = pre ++ to_bytes word ++ pad ∧ pad ⊆ clamd_pad.

(** The name in "stream: NAME FOUND". *)
Definition clamd_signature (pre : bytes) : string :=
  let text := default (pre ++ to_bytes "FOUND") (strip_suffix (to_bytes " ") pre) in
  TrimSpace (of_bytes (match cut_sub (to_bytes ": ") text with Some (_, after) => after | None => text end)).

(** A reply that ends in OK is clean; one that ends in FOUND is a detection, or
    an incomplete scan when what was found is that clamd's limits were
    exceeded; any other is an error. *)
Inductive clamd_says (name : string) (reply : bytes) : option AVResult → Prop :=
| says_ok pre : ends_in "OK" reply pre → clamd_says name reply (Some (mkAV true "" name false))
| says_found pre :
    ends_in "FOUND" reply pre →
    clamd_says name reply
      (Some (mkAV false (clamd_signature pre) name (HasPrefix (clamd_signature pre) "Heuristics.Limits.Exceeded")))
| says_error : (∀ pre, ¬ ends_in "OK" reply pre) → (∀ pre, ¬ ends_in "FOUND" reply pre) → clamd_says name reply None.

Definition verdict_is (out : result error AVResult) (v : option AVResult) : Prop :=
  match v with Some res => out = Ok res | None => ∃ e, out = Err e end.

Lemma TrimRight_app t pad : pad ⊆ clamd_pad → TrimRight (of_bytes (t ++ pad)) clamd_pad = TrimRight (of_bytes t) clamd_pad.
Proof.
  intros Hp. unfold TrimRight. rewrite !to_of_bytes, rev_app_distr. do 2 f_equal.
  assert (∀ l k : bytes, l ⊆ clamd_pad → drop_set clamd_pad (l ++ k) = drop_set clamd_pad k) as H.
  { intros l k. induction l as [|c l IH]; intros Hs; [done|]. cbn [drop_set app].
    assert (existsb (Ascii.eqb c) clamd_pad = true) as ->; [|apply IH; set_solver].
    apply existsb_exists. exists c. split; [apply list_elem_of_In, Hs; by left|apply Ascii.eqb_refl]. }
  apply H. intros c Hc. apply Hp. by apply list_elem_of_In, in_rev, list_elem_of_In.
Qed.

Lemma TrimRight_pad reply : ∃ pad, reply = to_bytes (TrimRight (of_bytes reply) clamd_pad) ++ pad ∧ pad ⊆ clamd_pad.
Proof.
  unfold TrimRight. rewrite !to_of_bytes. assert (∀ l, ∃ q, l = q ++ drop_set clamd_pad l ∧ q ⊆ clamd_pad) as H.
  { induction l as [|c l (q & Hq & Hs)]; [exists []; by split; [|apply list_subseteq_nil]|]. cbn [drop_set].
    destruct (existsb (Ascii.eqb c) clamd_pad) eqn:E; [|exists []; by split; [|apply list_subseteq_nil]]. exists (c :: q). split; [cbn; by rewrite <- Hq|].
    apply existsb_exists in E as (x & Hx%list_elem_of_In & ->%Ascii.eqb_eq). set_solver. }
  destruct (H (rev reply)) as (q & Hq & Hs). exists (rev q). split.
  - rewrite <- rev_app_distr, <- Hq. by rewrite rev_involutive.
  - intros c Hc. apply Hs, list_elem_of_In, in_rev, list_elem_of_In, Hc.
Qed.

Lemma HasSuffix_word reply word :
  (∀ c, last (to_bytes word) = Some c → c ∉ clamd_pad) → to_bytes word ≠ [] →
  if HasSuffix (TrimRight (of_bytes reply) clamd_pad) word
  then ∃ pre, TrimRight (of_bytes reply) clamd_pad = of_bytes (pre ++ to_bytes word) ∧ ends_in word reply pre
  else ∀ pre, ¬ ends_in word reply pre.
Proof.
  intros Hw Hne. destruct (HasSuffix _ word) eqn:E; unfold HasSuffix in E.
  - destruct (strip_prefix _ _) as [r|] eqn:Hs; [|done]. apply strip_prefix_Some in Hs.
    apply (f_equal (@rev ascii)) in Hs. rewrite rev_involutive, rev_app_distr, rev_involutive in Hs.
    exists (rev r). destruct (TrimRight_pad reply) as (pad & Hr & Hp). split; [apply to_bytes_inj; by rewrite to_of_bytes|].
    exists pad. split; [|done]. by rewrite Hr, Hs, <- app_assoc.
  - intros pre (pad & -> & Hp). rewrite app_assoc, TrimRight_app in E by done.
    assert (TrimRight (of_bytes (pre ++ to_bytes word)) clamd_pad = of_bytes (pre ++ to_bytes word)) as Ht.
    { unfold TrimRight. rewrite to_of_bytes, rev_app_distr.
      destruct (to_bytes word) as [|w0 w1] eqn:Hb using rev_ind; [done|]. rewrite rev_app_distr. cbn [rev app drop_set].
      destruct (existsb (Ascii.eqb w0) clamd_pad) eqn:Ex.
      - apply existsb_exists in Ex as (x & Hx%list_elem_of_In & ->%Ascii.eqb_eq). exfalso. eapply Hw; [|exact Hx]. apply last_snoc.
      - do 2 f_equal. cbn [rev]. rewrite rev_app_distr, !rev_involutive. by rewrite <- app_assoc. }
    rewrite Ht, to_of_bytes, rev_app_distr in E.
    assert (strip_prefix (rev (to_bytes word)) (rev (to_bytes word) ++ rev pre) = Some (rev pre)) as Hs by by apply strip_prefix_Some.
    by rewrite Hs in E.
Qed.

Lemma words_unpadded : (∀ c, last (to_bytes "OK") = Some c → c ∉ clamd_pad) ∧ ∀ c, last (to_bytes "FOUND") = Some c → c ∉ clamd_pad.
Proof. split; intros c [= <-]; apply (bool_decide_unpack _); vm_compute; exact I. Qed.

Lemma clamav_reply_says name reply :
  ∃ v, clamd_says name reply v ∧
    verdict_is (match parseClamAVResponse env (of_bytes reply) with Ok res => Ok (named name res) | Err e => Err e end) v.
Proof.
  unfold parseClamAVResponse. cbv zeta. fold clamd_pad.
  pose proof (HasSuffix_word reply "OK" (proj1 words_unpadded)) as Hok. destruct (HasSuffix _ "OK").
  { destruct Hok as (pre & _ & He); [done|]. eexists. split; [by eapply says_ok|done]. }
  pose proof (HasSuffix_word reply "FOUND" (proj2 words_unpadded)) as Hfound. destruct (HasSuffix _ "FOUND").
  2:{ eexists. split; [by apply says_error; [apply Hok|apply Hfound]|]. by eexists. }
  destruct Hfound as (pre & -> & He); [done|]. eexists. split; [by eapply says_found|].
  cbn [verdict_is named av_Clean av_Signature av_Incomplete].
  set (sig := TrimSpace _). assert (clamd_signature pre = sig) as ->; [|done]. unfold clamd_signature, sig, TrimSuffix.
  rewrite to_of_bytes. cbv zeta.
  destruct (strip_suffix (to_bytes " ") pre) as [r|] eqn:Hr; cbn [default from_option id].
  - apply strip_suffix_Some in Hr as ->. assert (strip_suffix (to_bytes " FOUND") ((r ++ to_bytes " ") ++ to_bytes "FOUND") = Some r) as ->
      by (apply strip_suffix_Some; by rewrite <- app_assoc). rewrite to_of_bytes. by destruct (cut_sub _ r) as [[? ?]|].
  - destruct (strip_suffix (to_bytes " FOUND") (pre ++ to_bytes "FOUND")) as [r|] eqn:Hf.
    + exfalso. apply strip_suffix_Some in Hf. change (to_bytes " FOUND") with (to_bytes " " ++ to_bytes "FOUND") in Hf.
      rewrite app_assoc in Hf. apply app_inv_tail in Hf as ->. assert (strip_suffix (to_bytes " ") (r ++ to_bytes " ") = Some r)
        by by apply strip_suffix_Some. congruence.
    + rewrite ?to_of_bytes. by destruct (cut_sub (to_bytes ": ") (pre ++ to_bytes "FOUND")) as [[? ?]|].
Qed.

(** *** What an ICAP server's replies say *)

(** The status code of "ICAP/VERSION CODE REASON". *)
Definition icap_status (line : bytes) (code : Z) : Prop :=
  ∃ version digits rest, line = to_bytes "ICAP/" ++ version ++ " "%char :: digits ++ rest ∧
    " "%char ∉ version ∧ " "%char ∉ digits ∧ (rest = [] ∨ ∃ r, rest = " "%char :: r) ∧ ParseInt (of_bytes digits) = Some code.

(** The name of what was found: X-Virus-ID; else the Threat of
    X-Infection-Found, or all of it without one; else X-Violations-Found. *)
Inductive infection (hdr : Header) : string → Prop :=
| inf_id : Header_Get hdr "X-Virus-ID" ≠ "" → infection hdr (Header_Get hdr "X-Virus-ID")
| inf_threat pre part post threat :
    Header_Get hdr "X-Virus-ID" = "" → Split (Header_Get hdr "X-Infection-Found") ";"%char = pre ++ part :: post →
    Forall (λ q, HasPrefix (TrimSpace q) "Threat=" = false) pre → TrimSpace part = "Threat=" +:+ threat →
    TrimSpace threat ≠ "" → infection hdr (TrimSpace threat)
| inf_found :
    Header_Get hdr "X-Virus-ID" = "" → Header_Get hdr "X-Infection-Found" ≠ "" →
    (∀ pre part post threat, Split (Header_Get hdr "X-Infection-Found") ";"%char = pre ++ part :: post →
       Forall (λ q, HasPrefix (TrimSpace q) "Threat=" = false) pre → TrimSpace part = "Threat=" +:+ threat →
       TrimSpace threat = "") →
    infection hdr (Header_Get hdr "X-Infection-Found")
| inf_violations :
    Header_Get hdr "X-Virus-ID" = "" → Header_Get hdr "X-Infection-Found" = "" →
    infection hdr (Header_Get hdr "X-Violations-Found").

(** 204 is clean, 200 a detection; every other reply is an error. *)
Inductive icap_says (name : string) (reply : bytes) (ends : option error) : option AVResult → Prop :=
| says_204 line rest hdr :
    ReadLine reply = Some (line, rest) → icap_status line 204 → av_ReadMIMEHeader env rest ends = Ok hdr →
    icap_says name reply ends (Some (mkAV true "" name false))
| says_200 line rest hdr sig :
    ReadLine reply = Some (line, rest) → icap_status line 200 → av_ReadMIMEHeader env rest ends = Ok hdr → infection hdr sig →
    icap_says name reply ends (Some (mkAV false (if sig =? "" then "icap.infected" else sig)%string name false))
| says_other :
    (∀ line rest code hdr, ReadLine reply = Some (line, rest) → icap_status line code →
       av_ReadMIMEHeader env rest ends = Ok hdr → code ≠ 204 ∧ code ≠ 200) →
    icap_says name reply ends None.

Lemma icapStatusCode_says line code : icapStatusCode env (of_bytes line) = Ok code ↔ icap_status line code.
Proof.
  unfold icapStatusCode, Cut, icap_status. rewrite to_of_bytes. split.
  - destruct (cut_bytes " "%char line) as [[v rest]|] eqn:Hc; [|by rewrite orb_true_l].
    apply cut_bytes_Some in Hc as [-> Hv]. cbn [negb orb].
    unfold HasPrefix. rewrite !to_of_bytes. destruct (strip_prefix (to_bytes "ICAP/") v) as [version|] eqn:Hp; [|done].
    apply strip_prefix_Some in Hp as ->. cbn [negb]. destruct (cut_bytes " "%char rest) as [[digits r]|] eqn:Hd.
    + apply cut_bytes_Some in Hd as [-> Hd]. destruct (ParseInt _) as [z|] eqn:Hz; [|done]. intros [= <-].
      exists version, digits, (" "%char :: r). rewrite <- app_assoc. split_and!; [done|set_solver|done|right; by exists r|done].
    + apply cut_bytes_None in Hd. destruct (ParseInt _) as [z|] eqn:Hz; [|done]. intros [= <-].
      exists version, rest, []. rewrite app_nil_r, <- app_assoc. split_and!; [done|set_solver|done|by left|done].
  - intros (version & digits & rest & -> & Hv & Hd & Hr & Hz).
    assert (cut_bytes " "%char (to_bytes "ICAP/" ++ version ++ " "%char :: digits ++ rest) =
      Some (to_bytes "ICAP/" ++ version, digits ++ rest)) as ->.
    { apply cut_bytes_Some. rewrite <- app_assoc. split; [done|]. rewrite elem_of_app. intros [H|?]; [|done]. revert H. apply (bool_decide_unpack _). vm_compute. exact I. }
    cbn [negb orb]. unfold HasPrefix. rewrite !to_of_bytes.
    assert (strip_prefix (to_bytes "ICAP/") (to_bytes "ICAP/" ++ version) = Some version) as -> by by apply strip_prefix_Some.
    cbn [negb]. destruct Hr as [->|[r ->]].
    + rewrite app_nil_r, (proj2 (cut_bytes_None _ _) Hd). by rewrite Hz.
    + assert (cut_bytes " "%char (digits ++ " "%char :: r) = Some (digits, r)) as -> by by apply cut_bytes_Some. by rewrite Hz.
Qed.

Lemma HasPrefix_Some s p : HasPrefix s p = true → s = p +:+ TrimPrefix s p.
Proof.
  unfold HasPrefix, TrimPrefix. destruct (strip_prefix _ _) as [r|] eqn:Hs; [|done]. intros _.
  apply strip_prefix_Some in Hs. apply to_bytes_inj. by rewrite to_bytes_app, to_of_bytes.
Qed.

Lemma HasPrefix_bytes_app p t : HasPrefix (p +:+ t) p = true ∧ TrimPrefix (p +:+ t) p = t.
Proof.
  unfold HasPrefix, TrimPrefix. assert (strip_prefix (to_bytes p) (to_bytes (p +:+ t)) = Some (to_bytes t)) as ->
    by (apply strip_prefix_Some; by rewrite to_bytes_app). split; [done|apply of_to_bytes].
Qed.

Lemma infectionSignature_says hdr : infection hdr (infectionSignature hdr).
Proof.
  unfold infectionSignature. cbv zeta. destruct (Header_Get hdr "X-Virus-ID" =? "")%string eqn:Hid; bool_to_prop; cbn [negb].
  2:{ by apply inf_id. }
  destruct (Header_Get hdr "X-Infection-Found" =? "")%string eqn:Hv; bool_to_prop; cbn [negb]; [by apply inf_violations|].
  unfold threatFromInfectionHeader. destruct (first_such _ _) as [part|] eqn:Hf.
  - apply first_such_Some in Hf as (pre & post & Hs & Hp & Hpre). pose proof (HasPrefix_Some _ _ Hp) as Hpart.
    destruct (TrimSpace (TrimPrefix _ _) =? "")%string eqn:Ht; bool_to_prop; cbn [negb]; [|by eapply inf_threat].
    apply inf_found; [done..|]. intros pre' part' post' threat Hs' Hpre' Hp'.
    assert (first_such (λ q, HasPrefix (TrimSpace q) "Threat=") (Split (Header_Get hdr "X-Infection-Found") ";"%char) = Some part')
      as H' by (apply first_such_Some; exists pre', post'; rewrite Hp'; by destruct (HasPrefix_bytes_app "Threat=" threat)).
    assert (first_such (λ q, HasPrefix (TrimSpace q) "Threat=") (Split (Header_Get hdr "X-Infection-Found") ";"%char) = Some part)
      as H by (apply first_such_Some; by exists pre, post).
    assert (part = part') as <- by congruence. rewrite Hp' in Ht. destruct (HasPrefix_bytes_app "Threat=" threat) as [_ Htp].
    by rewrite Htp in Ht.
  - cbn. apply inf_found; [done..|]. intros pre part post threat Hs _ Hp. apply first_such_None in Hf.
    rewrite Forall_forall in Hf. specialize (Hf part). rewrite Hs, Hp in Hf.
    destruct (HasPrefix_bytes_app "Threat=" threat) as [Hh _]. rewrite Hh in Hf. exfalso.
    assert (true = false); [apply Hf; set_solver|done].
Qed.

Lemma icap_reply_says name reply ends :
  ∃ v, icap_says name reply ends v ∧
    verdict_is (match parseICAPResponse env reply ends with Ok res => Ok (named name res) | Err e => Err e end) v.
Proof.
  unfold parseICAPResponse. destruct (ReadLine reply) as [[line rest]|] eqn:Hl.
  2:{ exists None. split; [apply says_other; intros ? ? ? ?; by rewrite Hl|by eexists]. }
  destruct (icapStatusCode env (of_bytes line)) as [code|e] eqn:Hc.
  2:{ exists None. split; [|by eexists]. apply says_other. rewrite Hl. intros ? ? code hdr [= <- <-] Hs%icapStatusCode_says. congruence. }
  pose proof Hc as Hs. apply icapStatusCode_says in Hs.
  destruct (av_ReadMIMEHeader env rest ends) as [hdr|e] eqn:Hh.
  2:{ exists None. split; [|by eexists]. apply says_other. rewrite Hl. intros ? ? ? hdr [= <- <-]. by rewrite Hh. }
  destruct (Z.eqb_spec code 204) as [->|H4]; [eexists; split; [by eapply says_204|done]|].
  destruct (Z.eqb_spec code 200) as [->|H0].
  { eexists. split; [eapply says_200; [done..|apply infectionSignature_says]|done]. }
  exists None. split; [|by eexists]. apply says_other. rewrite Hl. intros ? ? code' hdr' [= <- <-] Hs'%icapStatusCode_says _.
  assert (code' = code) as -> by congruence. done.
Qed.

(** What a scan comes to: an error when something before the reply failed, and
    otherwise, the whole file sent - as the receiver reads the protocol - what
    the reply says. *)
Definition scanned (s : SocketScanner) (path : string) (received : bytes → option bytes)
    (says : bytes → option error → option AVResult → Prop) (out : result error AVResult) (sent : list bytes) : Prop :=
  (session_failed s path ∧ ∃ e, out = Err e) ∨
  ∃ f v, av_Open env path = Ok f ∧ f_End f = None ∧ received (concat sent) = Some (concat (f_Chunks f)) ∧
    says (av_Reply env sent).1 (av_Reply env sent).2 v ∧ verdict_is out v.

(** clamd's reply, an error when it could not be read. *)
Definition clamd_reply (name : string) (reply : bytes) (ends : option error) (v : option AVResult) : Prop :=
  if ends is Some _ then v = None else clamd_says name reply v.

End Sent.

(** ** A file, scanned *)

Definition ex_file : File := mkFile [to_bytes "MZ"; []; to_bytes "payload"] None.

Definition ex_av (reply : string) : AVEnv :=
  mkAVEnv (fun path => if path =s? "/tmp/a" then Ok ex_file else Err (ENew "no such file")) (fun _ _ => None) (fun _ _ => None)
    (fun _ => (to_bytes reply, None)) (fun _ _ => Ok ∅) (fun s => s).

Definition ex_socket : SocketScanner := mkSocket "tcp" "av:3310" "respmod" Second "kaspersky".


(** ** Several engines (multi.go) *)

(** What a scan ends with: Go returns a pointer, which may be nil, and an error. *)
Notation Outcome := (result error (option AVResult)).

Definition isDetection (res : option AVResult) : bool :=
  match res with Some res => negb (av_Clean res) && negb (av_Incomplete res) | None => false end.

Definition detects (o : Outcome) : bool := match o with Ok res => isDetection res | Err _ => false end.

Definition incomplete (o : Outcome) : bool :=
  match o with Ok (Some res) => av_Incomplete res | _ => false end.

Definition failed (o : Outcome) : bool := match o with Err _ => true | Ok _ => false end.

(** The verdict from the outcomes in engine order. *)
Definition combine_verdicts (results : list Outcome) : Outcome :=
  match first_such detects results with
  | Some o => o
  | None =>
      match first_such failed results with
      | Some o => o
      | None =>
          match first_such incomplete results with
          | Some o => o
          | None => Ok (Some (mkAV true "" "" false))
          end
      end
  end.

Section Multi.
(** What each engine returns when left alone, and when its context is
    cancelled before it has finished. *)
Context (alone interrupted : nat -> Outcome).

(** The engines in the order they finish; a detection cancels the others. *)
Fixpoint run_engines (order : list nat) (cancelled : bool) (results : list Outcome) : list Outcome :=
  match order with
  | [] => results
  | i :: order' =>
      let o := if cancelled then interrupted i else alone i in
      run_engines order' (cancelled || detects o) (<[i := o]> results)
  end.

Definition multi_Scan (order : list nat) : Outcome :=
  combine_verdicts (run_engines order false (replicate (length order) (Ok None))).

Lemma run_engines_length order cancelled results :
  length (run_engines order cancelled results) = length results.
Proof. revert cancelled results. induction order as [|i order IH]; intros; [done|]. cbn. by rewrite IH, length_insert. Qed.

(** An engine that is not to finish any more keeps its outcome. *)
Lemma run_engines_other order cancelled results i :
  i ∉ order → run_engines order cancelled results !! i = results !! i.
Proof.
  revert cancelled results. induction order as [|j order IH]; intros cancelled results; [done|].
  intros [Hij Hi]%not_elem_of_cons. cbn. by rewrite IH, list_lookup_insert_ne.
Qed.

(** Without a detection nothing is interrupted; with one, there is a detection. *)
Lemma run_engines_spec order results :
  NoDup order → (∀ i, i ∈ order → (i < length results)%nat) →
  (∀ i, i ∈ order → detects (alone i) = false) ∧ (∀ i, i ∈ order → run_engines order false results !! i = Some (alone i)) ∨
  ∃ i, i ∈ order ∧ run_engines order false results !! i = Some (alone i) ∧ detects (alone i) = true.
Proof.
  revert results. induction order as [|i order IH]; intros results Hnd Hlen.
  { left. split; by intros i ?%elem_of_nil. }
  apply NoDup_cons in Hnd as [Hi Hnd]. cbn [run_engines orb]. specialize (Hlen i (list_elem_of_here _ _)) as Hilen.
  assert (run_engines order (detects (alone i)) (<[i := alone i]> results) !! i = Some (alone i)) as Hres.
  { rewrite run_engines_other by done. by rewrite list_lookup_insert_eq. }
  destruct (detects (alone i)) eqn:Hd.
  - right. exists i. split_and!; [by left|done|done].
  - destruct (IH (<[i := alone i]> results) Hnd) as [[Hno Hall]|(j & Hj & Hr & Hdj)].
    + intros j Hj. rewrite length_insert. apply Hlen. by right.
    + left. split; intros j [->|Hj]%elem_of_cons; auto.
    + right. exists j. split_and!; [by right|done|done].
Qed.

(** All engines one after the other, none interrupted. *)
Definition multi_reference (n : nat) : Outcome := combine_verdicts (alone <$> seq 0 n).

Lemma combine_detects results o : o ∈ results → detects o = true → detects (combine_verdicts results) = true.
Proof.
  intros Hin Hd. unfold combine_verdicts. destruct (first_such detects results) as [o'|] eqn:E.
  - by apply first_such_elem in E as [_ ?].
  - apply first_such_None in E. rewrite Forall_forall in E. apply E in Hin. congruence.
Qed.

(** An incomplete scan is not clean, as the engines above report it. *)
Definition outcome_ok (o : Outcome) : Prop := ∀ r, o = Ok (Some r) → av_Incomplete r = true → av_Clean r = false.

(** A clean verdict is unanimous. *)
Lemma combine_clean results r :
  Forall outcome_ok results → combine_verdicts results = Ok (Some r) → av_Clean r = true →
  ∀ o, o ∈ results → failed o = false ∧ (∀ r', o = Ok (Some r') → av_Clean r' = true).
Proof.
  intros Hok. rewrite Forall_forall in Hok. unfold combine_verdicts. destruct (first_such detects results) as [o'|] eqn:E1.
  { intros -> Hc. apply first_such_elem in E1 as [_ Hd]. cbn in Hd. by rewrite Hc in Hd. }
  destruct (first_such failed results) as [o'|] eqn:E2.
  { intros ->. by apply first_such_elem in E2 as [_ ?]. }
  apply first_such_None in E1, E2. rewrite Forall_forall in E1, E2.
  destruct (first_such incomplete results) as [o'|] eqn:E3.
  - intros -> Hc o Ho. apply first_such_elem in E3 as [Hin Hi]. by rewrite (Hok _ Hin r eq_refl Hi) in Hc.
  - intros [= <-] _ o Ho. apply first_such_None in E3. rewrite Forall_forall in E3. split; [by apply E2|].
    intros r' ->. specialize (E1 _ Ho). specialize (E3 _ Ho). cbn in *. destruct (av_Clean r'); [done|]. by rewrite E3 in E1.
Qed.

(** C12: Whatever order the engines finish in, and whatever those do that are
    stopped by another's detection: when some engine, left alone, detects
    malware in the file, the verdict is a detection; otherwise it is the one of
    running all engines one after the other, the first error before the first
    incomplete scan.  So a verdict is clean only when no engine failed and each
    found the file clean. *)
Theorem multi_any_order n order :
  order ≡ₚ seq 0 n → (∀ i, (i < n)%nat → outcome_ok (alone i)) →
  (if existsb (λ i, detects (alone i)) (seq 0 n) then detects (multi_Scan order) = true
   else multi_Scan order = multi_reference n) ∧
  (∀ r, multi_Scan order = Ok (Some r) → av_Clean r = true →
     ∀ i, (i < n)%nat → failed (alone i) = false ∧ (∀ r', alone i = Ok (Some r') → av_Clean r' = true)).
Proof.
  intros Ho Hok. pose proof (Permutation_length Ho) as Hlen. rewrite length_seq in Hlen. unfold multi_Scan.
  set (results := run_engines order false (replicate (length order) (Ok None))).
  assert (length results = n) as Hl by (unfold results; by rewrite run_engines_length, length_replicate).
  assert (∀ i, i ∈ order ↔ (i < n)%nat) as Hin by (intros i; rewrite Ho, elem_of_seq; lia).
  destruct (run_engines_spec order (replicate (length order) (Ok None))) as [[Hno Hall]|(i & Hi & Hr & Hd)].
  { rewrite Ho. apply NoDup_seq. }
  { intros i Hi%Hin. rewrite length_replicate. lia. }
  - assert (results = alone <$> seq 0 n) as E.
    { apply list_eq_same_length with n; [by rewrite length_fmap, length_seq|done|]. intros i x y Hi. unfold results.
      rewrite Hall by (by apply Hin). rewrite list_lookup_fmap, lookup_seq_lt by done. cbn. by intros [= <-] [= <-]. }
    assert (existsb (λ i, detects (alone i)) (seq 0 n) = false) as ->.
    { apply not_true_is_false. intros (i & Hi & Hd)%existsb_elem. apply elem_of_seq in Hi. rewrite Hno in Hd; [done|]. apply Hin. lia. }
    rewrite E. split; [done|]. intros r Hr Hc i Hi.
    apply (combine_clean (alone <$> seq 0 n) r); [|done|done|].
    + apply Forall_fmap, Forall_forall. intros j Hj%elem_of_seq. apply Hok. lia.
    + apply list_elem_of_fmap. exists i. split; [done|]. apply elem_of_seq. lia.
  - assert (detects (combine_verdicts results) = true) as Hdet.
    { apply combine_detects with (alone i); [|done]. by eapply list_elem_of_lookup_2. }
    assert (existsb (λ i, detects (alone i)) (seq 0 n) = true) as ->.
    { apply existsb_elem. exists i. split; [|done]. apply elem_of_seq. apply Hin in Hi. lia. }
    split; [done|]. intros r Hr' Hc. rewrite Hr' in Hdet. cbn in Hdet. by rewrite Hc in Hdet.
Qed.
End Multi.

(** Three engines: the last detects, the others are stopped by it. *)
Definition ex_alone (i : nat) : Outcome :=
  match i with
  | 0%nat => Ok (Some (mkAV true "" "a" false))
  | 1%nat => Err (ENew "i/o timeout")
  | _ => Ok (Some (mkAV false "Eicar" "c" false))
  end.

Lemma multi_any_order_witness :
  multi_Scan ex_alone (fun _ => Err (ENew "context canceled")) [2; 0; 1]%nat = Ok (Some (mkAV false "Eicar" "c" false)) ∧
  detects (multi_Scan ex_alone (fun _ => Err (ENew "context canceled")) [0; 2; 1]%nat) = true.
Proof.
  split; [done|].
  destruct (multi_any_order ex_alone (fun _ => Err (ENew "context canceled")) 3 [0; 2; 1]%nat) as [H _]; [| |exact H].
  - apply (bool_decide_unpack _). by vm_compute.
  - intros [|[|[|i]]] Hi r; try (intros [= <-]; discriminate); lia.
Defined.

(** The two clients report as the interface asks. *)
Lemma av_outcome_ok env s path sent res :
  (clamav_Scan env s path sent).1 = Ok res ∨ (icap_Scan env s path sent).1 = Ok res →
  outcome_ok (Ok (Some res)).
Proof.
  intros H r [= <-]. destruct H as [H|H]; revert H.
  - unfold clamav_Scan. destruct (av_Open env path) as [f|]; [|done]. destruct (av_Dial env _ _); [done|].
    unfold bind_st. destruct (seq_st _ _ sent) as [[e|] sent']; [done|]. destruct (av_Reply env sent') as [reply [e|]]; [done|].
    unfold parseClamAVResponse. cbv zeta. destruct (HasSuffix _ "OK"); [by intros [= <-]|].
    destruct (HasSuffix _ "FOUND"); [by intros [= <-]|done].
  - unfold icap_Scan. destruct (av_Open env path) as [f|]; [|done]. destruct (av_Dial env _ _); [done|].
    unfold bind_st. destruct (writeRespmod env s f sent) as [[e|] sent']; [done|].
    destruct (av_Reply env sent') as [reply ends]. cbn [uncurry]. unfold parseICAPResponse.
    destruct (ReadLine reply) as [[line rest]|]; [|done]. destruct (icapStatusCode env _) as [code|]; [|done].
    destruct (av_ReadMIMEHeader env rest ends); [|done]. destruct (code =? 204); [by intros [= <-]|].
    destruct (code =? 200); [by intros [= <-]|done].
Qed.

(** ** A bounded number of scans (limited.go) *)

(** The scans that wait for a slot and those that run on the engine. *)
Record LimitedScanner := mkLimited {
  ls_waiting : gset nat;
  ls_inside : gset nat;
}.

(** NewLimitedScanner: without a positive limit the engine is used as it is. *)
Definition NewLimitedScanner (limit : Z) : option nat := if limit <=? 0 then None else Some (Z.to_nat limit).

(** A channel of [limit] places: it takes a scan when one is free. *)
Inductive ls_step (limit : nat) : LimitedScanner -> LimitedScanner -> Prop :=
| ls_arrive i s : i ∉ ls_waiting s -> i ∉ ls_inside s ->
    ls_step limit s (mkLimited ({[ i ]} ∪ ls_waiting s) (ls_inside s))
| ls_acquire i s : i ∈ ls_waiting s -> (size (ls_inside s) < limit)%nat ->
    ls_step limit s (mkLimited (ls_waiting s ∖ {[ i ]}) ({[ i ]} ∪ ls_inside s))
| ls_give_up i s : i ∈ ls_waiting s ->
    ls_step limit s (mkLimited (ls_waiting s ∖ {[ i ]}) (ls_inside s))
| ls_release i s : i ∈ ls_inside s ->
    ls_step limit s (mkLimited (ls_waiting s) (ls_inside s ∖ {[ i ]})).

(** No more scans run on the engine than the limit, and a scan that waits can
    go on as soon as one inside is done. *)
Lemma scans_capped limit s :
  rtc (ls_step limit) (mkLimited ∅ ∅) s →
  (size (ls_inside s) <= limit)%nat ∧ ls_waiting s ## ls_inside s ∧
  (∀ i j, i ∈ ls_waiting s → j ∈ ls_inside s → ∃ s1 s2, ls_step limit s s1 ∧ ls_step limit s1 s2 ∧ i ∈ ls_inside s2).
Proof.
  intros Hr. assert ((size (ls_inside s) <= limit)%nat ∧ ls_waiting s ## ls_inside s) as [Hs Hd].
  { assert (∀ s0 s1, rtc (ls_step limit) s0 s1 → (size (ls_inside s0) <= limit)%nat → ls_waiting s0 ## ls_inside s0 →
      (size (ls_inside s1) <= limit)%nat ∧ ls_waiting s1 ## ls_inside s1) as H.
    { induction 1 as [|s0 s1 s2 Hstep _ IH]; [done|]. intros Hs0 Hd0. destruct Hstep; apply IH; cbn; try set_solver; try lia.
      - rewrite size_union by set_solver. rewrite size_singleton. lia.
      - etrans; [|exact Hs0]. apply subseteq_size. set_solver. }
    apply (H _ _ Hr); cbn; [rewrite size_empty; lia|set_solver]. }
  split_and!; [done|done|]. intros i j Hi Hj.
  exists (mkLimited (ls_waiting s) (ls_inside s ∖ {[ j ]})). eexists. split; [by apply ls_release|].
  split; [apply (ls_acquire _ i); cbn; [done|]|cbn; set_solver].
  assert (size (ls_inside s ∖ {[ j ]}) < size (ls_inside s))%nat; [|lia].
  apply subset_size. set_solver.
Qed.
