(* ===== verification/CVE.v ===== *)
(** * Packages scanner and dockerproxy: the vulnerability engines
    (osv.go, trivy.go)

    The osv.dev client with its cache of results, and the trivy command.  The
    clock, the HTTP client and the command are answers of an environment. *)
From S2P Require Import Prelude GoStd Json Gate Upstream HTTP Handler Adapters Health.
Local Open Scope Z_scope.

(** ** osv.dev *)

Definition ecosystemMap (eco : string) : option string :=
  first_such (fun kv => eco =s? kv.1)
    [("pypi", "PyPI"); ("npm", "npm"); ("maven", "Maven"); ("go", "Go"); ("rubygems", "RubyGems")] ≫= fun kv => Some kv.2.

Record osvVulnerability := mkVuln {
  ov_ID : string;
  ov_Aliases : list string;
  ov_Summary : string;
  ov_Severity : string;
}.

Definition as_osv_vuln (v : Raw) : option osvVulnerability :=
  match v with
  | RNull => Some (mkVuln "" [] "" "")
  | RObj ms =>
      id ← field "id" as_string "" ms;
      aliases ← field "aliases" (fun _ => as_slice (as_string "")) [] ms;
      summary ← field "summary" as_string "" ms;
      severity ← field "database_specific" (as_struct1 "severity" as_string) "" ms;
      Some (mkVuln id aliases summary severity)
  | _ => None
  end.

Definition as_osv (v : Raw) : option (list osvVulnerability) :=
  as_struct1 "vulns" (fun _ => as_slice as_osv_vuln) [] v.

(** The first CVE among the aliases, or the advisory's own name. *)
Definition canonicalID (primaryID : string) (aliases : list string) : string :=
  default primaryID (first_such (fun a => HasPrefix a "CVE-") aliases).

Definition aliasesWithout (primaryID : string) (aliases : list string) (canonicalID : string) : list string :=
  List.filter (fun a => negb (a =s? canonicalID)) (primaryID :: aliases).

Definition osv_finding (v : osvVulnerability) : CVEFinding :=
  let id := canonicalID (ov_ID v) (ov_Aliases v) in
  mkFinding id (aliasesWithout (ov_ID v) (ov_Aliases v) id) (ParseSeverity (ov_Severity v)) (ov_Summary v) 0.

(** json.Marshal of the findings; a nil slice is null. *)
Definition json_slice (l : list Raw) : Raw := match l with [] => RNull | _ => RArr l end.

Definition json_finding (f : CVEFinding) : Raw :=
  RObj [(quote "ID", of_string (cf_ID f)); (quote "Aliases", json_slice (of_string <$> cf_Aliases f));
        (quote "Severity", RNum (to_bytes (FormatInt (severity_int (cf_Severity f)))));
        (quote "Summary", of_string (cf_Summary f)); (quote "Score", RNum (to_bytes (FormatInt (cf_Score f))))].

Definition toScanResult (vulns : list osvVulnerability) : ScanResult :=
  let findings := osv_finding <$> vulns in
  mkScan (bool_decide (findings = [])) findings (of_bytes (print (json_slice (json_finding <$> findings)))).

(** The body and the address of a query. *)
Definition osv_body (ref : PackageRef) : bytes :=
  let eco := ToLower (Ecosystem ref) in
  let ecosystem := default (Ecosystem ref) (ecosystemMap eco) in
  let version := if eco =s? "rubygems" then (Cut (Version ref) "-"%char).1.1 else Version ref in
  print (RObj [(quote "package", RObj [(quote "name", of_string (Name ref)); (quote "ecosystem", of_string ecosystem)]);
               (quote "version", of_string version)]).

Record cveEntry := mkCVEEntry {
  ce_result : ScanResult;
  ce_expiresAt : Z;
}.

Record OSVScanner := mkOSV {
  os_baseURL : string;
  os_ttl : Z;
  os_cache : gmap string cveEntry;
  os_health : Sample;
}.

Definition NewOSVScanner (baseURL : string) (ttl : Z) : OSVScanner :=
  mkOSV (TrimRight baseURL ["/"%char]) ttl ∅ (mkSample false 0 false).

Definition osv_request (s : OSVScanner) (ref : PackageRef) : OutRequest :=
  mkOut "POST" (os_baseURL s +:+ "/v1/query") (Header_Set "Content-Type" "application/json" ∅) (osv_body ref).

(** A scanner and the calls made. *)
Notation World := (OSVScanner * list ACall)%type.

Section OSV.
Context (env : AEnv).

Definition o_Now : St World Z := fun '(s, tr) => let t := aenv_Now env tr in (t, (s, tr ++ [AClock t])).
Definition o_Do (out : OutRequest) : St World DoResult := fun '(s, tr) =>
  let r := aenv_Do env tr out in (r, (s, tr ++ [ADo out r])).
Definition get_osv : St World OSVScanner := fun w => (w.1, w).

Definition set_cache (f : gmap string cveEntry -> gmap string cveEntry) : St World unit := fun '(s, tr) =>
  (tt, (mkOSV (os_baseURL s) (os_ttl s) (f (os_cache s)) (os_health s), tr)).

Definition osv_recordHealth (latency : Z) (ok : bool) : St World unit := fun '(s, tr) =>
  (tt, (mkOSV (os_baseURL s) (os_ttl s) (os_cache s) (mkSample ok latency true), tr)).

Definition osv_Health (s : OSVScanner) : Sample := os_health s.

Definition osv_decode (body : bytes) : option ScanResult := toScanResult <$> (v ← parse_first body; as_osv v).

(** What the response says. *)
Definition osv_answer (ref : PackageRef) (resp : DoResult) : result error ScanResult :=
  match resp with
  | ReqErr e => Err (EWrap "creating OSV request: " e "")
  | DoErr e => Err (EWrap "OSV request failed: " e "")
  | DoResp status _ _ body _ =>
      if negb (status =? StatusOK) then Err (ENew ("OSV returned HTTP " +:+ FormatInt status +:+ " for " +:+ Key ref))
      else
        match osv_decode body with
        | None => Err (EWrap "decoding OSV response: " (ENew "json") "")
        | Some res => Ok res
        end
  end.

Definition queryOSV (ref : PackageRef) : St World (result error ScanResult) :=
  s <- get_osv;;
  resp <- o_Do (osv_request s ref);;
  ret_st (osv_answer ref resp).

(** The cached result, while it lasts. *)
Definition osv_lookup (key : string) : St World (option ScanResult) :=
  s <- get_osv;;
  match os_cache s !! key with
  | None => ret_st None
  | Some entry =>
      now <- o_Now;;
      ret_st (if time_before now (ce_expiresAt entry) then Some (ce_result entry) else None)
  end.

Definition osv_store (key : string) (res : ScanResult) : St World unit :=
  s <- get_osv;;
  now <- o_Now;;
  set_cache (insert key (mkCVEEntry res (time_add now (os_ttl s)))).

Definition osv_Scan (ref : PackageRef) : St World (result error ScanResult) :=
  let key := Key ref in
  cached <- osv_lookup key;;
  match cached with
  | Some res => ret_st (Ok res)
  | None =>
      start <- o_Now;;
      res <- queryOSV ref;;
      now <- o_Now;;
      _ <- osv_recordHealth (time_sub now start) (match res with Ok _ => true | Err _ => false end);;
      match res with
      | Err e => ret_st (Err e)
      | Ok res =>
          _ <- osv_store key res;;
          ret_st (Ok res)
      end
  end.

(** A round of the janitor. *)
Definition osv_janitor : St World unit :=
  now <- o_Now;;
  set_cache (filter (fun kv => time_after now (ce_expiresAt kv.2) = false)).

Inductive osv_op :=
| OpScan (ref : PackageRef)
| OpJanitor.

Definition osv_step (w : World) (op : osv_op) : World :=
  match op with OpScan ref => (osv_Scan ref w).2 | OpJanitor => (osv_janitor w).2 end.
End OSV.

(** ** trivy *)

Record TrivyScanner := mkTrivy {
  tv_serverURL : string;
  tv_scanners : string;
  tv_timeout : Z;
  tv_health : Sample;
}.

Definition NewTrivyScanner (serverURL scanners : string) (timeout : Z) : TrivyScanner :=
  mkTrivy serverURL (if scanners =s? "" then "vuln,secret" else scanners)
    (if timeout <=? 0 then 120 * Second else timeout) (mkSample false 0 false).

Definition trivy_args (s : TrivyScanner) (imageRef : string) : list string :=
  ["image"; "--server"; tv_serverURL s; "--format"; "json"; "--quiet"; "--scanners"; tv_scanners s; imageRef].

(** (ID, severity, title) *)
Definition as_trivy_vuln (v : Raw) : option (string * string * string) :=
  match v with
  | RNull => Some ("", "", "")
  | RObj ms =>
      id ← field "VulnerabilityID" as_string "" ms;
      severity ← field "Severity" as_string "" ms;
      title ← field "Title" as_string "" ms;
      Some (id, severity, title)
  | _ => None
  end.

Definition as_trivy (v : Raw) : option (list (list (string * string * string))) :=
  as_struct1 "Results" (fun _ => as_slice (as_struct1 "Vulnerabilities" (fun _ => as_slice as_trivy_vuln) [])) [] v.

Definition trivy_finding (v : string * string * string) : CVEFinding :=
  mkFinding v.1.1 [] (ParseSeverity v.1.2) v.2 0.

Section Trivy.
(** The command with its arguments: what it prints, or how it fails, and how
    long it takes. *)
Context (run : string -> list string -> result error bytes * Z).

Definition trivy_recordHealth (latency : Z) (ok : bool) : St TrivyScanner unit := fun s =>
  (tt, mkTrivy (tv_serverURL s) (tv_scanners s) (tv_timeout s) (mkSample ok latency true)).

Definition ScanImage (imageRef : string) : St TrivyScanner (result error (list CVEFinding)) := fun s =>
  let '(out, latency) := run "trivy" (trivy_args s imageRef) in
  let '(_, s) := trivy_recordHealth latency (match out with Ok _ => true | Err _ => false end) s in
  (match out with
   | Err e => Err (EWrap ("running trivy for " +:+ imageRef +:+ ": ") e "")
   | Ok out =>
       match v ← parse out; as_trivy v with
       | None => Err (EWrap "decoding trivy output: " (ENew "json") "")
       | Some results => Ok (trivy_finding <$> concat results)
       end
   end, s).

Definition trivy_Health (s : TrivyScanner) : Sample := tv_health s.
End Trivy.

(** The server's /healthz, [None] when it answers with 2xx. *)
Definition trivy_Probe (get : string -> DoResult) (s : TrivyScanner) : option error :=
  match get (TrimRight (tv_serverURL s) ["/"%char] +:+ "/healthz") with
  | ReqErr e => Some (EWrap "building trivy health request: " e "")
  | DoErr e => Some (EWrap "probing trivy server: " e "")
  | DoResp status _ _ _ _ =>
      if (status <? 200) || (300 <=? status) then Some (ENew ("trivy health check returned status " +:+ FormatInt status))
      else None
  end.

(** ** Where an answer comes from *)

(** In the calls [tr] a query for a reference with this key was answered with
    [res], and [t] is what the clock showed when that was stored, the second time
    it was read after the answer. *)
Definition answered_at (base : string) (tr : list ACall) (key : string) (res : ScanResult) (t : Z) : Prop :=
  ∃ tr1 tr2 ref out header len body cut now,
    tr = tr1 ++ [ADo out (DoResp StatusOK header len body cut); AClock now; AClock t] ++ tr2 ∧
    out = mkOut "POST" (base +:+ "/v1/query") (Header_Set "Content-Type" "application/json" ∅) (osv_body ref) ∧
    Key ref = key ∧ osv_decode body = Some res.

Lemma answered_more base tr l key res t : answered_at base tr key res t → answered_at base (tr ++ l) key res t.
Proof.
  intros (tr1 & tr2 & ref & out & hd & len & body & cut & now & -> & Ho & Hk & Hd).
  exists tr1, (tr2 ++ l), ref, out, hd, len, body, cut, now. by rewrite <- !app_assoc.
Qed.

Lemma osv_answer_inv ref resp res :
  osv_answer ref resp = Ok res → ∃ header len body cut, resp = DoResp StatusOK header len body cut ∧ osv_decode body = Some res.
Proof.
  destruct resp as [e|e|status hd len body cut]; cbn [osv_answer]; [discriminate..|].
  destruct (status =? StatusOK) eqn:E; cbn [negb]; [|discriminate]. apply Z.eqb_eq in E. subst status.
  destruct (osv_decode body) as [r|] eqn:Hd; [|discriminate]. intros H. exists hd, len, body, cut. split; [reflexivity|]. congruence.
Qed.

Lemma answered_here base ref s resp res tr1 now t :
  os_baseURL s = base → osv_answer ref resp = Ok res →
  answered_at base (((tr1 ++ [ADo (osv_request s ref) resp]) ++ [AClock now]) ++ [AClock t]) (Key ref) res t.
Proof.
  intros <- (hd & len & body & cut & -> & Hd)%osv_answer_inv.
  exists tr1, [], ref, (osv_request s ref), hd, len, body, cut, now. by rewrite <- !app_assoc.
Qed.

Lemma osv_decode_inv body res : osv_decode body = Some res → ∃ vulns, res = toScanResult vulns.
Proof. unfold osv_decode. intros (vulns & _ & ->)%fmap_Some. by exists vulns. Qed.

Lemma toScanResult_clean vulns : sr_Clean (toScanResult vulns) = true ↔ sr_Findings (toScanResult vulns) = [].
Proof. unfold toScanResult. cbn [sr_Clean sr_Findings]. by rewrite bool_decide_eq_true. Qed.

(** Every entry is the answer to a query, and runs out its time to live after it. *)
Definition osv_inv (base : string) (ttl : Z) (w : World) : Prop :=
  os_baseURL w.1 = base ∧ os_ttl w.1 = ttl ∧
  ∀ key e, os_cache w.1 !! key = Some e → ∃ t, answered_at base w.2 key (ce_result e) t ∧ ce_expiresAt e = t + ttl.

Lemma osv_inv_more base ttl s tr l : osv_inv base ttl (s, tr) → osv_inv base ttl (s, tr ++ l).
Proof.
  intros (H1 & H2 & H3). split_and!; [done..|]. intros key e He. destruct (H3 key e He) as (t & Ha & Ht).
  exists t. split; [by apply answered_more|done].
Qed.

(** An answer of a scan that made the calls [l], after those of [tr]: to a query
    it made itself, or to one it asked before and stored at [t], the only call
    now being the clock's, which shows less than the time to live since. *)
Definition recent_answer (base : string) (ttl : Z) (tr l : list ACall) (key : string) (res : ScanResult) : Prop :=
  (∃ t, answered_at base l key res t) ∨
  ∃ t now, answered_at base tr key res t ∧ l = [AClock now] ∧ now < t + ttl.

Section Sound.
Context (env : AEnv) (base : string) (ttl : Z).

Lemma osv_lookup_inv key w :
  osv_inv base ttl w → ∃ l, (osv_lookup env key w).2 = (w.1, w.2 ++ l) ∧ osv_inv base ttl (w.1, w.2 ++ l) ∧
    ∀ res, (osv_lookup env key w).1 = Some res → ∃ t now, answered_at base w.2 key res t ∧ l = [AClock now] ∧ now < t + ttl.
Proof.
  destruct w as [s tr]. intros Hinv. unfold osv_lookup, bind_st, get_osv. cbn [fst snd].
  destruct (os_cache s !! key) as [e|] eqn:He.
  - cbn. exists [AClock (aenv_Now env tr)]. split; [done|]. split; [by apply osv_inv_more|].
    unfold time_before. destruct (Z.ltb_spec (aenv_Now env tr) (ce_expiresAt e)) as [Hlt|]; [|done].
    intros res [= <-]. destruct Hinv as (_ & _ & H). destruct (H key e He) as (t & Ha & Ht). cbn in *.
    exists t, (aenv_Now env tr). split_and!; [done|done|lia].
  - exists []. rewrite app_nil_r. split; [done|]. split; [done|done].
Qed.

(** A scan keeps the invariant; its answer is that of a query for a reference
    with the same key, asked now or less than the time to live ago. *)
Lemma osv_Scan_inv ref w :
  osv_inv base ttl w → ∃ l, (osv_Scan env ref w).2.2 = w.2 ++ l ∧ osv_inv base ttl (osv_Scan env ref w).2 ∧
    ∀ res, (osv_Scan env ref w).1 = Ok res → recent_answer base ttl w.2 l (Key ref) res.
Proof.
  intros Hinv. destruct (osv_lookup_inv (Key ref) w Hinv) as (l0 & Hw & Hinv0 & Hres).
  unfold osv_Scan. rewrite bind_st_run, Hw. destruct w as [s tr]. cbn [fst snd] in *.
  destruct (osv_lookup env (Key ref) (s, tr)).1 as [res|].
  { exists l0. split; [done|]. split; [exact Hinv0|]. intros res' [= <-]. destruct (Hres res eq_refl) as (t & now & Ha & -> & Hlt).
    right. by exists t, now. }
  clear Hres. unfold queryOSV, osv_recordHealth, o_Now, get_osv, o_Do.
  repeat (rewrite bind_st_run; cbn [fst snd ret_st]).
  set (tr1 := (tr ++ l0) ++ [AClock (aenv_Now env (tr ++ l0))]).
  set (out := osv_request s ref). set (resp := aenv_Do env tr1 out). set (tr2 := tr1 ++ [ADo out resp]).
  set (now := aenv_Now env tr2). set (tr3 := tr2 ++ [AClock now]).
  set (res := osv_answer ref resp).
  assert (∃ l, tr3 = tr ++ l) as [l3 Hl3] by (unfold tr3, tr2, tr1; eexists; by rewrite <- !app_assoc).
  assert (∀ h, osv_inv base ttl (mkOSV (os_baseURL s) (os_ttl s) (os_cache s) h, tr3)) as Hinv3.
  { intros h. unfold tr3, tr2, tr1. repeat apply osv_inv_more. destruct Hinv as (H1 & H2 & H3). split_and!; [done..|].
    intros k e He. destruct (H3 k e He) as (t & Ha & Ht). exists t. by split. }
  destruct res as [r|e] eqn:Hr.
  2:{ exists l3. split; [exact Hl3|]. split; [apply Hinv3|done]. }
  unfold osv_store, o_Now, get_osv, set_cache. repeat (rewrite bind_st_run; cbn [fst snd ret_st os_baseURL os_ttl os_cache os_health]).
  set (t := aenv_Now env tr3).
  assert (answered_at base (tr3 ++ [AClock t]) (Key ref) r t) as Ha.
  { destruct Hinv as (Hb & _ & _). exact (answered_here base ref s resp r tr1 now t Hb Hr). }
  assert (∃ l', tr1 = tr ++ l') as [l1 Hl1] by (unfold tr1; eexists; by rewrite <- !app_assoc).
  assert (l3 = (l1 ++ [ADo out resp]) ++ [AClock now]) as ->.
  { apply (app_inv_head tr). rewrite <- Hl3. unfold tr3, tr2. by rewrite Hl1, !app_assoc. }
  exists (((l1 ++ [ADo out resp]) ++ [AClock now]) ++ [AClock t]). rewrite app_assoc, <- Hl3. split; [done|]. split.
  - destruct Hinv as (H1 & H2 & H3). split_and!; [done|done|]. cbn [fst snd os_cache]. intros k e. rewrite lookup_insert_Some.
    intros [[<- <-]|[_ He]].
    + exists t. split; [done|]. cbn. unfold time_add. cbn in H2. by rewrite H2.
    + destruct (Hinv3 (os_health s)) as (_ & _ & H). destruct (H k e He) as (t' & Ha' & Ht').
      exists t'. split; [by apply answered_more|done].
  - intros r' [= <-]. left. exists t. destruct Hinv as (Hb & _ & _). exact (answered_here base ref s resp r l1 now t Hb Hr).
Qed.

Lemma osv_step_inv w op : osv_inv base ttl w → osv_inv base ttl (osv_step env w op) ∧ ∃ l, (osv_step env w op).2 = w.2 ++ l.
Proof.
  intros Hinv. destruct op as [ref|]; cbn [osv_step].
  - destruct (osv_Scan_inv ref w Hinv) as (l & Hl & Hi & _). split; [done|by exists l].
  - destruct w as [s tr]. unfold osv_janitor, bind_st, o_Now, set_cache. cbn. split; [|by eexists].
    destruct (osv_inv_more base ttl s tr [AClock (aenv_Now env tr)] Hinv) as (H1 & H2 & H3). split_and!; [done..|].
    cbn. intros k e He. apply map_lookup_filter_Some in He as [He _]. by apply (H3 k e).
Qed.

Lemma osv_steps_inv ops w : osv_inv base ttl w → osv_inv base ttl (foldl (osv_step env) w ops).
Proof. revert w. induction ops as [|op ops IH]; intros w Hw; [done|]. cbn. apply IH. by apply osv_step_inv. Qed.
End Sound.


Lemma aliasesWithout_elem name primaryID aliases id :
  name ∈ aliasesWithout primaryID aliases id ↔ name ≠ id ∧ (name = primaryID ∨ name ∈ aliases).
Proof.
  unfold aliasesWithout. rewrite list_elem_of_In, filter_In, <- list_elem_of_In, elem_of_cons, negb_true_iff, String.eqb_neq. tauto.
Qed.

(** Each vulnerability makes one finding, in order, named by its first CVE;
    no name it goes by is lost. *)
Lemma osv_findings vulns :
  length (sr_Findings (toScanResult vulns)) = length vulns ∧
  ∀ i v, vulns !! i = Some v → ∃ f, sr_Findings (toScanResult vulns) !! i = Some f ∧
    cf_Severity f = ParseSeverity (ov_Severity v) ∧ cf_Summary f = ov_Summary v ∧
    (cf_ID f = ov_ID v ∨ HasPrefix (cf_ID f) "CVE-" = true ∧ cf_ID f ∈ ov_Aliases v) ∧
    (∀ name, name ∈ ov_ID v :: ov_Aliases v ↔ name = cf_ID f ∨ name ∈ cf_Aliases f).
Proof.
  cbn [sr_Findings toScanResult]. split; [by rewrite length_fmap|]. intros i v Hv. exists (osv_finding v).
  rewrite list_lookup_fmap, Hv. split; [done|]. split; [done|]. split; [done|]. cbn [cf_ID cf_Aliases osv_finding].
  set (id := canonicalID _ _).
  assert (id = ov_ID v ∨ HasPrefix id "CVE-" = true ∧ id ∈ ov_Aliases v) as Hid.
  { unfold id, canonicalID. destruct (first_such _ _) as [a|] eqn:E; [|by left]. apply first_such_elem in E as [? ?]. by right. }
  split; [done|]. intros name. rewrite aliasesWithout_elem, elem_of_cons.
  destruct (decide (name = id)) as [->|Hne]; [|naive_solver]. naive_solver.
Qed.

