(* ===== verification/Config.v ===== *)
(** * Package config: the YAML and environment configuration
    (config.go, env.go) and the scanners built from it (scanner/factory.go)

    The Config struct with its mapstructure tags, the environment variables
    that set its keys, and the checks of Validate.  viper is a parameter: what
    it unmarshals is given.  net/netip is behind the class of ClientIP, net/url
    a parameter of it.  A refusal is the check that failed with the data its
    message formats. *)
From S2P Require Import Prelude GoStd Gate Supplychain Policy Upstream HTTP ClientIP Token Registries Settings.
From S2P Require Import AV.
Local Open Scope Z_scope.

(** ** The settings *)

Record ServerConfig := mkServer {
  cfg_Listen : string;
  UpstreamMaxConcurrent : Z;
  UpstreamRatePerSecond : Z;
  cfg_MetadataFilterMaxMB : Z;
  ShutdownTimeoutSeconds : Z;
  MaxArtifactMB : Z;
  TrustedProxies : list string;
  ClientIPHeader : string;
  PublicURL : string;
}.

Definition DefaultUpstreamMaxConcurrent : Z := 6.
Definition DefaultUpstreamRatePerSecond : Z := 10.

Record AuthConfig := mkAuth {
  JWTSecret : string;
  AccessTTLMinutes : Z;
  RefreshTTLHours : Z;
}.

Definition MinJWTSecretLen : Z := 32.

Record CacheConfig := mkCache {
  cc_Backend : string;
  cc_Path : string;
  cc_MaxSizeGB : Z;
  cc_StaleAfterDays : Z;
  CVETTLMinutes : Z;
  MalwareTTLMinutes : Z;
}.

(** config.PolicyProfile: the fields the engine reads and the other two. *)
Record ProfileConfig := mkProfileConfig {
  pc_policy : PolicyProfile;
  SupplyChainBlock : bool;
  MalwareBlock : bool;
}.

Record PolicyConfig := mkPolicyConfig {
  ActiveProfile : string;
  Profiles : gmap string ProfileConfig;
}.

Record CVESettings := mkCVESettings {
  cve_Enabled : bool;
  BaseURL : string;
  cve_policy : CVEConfig;
  CacheTTLMinutes : Z;
}.

Record ImageScanConfig := mkImageScan {
  is_Enabled : bool;
  TrivyServer : string;
  is_TimeoutSeconds : Z;
  is_Scanners : string;
  is_MaxLayerBytes : Z;
  ClientWaitSeconds : Z;
}.

Record ScannerConfig := mkScanner {
  sc_Type : string;
  sc_Name : string;
  sc_Address : string;
  sc_TimeoutSeconds : Z;
  sc_Service : string;
}.

Record MalwareConfig := mkMalware {
  Scanners : list ScannerConfig;
  MaxConcurrentScans : Z;
}.

Record HealthConfig := mkHealth {
  ProbeIntervalSeconds : Z;
  SlowThresholdMS : Z;
}.

Record DatabaseConfig := mkDatabase {
  db_Path : string;
  EventRetentionDays : Z;
  DailyRetentionDays : Z;
}.

Record MetricsConfig := mkMetrics {
  mx_Enabled : bool;
  mx_Listen : string;
  mx_Path : string;
}.

(** TLS, logging and the S3 cache are read by nothing modelled here. *)
Record Config := mkConfig {
  UnknownEnv : list string;
  cfg_Server : ServerConfig;
  cfg_Registries : RegistriesConfig;
  cfg_SupplyChain : SupplyChainConfig;
  AllowlistPath : string;
  cfg_CVE : CVESettings;
  cfg_ImageScan : ImageScanConfig;
  cfg_Malware : MalwareConfig;
  cfg_Cache : CacheConfig;
  cfg_Policy : PolicyConfig;
  cfg_Auth : AuthConfig;
  cfg_Health : HealthConfig;
  cfg_Database : DatabaseConfig;
  cfg_Metrics : MetricsConfig;
}.

Definition DisplayName (sc : ScannerConfig) : string :=
  let n := TrimSpace (sc_Name sc) in
  if negb (n =s? "") then n
  else if (sc_Type sc =s? "icap") && negb (sc_Service sc =s? "") then "icap:" +:+ sc_Service sc
  else sc_Type sc.

(** ** Validate *)

Inductive ConfigProblem :=
| NoUpstreams (name : string)
| TrustedProxy (i : Z)
| BadPublicURL
| UnknownHeader (header : string)
| ScannerTypeRequired (i : Z)
| ScannerUnknownType (i : Z) (type : string)
| ScannerAddressRequired (i : Z)
| ScannerServiceRequired (i : Z)
| ScannerReserved (i : Z) (name : string)
| ScannerDuplicate (i : Z) (name : string) (j : Z)
| Negative (key : string)
| MetricsListenRequired
| MetricsListenTaken (listen : string)
| MetricsPathRelative (path : string)
| MetricsPathUnclean (path : string)
| DatabasePathRequired
| TrivyServerRequired
| JWTSecretShort (len : Z)
| ListenRequired.

(** The first refusal, if any. *)
Fixpoint first_problem {A} (l : list (option A)) : option A :=
  match l with [] => None | Some p :: _ => Some p | None :: l' => first_problem l' end.

Definition not_negative (key : string) (z : Z) : option ConfigProblem := if z <? 0 then Some (Negative key) else None.

Section Validate.
Context {Addr Prefix : Type} {NI : NetIP Addr Prefix} (url_Parts : string -> option URLParts).

Definition check_registries (order : list (string * RegistryEntry)) : option ConfigProblem :=
  first_problem ((fun '(name, rc) =>
    if re_Enabled rc && (length (default [] (re_Upstreams rc)) =? 0)%nat then Some (NoUpstreams name) else None) <$> order).

(** The map literal, in the order written; the loop runs over it in any order. *)
Definition registry_map (c : RegistriesConfig) : list (string * RegistryEntry) :=
  [("pypi", PyPI c); ("npm", NPM c); ("maven", Maven c); ("rubygems", RubyGems c); ("go", Go c); ("docker", Docker c)].

Definition validateTrustedProxy (entry : string) : bool :=
  let entry := TrimSpace entry in
  if contains_byte entry "/"%char then bool_decide (is_Some (ParsePrefix entry)) else bool_decide (is_Some (ParseAddr entry)).

Definition check_proxies (entries : list string) : option ConfigProblem :=
  first_problem (imap (fun i e => if validateTrustedProxy e then None else Some (TrustedProxy (Z.of_nat i))) entries).

Definition check_header (header : string) : option ConfigProblem :=
  if existsb (String.eqb (ToLower header)) [""; "x-forwarded-for"; "x-real-ip"; "forwarded"] then None
  else Some (UnknownHeader header).

Definition reserved_names : list string := ["osv"; "osv.dev"; "trivy"].

(** The body of the loop up to the test of the name. *)
Definition check_scanner (i : Z) (sc : ScannerConfig) : option ConfigProblem :=
  first_problem
    [if (sc_Type sc =s? "clamav") || (sc_Type sc =s? "icap") then None
     else if sc_Type sc =s? "" then Some (ScannerTypeRequired i) else Some (ScannerUnknownType i (sc_Type sc));
     if sc_Address sc =s? "" then Some (ScannerAddressRequired i) else None;
     if (sc_Type sc =s? "icap") && (sc_Service sc =s? "") then Some (ScannerServiceRequired i) else None;
     if existsb (String.eqb (ToLower (DisplayName sc))) reserved_names then Some (ScannerReserved i (DisplayName sc)) else None].

Fixpoint check_scanners (i : Z) (scannerNames : gmap string Z) (l : list ScannerConfig) : option ConfigProblem :=
  match l with
  | [] => None
  | sc :: l' =>
      match check_scanner i sc with
      | Some p => Some p
      | None =>
          let name := DisplayName sc in
          match scannerNames !! name with
          | Some j => Some (ScannerDuplicate i name j)
          | None => check_scanners (i + 1) (<[name := i]> scannerNames) l'
          end
      end
  end.

Definition metrics_unclean : bytes := to_bytes " " ++ (byte_of <$> [9; 13; 10]%nat) ++ to_bytes "{}?#".

Definition check_metrics (c : Config) : option ConfigProblem :=
  let m := cfg_Metrics c in
  if negb (mx_Enabled m) then None
  else first_problem
    [if mx_Listen m =s? "" then Some MetricsListenRequired else None;
     if mx_Listen m =s? cfg_Listen (cfg_Server c) then Some (MetricsListenTaken (cfg_Listen (cfg_Server c))) else None;
     if negb (HasPrefix (mx_Path m) "/") then Some (MetricsPathRelative (mx_Path m)) else None;
     if ContainsAny (mx_Path m) metrics_unclean then Some (MetricsPathUnclean (mx_Path m)) else None].

(** [order] is the order the loop over the registries takes. *)
Definition Validate (order : list (string * RegistryEntry)) (c : Config) : option ConfigProblem :=
  let srv := cfg_Server c in
  first_problem
    [check_registries order;
     check_proxies (TrustedProxies srv);
     if negb (PublicURL srv =s? "") && bool_decide (ParsePublicURL url_Parts (PublicURL srv) = None) then Some BadPublicURL else None;
     check_header (ClientIPHeader srv);
     check_scanners 0 ∅ (Scanners (cfg_Malware c));
     not_negative "malware.max_concurrent_scans" (MaxConcurrentScans (cfg_Malware c));
     not_negative "server.max_artifact_mb" (MaxArtifactMB srv);
     not_negative "server.metadata_filter_max_mb" (cfg_MetadataFilterMaxMB srv);
     check_metrics c;
     not_negative "health.probe_interval_seconds" (ProbeIntervalSeconds (cfg_Health c));
     not_negative "health.slow_threshold_ms" (SlowThresholdMS (cfg_Health c));
     not_negative "database.event_retention_days" (EventRetentionDays (cfg_Database c));
     not_negative "database.daily_retention_days" (DailyRetentionDays (cfg_Database c));
     if db_Path (cfg_Database c) =s? "" then Some DatabasePathRequired else None;
     if is_Enabled (cfg_ImageScan c) && (TrivyServer (cfg_ImageScan c) =s? "") then Some TrivyServerRequired else None;
     not_negative "image_scan.max_layer_bytes" (is_MaxLayerBytes (cfg_ImageScan c));
     not_negative "cache.revalidation.cve_ttl_minutes" (CVETTLMinutes (cfg_Cache c));
     not_negative "cache.revalidation.malware_ttl_minutes" (MalwareTTLMinutes (cfg_Cache c));
     not_negative "cache.local.stale_after_days" (cc_StaleAfterDays (cfg_Cache c));
     if negb (JWTSecret (cfg_Auth c) =s? "") && (str_len (JWTSecret (cfg_Auth c)) <? MinJWTSecretLen)
     then Some (JWTSecretShort (str_len (JWTSecret (cfg_Auth c)))) else None;
     not_negative "console.auth.access_ttl_minutes" (AccessTTLMinutes (cfg_Auth c));
     not_negative "console.auth.refresh_ttl_hours" (RefreshTTLHours (cfg_Auth c));
     if cfg_Listen srv =s? "" then Some ListenRequired else None].
End Validate.

(** ** splitList *)

Definition list_seps : list bytes := [","%char] :: space_runes.

(** strings.FieldsFunc; [cur] is the field read so far, reversed. *)
Fixpoint fields_fuel (fuel : nat) (seps : list bytes) (l cur : bytes) : list bytes :=
  let flush := match cur with [] => [] | _ => [rev cur] end in
  match fuel, l with
  | S fuel', c :: l' =>
      match strip_one seps l with
      | Some rest => flush ++ fields_fuel fuel' seps rest []
      | None => fields_fuel fuel' seps l' (c :: cur)
      end
  | _, _ => flush
  end.

Definition FieldsFunc (seps : list bytes) (s : string) : list string :=
  of_bytes <$> fields_fuel (length (to_bytes s)) seps (to_bytes s) [].

Definition splitList (entries : list string) : list string := flat_map (FieldsFunc list_seps) entries.

Example ex_splitList : splitList ["10.0.0.1 10.0.0.0/8,,::1"; " "; "a"] = ["10.0.0.1"; "10.0.0.0/8"; "::1"; "a"].
Proof. reflexivity. Qed.

(** ** Environment variables (env.go) *)

Definition envPrefix : string := "JOEI_".

Definition directEnv : list string := ["JOEI_CONSOLE_JWT_SECRET"].

(** The regular expressions used: what they match, and matching by
    derivatives. *)
Inductive Regexp :=
| RNone
| REmpty
| RClass (p : ascii -> bool)
| RSeq (r s : Regexp)
| RAlt (r s : Regexp)
| RStar (r : Regexp).

Definition ROpt (r : Regexp) : Regexp := RAlt REmpty r.
Definition RPlus (r : Regexp) : Regexp := RSeq r (RStar r).
Definition RLit (s : string) : Regexp := foldr (fun c r => RSeq (RClass (Ascii.eqb c)) r) REmpty (to_bytes s).
Definition RAlts (l : list Regexp) : Regexp := foldr RAlt RNone l.
Definition RSeqs (l : list Regexp) : Regexp := foldr RSeq REmpty l.

Fixpoint nullable (r : Regexp) : bool :=
  match r with
  | RNone | RClass _ => false
  | REmpty | RStar _ => true
  | RSeq r s => nullable r && nullable s
  | RAlt r s => nullable r || nullable s
  end.

Fixpoint derive (c : ascii) (r : Regexp) : Regexp :=
  match r with
  | RNone | REmpty => RNone
  | RClass p => if p c then REmpty else RNone
  | RSeq r s => if nullable r then RAlt (RSeq (derive c r) s) (derive c s) else RSeq (derive c r) s
  | RAlt r s => RAlt (derive c r) (derive c s)
  | RStar r => RSeq (derive c r) (RStar r)
  end.

(** The whole text is matched. *)
Fixpoint accepts (r : Regexp) (l : bytes) : bool :=
  match l with [] => nullable r | c :: l' => accepts (derive c r) l' end.

Definition in_range (a b c : ascii) : bool :=
  (Ascii.nat_of_ascii a <=? Ascii.nat_of_ascii c)%nat && (Ascii.nat_of_ascii c <=? Ascii.nat_of_ascii b)%nat.

Definition digit_class : Regexp := RClass (in_range "0" "9").
Definition word_class : Regexp := RClass (fun c => in_range "A" "Z" c || in_range "0" "9" c || Ascii.eqb c "_").

Definition kubernetesServiceLinkRe : Regexp :=
  RSeqs
    [RLit "JOEI_"; ROpt (RSeq (RPlus word_class) (RLit "_"));
     RAlts
       [RLit "SERVICE_HOST";
        RSeq (RLit "SERVICE_PORT") (ROpt (RSeq (RLit "_") (RPlus word_class)));
        RSeq (RLit "PORT")
          (ROpt (RSeqs
            [RLit "_"; RPlus digit_class; RLit "_"; RAlts [RLit "TCP"; RLit "UDP"; RLit "SCTP"];
             ROpt (RSeq (RLit "_") (RAlts [RLit "ADDR"; RLit "PORT"; RLit "PROTO"]))]))]].

Definition service_link (name : string) : bool := accepts kubernetesServiceLinkRe (to_bytes name).

(** The Go type of a field, as far as the walk looks at it; a field is its
    mapstructure tag and its type. *)
Inductive GoType :=
| TStruct (fields : list (string * GoType))
| TPointer (t : GoType)
| TMap
| TSliceOfStruct
| TOther.

Record envSchema := mkSchema {
  es_keys : gmap string string;
  es_fileOnly : gmap string string;
}.

Section Env.
(** strings.ToUpper *)
Context (ToUpper : string -> string).

Definition envName (key : string) : string :=
  envPrefix +:+ ToUpper (of_bytes ((fun c => if Ascii.eqb c "." then "_"%char else c) <$> to_bytes key)).

Definition set_key (name key : string) (s : envSchema) : envSchema :=
  mkSchema (<[name := key]> (es_keys s)) (es_fileOnly s).
Definition set_fileOnly (name key : string) (s : envSchema) : envSchema :=
  mkSchema (es_keys s) (<[name := key]> (es_fileOnly s)).

Definition join_key (prefix tag : string) : string := if prefix =s? "" then tag else prefix +:+ "." +:+ tag.

(** The walk of a struct; NumField panics on another type. *)
Fixpoint env_walk (t : GoType) (prefix : string) (s : envSchema) : envSchema :=
  match t with
  | TStruct fields =>
      foldl (fun s '(tag, t) =>
        let tag := (Cut tag ","%char).1.1 in
        if (tag =s? "") || (tag =s? "-") then s
        else
          let key := join_key prefix tag in
          match t with
          | TStruct _ => env_walk t key s
          | TPointer (TStruct _ as t') => env_walk t' key s
          | TMap | TSliceOfStruct | TPointer TMap | TPointer TSliceOfStruct => set_fileOnly (envName key) key s
          | _ => set_key (envName key) key s
          end) s fields
  | _ => s
  end.

(** [order] is the order the loop over the file-only keys takes. *)
Definition fileOnlyKey (order : list (string * string)) (name : string) : option string :=
  snd <$> first_such (fun kv => (name =s? kv.1) || HasPrefix name (kv.1 +:+ "_")) order.

(** The problem with one variable, if it sets nothing. *)
Definition env_problem (s : envSchema) (order : list (string * string)) (inFile : gset string) (kv : string) : option string :=
  let '(name, value, _) := Cut kv "="%char in
  if negb (HasPrefix name envPrefix) || (value =s? "") then None
  else if bool_decide (is_Some (es_keys s !! name)) || bool_decide (name ∈ inFile) || existsb (String.eqb name) directEnv
          || service_link name then None
  else match fileOnlyKey order name with
       | Some key => Some (name +:+ ": " +:+ key +:+ " is a list of objects or a map; set it in the config file")
       | None => Some (name +:+ ": no such setting")
       end.

Definition unknown (s : envSchema) (order : list (string * string)) (fileKeys environ : list string) : list string :=
  merge_sort (fun a b => bytes_le (to_bytes a) (to_bytes b))
    (omap (env_problem s order (list_to_set (envName <$> fileKeys))) environ).
End Env.

(** reflect.TypeFor[Config]() *)
Definition scalars (tags : list string) : list (string * GoType) := (fun t => (t, TOther)) <$> tags.

Definition RegistryConfig_type : GoType := TStruct (scalars ["upstreams"; "enabled"]).

Definition Config_type : GoType := TStruct
  [("-", TOther);
   ("server", TStruct (scalars ["listen"; "upstream_max_concurrent"; "upstream_rate_per_second"; "metadata_filter_max_mb";
      "shutdown_timeout_seconds"; "max_artifact_mb"; "trusted_proxies"; "client_ip_header"; "public_url"]));
   ("tls", TStruct (scalars ["ca_files"]));
   ("registries", TStruct ((fun eco => (eco, RegistryConfig_type)) <$> ["pypi"; "npm"; "maven"; "rubygems"; "go"; "docker"]));
   ("supply_chain", TStruct (scalars ["min_age_hours"; "allowlist_path"; "mode"]));
   ("cve", TStruct (scalars ["enabled"; "base_url"; "block_on"; "cache_ttl_minutes"]));
   ("image_scan", TStruct (scalars ["enabled"; "trivy_server"; "timeout_seconds"; "scanners"; "max_layer_bytes"; "client_wait_seconds"]));
   ("malware", TStruct [("scanners", TSliceOfStruct); ("max_concurrent_scans", TOther)]);
   ("cache", TStruct
      [("backend", TOther);
       ("local", TStruct (scalars ["path"; "max_size_gb"; "stale_after_days"]));
       ("s3", TStruct (scalars ["endpoint"; "bucket"; "region"]));
       ("revalidation", TStruct (scalars ["cve_ttl_minutes"; "malware_ttl_minutes"]))]);
   ("policy", TStruct [("active_profile", TOther); ("profiles", TMap)]);
   ("logging", TStruct (scalars ["level"; "format"; "output"]));
   ("console", TStruct [("auth", TStruct (scalars ["jwt_secret"; "access_ttl_minutes"; "refresh_ttl_hours"]))]);
   ("health", TStruct (scalars ["probe_interval_seconds"; "slow_threshold_ms"]));
   ("database", TStruct (scalars ["path"; "event_retention_days"; "daily_retention_days"]));
   ("metrics", TStruct (scalars ["enabled"; "listen"; "path"]))].

Definition buildEnvSchema (ToUpper : string -> string) : envSchema := env_walk ToUpper Config_type "" (mkSchema ∅ ∅).

(** ** Load *)

Inductive Setting := SInt (z : Z) | SStr (s : string) | SBool (b : bool).

Definition load_defaults : list (string * Setting) :=
  [("cache.revalidation.cve_ttl_minutes", SInt 1440); ("cache.revalidation.malware_ttl_minutes", SInt 1440);
   ("server.listen", SStr ":8080"); ("server.metadata_filter_max_mb", SInt 256); ("server.public_url", SStr "");
   ("server.shutdown_timeout_seconds", SInt 30); ("server.max_artifact_mb", SInt 2048);
   ("image_scan.client_wait_seconds", SInt 25); ("metrics.enabled", SBool true); ("metrics.listen", SStr ":9464");
   ("metrics.path", SStr "/metrics")].

(** How far viper gets with the file: an error, or the struct it fills and the
    keys it knows. *)
Inductive ViperResult :=
| ViperReadError (e : error)
| ViperUnmarshalError (e : error)
| ViperConfig (c : Config) (AllKeys : list string).

Inductive LoadError :=
| ReadingConfig (e : error)
| UnmarshallingConfig (e : error)
| ValidatingConfig (p : ConfigProblem).

Definition with_server (f : ServerConfig -> ServerConfig) (c : Config) : Config :=
  mkConfig (UnknownEnv c) (f (cfg_Server c)) (cfg_Registries c) (cfg_SupplyChain c) (AllowlistPath c) (cfg_CVE c) (cfg_ImageScan c)
    (cfg_Malware c) (cfg_Cache c) (cfg_Policy c) (cfg_Auth c) (cfg_Health c) (cfg_Database c) (cfg_Metrics c).

Definition with_proxies (l : list string) (s : ServerConfig) : ServerConfig :=
  mkServer (cfg_Listen s) (UpstreamMaxConcurrent s) (UpstreamRatePerSecond s) (cfg_MetadataFilterMaxMB s) (ShutdownTimeoutSeconds s)
    (MaxArtifactMB s) l (ClientIPHeader s) (PublicURL s).

Definition with_unknown (l : list string) (c : Config) : Config :=
  mkConfig l (cfg_Server c) (cfg_Registries c) (cfg_SupplyChain c) (AllowlistPath c) (cfg_CVE c) (cfg_ImageScan c)
    (cfg_Malware c) (cfg_Cache c) (cfg_Policy c) (cfg_Auth c) (cfg_Health c) (cfg_Database c) (cfg_Metrics c).

Section Load.
Context {Addr Prefix : Type} {NI : NetIP Addr Prefix} (url_Parts : string -> option URLParts).
(** viper, with the defaults and the bound variables, on the file and the
    environment; the environment; strings.ToUpper. *)
Context (viper : list (string * Setting) -> gmap string string -> string -> list string -> ViperResult).
Context (ToUpper : string -> string).
(** The orders the loops over maps take. *)
Context (registry_order : RegistriesConfig -> list (string * RegistryEntry)) (fileOnly_order : list (string * string)).

Definition Load (path : string) (environ : list string) : result LoadError Config :=
  let schema := buildEnvSchema ToUpper in
  match viper load_defaults (es_keys schema) path environ with
  | ViperReadError e => Err (ReadingConfig e)
  | ViperUnmarshalError e => Err (UnmarshallingConfig e)
  | ViperConfig cfg keys =>
      let cfg := with_unknown (unknown ToUpper schema fileOnly_order keys environ) cfg in
      let cfg := with_server (fun s => with_proxies (splitList (TrustedProxies s)) s) cfg in
      match Validate url_Parts (registry_order (cfg_Registries cfg)) cfg with
      | Some p => Err (ValidatingConfig p)
      | None => Ok cfg
      end
  end.
End Load.

(** ** Scanners from the configuration (scanner/factory.go) *)

Definition with_name (name : string) (s : SocketScanner) : SocketScanner :=
  mkSocket (sk_network s) (sk_addr s) (sk_service s) (sk_timeout s) name.

(** A timeout is an int64 number of nanoseconds. *)
Definition New (env : AVEnv) (cfg : ScannerConfig) : result error SocketScanner :=
  let timeout := dur_mul (sc_TimeoutSeconds cfg) Second in
  if sc_Type cfg =s? "clamav" then
    match NewClamAVScanner env (sc_Address cfg) timeout with
    | Err e => Err e
    | Ok s => Ok (with_name (DisplayName cfg) s)
    end
  else if sc_Type cfg =s? "icap" then
    match NewICAPScanner env (sc_Address cfg) (sc_Service cfg) timeout with
    | Err e => Err e
    | Ok s => Ok (with_name (DisplayName cfg) s)
    end
  else Err (ENew ("unknown malware scanner type " +:+ av_Quote env (sc_Type cfg))).
