(* ===== verification/ConfigSpec.v ===== *)
(** * Package config: what its checks establish

    Matching by derivatives is matching; every key of the struct has its own
    environment variable, and only what sets nothing is reported; Validate
    accepts exactly the configurations whose invariants hold, and the parts
    built from an accepted configuration accept it. *)
From S2P Require Import Prelude GoStd Gate Supplychain Policy Upstream HTTP ClientIP Token Registries Settings.
From S2P Require Import AV Config.
Local Open Scope Z_scope.

(** ** Regular expressions *)

Inductive matches : Regexp -> bytes -> Prop :=
| m_empty : matches REmpty []
| m_class p c : p c = true -> matches (RClass p) [c]
| m_seq r s a b : matches r a -> matches s b -> matches (RSeq r s) (a ++ b)
| m_alt_l r s a : matches r a -> matches (RAlt r s) a
| m_alt_r r s a : matches s a -> matches (RAlt r s) a
| m_star_nil r : matches (RStar r) []
| m_star r a b : matches r a -> matches (RStar r) b -> matches (RStar r) (a ++ b).

Lemma nullable_matches r : nullable r = true ↔ matches r [].
Proof.
  split.
  - induction r; cbn; try done; intros H.
    + constructor.
    + apply andb_true_iff in H as [??]. apply (m_seq _ _ [] []); auto.
    + apply orb_true_iff in H as [?|?]; [apply m_alt_l|apply m_alt_r]; auto.
    + constructor.
  - intros H. remember [] as l eqn:Hl. induction H; cbn; try done; try (apply orb_true_iff; tauto).
    apply app_eq_nil in Hl as [-> ->]. by rewrite IHmatches1, IHmatches2.
Qed.

(** What an iteration that is not empty begins with. *)
Lemma star_cons r l c l' : matches (RStar r) l → l = c :: l' →
  ∃ a b, l' = a ++ b ∧ matches r (c :: a) ∧ matches (RStar r) b.
Proof.
  intros H. remember (RStar r) as rs eqn:Hr. revert l'. induction H as [| | | | | |r0 a b Ha _ Hb IH]; try done. intros l' Hl.
  injection Hr as ->. destruct a as [|d a]; [by apply IH|]. injection Hl as -> <-. by exists a, b.
Qed.

Lemma matches_alt r s l : matches (RAlt r s) l ↔ matches r l ∨ matches s l.
Proof.
  split; [inversion 1; subst; auto|]. intros [H|H]; [by apply m_alt_l|by apply m_alt_r].
Qed.

Lemma derive_matches c r l : matches (derive c r) l ↔ matches r (c :: l).
Proof.
  revert l. induction r as [| |p|r IHr s IHs|r IHr s IHs|r IHr]; intros l; cbn [derive].
  - split; inversion 1.
  - split; inversion 1.
  - destruct (p c) eqn:Hp; split; inversion 1; subst; try congruence; by constructor.
  - assert (matches (RSeq (derive c r) s) l → matches (RSeq r s) (c :: l)) as Hl.
    { inversion 1; subst. change (c :: a ++ b) with ((c :: a) ++ b). constructor; [by apply IHr|done]. }
    split.
    + destruct (nullable r) eqn:Hn; [|done]. inversion 1; subst; [by apply Hl|].
      apply (m_seq _ _ [] (c :: l)); [by apply nullable_matches|by apply IHs].
    + intros H. inversion H as [| |r' s' a b Ha Hb Hr Hab| | | |]; subst. destruct a as [|d a].
      * cbn in Hab. subst b. apply nullable_matches in Ha. rewrite Ha. apply m_alt_r. by apply IHs.
      * injection Hab as -> <-. assert (matches (RSeq (derive c r) s) (a ++ b)) as Hd by (constructor; [by apply IHr|done]).
        destruct (nullable r); [by apply m_alt_l|done].
  - by rewrite !matches_alt, IHr, IHs.
  - split.
    + inversion 1; subst. change (c :: a ++ b) with ((c :: a) ++ b). constructor; [by apply IHr|done].
    + intros H. destruct (star_cons _ _ c l H eq_refl) as (a & b & -> & Ha & Hb). constructor; [by apply IHr|done].
Qed.

Lemma accepts_matches r l : accepts r l = true ↔ matches r l.
Proof.
  revert r. induction l as [|c l IH]; intros r; cbn [accepts]; [apply nullable_matches|]. by rewrite IH, derive_matches.
Qed.

(** ** The checks *)

Lemma first_problem_None {A} (l : list (option A)) : first_problem l = None ↔ Forall (fun p => p = None) l.
Proof.
  induction l as [|[p|] l IH]; cbn [first_problem]; rewrite ?Forall_nil, ?Forall_cons; [done| |].
  - split; [done|]. by intros [? _].
  - rewrite IH. tauto.
Qed.

Lemma refused_None {A} (b : bool) (p : A) : (if b then Some p else None) = None ↔ b = false.
Proof. by destruct b. Qed.

Lemma accepted_None {A} (b : bool) (p : A) : (if b then None else Some p) = None ↔ b = true.
Proof. by destruct b. Qed.

Lemma not_negative_None key z : not_negative key z = None ↔ 0 ≤ z.
Proof. unfold not_negative. rewrite refused_None, Z.ltb_ge. done. Qed.

Lemma existsb_name_elem s l : existsb (String.eqb s) l = true ↔ s ∈ l.
Proof.
  rewrite existsb_exists. split.
  - intros (x & Hx & ->%String.eqb_eq). by apply list_elem_of_In.
  - intros Hs. exists s. split; [by apply list_elem_of_In|by apply String.eqb_refl].
Qed.

#[local] Hint Rewrite @first_problem_None @Forall_cons @refused_None @accepted_None not_negative_None
  existsb_name_elem String.eqb_eq String.eqb_neq andb_true_iff andb_false_iff orb_true_iff orb_false_iff
  negb_true_iff negb_false_iff : checks.

Definition scanner_valid (sc : ScannerConfig) : Prop :=
  (sc_Type sc = "clamav" ∨ sc_Type sc = "icap") ∧ sc_Address sc ≠ "" ∧
  (sc_Type sc = "icap" → sc_Service sc ≠ "") ∧ ToLower (DisplayName sc) ∉ reserved_names.

Lemma check_scanner_None i sc : check_scanner i sc = None ↔ scanner_valid sc.
Proof.
  unfold check_scanner, scanner_valid. rewrite first_problem_None, !Forall_cons, Forall_nil.
  destruct (String.eqb_spec (sc_Type sc) "clamav") as [->|H1]; [|destruct (String.eqb_spec (sc_Type sc) "icap") as [->|H2]];
    cbn [orb andb]; rewrite ?refused_None, ?String.eqb_neq, <- ?not_true_iff_false, ?existsb_name_elem.
  - split; [|naive_solver]. intros (_ & ? & _ & ? & _). split_and!; [by left|done|done|done].
  - split; [|naive_solver]. intros (_ & ? & ? & ? & _). split_and!; [by right|done|done|done].
  - split; [|naive_solver]. intros (H & _). by destruct (sc_Type sc =s? "").
Qed.

(** The names met before are those of the map. *)
Lemma check_scanners_None i names l :
  check_scanners i names l = None ↔
  Forall scanner_valid l ∧ NoDup (DisplayName <$> l) ∧ ∀ sc, sc ∈ l → names !! DisplayName sc = None.
Proof.
  revert i names. induction l as [|sc l IH]; intros i names.
  { split; [|done]. intros _. split_and!; [constructor|constructor|]. by intros sc ?%elem_of_nil. }
  cbn [check_scanners]. rewrite Forall_cons, fmap_cons, NoDup_cons, <- (check_scanner_None i).
  destruct (check_scanner i sc); [naive_solver|]. destruct (names !! DisplayName sc) as [j|] eqn:Hj.
  { split; [done|]. intros (_ & _ & H). rewrite H in Hj; [done|by left]. }
  rewrite IH. split.
  - intros (Hv & Hn & Hm). split_and!; [done|done| |done|].
    + intros (sc' & Heq & Hin)%list_elem_of_fmap. specialize (Hm sc' Hin). rewrite Heq, lookup_insert_eq in Hm. done.
    + intros sc' [->|Hin]%elem_of_cons; [done|]. by apply Hm, lookup_insert_None in Hin as [? _].
  - intros ((_ & Hv) & (Hnin & Hn) & Hm). split_and!; [done|done|]. intros sc' Hin. apply lookup_insert_None. split.
    + apply Hm. by right.
    + intros Heq. apply Hnin. rewrite Heq. by apply list_elem_of_fmap_2.
Qed.

Section Valid.
Context {Addr Prefix : Type} {NI : NetIP Addr Prefix} (url_Parts : string -> option URLParts).

(** The invariants of a configuration. *)
Record valid_config (c : Config) : Prop := {
  vc_registries : ∀ name e, (name, e) ∈ registry_map (cfg_Registries c) → re_Enabled e = true → default [] (re_Upstreams e) ≠ [];
  vc_proxies : Forall (fun e => is_Some (parseTrusted e)) (TrustedProxies (cfg_Server c));
  vc_public : PublicURL (cfg_Server c) ≠ "" → is_Some (ParsePublicURL url_Parts (PublicURL (cfg_Server c)));
  vc_header : ToLower (ClientIPHeader (cfg_Server c)) ∈ [""; "x-forwarded-for"; "x-real-ip"; "forwarded"];
  vc_scanners : Forall scanner_valid (Scanners (cfg_Malware c));
  vc_names : NoDup (DisplayName <$> Scanners (cfg_Malware c));
  vc_metrics : mx_Enabled (cfg_Metrics c) = true → mx_Listen (cfg_Metrics c) ≠ "" ∧
    mx_Listen (cfg_Metrics c) ≠ cfg_Listen (cfg_Server c) ∧ HasPrefix (mx_Path (cfg_Metrics c)) "/" = true ∧
    ContainsAny (mx_Path (cfg_Metrics c)) metrics_unclean = false;
  vc_numbers : Forall (Z.le 0)
    [MaxConcurrentScans (cfg_Malware c); MaxArtifactMB (cfg_Server c); cfg_MetadataFilterMaxMB (cfg_Server c);
     ProbeIntervalSeconds (cfg_Health c); SlowThresholdMS (cfg_Health c); EventRetentionDays (cfg_Database c);
     DailyRetentionDays (cfg_Database c); is_MaxLayerBytes (cfg_ImageScan c); CVETTLMinutes (cfg_Cache c);
     MalwareTTLMinutes (cfg_Cache c); cc_StaleAfterDays (cfg_Cache c); AccessTTLMinutes (cfg_Auth c); RefreshTTLHours (cfg_Auth c)];
  vc_database : db_Path (cfg_Database c) ≠ "";
  vc_trivy : is_Enabled (cfg_ImageScan c) = true → TrivyServer (cfg_ImageScan c) ≠ "";
  vc_secret : JWTSecret (cfg_Auth c) ≠ "" → MinJWTSecretLen ≤ str_len (JWTSecret (cfg_Auth c));
  vc_listen : cfg_Listen (cfg_Server c) ≠ "";
}.

Lemma validateTrustedProxy_trusted e : validateTrustedProxy e = true ↔ is_Some (parseTrusted e).
Proof.
  unfold validateTrustedProxy, parseTrusted. destruct (contains_byte (TrimSpace e) "/").
  - by rewrite bool_decide_eq_true, fmap_is_Some.
  - rewrite bool_decide_eq_true. destruct (ParseAddr (TrimSpace e)) as [a|]; cbn; split; intros [? ?]; try done; by eexists.
Qed.

Lemma check_proxies_None entries : check_proxies entries = None ↔ Forall (fun e => is_Some (parseTrusted e)) entries.
Proof.
  unfold check_proxies. rewrite first_problem_None, !Forall_lookup. setoid_rewrite list_lookup_imap. split.
  - intros H i e He. apply validateTrustedProxy_trusted. specialize (H i). rewrite He in H. specialize (H _ eq_refl).
    by rewrite accepted_None in H.
  - intros H i x. destruct (entries !! i) as [e|] eqn:He; [|done]. intros [= <-]. rewrite accepted_None.
    by apply validateTrustedProxy_trusted, (H i).
Qed.

Lemma check_registries_None order c :
  order ≡ₚ registry_map c → check_registries order = None ↔
  ∀ name e, (name, e) ∈ registry_map c → re_Enabled e = true → default [] (re_Upstreams e) ≠ [].
Proof.
  intros Hp. unfold check_registries. rewrite first_problem_None, Forall_fmap, Hp, Forall_forall.
  assert (∀ name e, (if re_Enabled e && (length (default [] (re_Upstreams e)) =? 0)%nat then Some (NoUpstreams name) else None) = None
    ↔ (re_Enabled e = true → default [] (re_Upstreams e) ≠ [])) as Hone.
  { intros name e. rewrite refused_None. destruct (re_Enabled e), (default [] (re_Upstreams e)); cbn; naive_solver. }
  split; intros H.
  - intros name e Hin. apply (Hone name). apply (H _ Hin).
  - intros [name e] Hin. apply Hone. by apply (H name).
Qed.

Lemma check_metrics_None c : check_metrics c = None ↔ (mx_Enabled (cfg_Metrics c) = true →
  mx_Listen (cfg_Metrics c) ≠ "" ∧ mx_Listen (cfg_Metrics c) ≠ cfg_Listen (cfg_Server c) ∧
  HasPrefix (mx_Path (cfg_Metrics c)) "/" = true ∧ ContainsAny (mx_Path (cfg_Metrics c)) metrics_unclean = false).
Proof.
  unfold check_metrics. destruct (mx_Enabled _); cbn [negb]; [|by split].
  rewrite first_problem_None, !Forall_cons, !refused_None, !String.eqb_neq, negb_false_iff. split.
  - by intros (? & ? & ? & ? & _) _.
  - intros H. destruct (H eq_refl) as (? & ? & ? & ?). by split_and!; try constructor.
Qed.

Lemma nonempty_refused (s : string) (p : ConfigProblem) : (if s =s? "" then Some p else None) = None ↔ s ≠ "".
Proof. by rewrite refused_None, String.eqb_neq. Qed.

(** Validate accepts a configuration exactly when its invariants hold, in
    whatever order its loop takes the registries. *)
Lemma Validate_valid order c :
  order ≡ₚ registry_map (cfg_Registries c) → Validate url_Parts order c = None ↔ valid_config c.
Proof.
  intros Hp. unfold Validate. cbv zeta. rewrite first_problem_None, !Forall_cons.
  rewrite (check_registries_None _ _ Hp), check_proxies_None, check_scanners_None, check_metrics_None.
  rewrite !not_negative_None, !nonempty_refused. unfold check_header. rewrite accepted_None, existsb_name_elem.
  rewrite !refused_None, !andb_false_iff, !negb_false_iff, !String.eqb_eq, bool_decide_eq_false, Z.ltb_ge, !String.eqb_neq.
  split.
  - intros (H1 & H2 & H3 & H4 & H5 & N1 & N2 & N3 & H6 & N4 & N5 & N6 & N7 & H7 & H8 & N8 & N9 & N10 & N11 & H9 & N12 & N13 & H10 & _).
    constructor; try tauto.
    + intros Hne. destruct H3 as [?|H3]; [done|]. by apply not_eq_None_Some.
    + by repeat constructor.
    + intros He. destruct H8 as [H8|?]; [by rewrite H8 in He|done].
  - intros [H1 H2 H3 H4 H5 H5' H6 HN H7 H8 H9 H10]. rewrite !Forall_cons in HN.
    destruct HN as (N1 & N2 & N3 & N4 & N5 & N6 & N7 & N8 & N9 & N10 & N11 & N12 & N13 & _).
    split_and!; try tauto; try done.
    + destruct (decide (PublicURL (cfg_Server c) = "")) as [?|Hne]; [by left|right]. by apply not_eq_None_Some, H3.
    + destruct (is_Enabled _); [right; by apply H8|by left].
    + destruct (decide (JWTSecret (cfg_Auth c) = "")) as [?|Hne]; [by left|right]. by apply H9.
Qed.
End Valid.

(** ** What an accepted configuration starts *)

Definition ascii_text (s : string) : Prop := Forall (fun c => (Ascii.nat_of_ascii c < 128)%nat) (to_bytes s).

#[export] Instance ascii_text_dec s : Decision (ascii_text s).
Proof. unfold ascii_text. apply _. Defined.

Lemma not_lead c n : (128 <= n < 256)%nat → (Ascii.nat_of_ascii c < 128)%nat → Ascii.eqb c (byte_of n) = false.
Proof.
  intros Hn Hc. apply Ascii.eqb_neq. intros ->. unfold byte_of in Hc. rewrite Ascii.nat_ascii_embedding in Hc; lia.
Qed.

Lemma lower_bytes_ascii l : Forall (fun c => (Ascii.nat_of_ascii c < 128)%nat) l → lower_bytes l = lower_byte <$> l.
Proof.
  induction 1 as [|c l Hc Hl IH]; [done|]. destruct l as [|d l]; [done|].
  cbn [lower_bytes]. rewrite (not_lead c 196), (not_lead c 226) by (done || lia). cbn [andb].
  change (c :: d :: l) with ([c] ++ d :: l). rewrite fmap_app, <- IH. destruct l; reflexivity.
Qed.

Lemma EqualFold_ascii h name low :
  ascii_text h → ToLower h = low → lower_byte <$> to_bytes name = to_bytes low → EqualFold h name = true.
Proof.
  intros Ha <- Hn. unfold EqualFold. apply bool_decide_eq_true. rewrite Hn. unfold ToLower. by rewrite to_of_bytes, lower_bytes_ascii.
Qed.

Lemma length_to_bytes s : length (to_bytes s) = String.length s.
Proof. induction s as [|c s IH]; [done|]. cbn. by rewrite <- IH. Qed.

Section Starts.
Context {Addr Prefix : Type} {NI : NetIP Addr Prefix} (url_Parts : string -> option URLParts).

Lemma parse_trusted_from_ok i entries :
  Forall (fun e => is_Some (parseTrusted e)) entries → ∃ peers, parse_trusted_from i entries = Ok peers.
Proof.
  intros H. revert i. induction H as [|e l [p Hp] _ IH]; intros i; cbn [parse_trusted_from]; [by eexists|].
  rewrite Hp. destruct (IH (i + 1)) as [ps ->]. by eexists.
Qed.

Lemma resolver_header_known h peers entries :
  ascii_text h → ToLower h ∈ [""; "x-forwarded-for"; "x-real-ip"; "forwarded"] → ParseTrustedPeers entries = Ok peers →
  ∃ r, NewClientIPResolver entries h = Ok r ∧ cr_trusted r = peers.
Proof.
  intros Ha Hh Hp. unfold NewClientIPResolver. rewrite Hp.
  rewrite !elem_of_cons, elem_of_nil in Hh. destruct Hh as [Hh|[Hh|[Hh|[Hh|[]]]]].
  - assert (h = "") as ->; [|by eexists]. unfold ToLower in Hh. rewrite lower_bytes_ascii in Hh by done.
    destruct h; [done|]. by apply (f_equal to_bytes) in Hh; rewrite to_of_bytes in Hh.
  - rewrite (EqualFold_ascii h HeaderXForwardedFor _ Ha Hh) by reflexivity. destruct (h =s? ""); by eexists.
  - rewrite (EqualFold_ascii h HeaderXRealIP _ Ha Hh) by reflexivity.
    destruct (h =s? ""), (EqualFold h HeaderXForwardedFor); by eexists.
  - rewrite (EqualFold_ascii h HeaderForwarded _ Ha Hh) by reflexivity.
    destruct (h =s? ""), (EqualFold h HeaderXForwardedFor), (EqualFold h HeaderXRealIP); by eexists.
Qed.

(** A scanner that passed the checks is built, or its address is refused. *)
Lemma valid_scanner_new env sc :
  scanner_valid sc →
  match New env sc with
  | Ok s => sk_name s = DisplayName sc ∧ sk_service s = (if sc_Type sc =s? "icap" then sc_Service sc else "")
            ∧ 0 < sk_timeout s ∧ parseScannerAddress env (sc_Address sc) = Ok (sk_network s, sk_addr s)
  | Err e => parseScannerAddress env (sc_Address sc) = Err e
  end.
Proof.
  assert (∀ t, 0 < default_timeout t) as Ht by (intros t; unfold default_timeout, Second; destruct (Z.leb_spec t 0); lia).
  intros ([Hty|Hty] & _ & Hs & _); unfold New, NewClamAVScanner, NewICAPScanner; rewrite Hty; cbn [String.eqb Ascii.eqb Bool.eqb].
  - destruct (parseScannerAddress env _) as [[n a]|e]; [|done]. split_and!; [reflexivity|reflexivity|apply Ht|reflexivity].
  - destruct (parseScannerAddress env _) as [[n a]|e]; [|done]. destruct (String.eqb_spec (sc_Service sc) "") as [He|_].
    + by destruct (Hs Hty).
    + split_and!; [reflexivity|reflexivity|apply Ht|reflexivity].
Qed.

(** C39: What Validate accepts, the parts built from it accept, when the name
    of the client address header is written in ASCII (another can pass Validate
    and be refused, [ex_dotted_header]): the trusted proxies and the header by
    the client address resolver, the public URL by the resolver of base URLs,
    every scanner by its factory - but for the form of its address, which
    Validate does not look at and the factory can refuse - each under a name
    of its own that is not an engine's, and the signing key by the token
    signer. *)
Theorem validated_config_starts env order c :
  order ≡ₚ registry_map (cfg_Registries c) → Validate url_Parts order c = None → ascii_text (ClientIPHeader (cfg_Server c)) →
  (∃ peers r, ParseTrustedPeers (TrustedProxies (cfg_Server c)) = Ok peers ∧
     NewClientIPResolver (TrustedProxies (cfg_Server c)) (ClientIPHeader (cfg_Server c)) = Ok r ∧ cr_trusted r = peers ∧
     is_Some (NewPublicBaseResolver url_Parts (PublicURL (cfg_Server c)) peers)) ∧
  (∀ sc, sc ∈ Scanners (cfg_Malware c) →
     match New env sc with
     | Ok s => sk_name s = DisplayName sc
     | Err e => parseScannerAddress env (sc_Address sc) = Err e
     end ∧ DisplayName sc ∉ ["osv"; "osv.dev"; "trivy"]) ∧
  NoDup (DisplayName <$> Scanners (cfg_Malware c)) ∧
  (JWTSecret (cfg_Auth c) ≠ "" → is_Some (NewSigner (to_bytes (JWTSecret (cfg_Auth c))))).
Proof.
  intros Hp Hv Ha. apply (Validate_valid url_Parts order c Hp) in Hv. split_and!.
  - destruct (parse_trusted_from_ok 0 _ (vc_proxies _ _ Hv)) as [peers Hpeers].
    destruct (resolver_header_known _ peers _ Ha (vc_header _ _ Hv) Hpeers) as (r & Hr & Ht).
    exists peers, r. split_and!; [done..|]. unfold NewPublicBaseResolver.
    destruct (String.eqb_spec (PublicURL (cfg_Server c)) "") as [|Hne]; [by eexists|].
    destruct (vc_public _ _ Hv Hne) as [u ->]. by eexists.
  - intros sc Hsc. pose proof (vc_scanners _ _ Hv) as Hall. rewrite Forall_forall in Hall. specialize (Hall sc Hsc).
    pose proof (valid_scanner_new env sc Hall) as Hn. split; [destruct (New env sc); [by destruct Hn|done]|].
    intros Hin. destruct Hall as (_ & _ & _ & Hr). apply Hr.
    rewrite !elem_of_cons, elem_of_nil in Hin. destruct Hin as [->|[->|[->|[]]]]; vm_compute; set_solver.
  - apply (vc_names _ _ Hv).
  - intros Hne. pose proof (vc_secret _ _ Hv Hne) as Hl. unfold NewSigner, str_len, MinJWTSecretLen in *.
    rewrite length_to_bytes.
    destruct (Nat.ltb_spec (String.length (JWTSecret (cfg_Auth c))) MinSecretLen) as [Hlt|]; [unfold MinSecretLen in Hlt; lia|by eexists].
Qed.
End Starts.

(** ** Environment variables *)

(** The keys under a struct, each with whether a variable can set it. *)
Fixpoint walk_keys (t : GoType) (prefix : string) : list (string * bool) :=
  match t with
  | TStruct fields =>
      flat_map (fun '(tag, t) =>
        let tag := (Cut tag ","%char).1.1 in
        if (tag =s? "") || (tag =s? "-") then []
        else
          let key := join_key prefix tag in
          match t with
          | TStruct _ => walk_keys t key
          | TPointer (TStruct _ as t') => walk_keys t' key
          | TMap | TSliceOfStruct | TPointer TMap | TPointer TSliceOfStruct => [(key, false)]
          | _ => [(key, true)]
          end) fields
  | _ => []
  end.

Definition put_key (U : string -> string) (s : envSchema) (kb : string * bool) : envSchema :=
  if kb.2 then set_key (envName U kb.1) kb.1 s else set_fileOnly (envName U kb.1) kb.1 s.

Lemma env_walk_keys U : ∀ t prefix s, env_walk U t prefix s = foldl (put_key U) s (walk_keys t prefix).
Proof.
  fix IH 1. intros [fields| | | |] prefix s; [|done..]. cbn [env_walk walk_keys]. revert s.
  induction fields as [|[tag t] fields IHf]; intros s; [done|]. cbn [foldl flat_map]. rewrite foldl_app, <- IHf. clear IHf. f_equal.
  cbv zeta. destruct (_ || _); [done|]. pose proof (IH t) as Ht.
  destruct t as [fs|t'| | |]; [apply Ht| |done..]. pose proof (IH t') as Ht'. destruct t'; [apply Ht'|done..].
Qed.

Definition config_keys : list (string * bool) := Eval vm_compute in walk_keys Config_type "".
Definition settable : list string := omap (fun kb : string * bool => if kb.2 then Some kb.1 else None) config_keys.
Definition file_only : list string := omap (fun kb : string * bool => if kb.2 then None else Some kb.1) config_keys.

(** As strings.ToUpper does on ASCII. *)
Definition upper_on_ascii (U : string -> string) : Prop := ∀ s, ascii_text s → U s = ToUpper s.

Definition env_name : string -> string := envName ToUpper.

Definition under (s : string) : string := of_bytes ((fun c => if Ascii.eqb c "." then "_"%char else c) <$> to_bytes s).

(** The schema the program builds. *)
Definition schema : envSchema := foldl (put_key ToUpper) (mkSchema ∅ ∅) config_keys.

Lemma schema_keys U : upper_on_ascii U → buildEnvSchema U = schema.
Proof.
  intros HU. unfold buildEnvSchema, schema. rewrite env_walk_keys. change (walk_keys Config_type "") with config_keys.
  assert (Forall (fun kb : string * bool => ascii_text (under kb.1)) config_keys) as Hall by (apply (bool_decide_unpack _); vm_compute; exact I).
  revert Hall. generalize (mkSchema ∅ ∅). induction config_keys as [|kb l IH]; intros s Hall; [done|].
  apply Forall_cons in Hall as [Hkb Hall]. cbn [foldl]. rewrite IH by done. f_equal. unfold put_key, envName. by rewrite HU.
Qed.

(** What every key's variable is not; checked key by key. *)
Definition clean_name (name : string) : bool :=
  negb (service_link name) && negb (existsb (String.eqb name) directEnv)
  && forallb (fun f => negb ((name =s? env_name f) || HasPrefix name (env_name f +:+ "_"))) file_only.

Lemma settable_clean : Forall (fun key => clean_name (env_name key) = true) settable.
Proof. apply (bool_decide_unpack _). vm_compute. exact I. Qed.

Lemma names_distinct : NoDup (env_name <$> config_keys.*1).
Proof. apply (bool_decide_unpack _). vm_compute. exact I. Qed.

Lemma schema_keys_lookup l s name key :
  NoDup (env_name <$> l.*1) → (∀ k, k ∈ l.*1 → es_keys s !! env_name k = None) →
  es_keys (foldl (put_key ToUpper) s l) !! name = Some key ↔
  es_keys s !! name = Some key ∨ (key, true) ∈ l ∧ name = env_name key.
Proof.
  revert s. induction l as [|[k b] l IH]; intros s Hnd Hs; cbn [foldl].
  { split; [by left|]. intros [?|[[]%elem_of_nil _]]; done. }
  rewrite !fmap_cons, NoDup_cons in Hnd. cbn [fst] in Hnd. destruct Hnd as [Hk Hnd]. rewrite IH; [|done|].
  - rewrite elem_of_cons. destruct b; unfold put_key, set_key, set_fileOnly; cbn [fst snd es_keys].
    + rewrite lookup_insert_Some. fold (env_name k). specialize (Hs k ltac:(by left)).
      split; [|intros [H|[[[= ->]|H] ->]]]; [|left; right; split; [|done]|by left; left|by right].
      * intros [[[<- <-]|[_ H]]|H]; [right; split; [by left|done]|by left|right; naive_solver].
      * intros <-. congruence.
    + split; [|intros [H|[[?|H] ->]]]; [|by left|done|by right]. intros [H|[H1 H2]]; [by left|right; split; [by right|done]].
  - intros k' Hk'. unfold put_key, set_key, set_fileOnly. destruct b; cbn [fst snd es_keys]; [|apply Hs; by right].
    rewrite lookup_insert_ne; [apply Hs; by right|]. intros Heq. apply Hk. fold (env_name k) in Heq. rewrite Heq.
    by apply list_elem_of_fmap_2.
Qed.

Definition under_key (name key : string) : bool := (name =s? env_name key) || HasPrefix name (env_name key +:+ "_").

Lemma HasPrefix_bytes s p : HasPrefix s p = true → ∃ r, to_bytes s = to_bytes p ++ r.
Proof.
  unfold HasPrefix. destruct (strip_prefix (to_bytes p) (to_bytes s)) as [r|] eqn:Hp; [|done]. intros _.
  exists r. by apply strip_prefix_Some.
Qed.

Lemma under_key_bytes name key : under_key name key = true → ∃ r, to_bytes name = to_bytes (env_name key) ++ r.
Proof.
  unfold under_key. rewrite orb_true_iff, String.eqb_eq. intros [->|H]; [exists []; by rewrite app_nil_r|].
  destruct (HasPrefix_bytes _ _ H) as [r Hr]. exists (to_bytes "_" ++ r). by rewrite Hr, to_bytes_app, <- app_assoc.
Qed.

(** No variable falls under two of them. *)
Lemma under_one name key key' :
  key ∈ file_only → key' ∈ file_only → under_key name key = true → under_key name key' = true → key = key'.
Proof.
  intros Hk Hk' (r & Hr)%under_key_bytes (r' & Hr')%under_key_bytes. rewrite Hr in Hr'. apply (f_equal (fun l => l !! 5%nat)) in Hr'.
  change file_only with ["malware.scanners"; "policy.profiles"] in *. rewrite !elem_of_cons, elem_of_nil in *.
  destruct Hk as [->|[->|[]]], Hk' as [->|[->|[]]]; by vm_compute in Hr'.
Qed.

Definition file_only_entries : list (string * string) := (fun k => (env_name k, k)) <$> file_only.

Lemma fileOnlyKey_exact order name key :
  order ≡ₚ file_only_entries → fileOnlyKey order name = Some key ↔ key ∈ file_only ∧ under_key name key = true.
Proof.
  intros Hp. unfold fileOnlyKey. set (f := fun kv : string * string => _).
  assert (∀ kv, kv ∈ order ↔ kv.2 ∈ file_only ∧ kv.1 = env_name kv.2) as Hin.
  { intros [n k]. rewrite Hp. unfold file_only_entries. rewrite list_elem_of_fmap. cbn. naive_solver. }
  destruct (first_such f order) as [[n k]|] eqn:Hf; cbn.
  - apply first_such_elem in Hf as [Ho Hu]. apply Hin in Ho as [Hk Hn]. cbn in Hk, Hn. subst n. change (under_key name k = true) in Hu.
    split; [intros [= <-]; done|]. intros [Hk' Hu']. f_equal. by apply (under_one name).
  - split; [done|]. intros [Hk Hu]. apply first_such_None in Hf. rewrite Forall_forall in Hf.
    assert ((env_name key, key) ∈ order) as Ho by by apply Hin. specialize (Hf _ Ho). change (under_key name key = false) in Hf. congruence.
Qed.

(** What is said of a variable that sets nothing. *)
Definition problem_text (name p : string) : Prop :=
  (∃ key, key ∈ file_only ∧ under_key name key = true ∧
     p = name +:+ ": " +:+ key +:+ " is a list of objects or a map; set it in the config file") ∨
  (∀ key, key ∈ file_only → under_key name key = false) ∧ p = name +:+ ": no such setting".

Lemma fileOnlyKey_None order name :
  order ≡ₚ file_only_entries → fileOnlyKey order name = None ↔ ∀ key, key ∈ file_only → under_key name key = false.
Proof.
  intros Hp. split.
  - intros Hn key Hk. destruct (under_key name key) eqn:Hu; [|done].
    assert (fileOnlyKey order name = Some key) as H by by apply fileOnlyKey_exact. congruence.
  - intros H. destruct (fileOnlyKey order name) as [key|] eqn:Hf; [|done].
    apply fileOnlyKey_exact in Hf as [Hk Hu]; [|done]. by rewrite H in Hu.
Qed.

Lemma settable_elem key : key ∈ settable ↔ (key, true) ∈ config_keys.
Proof.
  unfold settable. rewrite list_elem_of_omap. split; [|by intros H; exists (key, true)].
  intros ([k b] & Hin & Hb). destruct b; [|done]. cbn in Hb. by injection Hb as ->.
Qed.

Lemma schema_exact name key : es_keys schema !! name = Some key ↔ key ∈ settable ∧ name = env_name key.
Proof.
  unfold schema. rewrite schema_keys_lookup, settable_elem; [|apply names_distinct|done]. cbn [es_keys]. rewrite lookup_empty. naive_solver.
Qed.

(** A variable that sets something: a key of the program, a key the file
    defines, or one read otherwise. *)
Definition sets_something (U : string -> string) (fileKeys : list string) (name : string) : Prop :=
  (∃ key, key ∈ settable ∧ name = env_name key) ∨ (∃ key, key ∈ fileKeys ∧ name = envName U key) ∨
  name ∈ directEnv ∨ matches kubernetesServiceLinkRe (to_bytes name).

Lemma env_problem_exact U order fileKeys kv p :
  order ≡ₚ file_only_entries →
  env_problem schema order (list_to_set (envName U <$> fileKeys)) kv = Some p ↔
  ∃ name value found, Cut kv "="%char = (name, value, found) ∧ HasPrefix name envPrefix = true ∧ value ≠ "" ∧
    ¬ sets_something U fileKeys name ∧ problem_text name p.
Proof.
  intros Hp. unfold env_problem. destruct (Cut kv "="%char) as [[name value] found].
  set (known := _ || service_link name).
  assert (known = true ↔ sets_something U fileKeys name) as Hk.
  { unfold known, sets_something, service_link. rewrite !orb_true_iff, !bool_decide_eq_true, existsb_name_elem, accepts_matches.
    rewrite elem_of_list_to_set, list_elem_of_fmap. unfold is_Some. setoid_rewrite schema_exact.
    assert ((∃ y, name = envName U y ∧ y ∈ fileKeys) ↔ ∃ key, key ∈ fileKeys ∧ name = envName U key) as -> by (split; intros (k & ? & ?); by exists k).
    tauto. }
  clearbody known. destruct (HasPrefix name envPrefix) eqn:Hpre; cbn [negb orb].
  2:{ split; [done|]. intros (n & v & f & [= <- <- <-] & H & _). congruence. }
  destruct (String.eqb_spec value "") as [He|Hv].
  { split; [done|]. by intros (n & v & f & [= <- <- <-] & _ & H & _). }
  destruct known.
  { split; [done|]. intros (n & v & f & [= <- <- <-] & _ & _ & Hs & _). by destruct Hs; apply Hk. }
  assert (¬ sets_something U fileKeys name) as Hs by (rewrite <- Hk; done).
  destruct (fileOnlyKey order name) as [key|] eqn:Hf.
  - apply (fileOnlyKey_exact _ _ _ Hp) in Hf as [Hin Hu]. split.
    + intros [= <-]. exists name, value, found. split_and!; try done. left. by exists key.
    + intros (n & v & f & [= <- <- <-] & _ & _ & _ & [(k & Hk' & Hu' & ->)|[H _]]); [|by rewrite H in Hu].
      by rewrite (under_one name key k).
  - pose proof (proj1 (fileOnlyKey_None _ _ Hp) Hf) as Hnone. split.
    + intros [= <-]. exists name, value, found. split_and!; try done. by right.
    + intros (n & v & f & [= <- <- <-] & _ & _ & _ & [(k & Hk' & Hu' & _)|[_ ->]]); [|done]. by rewrite Hnone in Hu'.
Qed.

(** C40: Every setting of the configuration has one environment variable of its own,
    which is neither below a setting only the file can hold nor a Kubernetes
    service link; and whatever the file defines and whatever order maps are
    walked in, the variables reported at start are exactly the JOEI_ variables
    with a value that set nothing, each with the reason. *)
Theorem env_variables_exact U order fileKeys environ :
  upper_on_ascii U → order ≡ₚ map_to_list (es_fileOnly (buildEnvSchema U)) →
  (∀ name key, es_keys (buildEnvSchema U) !! name = Some key ↔ key ∈ settable ∧ name = env_name key) ∧
  (∀ key key', key ∈ settable → key' ∈ settable → env_name key = env_name key' → key = key') ∧
  (∀ key, key ∈ settable → ¬ matches kubernetesServiceLinkRe (to_bytes (env_name key)) ∧ fileOnlyKey order (env_name key) = None) ∧
  (∀ p, p ∈ unknown U (buildEnvSchema U) order fileKeys environ ↔
     ∃ kv name value found, kv ∈ environ ∧ Cut kv "="%char = (name, value, found) ∧ HasPrefix name envPrefix = true ∧ value ≠ "" ∧
       ¬ sets_something U fileKeys name ∧ problem_text name p).
Proof.
  intros HU Hp. rewrite (schema_keys U HU) in *.
  assert (order ≡ₚ file_only_entries) as Hp' by (rewrite Hp; apply (bool_decide_unpack _); vm_compute; exact I). clear Hp.
  split_and!.
  - apply schema_exact.
  - intros key key' H H' Heq. pose proof (proj2 (schema_exact (env_name key) key) (conj H eq_refl)) as E.
    pose proof (proj2 (schema_exact (env_name key) key') (conj H' Heq)) as E'. rewrite E in E'. by injection E'.
  - intros key Hk. pose proof settable_clean as Hc. rewrite Forall_forall in Hc. specialize (Hc key Hk).
    unfold clean_name in Hc. rewrite !andb_true_iff, !negb_true_iff, forallb_forall in Hc. destruct Hc as [[Hl _] Hf]. split.
    + rewrite <- accepts_matches. unfold service_link in Hl. by rewrite Hl.
    + apply (fileOnlyKey_None _ _ Hp'). intros f Hin. apply negb_true_iff, (Hf f). by apply list_elem_of_In.
  - intros p. unfold unknown. rewrite merge_sort_Permutation, list_elem_of_omap. setoid_rewrite (env_problem_exact U order fileKeys _ p Hp').
    naive_solver.
Qed.

(** A misspelt name, an attempt at a list of objects, a set key, a key of a
    profile the file defines, a service link, an empty value, another program's
    variable. *)
Definition ex_environ : list string :=
  ["JOEI_LOGING_LEVEL=debug"; "JOEI_MALWARE_SCANNERS_0_TYPE=icap"; "JOEI_LOGGING_LEVEL=debug";
   "JOEI_POLICY_PROFILES_STRICT_CVE_BLOCK=true"; "JOEI_METRICS_SERVICE_PORT_HTTP=9464"; "JOEI_CACHE=";
   "PATH=/bin"; "JOEI_CONSOLE_JWT_SECRET=0=1"].

Definition ex_file_keys : list string := ["policy.profiles.strict.cve_block"].

Example ex_unknown :
  unknown ToUpper (buildEnvSchema ToUpper) (map_to_list (es_fileOnly (buildEnvSchema ToUpper))) ex_file_keys ex_environ =
    ["JOEI_LOGING_LEVEL: no such setting";
     "JOEI_MALWARE_SCANNERS_0_TYPE: malware.scanners is a list of objects or a map; set it in the config file"].
Proof. vm_compute. reflexivity. Qed.

Lemma env_variables_exact_witness :
  let s := buildEnvSchema ToUpper in
  let order := map_to_list (es_fileOnly s) in
  es_keys s !! "JOEI_CACHE_LOCAL_MAX_SIZE_GB" = Some "cache.local.max_size_gb" ∧
  ∀ p, p ∈ unknown ToUpper s order ex_file_keys ex_environ ↔
    ∃ kv name value found, kv ∈ ex_environ ∧ Cut kv "="%char = (name, value, found) ∧ HasPrefix name envPrefix = true ∧ value ≠ "" ∧
      ¬ sets_something ToUpper ex_file_keys name ∧ problem_text name p.
Proof.
  cbv zeta. split; [vm_compute; reflexivity|].
  apply (env_variables_exact ToUpper (map_to_list (es_fileOnly (buildEnvSchema ToUpper))) ex_file_keys ex_environ); [|reflexivity].
  intros s _. reflexivity.
Defined.

(** Two scanners, a trusted proxy, a signing key; the resolvers over dotted
    quads. *)
#[local] Instance quads : NetIP (list Z) (list Z) := {
  ParseAddr := parse_quad;
  Addr_of_port s := parse_quad s;
  Unmap a := a;
  Addr_String a := join_dots a;
  ParsePrefix s := parse_quad (Cut s "/"%char).1.1;
  Masked p := p;
  host_prefix a := a;
  Prefix_Contains p a := bool_decide (p = a);
}.

Definition ex_url_Parts (s : string) : option URLParts :=
  if HasPrefix s "https://" then Some (mkParts "https" "" false (TrimPrefix s "https://") "" "" "" "") else None.

Definition ex_entry : RegistryEntry := mkEntry true (Some ["https://registry.example"]).

Definition ex_config (header : string) (scanners : list ScannerConfig) : Config :=
  mkConfig [] (mkServer ":8080" 0 0 256 30 2048 ["10.0.0.1"] header "https://proxy.example")
    (mkRegistries ex_entry ex_entry ex_entry (mkEntry false None) (mkEntry false None) (mkEntry false None))
    (mkSCConfig 24 "enforce") "" (mkCVESettings true "" (mkCVEConfig "HIGH") 60) (mkImageScan false "" 0 "" 0 25)
    (mkMalware scanners 0) (mkCache "local" "/var/cache" 10 0 1440 1440) (mkPolicyConfig "default" ∅)
    (mkAuth "0123456789abcdef0123456789abcdef" 0 0) (mkHealth 0 0) (mkDatabase "/var/db" 0 0) (mkMetrics true ":9464" "/metrics").

Definition ex_scanners : list ScannerConfig :=
  [mkScanner "clamav" "" "unix:///run/clamd" 0 ""; mkScanner "icap" " av " "tcp:icap:1344" 30 "avscan"].

Definition ex_header : string := "X-Forwarded-For".

Definition ex_av_env : AVEnv :=
  mkAVEnv (fun _ => Err (ENew "no file")) (fun _ _ => None) (fun _ _ => None) (fun _ => ([], None)) (fun _ _ => Ok ∅) (fun s => s).

Lemma validated_config_starts_witness :
  let c := ex_config ex_header ex_scanners in
  Validate ex_url_Parts (registry_map (cfg_Registries c)) c = None ∧
  (∃ peers r, ParseTrustedPeers (TrustedProxies (cfg_Server c)) = Ok peers ∧
     NewClientIPResolver (TrustedProxies (cfg_Server c)) (ClientIPHeader (cfg_Server c)) = Ok r ∧ cr_trusted r = peers ∧
     is_Some (NewPublicBaseResolver ex_url_Parts (PublicURL (cfg_Server c)) peers)) ∧
  NoDup (DisplayName <$> Scanners (cfg_Malware c)) ∧
  is_Some (NewSigner (to_bytes (JWTSecret (cfg_Auth c)))).
Proof.
  intros c. assert (Validate ex_url_Parts (registry_map (cfg_Registries c)) c = None) as Hv by (vm_compute; reflexivity).
  destruct (validated_config_starts ex_url_Parts ex_av_env (registry_map (cfg_Registries c)) c) as (H1 & _ & H3 & H4);
    [reflexivity|exact Hv|apply (bool_decide_unpack _); vm_compute; exact I|].
  split; [exact Hv|]. split; [exact H1|]. split; [exact H3|]. apply H4. vm_compute. discriminate.
Defined.

(** A header written with U+0130 passes the check of the configuration, which
    lowers it, and is refused by the resolver, which folds it. *)
Example ex_dotted_header :
  let header := of_bytes (to_bytes "X-Real-" ++ [byte_of 196; byte_of 176] ++ to_bytes "P") in
  check_header header = None ∧ NewClientIPResolver [] header = Err (inl header).
Proof. split; vm_compute; reflexivity. Qed.

Example ex_duplicate :
  let c := ex_config "" (ex_scanners ++ [mkScanner "icap" "" "tcp:b" 0 "av"; mkScanner "clamav" "av" "tcp:c" 0 ""]) in
  Validate ex_url_Parts (registry_map (cfg_Registries c)) c = Some (ScannerDuplicate 3 "av" 1).
Proof. vm_compute. reflexivity. Qed.
