(* ===== verification/Wiring.v ===== *)
(** * Command jo-ei: how the parts are put together
    (routes.go, scanners.go, upstream.go, console.go, ready.go, state.go,
    serve.go)

    The registry handlers, scan engines, limits and routes a configuration
    gives, with the models of the parts as their values; the readiness probe as
    a state machine over its mutex.  The metrics wrappers pass every call on
    and are left out, as are listeners and process signals. *)
From S2P Require Import Prelude GoStd Gate Cache Supplychain Policy Upstream HTTP ClientIP Users Session Registries Settings.
From S2P Require Import Handler Docker Adapters NPM PyPI Health AV CVE Config ConfigSpec.
Local Open Scope Z_scope.

(** ** Scan engines (scanners.go) *)

Definition defaultOSVBaseURL : string := "https://api.osv.dev".
Definition defaultMaxConcurrentScans : Z := 8.

Record scanners := mkScanners {
  sb_cve : option OSVScanner;
  sb_av : list SocketScanner;    (* empty: not attached *)
  sb_avLimit : option nat;       (* places of the LimitedScanner *)
  sb_trivy : option TrivyScanner;
  sb_health : Monitor;
}.

Definition engineCount (sc : scanners) : Z := Z.of_nat (length (sb_av sc)).

Definition osv_base (c : CVESettings) : string := if BaseURL c =s? "" then defaultOSVBaseURL else BaseURL c.

Definition osv_ttl (c : CVESettings) : Z :=
  let ttl := dur_mul (CacheTTLMinutes c) Minute in if ttl =? 0 then 24 * Hour else ttl.

Fixpoint build_av (env : AVEnv) (l : list ScannerConfig) : result error (list SocketScanner) :=
  match l with
  | [] => Ok []
  | scfg :: l' =>
      match Config.New env scfg with
      | Err e => Err e
      | Ok s => match build_av env l' with Ok ss => Ok (s :: ss) | Err e => Err e end
      end
  end.

(** The engines added to the monitor, in order. *)
Definition monitor_adds (cfg : Config) (profile : ProfileConfig) (av : nat) : list (Monitor -> option Monitor) :=
  (if cve_Enabled (cfg_CVE cfg) then [AddPassive "osv.dev" (osv_base (cfg_CVE cfg)) true] else []) ++
  imap (fun i scfg => if MalwareBlock profile && (i <? av)%nat then AddActive (DisplayName scfg) (sc_Address scfg) true
                      else AddDisabled (DisplayName scfg) (sc_Address scfg)) (Scanners (cfg_Malware cfg)) ++
  (if is_Enabled (cfg_ImageScan cfg) then [AddActive "trivy" (TrivyServer (cfg_ImageScan cfg)) true] else []).

Definition slow_threshold (h : HealthConfig) : Z :=
  let slow := dur_mul (SlowThresholdMS h) Millisecond in if slow <=? 0 then 2000 * Millisecond else slow.

Definition scan_limit (m : MalwareConfig) : Z :=
  if MaxConcurrentScans m =? 0 then defaultMaxConcurrentScans else MaxConcurrentScans m.

(** [None] is a panic of the monitor. *)
Definition buildScanners (env : AVEnv) (cfg : Config) (profile : ProfileConfig) : option (result error scanners) :=
  let attach := MalwareBlock profile && negb (length (Scanners (cfg_Malware cfg)) =? 0)%nat in
  match (if attach then build_av env (Scanners (cfg_Malware cfg)) else Ok []) with
  | Err e => Some (Err e)
  | Ok av =>
      let im := cfg_ImageScan cfg in
      let m := NewMonitor (dur_mul (ProbeIntervalSeconds (cfg_Health cfg)) Second) (slow_threshold (cfg_Health cfg)) in
      m ← foldl (fun m add => m ≫= add) (Some m) (monitor_adds cfg profile (length av));
      Some (Ok (mkScanners
        (if cve_Enabled (cfg_CVE cfg) then Some (NewOSVScanner (osv_base (cfg_CVE cfg)) (osv_ttl (cfg_CVE cfg))) else None)
        av
        (if attach then NewLimitedScanner (scan_limit (cfg_Malware cfg)) else None)
        (if is_Enabled im then Some (NewTrivyScanner (TrivyServer im) (is_Scanners im) (dur_mul (is_TimeoutSeconds im) Second)) else None)
        (Start m)))
  end.

(** ** Registry handlers (routes.go) *)

(** What every registry handler is given. *)
Record sharedDeps := mkShared {
  sd_cveScanner : bool;
  sd_policy : bool;
  sd_avScanner : bool;
  cveRecheckTTL : Z;
  malwareRecheckTTL : Z;
  metadataFilterMaxMB : Z;
  maxArtifactBytes : Z;
}.

(** run's shared, once the scanners are built. *)
Definition shared_deps (cfg : Config) (sc : scanners) : sharedDeps :=
  mkShared (bool_decide (is_Some (sb_cve sc))) (cve_Enabled (cfg_CVE cfg)) (negb (length (sb_av sc) =? 0)%nat)
    (dur_mul (CVETTLMinutes (cfg_Cache cfg)) Minute) (dur_mul (MalwareTTLMinutes (cfg_Cache cfg)) Minute)
    (cfg_MetadataFilterMaxMB (cfg_Server cfg)) (dur_shl (MaxArtifactMB (cfg_Server cfg)) 20).

Definition minEnabledTTL (a b : Z) : Z :=
  if a <=? 0 then b else if b <=? 0 then a else if a <? b then a else b.

Definition buildHandler (adapter : RegistryAdapter) (s : sharedDeps) : HandlerConfig :=
  mkHandlerConfig adapter (sd_cveScanner s) (sd_policy s) (sd_avScanner s) true (cveRecheckTTL s) (malwareRecheckTTL s)
    (metadataFilterMaxMB s) 0 (maxArtifactBytes s).

Section Routes.
(** The adapters, with the standard library's parsers they go through. *)
Context (NewPyPI NewNPM NewMaven NewRubyGems NewGo : list string -> RegistryAdapter).

Definition enabled_handler (prefix : string) (rc : RegistryEntry) (adapter : list string -> RegistryAdapter) (s : sharedDeps)
    (m : gmap string HandlerConfig) : gmap string HandlerConfig :=
  if re_Enabled rc then <[prefix := buildHandler (adapter (default [] (re_Upstreams rc))) s]> m else m.

Definition buildHandlers (c : RegistriesConfig) (s : sharedDeps) : gmap string HandlerConfig :=
  enabled_handler "go" (Go c) NewGo s
    (enabled_handler "rubygems" (RubyGems c) NewRubyGems s
      (enabled_handler "maven" (Maven c) NewMaven s
        (enabled_handler "yarn" (NPM c) NewNPM s
          (enabled_handler "npm" (NPM c) NewNPM s
            (enabled_handler "pypi" (PyPI c) NewPyPI s ∅))))).
End Routes.

(** The package registries, and Docker under v2. *)
Record proxyRoutes := mkRoutes {
  pr_handlers : gmap string HandlerConfig;
  pr_raw : gmap string DockerConfig;
}.

Section ProxyRoutes.
Context (NewPyPI NewNPM NewMaven NewRubyGems NewGo : list string -> RegistryAdapter).

Definition docker_handler (cfg : Config) (s : sharedDeps) : DockerConfig :=
  NewDocker (default [] (re_Upstreams (Docker (cfg_Registries cfg)))) (sd_avScanner s) true (is_MaxLayerBytes (cfg_ImageScan cfg))
    (minEnabledTTL (cveRecheckTTL s) (malwareRecheckTTL s)) (dur_mul (ClientWaitSeconds (cfg_ImageScan cfg)) Second) true.

Definition buildProxyRoutes (cfg : Config) (s : sharedDeps) (sc : scanners) : option proxyRoutes :=
  let r := mkRoutes (buildHandlers NewPyPI NewNPM NewMaven NewRubyGems NewGo (cfg_Registries cfg) s)
             (if re_Enabled (Docker (cfg_Registries cfg)) && bool_decide (is_Some (sb_trivy sc))
              then {[ "v2" := docker_handler cfg s ]} else ∅) in
  if (size (pr_handlers r) =? 0)%nat && (size (pr_raw r) =? 0)%nat then None else Some r.
End ProxyRoutes.

Definition registryCount (r : proxyRoutes) : Z :=
  let n := Z.of_nat (size (pr_handlers r)) in
  let n := if decide (is_Some (pr_handlers r !! "yarn")) then n - 1 else n in
  if decide (is_Some (pr_raw r !! "v2")) then n + 1 else n.

(** The maps' keys, in the order they are ranged over. *)
Definition prefixes (range : list string -> list string) (r : proxyRoutes) : list string :=
  range (map_to_list (pr_handlers r)).*1 ++ range (map_to_list (pr_raw r)).*1.

Definition recommendedMetadataCapMB : Z := 256.

Definition metadataCapWarning (mb : Z) : string :=
  if mb =? 0 then "metadata_filter_max_mb is 0: npm metadata documents are buffered with no size cap"
  else if mb <? recommendedMetadataCapMB
  then "metadata_filter_max_mb is below the default 256: npm packuments larger than the cap fail with 502 metadata_rewrite_failed"
  else "".

(** ** Limits on what goes to the registries (upstream.go) *)

Definition upstreamRetryBaseDelay : Z := 1 * Second.
Definition upstreamRetryMaxDelay : Z := 20 * Second.

(** Concurrent requests, requests per second and burst, per host. *)
Definition upstream_limits (s : ServerConfig) : Z * Z * Z :=
  let maxConc := if UpstreamMaxConcurrent s <=? 0 then DefaultUpstreamMaxConcurrent else UpstreamMaxConcurrent s in
  let rate := if UpstreamRatePerSecond s <=? 0 then DefaultUpstreamRatePerSecond else UpstreamRatePerSecond s in
  (maxConc, rate, wrap64 (2 * rate)).

Definition defaultDrain : Z := 30 * Second.

Definition drain (s : ServerConfig) : Z :=
  let d := dur_mul (ShutdownTimeoutSeconds s) Second in if d <=? 0 then defaultDrain else d.

(** ** The temporary directory (state.go)

    The names read, and those removed until a removal fails. *)
Fixpoint prepareTempDir (remove : string -> option error) (entries : list string) : option error * list string :=
  match entries with
  | [] => (None, [])
  | e :: es =>
      if HasPrefix e "jo-ei-" then
        match remove e with
        | Some err => (Some err, [])
        | None => let '(err, gone) := prepareTempDir remove es in (err, e :: gone)
        end
      else prepareTempDir remove es
  end.

(** ** The root routes (console.go)

    ServeMux: the longest of the patterns, and a redirect to the pattern with a
    slash for the path without one.  Its redirect of an unclean path is not
    modelled. *)

Inductive RootTarget :=
| RootFavicon
| RootConsole
| RootReady
| RootAuth
| RootAPI
| RootRedirect (path : string)
| RootProxy.

Definition root_target (path : string) : RootTarget :=
  if path =s? "/favicon.ico" then RootFavicon
  else if HasPrefix path "/console/" then RootConsole
  else if path =s? "/ready" then RootReady
  else if HasPrefix path "/api/auth/" then RootAuth
  else if existsb (String.eqb path) ["/console"; "/api"; "/api/auth"] then RootRedirect (path +:+ "/")
  else if HasPrefix path "/api/" then RootAPI
  else RootProxy.

Definition consoleCSP : string :=
  "default-src 'self'; script-src 'self'; " +:+
  "style-src 'self' 'unsafe-inline' https://fonts.googleapis.com; font-src https://fonts.gstatic.com; " +:+
  "img-src 'self' data:; connect-src 'self'; object-src 'none'; base-uri 'self'; " +:+
  "form-action 'self'; frame-ancestors 'none'".

Definition securityHeaders : list (string * string) :=
  [("Content-Security-Policy", consoleCSP); ("X-Content-Type-Options", "nosniff"); ("X-Frame-Options", "DENY");
   ("Referrer-Policy", "no-referrer")].

(** The headers set before the target's handler runs. *)
Definition root_headers (t : RootTarget) : list (string * string) :=
  match t with RootFavicon | RootConsole | RootAuth | RootAPI => securityHeaders | _ => [] end.

(** ** The cache backend (cache/factory.go) *)

Definition DefaultStaleAfterDays : Z := 30.

Definition stale_days (c : CacheConfig) : Z := if cc_StaleAfterDays c <=? 0 then DefaultStaleAfterDays else cc_StaleAfterDays c.

(** The configuration of the local cache. *)
Definition cache_New (c : CacheConfig) : result error LocalCacheConfig :=
  if (cc_Backend c =s? "") || (cc_Backend c =s? "local") then
    Ok (mkCacheConfig (cc_Path c) (cc_MaxSizeGB c) (dur_mul (dur_mul (stale_days c) 24) Hour))
  else if cc_Backend c =s? "s3" then Err (ENew "s3 cache backend not yet implemented")
  else Err (ENew ("unknown cache backend " +:+ cc_Backend c)).

(** ** Readiness (ready.go) *)

Definition readinessCacheTTL : Z := 2 * Second.

(** The mutex is held for a whole request: requests are steps. *)
Record Readiness := mkReadiness {
  rd_at : Z;
  rd_code : Z;
  rd_failing : list string;   (* of the payload; none is ready *)
}.

Definition ready_start : Readiness := mkReadiness 0 0 [].

Definition ready_evaluate (db_ok : bool) (rows : list ScannerHealth) : Z * list string :=
  let failing := (if db_ok then [] else ["database"]) ++
    (sh_Name <$> filter (fun sh => sh_Enabled sh = true ∧ sh_Passive sh = false ∧ sh_Status sh = StatusDown) rows) in
  if (length failing =? 0)%nat then (StatusOK, []) else (StatusServiceUnavailable, failing).

(** A request: the clock when it holds the mutex, what an evaluation would
    find, and the clock after it. *)
Record ReadyRequest := mkReadyRequest {
  rr_now : Z;
  rr_db : bool;
  rr_rows : list ScannerHealth;
  rr_after : Z;
}.

Definition ready_request (s : Readiness) (q : ReadyRequest) : Readiness :=
  if readinessCacheTTL <=? time_sub (rr_now q) (rd_at s) then
    let '(code, failing) := ready_evaluate (rr_db q) (rr_rows q) in mkReadiness (rr_after q) code failing
  else s.

(** What it answers. *)
Definition ready_answer (s : Readiness) (q : ReadyRequest) : Z * list string :=
  let s := ready_request s q in (rd_code s, rd_failing s).

(** * What a configuration serves *)

Definition on (b : bool) : Z := if b then 1 else 0.

Definition package_prefixes : list string := ["pypi"; "npm"; "yarn"; "maven"; "rubygems"; "go"].

(** The registry a prefix leads to; npm speaks yarn too. *)
Definition the_entry (c : RegistriesConfig) (p : string) : RegistryEntry :=
  if p =s? "pypi" then PyPI c else if p =s? "maven" then Maven c else if p =s? "rubygems" then RubyGems c
  else if p =s? "go" then Go c else NPM c.

Definition enabled_prefix (c : RegistriesConfig) (p : string) : bool :=
  existsb (String.eqb p) package_prefixes && re_Enabled (the_entry c p).

Section Served.
Context (NewPyPI NewNPM NewMaven NewRubyGems NewGo : list string → RegistryAdapter).

Definition the_adapter (p : string) : list string → RegistryAdapter :=
  if p =s? "pypi" then NewPyPI else if p =s? "maven" then NewMaven else if p =s? "rubygems" then NewRubyGems
  else if p =s? "go" then NewGo else NewNPM.

Lemma enabled_handler_lookup prefix rc adapter s m p :
  enabled_handler prefix rc adapter s m !! p =
    if (prefix =s? p) && re_Enabled rc then Some (buildHandler (adapter (default [] (re_Upstreams rc))) s) else m !! p.
Proof.
  unfold enabled_handler. destruct (re_Enabled rc); [|by rewrite andb_false_r]. rewrite andb_true_r.
  destruct (String.eqb_spec prefix p) as [->|Hne]; [by rewrite lookup_insert_eq|by rewrite lookup_insert_ne].
Qed.

Lemma buildHandlers_lookup c s p :
  buildHandlers NewPyPI NewNPM NewMaven NewRubyGems NewGo c s !! p =
    if enabled_prefix c p then Some (buildHandler (the_adapter p (default [] (re_Upstreams (the_entry c p)))) s) else None.
Proof.
  unfold buildHandlers. rewrite !enabled_handler_lookup, lookup_empty. unfold enabled_prefix.
  destruct (existsb (String.eqb p) package_prefixes) eqn:Hin; cbn [andb].
  - apply existsb_name_elem in Hin. unfold package_prefixes in Hin. rewrite !elem_of_cons, elem_of_nil in Hin.
    unfold the_adapter, the_entry. destruct Hin as [->|[->|[->|[->|[->|[->|[]]]]]]]; reflexivity.
  - apply not_true_iff_false in Hin. rewrite existsb_name_elem in Hin. unfold package_prefixes in Hin.
    rewrite !not_elem_of_cons in Hin. destruct Hin as (H1 & H2 & H3 & H4 & H5 & H6 & _).
    by repeat (rewrite (proj2 (String.eqb_neq _ p)) by congruence; cbn [andb]).
Qed.

Lemma handlers_size c s :
  Z.of_nat (size (buildHandlers NewPyPI NewNPM NewMaven NewRubyGems NewGo c s)) =
    on (re_Enabled (PyPI c)) + 2 * on (re_Enabled (NPM c)) + on (re_Enabled (Maven c)) + on (re_Enabled (RubyGems c)) + on (re_Enabled (Go c)).
Proof.
  unfold buildHandlers, enabled_handler.
  destruct (re_Enabled (PyPI c)), (re_Enabled (NPM c)), (re_Enabled (Maven c)), (re_Enabled (RubyGems c)), (re_Enabled (Go c));
    vm_compute; reflexivity.
Qed.
End Served.

(** ** The engines *)

Definition entry_add (e : entry) : Monitor → option Monitor := add_entry (en_meta e) (en_kind e).

Lemma add_all es m :
  mo_started m = false → Forall (fun e => en_sample e = None) es →
  foldl (fun m add => m ≫= add) (Some m) (entry_add <$> es) =
    Some (mkMonitor (mo_interval m) (mo_slow m) (mo_entries m ++ es) false (mo_stopped m)).
Proof.
  intros Hm Hes. revert m Hm. induction Hes as [|e es He _ IH]; intros m Hm; cbn [foldl fmap list_fmap].
  { rewrite app_nil_r. destruct m. cbn in *. by subst. }
  cbn [mbind option_bind].
  assert (entry_add e m = Some (mkMonitor (mo_interval m) (mo_slow m) (mo_entries m ++ [e]) false (mo_stopped m))) as ->.
  { unfold entry_add, add_entry. rewrite Hm. destruct e. cbn in *. by subst. }
  rewrite IH by done. cbn [mo_interval mo_slow mo_entries mo_stopped]. by rewrite <- app_assoc.
Qed.

(** The rows the monitor shows: name, address, enabled, how it is watched. *)
Definition health_rows (cfg : Config) (attached : bool) : list (string * string * bool * entryKind) :=
  (if cve_Enabled (cfg_CVE cfg) then [("osv.dev", osv_base (cfg_CVE cfg), true, kindPassive)] else []) ++
  ((fun sc => (DisplayName sc, sc_Address sc, attached, if attached then kindActive else kindDisabled)) <$> Scanners (cfg_Malware cfg)) ++
  (if is_Enabled (cfg_ImageScan cfg) then [("trivy", TrivyServer (cfg_ImageScan cfg), true, kindActive)] else []).

Definition row_add (r : string * string * bool * entryKind) : Monitor → option Monitor :=
  let '(name, detail, enabled, kind) := r in
  match kind with
  | kindActive => AddActive name detail enabled
  | kindPassive => AddPassive name detail enabled
  | kindDisabled => AddDisabled name detail
  end.

Lemma monitor_adds_rows cfg profile av :
  (av = if MalwareBlock profile then length (Scanners (cfg_Malware cfg)) else 0)%nat →
  monitor_adds cfg profile av = row_add <$> health_rows cfg (MalwareBlock profile).
Proof.
  intros ->. unfold monitor_adds, health_rows. rewrite !fmap_app. f_equal; [by destruct (cve_Enabled _)|]. f_equal; [|by destruct (is_Enabled _)].
  apply list_eq. intros i. rewrite list_lookup_imap, !list_lookup_fmap.
  destruct (Scanners (cfg_Malware cfg) !! i) as [sc|] eqn:Hi; [|done]. cbn [fmap option_fmap option_map]. f_equal.
  destruct (MalwareBlock profile); [|done]. apply lookup_lt_Some in Hi. by rewrite (proj2 (Nat.ltb_lt _ _) Hi).
Qed.

Definition row_entry (r : string * string * bool * entryKind) : entry :=
  mkEntry (mkScannerHealth r.1.1.1 r.1.1.2 r.1.2 StatusUnknown 0 (bool_decide (r.2 = kindPassive))) r.2 None.

Lemma row_add_entry r : (r.2 = kindDisabled → r.1.2 = false) → row_add r = entry_add (row_entry r).
Proof. destruct r as [[[name detail] enabled] kind]. cbn. intros Hd. destruct kind; [done|done|]. by rewrite Hd. Qed.

(** A scanner a failed address refuses stops the start; otherwise each is built. *)
Lemma build_av_exact env l :
  match build_av env l with
  | Ok ss => Forall2 (fun sc s => Config.New env sc = Ok s) l ss
  | Err e => ∃ sc, sc ∈ l ∧ Config.New env sc = Err e
  end.
Proof.
  induction l as [|sc l IH]; cbn [build_av]; [constructor|]. destruct (Config.New env sc) as [s|e] eqn:Hn.
  - destruct (build_av env l) as [ss|e]; [by constructor|]. destruct IH as (sc' & ? & ?). exists sc'. split; [by right|done].
  - exists sc. split; [by left|done].
Qed.


(** The slots of the scans: present exactly when engines are attached. *)
Lemma buildScanners_run env cfg profile :
  match buildScanners env cfg profile with
  | None => False
  | Some (Err e) => MalwareBlock profile = true ∧ ∃ sc, sc ∈ Scanners (cfg_Malware cfg) ∧ Config.New env sc = Err e
  | Some (Ok sc) =>
      bool_decide (is_Some (sb_cve sc)) = cve_Enabled (cfg_CVE cfg) ∧ bool_decide (is_Some (sb_trivy sc)) = is_Enabled (cfg_ImageScan cfg) ∧
      Forall2 (fun c s => Config.New env c = Ok s) (if MalwareBlock profile then Scanners (cfg_Malware cfg) else []) (sb_av sc) ∧
      mo_started (sb_health sc) = true ∧
      mo_entries (sb_health sc) = row_entry <$> health_rows cfg (MalwareBlock profile)
  end.
Proof.
  unfold buildScanners. set (l := Scanners (cfg_Malware cfg)).
  assert (∃ r, (if MalwareBlock profile && negb (length l =? 0)%nat then build_av env l else Ok []) = r ∧
    match r with
    | Ok ss => Forall2 (fun c s => Config.New env c = Ok s) (if MalwareBlock profile then l else []) ss
    | Err e => MalwareBlock profile = true ∧ ∃ sc, sc ∈ l ∧ Config.New env sc = Err e
    end) as (r & -> & Hr).
  { eexists. split; [done|]. destruct (MalwareBlock profile); [|constructor]. cbn [andb].
    destruct (length l =? 0)%nat eqn:Hl; cbn [negb].
    - apply Nat.eqb_eq, nil_length_inv in Hl. rewrite Hl. constructor.
    - pose proof (build_av_exact env l) as H. by destruct (build_av env l). }
  destruct r as [ss|e]; [|done].
  assert (length ss = if MalwareBlock profile then length l else 0%nat) as Hlen by (apply Forall2_length in Hr; by destruct (MalwareBlock profile)).
  rewrite (monitor_adds_rows cfg profile _ Hlen).
  set (m0 := NewMonitor _ _). set (rows := health_rows cfg (MalwareBlock profile)).
  assert (Forall (fun r : string * string * bool * entryKind => r.2 = kindDisabled → r.1.2 = false) rows) as Hrows.
  { unfold rows, health_rows. rewrite !Forall_app. split_and!; [destruct (cve_Enabled _)| |destruct (is_Enabled _)]; try by repeat constructor.
    apply Forall_fmap, Forall_forall. intros sc _. cbn. by destruct (MalwareBlock profile). }
  rewrite Forall_forall in Hrows.
  assert (row_add <$> rows = entry_add <$> (row_entry <$> rows)) as ->.
  { rewrite <- list_fmap_compose. apply list_fmap_ext. intros i r Hi. apply row_add_entry, Hrows. by apply list_elem_of_lookup_2 in Hi. }
  rewrite (add_all (row_entry <$> rows) m0) by (done || (apply Forall_fmap, Forall_true; intros; done)).
  cbn [mbind option_bind sb_cve sb_trivy sb_av sb_health].
  split; [by destruct (cve_Enabled _)|]. split; [by destruct (is_Enabled _)|]. split; [exact Hr|]. split; reflexivity.
Qed.

Section RoutesOf.
Context (NewPyPI NewNPM NewMaven NewRubyGems NewGo : list string → RegistryAdapter).

Lemma registryCount_exact c (h : gmap string HandlerConfig) (raw : gmap string DockerConfig) (d : bool) s :
  h = buildHandlers NewPyPI NewNPM NewMaven NewRubyGems NewGo c s → (is_Some (raw !! "v2") ↔ d = true) →
  registryCount (mkRoutes h raw) =
    Z.of_nat (length (filter (fun p => enabled_prefix c p = true) ["pypi"; "npm"; "maven"; "rubygems"; "go"])) + on d.
Proof.
  intros -> Hd. unfold registryCount. cbn [pr_handlers pr_raw]. rewrite handlers_size, buildHandlers_lookup.
  change (enabled_prefix c "yarn") with (re_Enabled (NPM c)).
  assert (∀ A, (if decide (is_Some (raw !! "v2")) then A + 1 else A) = A + on d) as Hraw.
  { intros A. destruct (decide _) as [H|H]; [apply Hd in H as ->; done|]. destruct d; [by destruct H; apply Hd|cbn; lia]. }
  rewrite Hraw. f_equal. rewrite !filter_cons, filter_nil. unfold enabled_prefix. cbn [existsb package_prefixes String.eqb Ascii.eqb Bool.eqb orb andb the_entry].
  destruct (re_Enabled (PyPI c)), (re_Enabled (NPM c)), (re_Enabled (Maven c)), (re_Enabled (RubyGems c)), (re_Enabled (Go c)); vm_compute; reflexivity.
Qed.
End RoutesOf.

Lemma health_rows_distinct cfg attached :
  Forall scanner_valid (Scanners (cfg_Malware cfg)) → NoDup (DisplayName <$> Scanners (cfg_Malware cfg)) →
  NoDup ((fun r => r.1.1.1) <$> health_rows cfg attached).
Proof.
  intros Hv Hn. unfold health_rows. rewrite !fmap_app, <- list_fmap_compose.
  change ((fun r : string * string * bool * entryKind => r.1.1.1) ∘ (fun sc => _)) with DisplayName.
  assert (∀ name, name ∈ DisplayName <$> Scanners (cfg_Malware cfg) → name ≠ "osv.dev" ∧ name ≠ "trivy") as Hres.
  { intros name (sc & -> & Hin)%list_elem_of_fmap. rewrite Forall_forall in Hv. destruct (Hv sc Hin) as (_ & _ & _ & Hr).
    split; intros Heq; apply Hr; rewrite Heq; vm_compute; set_solver. }
  apply NoDup_app. split_and!.
  - destruct (cve_Enabled _); cbn; [apply NoDup_singleton|constructor].
  - intros x Hx. rewrite elem_of_app. intros [Hin|Hin].
    + destruct (cve_Enabled _); [|by apply elem_of_nil in Hx]. apply list_elem_of_singleton in Hx. by destruct (Hres x Hin).
    + destruct (cve_Enabled _), (is_Enabled _); try by apply elem_of_nil in Hx || apply elem_of_nil in Hin.
      apply list_elem_of_singleton in Hx, Hin. cbn in *. congruence.
  - apply NoDup_app. split_and!; [exact Hn| |destruct (is_Enabled _); cbn; [apply NoDup_singleton|constructor]].
    intros x Hin Hx. destruct (is_Enabled _); [|by apply elem_of_nil in Hx]. apply list_elem_of_singleton in Hx. by destruct (Hres x Hin).
Qed.

Section Startup.
Context {Addr Prefix : Type} {NI : NetIP Addr Prefix} (url_Parts : string → option URLParts).
Context (NewPyPI NewNPM NewMaven NewRubyGems NewGo : list string → RegistryAdapter).

Definition attached (cfg : Config) (profile : ProfileConfig) : bool :=
  MalwareBlock profile && negb (length (Scanners (cfg_Malware cfg)) =? 0)%nat.

(** The handler a package registry gets. *)
Definition handler_of (cfg : Config) (profile : ProfileConfig) (p : string) : HandlerConfig :=
  mkHandlerConfig (the_adapter NewPyPI NewNPM NewMaven NewRubyGems NewGo p (default [] (re_Upstreams (the_entry (cfg_Registries cfg) p))))
    (cve_Enabled (cfg_CVE cfg)) (cve_Enabled (cfg_CVE cfg)) (attached cfg profile) true
    (dur_mul (CVETTLMinutes (cfg_Cache cfg)) Minute) (dur_mul (MalwareTTLMinutes (cfg_Cache cfg)) Minute)
    (cfg_MetadataFilterMaxMB (cfg_Server cfg)) 0 (dur_shl (MaxArtifactMB (cfg_Server cfg)) 20).

(** The engine an entry of malware.scanners gets. *)
Definition engine_of (env : AVEnv) (c : ScannerConfig) (s : SocketScanner) : Prop :=
  sk_name s = DisplayName c ∧ sk_service s = (if sc_Type c =? "icap" then sc_Service c else "")%string ∧
  0 < sk_timeout s ∧ parseScannerAddress env (sc_Address c) = Ok (sk_network s, sk_addr s).

Definition docker_served (cfg : Config) : bool := re_Enabled (Docker (cfg_Registries cfg)) && is_Enabled (cfg_ImageScan cfg).

(** The handler Docker gets: its upstreams without a slash at the end, the AV engines when they are attached, the policy
    always, and the shorter of the two re-check times that are set. *)
Definition docker_of (cfg : Config) (profile : ProfileConfig) : DockerConfig :=
  let cve := dur_mul (CVETTLMinutes (cfg_Cache cfg)) Minute in
  let malware := dur_mul (MalwareTTLMinutes (cfg_Cache cfg)) Minute in
  {| d_upstreams := (fun u => TrimRight u ["/"%char]) <$> default [] (re_Upstreams (Docker (cfg_Registries cfg)));
     d_AV := attached cfg profile;
     d_Policy := true;
     d_maxLayerBytes := is_MaxLayerBytes (cfg_ImageScan cfg);
     d_recheckTTL := if decide (0 < cve ∧ 0 < malware) then Z.min cve malware else if decide (0 < cve) then cve else malware;
     d_ClientWait := dur_mul (ClientWaitSeconds (cfg_ImageScan cfg)) Second;
     d_Tags := true;
     d_Attest := true;
     d_Recorder := true |}.

Lemma docker_handler_of cfg profile s :
  sd_avScanner s = attached cfg profile →
  cveRecheckTTL s = dur_mul (CVETTLMinutes (cfg_Cache cfg)) Minute →
  malwareRecheckTTL s = dur_mul (MalwareTTLMinutes (cfg_Cache cfg)) Minute →
  docker_handler cfg s = docker_of cfg profile.
Proof.
  intros Ha Hc Hm. unfold docker_handler, docker_of, NewDocker. rewrite Ha, Hc, Hm. cbv zeta. f_equal.
  unfold minEnabledTTL. repeat (case_decide || case_match); bool_to_prop; lia.
Qed.

Lemma routes_exact cfg profile sc :
  bool_decide (is_Some (sb_trivy sc)) = is_Enabled (cfg_ImageScan cfg) →
  match buildProxyRoutes NewPyPI NewNPM NewMaven NewRubyGems NewGo cfg
    (mkShared (cve_Enabled (cfg_CVE cfg)) (cve_Enabled (cfg_CVE cfg)) (attached cfg profile)
      (dur_mul (CVETTLMinutes (cfg_Cache cfg)) Minute) (dur_mul (MalwareTTLMinutes (cfg_Cache cfg)) Minute)
      (cfg_MetadataFilterMaxMB (cfg_Server cfg)) (dur_shl (MaxArtifactMB (cfg_Server cfg)) 20)) sc with
  | None => (∀ p, enabled_prefix (cfg_Registries cfg) p = false) ∧ docker_served cfg = false
  | Some r =>
      (∀ p h, pr_handlers r !! p = Some h ↔ enabled_prefix (cfg_Registries cfg) p = true ∧ h = handler_of cfg profile p) ∧
      (∀ p d, pr_raw r !! p = Some d ↔ p = "v2" ∧ docker_served cfg = true ∧ d = docker_of cfg profile) ∧
      registryCount r = Z.of_nat (length (filter (fun p => enabled_prefix (cfg_Registries cfg) p = true) ["pypi"; "npm"; "maven"; "rubygems"; "go"]))
        + on (docker_served cfg)
  end.
Proof.
  intros Ht. unfold buildProxyRoutes. rewrite Ht. fold (docker_served cfg). set (s := mkShared _ _ _ _ _ _ _).
  set (h := buildHandlers _ _ _ _ _ _ _).
  set (raw := (if docker_served cfg then _ else _) : gmap string DockerConfig).
  assert (∀ p, h !! p = if enabled_prefix (cfg_Registries cfg) p then Some (handler_of cfg profile p) else None) as Hh
    by (intros p; unfold h; by rewrite buildHandlers_lookup).
  assert (∀ p d, raw !! p = Some d ↔ p = "v2" ∧ docker_served cfg = true ∧ d = docker_of cfg profile) as Hraw.
  { intros p d. unfold raw. rewrite (docker_handler_of cfg profile) by done.
    destruct (docker_served cfg); [rewrite lookup_singleton_Some|rewrite lookup_empty]; naive_solver. }
  cbn [pr_handlers pr_raw]. destruct ((size h =? 0)%nat && (size raw =? 0)%nat) eqn:Hsize.
  - apply andb_true_iff in Hsize as [Hsh%Nat.eqb_eq%map_size_empty_inv Hsr%Nat.eqb_eq%map_size_empty_inv]. split.
    + intros p. specialize (Hh p). rewrite Hsh, lookup_empty in Hh. by destruct (enabled_prefix _ p).
    + destruct (docker_served cfg); [|done]. exfalso. specialize (Hraw "v2" (docker_of cfg profile)).
      rewrite Hsr, lookup_empty in Hraw. naive_solver.
  - assert (is_Some (raw !! "v2") ↔ docker_served cfg = true) as Hv2.
    { split; [by intros [d [_ [? _]]%Hraw]|]. intros Hd. exists (docker_of cfg profile). by apply Hraw. }
    split_and!; [|exact Hraw|by apply (registryCount_exact NewPyPI NewNPM NewMaven NewRubyGems NewGo _ _ _ _ s)].
    intros p h'. cbn [pr_handlers]. rewrite Hh. destruct (enabled_prefix _ p); split; try done.
    + by intros [= <-].
    + by intros [_ ->].
    + by intros [? _].
Qed.

End Startup.

(** ** Readiness *)

Lemma ready_evaluate_ok db_ok rows :
  (ready_evaluate db_ok rows).1 = StatusOK ↔
  db_ok = true ∧ ∀ sh, sh ∈ rows → sh_Enabled sh = true → sh_Passive sh = false → sh_Status sh ≠ StatusDown.
Proof.
  unfold ready_evaluate. set (down := filter _ rows).
  assert (length ((if db_ok then [] else ["database"]) ++ (sh_Name <$> down)) = 0%nat ↔ db_ok = true ∧ down = []) as Hl.
  { rewrite length_app, length_fmap. destruct db_ok; cbn; [|split; [lia|by intros [? _]]].
    split; [intros H%nil_length_inv; done|by intros [_ ->]]. }
  assert (down = [] ↔ ∀ sh, sh ∈ rows → sh_Enabled sh = true → sh_Passive sh = false → sh_Status sh ≠ StatusDown) as Hd.
  { split.
    - intros Hn sh Hin He Hp Hst. assert (sh ∈ down) as H by (by apply list_elem_of_filter). rewrite Hn in H. by apply elem_of_nil in H.
    - intros H. destruct down as [|sh l] eqn:E; [done|]. assert (sh ∈ down) as Hin by (rewrite E; left).
      apply list_elem_of_filter in Hin as [(He & Hp & Hst) Hin]. by destruct (H sh Hin He Hp). }
  rewrite <- Hd, <- Hl. destruct (Nat.eqb_spec (length ((if db_ok then [] else ["database"]) ++ (sh_Name <$> down))) 0); done.
Qed.

(** Whatever was asked before, an answer of /ready is the evaluation of this
    request, or of one answered less than two seconds ago; it is 200 exactly
    when the database answered it and no enabled engine that is probed was
    down. *)
Theorem ready_recent qs q :
  readinessCacheTTL ≤ rr_now q →
  ∃ q', (q' = q ∨ q' ∈ qs ∧ rr_now q - rr_after q' < readinessCacheTTL) ∧
    ready_answer (foldl ready_request ready_start qs) q = ready_evaluate (rr_db q') (rr_rows q') ∧
    ((ready_answer (foldl ready_request ready_start qs) q).1 = StatusOK ↔
      rr_db q' = true ∧ ∀ sh, sh ∈ rr_rows q' → sh_Enabled sh = true → sh_Passive sh = false → sh_Status sh ≠ StatusDown).
Proof.
  intros Hnow.
  set (holds := fun s => s = ready_start ∨ ∃ q', q' ∈ qs ∧
    s = mkReadiness (rr_after q') (ready_evaluate (rr_db q') (rr_rows q')).1 (ready_evaluate (rr_db q') (rr_rows q')).2).
  assert (∀ l s, (∀ q', q' ∈ l → q' ∈ qs) → holds s → holds (foldl ready_request s l)) as Hrun.
  { induction l as [|q' l IH]; intros s Hl Hs; [done|]. cbn [foldl]. apply IH; [intros; apply Hl; by right|].
    unfold ready_request. destruct (_ <=? _); [|done]. right. exists q'. split; [apply Hl; by left|].
    by destruct (ready_evaluate (rr_db q') (rr_rows q')). }
  assert (holds (foldl ready_request ready_start qs)) as Hs by (apply Hrun; [done|by left]).
  clear Hrun. revert Hs. generalize (foldl ready_request ready_start qs). intros s Hs.
  assert (∃ q', (q' = q ∨ q' ∈ qs ∧ rr_now q - rr_after q' < readinessCacheTTL) ∧
    ready_answer s q = ready_evaluate (rr_db q') (rr_rows q')) as (q' & H1 & H2).
  { unfold ready_answer, ready_request, time_sub, readinessCacheTTL, min_int64, max_int64, Second in *.
    destruct (Z.leb_spec (2 * 1000000000) (Z.max (- 2 ^ 63) (Z.min (2 ^ 63 - 1) (rr_now q - rd_at s)))) as [Hle|Hlt].
    - exists q. split; [by left|]. by destruct (ready_evaluate _ _).
    - destruct Hs as [->|(q' & Hin & ->)]; cbn [rd_at ready_start] in *; [lia|]. exists q'. split; [right; split; [done|lia]|].
      cbn. by destruct (ready_evaluate _ _). }
  exists q'. split; [done|]. split; [done|]. rewrite H2. apply ready_evaluate_ok.
Qed.

(** ** Witnesses *)

Definition ex_row (s : Status) : ScannerHealth := mkScannerHealth "clamav" "unix:///run/clamd" true s 0 false.

(** The engine goes down between two probes a second apart: the second is still
    answered by the first one's evaluation. *)
Lemma ready_recent_witness :
  let q1 := mkReadyRequest (10 * Second) true [ex_row StatusHealthOK] (10 * Second + 5) in
  let q2 := mkReadyRequest (11 * Second) true [ex_row StatusDown] (11 * Second) in
  (ready_answer (foldl ready_request ready_start [q1]) q2).1 = StatusOK ∧
  ∃ q', (q' = q2 ∨ q' ∈ [q1] ∧ rr_now q2 - rr_after q' < readinessCacheTTL) ∧
    ready_answer (foldl ready_request ready_start [q1]) q2 = ready_evaluate (rr_db q') (rr_rows q').
Proof.
  intros q1 q2. split; [vm_compute; reflexivity|].
  destruct (ready_recent [q1] q2) as (q' & H1 & H2 & _); [vm_compute; discriminate|]. by exists q'.
Defined.

Definition ex_adapter_of (us : list string) : RegistryAdapter :=
  MavenAdapter (mkAdapterStd rq_Path (fun _ => None) (fun _ => "") (fun _ _ => Err (ENew "time")) (fun _ => None) (fun _ => None) (fun s => s)) us.

Definition ex_profile : ProfileConfig := mkProfileConfig (mkProfile true "" [] []) true true.

#[local] Instance quads : NetIP (list Z) (list Z) := {
  ParseAddr := parse_quad; Addr_of_port s := parse_quad s; Unmap a := a; Addr_String a := join_dots a;
  ParsePrefix s := parse_quad (Cut s "/"%char).1.1; Masked p := p; host_prefix a := a; Prefix_Contains p a := bool_decide (p = a);
}.

