(* ===== verification/ConsoleLive.v ===== *)
(** * Package console: the overview, the cache cleanup and the event stream
    (server.go)

    The stream is a run over what its loop's select finds ready: a tick of the
    heartbeat with the outcome of the session's recheck, an event from the
    subscription or its end, the request's context done; and whether each write
    got through.  Deadlines on the connection are not modelled. *)
From S2P Require Import Prelude GoStd Float64 Gate Health Cache Upstream HTTP Users Login Token Session SessionSpec.
From S2P Require Import Telemetry Console ConsoleEvents.
Local Open Scope Z_scope.

(** ** The overview *)

Definition status_string (s : Health.Status) : string :=
  match s with
  | StatusHealthOK => "ok" | StatusWarn => "warn" | StatusDown => "down" | StatusUnknown => "unknown" | StatusOff => "off"
  end.

Definition scanner_json (sh : ScannerHealth) : list (string * JSON) :=
  [("name", JString (sh_Name sh)); ("detail", JString (sh_Detail sh)); ("enabled", JBool (sh_Enabled sh));
   ("status", JString (status_string (sh_Status sh))); ("latency_ms", JInt (sh_LatencyMS sh))].

Definition hitRate (hits reqs : Z) : float64 := if 0 <? reqs then f_div (f_of_Z hits) (f_of_Z reqs) else f_of_Z 0.

Definition no_stats : CacheStats := mkStats 0 0 0 0.

Section Overview.
Context `{TJ : TelemetryJSON}.
Context (gates_json : Gates -> JSON) (env : AuthEnv).
(** The start of the store; the configuration; what the cache, if there is one,
    and the monitor answer. *)
Context (started : Z) (CacheMaxBytes CacheStaleAfterDays : Z).
Context (cache_stats : option (result unit CacheStats)) (scanners : list ScannerHealth).

Local Notation M := (St (AuthWorld Repo)).

Definition overview_json (now : Z) (snap : Snapshot) : list (string * JSON) :=
  let cs := match cache_stats with Some (Ok got) => got | _ => no_stats end in
  let t := sn_tallies snap in
  let rate := JFloat (f_bits (hitRate (cacheHits t) (Telemetry.requests t))) in
  [("started_at", JTime (StartedAt snap)); ("uptime_seconds", JInt (f_to_int64 (f_seconds (time_sub now (StartedAt snap)))));
   ("kpis", JObject
      [("requests_total", JInt (Telemetry.requests t)); ("cache_hits", JInt (cacheHits t)); ("hit_rate", rate);
       ("blocked_total", JInt (blocked t)); ("errors", JInt (errors t)); ("supply_blocked", JInt (supplyBlocked t));
       ("cve_blocked", JInt (cveBlocked t)); ("malware_blocked", JInt (malwareBlocked t)); ("denylisted", JInt (denylisted t))]);
   ("gates", gates_json (sn_gates snap));
   ("cache", JObject
      [("objects", JInt (st_Entries cs)); ("size_bytes", JInt (st_SizeBytes cs)); ("max_bytes", JInt CacheMaxBytes);
       ("hit_rate", rate); ("evictions", JInt (st_Evictions cs)); ("stale_bytes", JInt (st_StaleBytes cs));
       ("stale_after_days", JInt CacheStaleAfterDays)]);
   ("scanners", JArray (scanner_json <$> scanners))].

Definition overview : M unit :=
  snap <- on_store (Store_Snapshot started);;
  now <- anow env;;
  json_response StatusOK (overview_json now snap).
End Overview.

(** ** The cleanup *)

Section Cleanup.
(** The purge of the cache, if its backend has one; whether the request's
    context is done when it returns. *)
Context (purge : option (St LocalCache (option (Z * Z * purge_end)))) (gone : bool).

(** A purge that runs out of its fuel would not answer: PurgeStale_terminates
    rules it out. *)
Definition cacheCleanup : St (AuthWorld LocalCache) unit :=
  match purge with
  | None => json_error StatusNotFound "no_cache"
  | Some purge =>
      r <- on_store purge;;
      match r with
      | None => ret_st tt
      | Some (removed, freed, PurgeDone) => json_response StatusOK [("removed", JInt removed); ("freed_bytes", JInt freed)]
      | Some (_, _, PurgeCancelled) => ret_st tt
      | Some _ => if gone then ret_st tt else json_error StatusInternalServerError "purge_failed"
      end
  end.
End Cleanup.

(** ** The event stream *)

Inductive Selected :=
| SelDone
| SelTick (recheck write_ok : bool)
| SelEvent (ev : Event) (write_ok : bool)
| SelClosed.

Definition lf : bytes := [byte_of 10].

Definition comment_frame (text : string) : bytes := to_bytes (": " +:+ text) ++ lf ++ lf.
Definition data_frame (data : bytes) : bytes := to_bytes "data: " ++ data ++ lf ++ lf.

Section Stream.
(** json.Marshal of an event in the console's form, [None] its error. *)
Context (event_json : list (string * JSON) -> option bytes).

(** The loop: the frames written, until it returns. *)
Fixpoint stream_loop (l : list Selected) : list bytes :=
  match l with
  | [] | SelDone :: _ | SelClosed :: _ => []
  | SelTick recheck ok :: l' =>
      if negb recheck then []
      else if ok then comment_frame "ping" :: stream_loop l' else []
  | SelEvent ev ok :: l' =>
      match event_json (toEventJSON ev) with
      | None => stream_loop l'
      | Some data => if ok then data_frame data :: stream_loop l' else []
      end
  end.

(** The status and what is written; [flusher] is whether the connection can be
    flushed, [connected] whether the first line got through. *)
Definition events (flusher connected : bool) (l : list Selected) : Z * list bytes :=
  if negb flusher then (StatusInternalServerError, [to_bytes "streaming unsupported" ++ lf])
  else (StatusOK, if connected then comment_frame "connected" :: stream_loop l else []).

(** ** What the browser reads *)

(** A line and what follows it. *)
Fixpoint read_line (l : bytes) : option (bytes * bytes) :=
  match l with
  | [] => None
  | c :: l' => if Ascii.eqb c (byte_of 10) then Some ([], l') else (fun p => (c :: p.1, p.2)) <$> read_line l'
  end.

(** An event source: comments are skipped, a data line is an event once the
    empty line after it is there; the length is fuel enough. *)
Fixpoint event_source (fuel : nat) (l : bytes) : list bytes :=
  match fuel with
  | O => []
  | S fuel' =>
      match read_line l with
      | None => []
      | Some (line, rest) =>
          match strip_prefix (to_bytes "data: ") line, read_line rest with
          | Some data, Some ([], rest') => data :: event_source fuel' rest'
          | _, _ => event_source fuel' rest
          end
      end
  end.

(** The events received before the stream ends. *)
Fixpoint delivered (l : list Selected) : list bytes :=
  match l with
  | [] | SelDone :: _ | SelClosed :: _ | SelTick false _ :: _ | SelTick true false :: _ => []
  | SelTick true true :: l' => delivered l'
  | SelEvent ev ok :: l' =>
      match event_json (toEventJSON ev) with
      | None => delivered l'
      | Some data => if ok then data :: delivered l' else []
      end
  end.

Definition one_line (l : bytes) : Prop := byte_of 10 ∉ l.

Lemma read_line_app a b : one_line a → read_line (a ++ lf ++ b) = Some (a, b).
Proof.
  unfold one_line. induction a as [|c a IH]; intros Ha; [done|]. cbn [app read_line]. rewrite not_elem_of_cons in Ha. destruct Ha as [Hc Ha].
  rewrite (proj2 (Ascii.eqb_neq _ _)) by congruence. by rewrite IH.
Qed.

Lemma event_source_comment fuel text rest :
  one_line (to_bytes (": " +:+ text)) → event_source (S (S fuel)) (comment_frame text ++ rest) = event_source fuel rest.
Proof.
  intros H. unfold comment_frame. rewrite <- !app_assoc. cbn [event_source]. rewrite read_line_app by done. done.
Qed.

Lemma event_source_data fuel data rest :
  one_line data → event_source (S fuel) (data_frame data ++ rest) = data :: event_source fuel rest.
Proof.
  intros H. unfold data_frame. rewrite <- !app_assoc. cbn [event_source]. rewrite (app_assoc (to_bytes "data: ")), read_line_app.
  - assert (strip_prefix (to_bytes "data: ") (to_bytes "data: " ++ data) = Some data) as -> by by apply strip_prefix_Some.
    done.
  - unfold one_line in *. rewrite elem_of_app. intros [Hd|Hd]; [|done]. revert Hd. apply (bool_decide_unpack _). vm_compute. exact I.
Qed.

(** Two units of fuel a frame are enough. *)
Lemma event_source_loop l fuel :
  (∀ ev data, event_json (toEventJSON ev) = Some data → one_line data) → (2 * length l <= fuel)%nat →
  event_source fuel (concat (stream_loop l)) = delivered l.
Proof.
  intros Hj. revert fuel. induction l as [|s l IH]; intros fuel Hf; [by destruct fuel|]. cbn [length] in Hf.
  destruct fuel as [|[|fuel]]; [lia|lia|]. destruct s as [|[] []|ev ok|]; cbn [stream_loop delivered negb concat]; try done.
  - rewrite event_source_comment; [apply IH; lia|]. apply (bool_decide_unpack _). vm_compute. exact I.
  - destruct (event_json (toEventJSON ev)) as [data|] eqn:E; [|apply IH; lia]. destruct ok; [|done]. cbn [concat].
    rewrite event_source_data by by apply (Hj ev). f_equal. apply IH. lia.
Qed.

(** A browser that reads what the handler wrote gets exactly the events the
    stream received before its end, whole and in order; and once a recheck fails
    nothing that is ready later is written. *)
Theorem stream_read l :
  (∀ ev data, event_json (toEventJSON ev) = Some data → one_line data) →
  event_source (2 + 2 * length l) (concat (events true true l).2) = delivered l ∧
  ∀ l1 ok l2, l = l1 ++ SelTick false ok :: l2 → (events true true l).2 = (events true true l1).2.
Proof.
  intros Hj. split.
  - unfold events. cbn [negb snd concat]. change (2 + 2 * length l)%nat with (S (S (2 * length l))).
    rewrite event_source_comment; [apply event_source_loop; [done|lia]|]. apply (bool_decide_unpack _). vm_compute. exact I.
  - intros l1 ok l2 ->. unfold events. cbn [negb snd]. f_equal. induction l1 as [|s l1 IH]; [done|]. cbn [app stream_loop].
    destruct s as [|[] []|ev []|]; cbn; rewrite ?IH; try done; by destruct (event_json (toEventJSON ev)).
Qed.
End Stream.
